(** * Vampire: splitting, answer literals and auxiliary data structures

  A shallow embedding of the parts of the prover that the specification
  talks about: literal headers ([Kernel/Term.hpp]), the statistics record
  ([Shell/Statistics.hpp]), SAT clause sharing ([SAT/ClauseSharing.cpp]),
  the BDD splitter ([Saturation/Splitter.cpp]) and the answer literal
  manager with the conjunctive goal extractor ([Shell/AnswerExtractor.cpp]);
  and of what these rest on or stand beside: the tagged words and the
  bit fields of terms ([Kernel/Term.hpp]), the traversal of a derivation
  ([AnswerExtractor::getNeededUnits]), the union-find of the interpolant
  extraction ([Shell/InterpolantsNew.cpp]), the variable names of the
  formula builder ([Api/Helper.cpp]), three-valued booleans
  ([Lib/MaybeBool.hpp]) and the interpreted symbols ([Kernel/Theory.hpp]).

  Conventions.  A C++ [unsigned] is a 32-bit integer, modelled as a [Z]
  with the wrap-around written out ([SPECIAL_FUNCTOR_LOWER_BOUND] is
  [0xFFFFFFFD] in the source, so the code itself relies on that width).
  Heap objects referred to through pointers live in a store that is a
  list; a pointer is an index into it and [new] appends.  The debugging
  assertions ([ASS], [ASS_EQ], [ASS_NEQ] and the check of [ALWAYS]) are
  compiled out of a release build and are not part of the model; what a
  release build would do with a dangling pointer, a null propositional
  part or an index out of range is a failure of the computation. *)

From stdpp Require Import base numbers option list strings pretty gmap.

Set Warnings "-register-all".
#[local] Open Scope Z_scope.

(** ** Machine integers *)

Module Unsigned.

Definition bits : Z := 32.
Definition modulus : Z := 2 ^ bits.

(** Reduction of a mathematical integer to its [unsigned] representative. *)
Definition wrap (z : Z) : Z := z mod modulus.

Definition add (a b : Z) : Z := wrap (a + b).
Definition sub (a b : Z) : Z := wrap (a - b).
Definition mul (a b : Z) : Z := wrap (a * b).

Definition in_range (z : Z) : Prop := 0 <= z < modulus.

End Unsigned.

(** ** Terms and literals ([Kernel/Term.hpp]) *)

Module Kernel.

(** [TermList]: an ordinary variable, a special variable, or a reference
    to a compound term with a function symbol and its arguments. *)
Inductive TermList : Type :=
| OrdVar (v : Z)
| SpecVar (v : Z)
| Ref (functor : Z) (args : list TermList).

(** [class Literal : public Term].  [_functor] is the predicate number,
    the polarity bit lives in [_args[0]._info.polarity] and the arity is
    the number of arguments. *)
Record Literal : Type := mkLiteral {
  functor : Z;
  polarity_bit : bool;
  args : list TermList
}.

Definition arity (l : Literal) : nat := length (args l).

(** [Literal::polarity]: 1 if positive and 0 if negative. *)
Definition polarity (l : Literal) : Z := if polarity_bit l then 1 else 0.
Definition isPositive (l : Literal) : bool := polarity_bit l.
Definition isNegative (l : Literal) : bool := negb (polarity_bit l).

(** [Literal::isEquality]: functor 0 is reserved for equality. *)
Definition isEquality (l : Literal) : bool := Z.eqb (functor l) 0.

(** [Literal::header]: [2*_functor + polarity()], in [unsigned] arithmetic. *)
Definition header (l : Literal) : Z :=
  Unsigned.add (Unsigned.mul 2 (functor l)) (polarity l).

(** [Literal::complementaryHeader]: [2*_functor + 1 - polarity()]. *)
Definition complementaryHeader (l : Literal) : Z :=
  Unsigned.sub (Unsigned.add (Unsigned.mul 2 (functor l)) 1) (polarity l).

(** [Literal::headerToPredicateNumber]: [header/2]. *)
Definition headerToPredicateNumber (h : Z) : Z := h / 2.

(** [Literal::headerToPolarity]: [header % 2]. *)
Definition headerToPolarity (h : Z) : Z := h mod 2.

(** The literal with the same predicate and arguments and the opposite
    polarity ([Literal::negate] flips the bit). *)
Definition negate (l : Literal) : Literal :=
  {| functor := functor l; polarity_bit := negb (polarity_bit l); args := args l |}.

(** [Term::VariableIterator]: the variable occurrences of a term, left to
    right; [TermList::var] gives the number of either kind of variable. *)
Fixpoint termVariables (t : TermList) : list Z :=
  match t with
  | OrdVar v => [v]
  | SpecVar v => [v]
  | Ref _ ts => concat (map termVariables ts)
  end.

Definition literalVariables (l : Literal) : list Z :=
  concat (map termVariables (args l)).

(** [Unit::InputType] *)
Inductive InputType : Type :=
| AXIOM
| ASSUMPTION
| CONJECTURE
| NEGATED_CONJECTURE
| HYPOTHESIS.

(** [Inference::Rule]: the rule tags the modelled code mentions.
    [NEGATED_CONJECTURE_RULE] is [Inference::NEGATED_CONJECTURE], renamed
    apart from the input type. *)
Inductive Rule : Type :=
| INPUT
| NEGATED_CONJECTURE_RULE
| CLAUSIFY
| TAUTOLOGY_INTRODUCTION
| CLAUSE_NAMING
| SPLITTING
| ANSWER_LITERAL
| UNIT_RESULTING_RESOLUTION.

(** An [Inference] owns its rule and the pointers to its premises. *)
Record Inference : Type := mkInference {
  rule : Rule;
  premises : list nat
}.

(** [new Inference(r)], [new Inference1(r,u)], [new Inference2(r,u1,u2)]
    and [new InferenceMany(r,us)]. *)
Definition Inference0 (r : Rule) : Inference := mkInference r [].
Definition Inference1 (r : Rule) (u : nat) : Inference := mkInference r [u].
Definition Inference2 (r : Rule) (u1 u2 : nat) : Inference := mkInference r [u1; u2].
Definition InferenceMany (r : Rule) (us : list nat) : Inference := mkInference r us.

(** The fields of [Clause] that the modelled code reads and writes.  A
    clause that has not had [setProp] called on it has a null
    propositional part, and one without a split set a null [splits]. *)
Record Clause (BDDNode : Type) : Type := mkClause {
  literals : list Literal;
  inputType : InputType;
  inference : Inference;
  prop : option BDDNode;
  splits : option (list Z)
}.
#[global] Arguments mkClause {BDDNode} literals inputType inference prop splits.
#[global] Arguments literals {BDDNode} c.
#[global] Arguments inputType {BDDNode} c.
#[global] Arguments inference {BDDNode} c.
#[global] Arguments prop {BDDNode} c.
#[global] Arguments splits {BDDNode} c.

(** [Clause::length] and [Clause::isEmpty] *)
Definition length {BDDNode} (c : Clause BDDNode) : nat := List.length (literals c).
Definition isEmpty {BDDNode} (c : Clause BDDNode) : bool :=
  bool_decide (literals c = []).

(** [Connective] and the subclasses of [Formula] ([Kernel/Formula.hpp]),
    by the constructors and accessors the modelled code uses.
    [JunctionFormula] is built with [AND] and [OR], [BinaryFormula] with
    [IMP], [IFF] and [XOR], [QuantifiedFormula] with [FORALL] and [EXISTS]
    and [ConstantFormula] with [TRUE] and [FALSE], so that a test of
    [connective()] followed by the accessor of the class is a match on the
    constructor. *)
Inductive Connective : Type :=
| LITERAL | AND | OR | IMP | IFF | XOR | NOT | FORALL | EXISTS | TRUE | FALSE.

Inductive Formula : Type :=
| AtomicFormula (l : Literal)
| JunctionFormula (c : Connective) (fs : list Formula)
| BinaryFormula (c : Connective) (l r : Formula)
| NegatedFormula (f : Formula)
| QuantifiedFormula (c : Connective) (vars : list Z) (f : Formula)
| ConstantFormula (c : Connective).

Definition connective (f : Formula) : Connective :=
  match f with
  | AtomicFormula _ => LITERAL
  | JunctionFormula c _ => c
  | BinaryFormula c _ _ => c
  | NegatedFormula _ => NOT
  | QuantifiedFormula c _ _ => c
  | ConstantFormula c => c
  end.

#[global] Instance Connective_eq_dec : EqDecision Connective.
Proof. solve_decision. Defined.

#[global] Instance InputType_eq_dec : EqDecision InputType.
Proof. solve_decision. Defined.

(** The interface of [Kernel::BDD] that the modelled code calls.  Nodes are
    hash-consed, so pointer comparison of nodes is equality of nodes.
    [BDD::getNewVar] changes the state of the singleton and is modelled
    with the state that owns the counter. *)
Class BDD (BDDNode : Type) : Type := mkBDD {
  BDDNode_eq_dec :: EqDecision BDDNode;
  getTrue : BDDNode;
  getFalse : BDDNode;
  getAtomic : Z -> bool -> BDDNode;
  conjunction : BDDNode -> BDDNode -> BDDNode;
  disjunction : BDDNode -> BDDNode -> BDDNode;
  isTrue : BDDNode -> bool;
  isFalse : BDDNode -> bool
}.

#[global] Instance TermList_eq_dec : EqDecision TermList.
Proof.
  unfold EqDecision, Decision.
  fix IH 1. intros [v1|v1|f1 a1] [v2|v2|f2 a2];
    try (right; discriminate).
  - destruct (decide (v1 = v2)); [left; congruence | right; congruence].
  - destruct (decide (v1 = v2)); [left; congruence | right; congruence].
  - destruct (decide (f1 = f2)); [| right; congruence].
    assert ({a1 = a2} + {a1 <> a2}) as [->| Hn].
    { clear -IH. revert a2. induction a1 as [|x xs IHxs]; intros [|y ys];
        try (right; discriminate); [left; reflexivity |].
      destruct (IH x y); [| right; congruence].
      destruct (IHxs ys); [left; congruence | right; congruence]. }
    + left; congruence.
    + right; congruence.
Defined.

#[global] Instance Literal_eq_dec : EqDecision Literal.
Proof. solve_decision. Defined.

End Kernel.

(** ** The representation of term lists ([Kernel/Term.hpp], [class TermList]) *)

Module TermList.

(** [enum TermTag] *)
Inductive TermTag : Type :=
| REF
| ORD_VAR
| FUN
| SPEC_VAR.

#[global] Instance TermTag_eq_dec : EqDecision TermTag.
Proof. solve_decision. Defined.

(** The enumerators are given the values [0u] to [3u]. *)
Definition TermTag_value (t : TermTag) : Z :=
  match t with
  | REF => 0
  | ORD_VAR => 1
  | FUN => 2
  | SPEC_VAR => 3
  end.

(** The cast [(TermTag)] of a value that has been masked with [0x0003]. *)
Definition TermTag_of (z : Z) : TermTag :=
  if decide (z = 0) then REF
  else if decide (z = 1) then ORD_VAR
  else if decide (z = 2) then FUN
  else SPEC_VAR.

(** A [TermList] is one machine word; the members of its union are views
    of the same word, modelled by the raw [_content] of type [size_t]. *)
Record TermList : Type := mkTermList { content : Z }.

#[global] Instance TermList_eq_dec : EqDecision TermList.
Proof. solve_decision. Defined.

(** [tag]: [(TermTag)(_content & 0x0003)] *)
Definition tag (t : TermList) : TermTag := TermTag_of (Z.land (content t) 3).

Definition isEmpty (t : TermList) : bool := bool_decide (tag t = FUN).
Definition isNonEmpty (t : TermList) : bool := bool_decide (tag t <> FUN).

(** [isVar]: [(_content & 0x0001) == 1] *)
Definition isVar (t : TermList) : bool := bool_decide (Z.land (content t) 1 = 1).

Definition isOrdinaryVar (t : TermList) : bool := bool_decide (tag t = ORD_VAR).
Definition isSpecialVar (t : TermList) : bool := bool_decide (tag t = SPEC_VAR).

(** [var]: [_content / 4], returned as an [unsigned]. *)
Definition var (t : TermList) : Z := Unsigned.wrap (content t / 4).

Definition isTerm (t : TermList) : bool := bool_decide (tag t = REF).

Definition sameContent (t u : TermList) : bool := bool_decide (content t = content u).

(** [makeVar]: [_content = vnumber * 4 + ORD_VAR], where [vnumber] is an
    [unsigned], so that the right-hand side is computed in [unsigned]
    arithmetic before it is widened to [size_t]. *)
Definition makeVar (vnumber : Z) : TermList :=
  mkTermList (Unsigned.add (Unsigned.mul vnumber 4) (TermTag_value ORD_VAR)).

(** [makeSpecialVar]: [_content = vnumber * 4 + SPEC_VAR] *)
Definition makeSpecialVar (vnumber : Z) : TermList :=
  mkTermList (Unsigned.add (Unsigned.mul vnumber 4) (TermTag_value SPEC_VAR)).

(** [makeEmpty]: [_content = FUN] *)
Definition makeEmpty : TermList := mkTermList (TermTag_value FUN).

(** The constructor [TermList(unsigned var, bool special)]. *)
Definition ofVar (var : Z) (special : bool) : TermList :=
  if special then makeSpecialVar var else makeVar var.

(** [TermListHash::hash]: [static_cast<unsigned>(t.content())] *)
Definition hash (t : TermList) : Z := Unsigned.wrap (content t).

End TermList.

(** ** The header of a term ([Kernel/Term.hpp], [class Term] and
    [class Literal]) *)

Module Term.

(** The special functor values. *)
Definition SF_TERM_ITE : Z := 0xFFFFFFFF.
Definition SF_LET_TERM_IN_TERM : Z := 0xFFFFFFFE.
Definition SF_LET_FORMULA_IN_TERM : Z := 0xFFFFFFFD.
Definition SPECIAL_FUNCTOR_LOWER_BOUND : Z := 0xFFFFFFFD.

Definition TERM_DIST_VAR_UNKNOWN : Z := 0x7FFFFF.

(** A bit-field of [w] bits keeps the low [w] bits of what is assigned to
    it. *)
Definition bitfield (w : Z) (z : Z) : Z := z mod 2 ^ w.

(** The members of [Term] and the bits of [_args[0]._info] that the
    modelled methods read and write.  [_vars] and [_sort] are the two
    members of one union, so they are one field here. *)
Record Term : Type := mkTerm {
  _functor : Z;
  _arity : Z;
  _hasInterpretedConstants : bool;
  _isTwoVarEquality : bool;
  _weight : Z;
  _vars_sort : Z;
  info_polarity : bool;
  info_commutative : bool;
  info_shared : bool;
  info_literal : bool;
  info_order : Z;
  info_distinctVars : Z
}.

Definition functor (t : Term) : Z := _functor t.
Definition arity (t : Term) : Z := _arity t.

(** [makeSymbol]: [_arity] is a bit-field of 27 bits. *)
Definition makeSymbol (number arity : Z) (t : Term) : Term :=
  mkTerm number (bitfield 27 arity) (_hasInterpretedConstants t)
    (_isTwoVarEquality t) (_weight t) (_vars_sort t) (info_polarity t)
    (info_commutative t) (info_shared t) (info_literal t) (info_order t)
    (info_distinctVars t).

Definition shared (t : Term) : bool := info_shared t.
Definition commutative (t : Term) : bool := info_commutative t.
Definition weight (t : Term) : Z := _weight t.

Definition markShared (t : Term) : Term :=
  mkTerm (_functor t) (_arity t) (_hasInterpretedConstants t)
    (_isTwoVarEquality t) (_weight t) (_vars_sort t) (info_polarity t)
    (info_commutative t) true (info_literal t) (info_order t)
    (info_distinctVars t).

Definition setWeight (w : Z) (t : Term) : Term :=
  mkTerm (_functor t) (_arity t) (_hasInterpretedConstants t)
    (_isTwoVarEquality t) w (_vars_sort t) (info_polarity t)
    (info_commutative t) (info_shared t) (info_literal t) (info_order t)
    (info_distinctVars t).

Definition set_vars_sort (v : Z) (t : Term) : Term :=
  mkTerm (_functor t) (_arity t) (_hasInterpretedConstants t)
    (_isTwoVarEquality t) (_weight t) v (info_polarity t)
    (info_commutative t) (info_shared t) (info_literal t) (info_order t)
    (info_distinctVars t).

(** [setVars]: nothing is written when the object is an equality between
    two variables. *)
Definition setVars (v : Z) (t : Term) : Term :=
  if _isTwoVarEquality t then t else set_vars_sort v t.

(** [vars] *)
Definition vars (t : Term) : Z :=
  if _isTwoVarEquality t then 2 else _vars_sort t.

(** [ground]: [! vars()] *)
Definition ground (t : Term) : bool := bool_decide (vars t = 0).

Definition isTwoVarEquality (t : Term) : bool := _isTwoVarEquality t.
Definition isLiteral (t : Term) : bool := info_literal t.

Definition set_distinctVars (d : Z) (t : Term) : Term :=
  mkTerm (_functor t) (_arity t) (_hasInterpretedConstants t)
    (_isTwoVarEquality t) (_weight t) (_vars_sort t) (info_polarity t)
    (info_commutative t) (info_shared t) (info_literal t) (info_order t)
    (bitfield 23 d).

(** [askDistinctVars]: the result and, when it is true, the value
    assigned to the out parameter [res]. *)
Definition askDistinctVars (t : Term) : bool * option Z :=
  if decide (info_distinctVars t = TERM_DIST_VAR_UNKNOWN) then (false, None)
  else (true, Some (info_distinctVars t)).

(** [getDistinctVars]: the result and the object afterwards (the
    bit-field is [mutable]).  [computeDistinctVars] is declared
    elsewhere. *)
Definition getDistinctVars (computeDistinctVars : Term -> Z) (t : Term) : Z * Term :=
  if decide (info_distinctVars t = TERM_DIST_VAR_UNKNOWN) then
    let res := computeDistinctVars t in
    if decide (res < TERM_DIST_VAR_UNKNOWN) then (res, set_distinctVars res t)
    else (res, t)
  else (info_distinctVars t, t).

Definition hasInterpretedConstants (t : Term) : bool := _hasInterpretedConstants t.

Definition setInterpretedConstantsPresence (value : bool) (t : Term) : Term :=
  mkTerm (_functor t) (_arity t) value
    (_isTwoVarEquality t) (_weight t) (_vars_sort t) (info_polarity t)
    (info_commutative t) (info_shared t) (info_literal t) (info_order t)
    (info_distinctVars t).

(** [isSpecial]: [functor()>=SPECIAL_FUNCTOR_LOWER_BOUND] *)
Definition isSpecial (t : Term) : bool :=
  bool_decide (SPECIAL_FUNCTOR_LOWER_BOUND <= functor t).

(** [getArgumentOrderValue] and [setArgumentOrderValue]: the bit-field
    [order] has 3 bits. *)
Definition getArgumentOrderValue (t : Term) : Z := info_order t.

Definition setArgumentOrderValue (val : Z) (t : Term) : Term :=
  mkTerm (_functor t) (_arity t) (_hasInterpretedConstants t)
    (_isTwoVarEquality t) (_weight t) (_vars_sort t) (info_polarity t)
    (info_commutative t) (info_shared t) (info_literal t) (bitfield 3 val)
    (info_distinctVars t).

(** A [TermList*] into the array [_args] of a term is an address counted
    in elements. *)
(** [_args], the address of the first element of the array, taken as the
    origin. *)
Definition _args : Z := 0.

(** [args]: [_args + _arity] *)
Definition args (t : Term) : Z := _args + arity t.

(** [nthArgument]: [_args + (_arity - n)] *)
Definition nthArgument (n : Z) (t : Term) : Z := _args + (arity t - n).

(** [TermList::next]: [this-1] *)
Definition next (p : Z) : Z := p - 1.

(** [getArgumentIndex]: [arity()-(arg-_args)], assigned to an
    [unsigned]. *)
Definition getArgumentIndex (arg : Z) (t : Term) : Z :=
  Unsigned.wrap (arity t - (arg - _args)).

(** The constructor [Literal(functor, arity, polarity, commutative)]; the
    members it does not initialise are those of [t]. *)
Definition Literal (functor arity : Z) (polarity commutative : bool) (t : Term)
  : Term :=
  mkTerm functor (bitfield 27 arity) (_hasInterpretedConstants t)
    (_isTwoVarEquality t) (_weight t) (_vars_sort t) polarity
    commutative (info_shared t) true (info_order t)
    (info_distinctVars t).

(** [Literal::equality]: [new(2) Literal(0,2,polarity,true)] *)
Definition equality (polarity : bool) (t : Term) : Term := Literal 0 2 polarity true t.

Definition isEquality (t : Term) : bool := bool_decide (functor t = 0).
Definition isPositive (t : Term) : bool := info_polarity t.
Definition isNegative (t : Term) : bool := negb (info_polarity t).
Definition polarity (t : Term) : Z := if info_polarity t then 1 else 0.

Definition setPolarity (positive : bool) (t : Term) : Term :=
  mkTerm (_functor t) (_arity t) (_hasInterpretedConstants t)
    (_isTwoVarEquality t) (_weight t) (_vars_sort t) positive
    (info_commutative t) (info_shared t) (info_literal t) (info_order t)
    (info_distinctVars t).

(** [negate]: [polarity = 1 - polarity] *)
Definition negate (t : Term) : Term := setPolarity (negb (info_polarity t)) t.

(** [markTwoVarEquality] *)
Definition markTwoVarEquality (t : Term) : Term :=
  mkTerm (_functor t) (_arity t) (_hasInterpretedConstants t)
    true (_weight t) (_vars_sort t) (info_polarity t)
    (info_commutative t) (info_shared t) (info_literal t) (info_order t)
    (info_distinctVars t).

(** [twoVarEqSort] and [setTwoVarEqSort] *)
Definition twoVarEqSort (t : Term) : Z := _vars_sort t.
Definition setTwoVarEqSort (sort : Z) (t : Term) : Term := set_vars_sort sort t.

End Term.

(** ** The statistics record ([Shell/Statistics.hpp]) *)

Module Statistics.

(** [enum TerminationReason], in declaration order. *)
Inductive TerminationReason : Type :=
| REFUTATION
| SATISFIABLE
| REFUTATION_NOT_FOUND
| UNKNOWN
| TIME_LIMIT
| MEMORY_LIMIT.

(** The integer value the compiler gives each enumerator. *)
Definition TerminationReason_value (r : TerminationReason) : Z :=
  match r with
  | REFUTATION => 0
  | SATISFIABLE => 1
  | REFUTATION_NOT_FOUND => 2
  | UNKNOWN => 3
  | TIME_LIMIT => 4
  | MEMORY_LIMIT => 5
  end.

Definition all_TerminationReasons : list TerminationReason :=
  [REFUTATION; SATISFIABLE; REFUTATION_NOT_FOUND; UNKNOWN; TIME_LIMIT; MEMORY_LIMIT].

(** An object of type [TerminationReason] holds an integer.  The
    enumeration is unscoped and has no fixed underlying type, so its
    values are those of the smallest bit-field that holds all of its
    enumerators, and a cast stores any of them in the object. *)
Definition TerminationReason_bits : Z :=
  Z.log2 (fold_right Z.max 0 (map TerminationReason_value all_TerminationReasons)) + 1.

Definition TerminationReason_representable (v : Z) : Prop :=
  0 <= v < 2 ^ TerminationReason_bits.

(** [enum ExecutionPhase]. *)
Inductive ExecutionPhase : Type :=
| INITIALIZATION
| PARSING
| PROPERTY_SCANNING
| NORMALIZATION
| SINE_SELECTION
| INCLUDING_THEORY_AXIOMS
| PREPROCESS_1
| UNUSED_PREDICATE_DEFINITION_REMOVAL
| PREPROCESS_2
| NAMING
| PREPROCESS_3
| CLAUSIFICATION
| FUNCTION_DEFINITION_ELIMINATION
| INEQUALITY_SPLITTING
| EQUALITY_RESOLUTION_WITH_DELETION
| EQUALITY_PROXY
| GENERAL_SPLITTING
| SATURATION
| FINALIZATION
| UNKNOWN_PHASE.

(** A [Kernel::Unit*]: an address in the unit store; [None] is the null
    pointer. *)
Definition UnitPtr : Type := nat.

(** [class Statistics]: the counters, then the termination reason (the
    value that the object holds), the refutation pointer and the phase, in
    declaration order. *)
Record Statistics : Type := mkStatistics {
  inputClauses : Z;
  inputFormulas : Z;
  formulaNames : Z;
  initialClauses : Z;
  splittedInequalities : Z;
  purePredicates : Z;
  unusedPredicateDefinitions : Z;
  functionDefinitions : Z;
  selectedBySine : Z;
  sineIterations : Z;
  factoring : Z;
  resolution : Z;
  urResolution : Z;
  forwardSuperposition : Z;
  backwardSuperposition : Z;
  selfSuperposition : Z;
  equalityFactoring : Z;
  equalityResolution : Z;
  duplicateLiterals : Z;
  trivialInequalities : Z;
  forwardSubsumptionResolution : Z;
  backwardSubsumptionResolution : Z;
  forwardDemodulations : Z;
  forwardDemodulationsToEqTaut : Z;
  backwardDemodulations : Z;
  backwardDemodulationsToEqTaut : Z;
  forwardLiteralRewrites : Z;
  condensations : Z;
  globalSubsumption : Z;
  evaluations : Z;
  interpretedSimplifications : Z;
  simpleTautologies : Z;
  equationalTautologies : Z;
  forwardSubsumed : Z;
  backwardSubsumed : Z;
  subsumedEmptyClauses : Z;
  emptyClauseSubsumptions : Z;
  subsumedByMarking : Z;
  generatedClauses : Z;
  passiveClauses : Z;
  activeClauses : Z;
  discardedNonRedundantClauses : Z;
  inferencesSkippedDueToColors : Z;
  finalPassiveClauses : Z;
  finalActiveClauses : Z;
  reactivatedClauses : Z;
  splitClauses : Z;
  splitComponents : Z;
  uniqueComponents : Z;
  splittingNamesIntroduced : Z;
  bddPropClauses : Z;
  satClauses : Z;
  unitSatClauses : Z;
  binarySatClauses : Z;
  learntSatClauses : Z;
  learntSatLiterals : Z;
  bddMemoryUsage : Z;
  backtrackingSplits : Z;
  backtrackingSplitsRefuted : Z;
  backtrackingSplitsRefutedZeroLevel : Z;
  instGenGeneratedClauses : Z;
  instGenRedundantClauses : Z;
  instGenKeptClauses : Z;
  instGenIterations : Z;
  satPureVarsEliminated : Z;
  terminationReason : Z;
  refutation : option UnitPtr;
  phase : ExecutionPhase
}.

End Statistics.

(** ** SAT clause sharing ([SAT/ClauseSharing.cpp]) *)

Module SAT.
Section ClauseSharing.

(** [SATLiteral] is declared elsewhere; all that [Hasher::equals] uses is
    its [operator!=]. *)
Context {SATLiteral : Type} `{EqDecision SATLiteral}.

(** [SATClause]: an array of literals together with its length. *)
Record SATClause : Type := mkSATClause { literals : list SATLiteral }.

Definition length (c : SATClause) : nat := List.length (literals c).

(** The result of running code that indexes an array: either it returns,
    or it reads the array at an index that is not below its length. *)
Inductive Outcome (A : Type) : Type :=
| Returns (a : A)
| ReadsPastEnd (index len : nat).
#[global] Arguments Returns {A} a.
#[global] Arguments ReadsPastEnd {A} index len.

(** [SATClause::operator[]] *)
Definition at_index (c : SATClause) (i : nat) : Outcome SATLiteral :=
  match literals c !! i with
  | Some l => Returns l
  | None => ReadsPastEnd i (length c)
  end.

(** The body of the loop [for(int i=c1->length();i>=0;i--)] at index [i]
    followed by the remaining iterations: the loop stops after the
    iteration for index 0. *)
Fixpoint equals_from (c1 c2 : SATClause) (i : nat) : Outcome bool :=
  match at_index c1 i with
  | ReadsPastEnd j n => ReadsPastEnd j n
  | Returns l1 =>
      match at_index c2 i with
      | ReadsPastEnd j n => ReadsPastEnd j n
      | Returns l2 =>
          if decide (l1 <> l2) then Returns false
          else match i with
               | O => Returns true
               | S i' => equals_from c1 c2 i'
               end
      end
  end.

(** [ClauseSharing::Hasher::equals] *)
Definition equals (c1 c2 : SATClause) : Outcome bool :=
  if decide (length c1 <> length c2) then Returns false
  else equals_from c1 c2 (length c1).

End ClauseSharing.
#[global] Arguments SATClause SATLiteral : clear implicits.
End SAT.

(** ** The splitter ([Saturation/Splitter.cpp]) *)

Module Splitter.
Import Kernel.
Section Splitter.

Context {BDDNode : Type} `{!BDD BDDNode}.

(** [ClauseVariantIndex] is declared elsewhere.  It is modelled by the
    test it implements, whether two literal lists are equal up to a
    renaming of variables, and by the list of the entries inserted so
    far, each with the literals it was inserted under. *)
Variable isVariant : list Literal -> list Literal -> bool.

(** [IntUnionFind] is declared elsewhere.  Given the number of elements
    and the calls of [doUnion] in order, it yields the components in the
    order of [ComponentIterator], each with its elements in the order of
    [ElementIterator]. *)
Variable unionFindComponents : nat -> list (nat * nat) -> list (list nat).

(** A [Clause*]: an index into the clause store. *)
Definition ClausePtr : Type := nat.

#[local] Abbreviation Clause := (Kernel.Clause BDDNode).

(** The side tables of the [InferenceStore] singleton, as the sequence of
    the calls that filled them. *)
Inductive StoreRecord : Type :=
| recordNonPropInference (cl : ClausePtr)
| recordPropAlter (cl : ClausePtr) (oldProp newProp : BDDNode) (r : Rule)
| recordSplitting (master : ClausePtr) (oldProp newProp : BDDNode)
    (premises : list ClausePtr)
| recordMerge (cl : ClausePtr) (oldProp : BDDNode) (addedCl : ClausePtr)
    (resultingProp : BDDNode).

(** The state the splitter works on: the clause store, the variable
    counter of the BDD singleton, the members of [Splitter], the
    inference store and the three counters of [env.statistics] that
    [Splitter.cpp] increments, under the names it gives them.  A key that
    is absent from a premise map stands for the null pointer that
    [getValuePtr(pred, ppremise, 0)] would put there. *)
Record State : Type := mkState {
  heap : list Clause;
  bdd_newVar : Z;
  variantIndex : list (list Literal * ClausePtr);
  clauseNames : gmap nat Z;
  propPredNames : gmap Z Z;
  propPredPosNamePremises : gmap Z ClausePtr;
  propPredNegNamePremises : gmap Z ClausePtr;
  inferenceStore : list StoreRecord;
  splittedClauses : Z;
  splittedComponents : Z;
  uniqueComponents : Z
}.

Definition upd_heap (f : list Clause -> list Clause) (s : State) : State :=
  mkState (f (heap s)) (bdd_newVar s) (variantIndex s) (clauseNames s)
    (propPredNames s) (propPredPosNamePremises s)
    (propPredNegNamePremises s) (inferenceStore s) (splittedClauses s)
    (splittedComponents s) (uniqueComponents s).

Definition upd_bdd_newVar (f : Z -> Z) (s : State) : State :=
  mkState (heap s) (f (bdd_newVar s)) (variantIndex s) (clauseNames s)
    (propPredNames s) (propPredPosNamePremises s)
    (propPredNegNamePremises s) (inferenceStore s) (splittedClauses s)
    (splittedComponents s) (uniqueComponents s).

Definition upd_variantIndex (f : list (list Literal * ClausePtr) -> list (list Literal * ClausePtr)) (s : State) : State :=
  mkState (heap s) (bdd_newVar s) (f (variantIndex s)) (clauseNames s)
    (propPredNames s) (propPredPosNamePremises s)
    (propPredNegNamePremises s) (inferenceStore s) (splittedClauses s)
    (splittedComponents s) (uniqueComponents s).

Definition upd_clauseNames (f : gmap nat Z -> gmap nat Z) (s : State) : State :=
  mkState (heap s) (bdd_newVar s) (variantIndex s) (f (clauseNames s))
    (propPredNames s) (propPredPosNamePremises s)
    (propPredNegNamePremises s) (inferenceStore s) (splittedClauses s)
    (splittedComponents s) (uniqueComponents s).

Definition upd_propPredNames (f : gmap Z Z -> gmap Z Z) (s : State) : State :=
  mkState (heap s) (bdd_newVar s) (variantIndex s) (clauseNames s)
    (f (propPredNames s)) (propPredPosNamePremises s)
    (propPredNegNamePremises s) (inferenceStore s) (splittedClauses s)
    (splittedComponents s) (uniqueComponents s).

Definition upd_propPredPosNamePremises (f : gmap Z ClausePtr -> gmap Z ClausePtr) (s : State) : State :=
  mkState (heap s) (bdd_newVar s) (variantIndex s) (clauseNames s)
    (propPredNames s) (f (propPredPosNamePremises s))
    (propPredNegNamePremises s) (inferenceStore s) (splittedClauses s)
    (splittedComponents s) (uniqueComponents s).

Definition upd_propPredNegNamePremises (f : gmap Z ClausePtr -> gmap Z ClausePtr) (s : State) : State :=
  mkState (heap s) (bdd_newVar s) (variantIndex s) (clauseNames s)
    (propPredNames s) (propPredPosNamePremises s)
    (f (propPredNegNamePremises s)) (inferenceStore s) (splittedClauses s)
    (splittedComponents s) (uniqueComponents s).

Definition upd_inferenceStore (f : list StoreRecord -> list StoreRecord) (s : State) : State :=
  mkState (heap s) (bdd_newVar s) (variantIndex s) (clauseNames s)
    (propPredNames s) (propPredPosNamePremises s)
    (propPredNegNamePremises s) (f (inferenceStore s)) (splittedClauses s)
    (splittedComponents s) (uniqueComponents s).

Definition upd_splittedClauses (f : Z -> Z) (s : State) : State :=
  mkState (heap s) (bdd_newVar s) (variantIndex s) (clauseNames s)
    (propPredNames s) (propPredPosNamePremises s)
    (propPredNegNamePremises s) (inferenceStore s) (f (splittedClauses s))
    (splittedComponents s) (uniqueComponents s).

Definition upd_splittedComponents (f : Z -> Z) (s : State) : State :=
  mkState (heap s) (bdd_newVar s) (variantIndex s) (clauseNames s)
    (propPredNames s) (propPredPosNamePremises s)
    (propPredNegNamePremises s) (inferenceStore s) (splittedClauses s)
    (f (splittedComponents s)) (uniqueComponents s).

Definition upd_uniqueComponents (f : Z -> Z) (s : State) : State :=
  mkState (heap s) (bdd_newVar s) (variantIndex s) (clauseNames s)
    (propPredNames s) (propPredPosNamePremises s)
    (propPredNegNamePremises s) (inferenceStore s) (splittedClauses s)
    (splittedComponents s) (f (uniqueComponents s)).

(** What can go wrong when the code dereferences a pointer or indexes an
    array. *)
Inductive Fault : Type :=
| DanglingPointer (p : ClausePtr)
| NullPropositionalPart (p : ClausePtr)
| LiteralIndexOutOfRange (i : nat)
| EmptyComponent.

Inductive Res (A : Type) : Type :=
| Ok (a : A) (s : State)
| Failed (f : Fault).
#[global] Arguments Ok {A} a s.
#[global] Arguments Failed {A} f.

(** Computations over the state that may fail. *)
Definition M (A : Type) : Type := State -> Res A.

Definition ret {A} (a : A) : M A := fun s => Ok a s.
Definition fail {A} (f : Fault) : M A := fun _ => Failed f.
Definition bind {A B} (m : M A) (k : A -> M B) : M B :=
  fun s => match m s with
           | Ok a s' => k a s'
           | Failed f => Failed f
           end.
Definition gets {A} (f : State -> A) : M A := fun s => Ok (f s) s.
Definition modify (f : State -> State) : M unit := fun s => Ok tt (f s).

#[local] Notation "'let*' x ':=' m 'in' k" := (bind m (fun x => k))
  (at level 10, x name, m at level 100, k at level 200).
#[local] Notation "'let*' ' p ':=' m 'in' k" :=
  (bind m (fun x => match x with p => k end))
  (at level 10, p pattern, m at level 100, k at level 200).
#[local] Notation "m ;;; k" := (bind m (fun _ => k))
  (at level 100, k at level 200, right associativity).

(** *** Primitive operations *)

(** Dereferencing a [Clause*]. *)
Definition getClause (p : ClausePtr) : M Clause :=
  fun s => match heap s !! p with
           | Some c => Ok c s
           | None => Failed (DanglingPointer p)
           end.

(** [cl->prop()] where the result is handed to a BDD operation, which
    needs a node. *)
Definition getProp (p : ClausePtr) : M BDDNode :=
  let* c := getClause p in
  match prop c with
  | Some n => ret n
  | None => fail (NullPropositionalPart p)
  end.

Definition withProp (n : BDDNode) (c : Clause) : Clause :=
  mkClause (literals c) (inputType c) (inference c) (Some n) (splits c).

(** [cl->setProp(n)] *)
Definition setProp (p : ClausePtr) (n : BDDNode) : M unit :=
  let* c := getClause p in
  modify (upd_heap (fun h => <[p := withProp n c]> h)).

(** [new(n) Clause(...)] followed by the assignments that fill in its
    literals (and, where the source calls [setProp] before the clause can
    be seen by anyone else, its propositional part): the new object is
    placed at the end of the store. *)
Definition newClause (c : Clause) : M ClausePtr :=
  fun s => Ok (List.length (heap s)) (upd_heap (fun h => h ++ [c]) s).

(** [BDD::instance()->getNewVar()] *)
Definition getNewVar : M Z :=
  fun s => Ok (bdd_newVar s) (upd_bdd_newVar (fun v => v + 1) s).

(** A call of one of the recording functions of the inference store. *)
Definition record (r : StoreRecord) : M unit :=
  modify (upd_inferenceStore (fun l => l ++ [r])).

(** [_variantIndex.retrieveVariants(lits, len)] *)
Definition retrieveVariants (lits : list Literal) (s : State) : list ClausePtr :=
  map snd (filter (fun e => Is_true (isVariant (fst e) lits)) (variantIndex s)).

(** [_variantIndex.insert(cl)], for a clause with literals [lits]. *)
Definition variantIndexInsert (lits : list Literal) (p : ClausePtr) : M unit :=
  modify (upd_variantIndex (fun l => l ++ [(lits, p)])).

(** [Clause::operator[]] *)
Definition literalAt (c : Clause) (i : nat) : M Literal :=
  match literals c !! i with
  | Some l => ret l
  | None => fail (LiteralIndexOutOfRange i)
  end.

Fixpoint mapM {A B} (f : A -> M B) (l : list A) : M (list B) :=
  match l with
  | [] => ret []
  | x :: xs => let* y := f x in let* ys := mapM f xs in ret (y :: ys)
  end.

(** A loop over a list that threads an accumulator. *)
Fixpoint foldM {A B} (f : B -> A -> M A) (l : list B) (a : A) : M A :=
  match l with
  | [] => ret a
  | x :: xs => let* a' := f x a in foldM f xs a'
  end.

(** A loop whose body may leave the enclosing function: [inr] carries what
    the function returns in that case. *)
Fixpoint foldM_return {A B R} (f : B -> A -> M (A + R)) (l : list B) (a : A)
  : M (A + R) :=
  match l with
  | [] => ret (inl a)
  | x :: xs =>
      let* r := f x a in
      match r with
      | inl a' => foldM_return f xs a'
      | inr v => ret (inr v)
      end
  end.

(** *** [Splitter::getPropPredName] *)

(** The clause built on lines 1086-1088. *)
Definition namingPremise (lit : Literal) (name : Z) : Clause :=
  mkClause [lit] AXIOM (Inference0 CLAUSE_NAMING)
    (Some (getAtomic name (isNegative lit))) None.

Definition premiseMap (lit : Literal) (s : State) : gmap Z ClausePtr :=
  if isPositive lit then propPredPosNamePremises s
  else propPredNegNamePremises s.

Definition setPremise (lit : Literal) (p : ClausePtr) : M unit :=
  if isPositive lit
  then modify (upd_propPredPosNamePremises (fun m => <[functor lit := p]> m))
  else modify (upd_propPredNegNamePremises (fun m => <[functor lit := p]> m)).

(** The results are the out parameters [name], [premise] and
    [newPremise]; [newPremise] is assigned [*ppremise] before the premise
    is created, so it is true exactly when the premise existed already. *)
Definition getPropPredName (lit : Literal) : M (Z * ClausePtr * bool) :=
  let pred := functor lit in
  let* pname := gets (fun s => propPredNames s !! pred) in
  let* name :=
    match pname with
    | Some n => ret n
    | None =>
        let* n := getNewVar in
        modify (upd_propPredNames (fun m => <[pred := n]> m)) ;;;
        ret n
    end in
  let* ppremise := gets (fun s => premiseMap lit s !! pred) in
  let newPremise := bool_decide (is_Some ppremise) in
  match ppremise with
  | Some premise => ret (name, premise, newPremise)
  | None =>
      let* cl := newClause (namingPremise lit name) in
      record (recordNonPropInference cl) ;;;
      setPremise lit cl ;;;
      ret (name, cl, newPremise)
  end.

(** *** [Splitter::insertIntoIndex] *)

(** The results are the returned clause and the out parameters
    [newInserted] and [modified]. *)
Definition insertIntoIndex (cl : ClausePtr) : M (ClausePtr * bool * bool) :=
  let* c := getClause cl in
  let* variants := gets (retrieveVariants (literals c)) in
  match variants with
  | comp :: _ =>
      let* oldCompProp := getProp comp in
      let* oldClProp := getProp cl in
      let newCompProp := conjunction oldCompProp oldClProp in
      if decide (oldCompProp = newCompProp) then ret (comp, false, false)
      else
        setProp comp newCompProp ;;;
        record (recordMerge comp oldCompProp cl newCompProp) ;;;
        ret (comp, false, true)
  | [] =>
      modify (upd_uniqueComponents (fun n => Unsigned.add n 1)) ;;;
      variantIndexInsert (literals c) cl ;;;
      ret (cl, true, false)
  end.

(** *** [Splitter::handleNoSplit] *)

(** The clause built on lines 1156-1157. *)
Definition namedUnit (c : Clause) (cl premise : ClausePtr) (lit : Literal)
    (name : Z) : Clause :=
  mkClause [] (inputType c) (Inference2 SPLITTING cl premise)
    (Some (getAtomic name (isPositive lit))) None.

(** Lines 1148-1173: a clause that is one literal of arity 0 is replaced
    by its name. *)
Definition nameAndReplace (cl : ClausePtr) : M ClausePtr :=
  let* c := getClause cl in
  match literals c with
  | [lit] =>
      if decide (arity lit = 0%nat) then
        let* '(name, premise, _) := getPropPredName lit in
        let* newCl := newClause (namedUnit c cl premise lit name) in
        record (recordNonPropInference newCl) ;;;
        ret newCl
      else ret cl
  | _ => ret cl
  end.

(** Lines 1175-1194: insertion into the variant index and the choice of
    the iterators.  The results are [newComponents] and
    [modifiedComponents]. *)
Definition insertAndReport (cl : ClausePtr)
  : M (list ClausePtr * list ClausePtr) :=
  let* '(insCl, newInserted, modified) := insertIntoIndex cl in
  if newInserted : bool then ret ([insCl], [])
  else if modified : bool then
    let* ic := getClause insCl in
    if isEmpty ic && match prop ic with Some n => isFalse n | None => false end
    then
      let* oldClProp := getProp cl in
      let* insProp := getProp insCl in
      setProp cl insProp ;;;
      record (recordMerge cl oldClProp insCl insProp) ;;;
      ret ([cl], [])
    else ret ([], [insCl])
  else ret ([], []).

Definition handleNoSplit (cl : ClausePtr)
  : M (list ClausePtr * list ClausePtr) :=
  let* cl' := nameAndReplace cl in
  insertAndReport cl'.

(** *** [Splitter::doSplitting] *)

(** Lines 833-841.  [varMasters] maps a variable to the lowest index of a
    literal it occurs in; every later occurrence in another literal gives
    a call [components.doUnion(master, i)]. *)
Definition varMasterStep (i : nat) (a : gmap Z nat * list (nat * nat)) (v : Z)
  : gmap Z nat * list (nat * nat) :=
  match fst a !! v with
  | Some master =>
      if decide (master <> i) then (fst a, snd a ++ [(master, i)]) else a
  | None => (<[v := i]> (fst a), snd a)
  end.

Definition componentUnions (lits : list Literal) : list (nat * nat) :=
  snd (fold_left
         (fun a il => fold_left (varMasterStep (fst il)) (literalVariables (snd il)) a)
         (imap (fun i l => (i, l)) lits) (∅, [])).

(** The local variables of [doSplitting] that its loops update.  The
    stacks have their top at the head of the list. *)
Record Locals : Type := mkLocals {
  newMasterProp : BDDNode;
  masterPremises : list ClausePtr;
  remainingComps : Z;
  unnamedComponentStack : list ClausePtr;
  newComponentStack : list ClausePtr;
  masterComp : option ClausePtr
}.

(** The body of the first loop, lines 880-909: components that are one
    literal of arity 0. *)
Definition propositionalComponent (c : Clause) (comp : list nat) (a : Locals)
  : M Locals :=
  match comp with
  | [] => fail EmptyComponent
  | i :: rest =>
      let* lit := literalAt c i in
      match rest with
      | _ :: _ => ret a
      | [] =>
          if decide (arity lit <> 0%nat) then ret a
          else
            let* '(name, premise, _) := getPropPredName lit in
            ret (mkLocals
                   (disjunction (newMasterProp a) (getAtomic name (isPositive lit)))
                   (premise :: masterPremises a)
                   (remainingComps a - 1)
                   (unnamedComponentStack a) (newComponentStack a) (masterComp a))
      end
  end.

(** The clause built on lines 962-971 from the literals on the stack
    [lits]: they are popped, so they end up in reverse order. *)
Definition newComponent (c : Clause) (lits : list Literal) : Clause :=
  mkClause (rev lits) (inputType c) (Inference0 TAUTOLOGY_INTRODUCTION)
    (Some getTrue) None.

(** The test on line 927, on the stack [lits] of the literals of a
    component: [compLen==1 && lits.top()->arity()==0]. *)
Definition isPropositional (lits : list Literal) : bool :=
  bool_decide (List.length lits = 1%nat)
  && match last lits with
     | Some l => bool_decide (arity l = 0%nat)
     | None => false
     end.

(** The test on line 942, where [remaining] is [remainingComps] after line
    932: no component is left and both stacks are empty. *)
Definition isLastComponent (a : Locals) (remaining : Z) : bool :=
  bool_decide (remaining = 0)
  && bool_decide (newComponentStack a = [])
  && bool_decide (unnamedComponentStack a = []).

(** The body of the second loop, lines 917-976.  [inr tt] is the [return]
    on line 953. *)
Definition component (c : Clause) (comp : list nat) (a : Locals)
  : M (Locals + unit) :=
  let* lits := mapM (literalAt c) comp in
  if isPropositional lits then ret (inl a)
  else
    let remaining := remainingComps a - 1 in
    let* variants := gets (retrieveVariants lits) in
    match variants with
    | comp :: _ =>
        let* names := gets clauseNames in
        match names !! comp with
        | Some compName =>
            if isLastComponent a remaining
            then ret (inl (mkLocals (newMasterProp a) (masterPremises a) remaining
                             (unnamedComponentStack a) (newComponentStack a)
                             (Some comp)))
            else
              let p := disjunction (newMasterProp a) (getAtomic compName true) in
              if isTrue p then ret (inr tt)
              else ret (inl (mkLocals p (comp :: masterPremises a) remaining
                               (unnamedComponentStack a) (newComponentStack a)
                               (masterComp a)))
        | None =>
            ret (inl (mkLocals (newMasterProp a) (masterPremises a) remaining
                        (comp :: unnamedComponentStack a) (newComponentStack a)
                        (masterComp a)))
        end
    | [] =>
        modify (upd_uniqueComponents (fun n => Unsigned.add n 1)) ;;;
        let* comp := newClause (newComponent c lits) in
        variantIndexInsert (rev lits) comp ;;;
        record (recordNonPropInference comp) ;;;
        ret (inl (mkLocals (newMasterProp a) (masterPremises a) remaining
                    (unnamedComponentStack a) (comp :: newComponentStack a)
                    (masterComp a)))
    end.

(** The clause built on lines 991-992. *)
Definition emptyComponent : Clause :=
  mkClause [] AXIOM (Inference0 TAUTOLOGY_INTRODUCTION) (Some getTrue) None.

(** Lines 979-998: the choice of the master component.  The results are
    [masterComp], [masterNew] and the locals with the chosen clause
    popped from its stack. *)
Definition chooseMaster (a : Locals) : M (ClausePtr * bool * Locals) :=
  match newComponentStack a with
  | m :: rest =>
      ret (m, true,
           mkLocals (newMasterProp a) (masterPremises a) (remainingComps a)
             (unnamedComponentStack a) rest (Some m))
  | [] =>
      match unnamedComponentStack a with
      | m :: rest =>
          ret (m, false,
               mkLocals (newMasterProp a) (masterPremises a) (remainingComps a)
                 rest [] (Some m))
      | [] =>
          match masterComp a with
          | Some m => ret (m, false, a)
          | None =>
              let* emptyCl := newClause emptyComponent in
              let* '(m, _, _) := insertIntoIndex emptyCl in
              ret (m, bool_decide (m = emptyCl),
                   mkLocals (newMasterProp a) (masterPremises a) (remainingComps a)
                     [] [] (Some m))
          end
      end
  end.

(** The body of the third loop, lines 1005-1029: naming of the components
    that are not the master.  The accumulator is [newMasterProp] and
    [masterPremises]. *)
Definition nameComponent (master : ClausePtr) (comp : ClausePtr)
    (a : BDDNode * list ClausePtr) : M (BDDNode * list ClausePtr) :=
  if decide (comp = master) then ret a
  else
    let* compName := getNewVar in
    let* names := gets clauseNames in
    match names !! comp with
    | Some _ => ret a
    | None =>
        modify (upd_clauseNames (fun m => <[comp := compName]> m)) ;;;
        let* oldCompProp := getProp comp in
        let newCompProp := conjunction oldCompProp (getAtomic compName false) in
        (if decide (newCompProp <> oldCompProp) then
           setProp comp newCompProp ;;;
           record (recordPropAlter comp oldCompProp newCompProp CLAUSE_NAMING)
         else ret tt) ;;;
        ret (disjunction (fst a) (getAtomic compName true), comp :: snd a)
    end.

(** Lines 1034-1061: the master clause gets its propositional part, the
    splitting is recorded and the iterators are built. *)
Definition finishSplit (master : ClausePtr) (masterNew : bool)
    (newProp : BDDNode) (premises unnamed new : list ClausePtr)
  : M (list ClausePtr * list ClausePtr) :=
  let* oldProp := getProp master in
  let masterProp := conjunction oldProp newProp in
  setProp master masterProp ;;;
  record (recordSplitting master oldProp masterProp (rev premises)) ;;;
  if masterNew then ret (master :: new, unnamed)
  else if decide (oldProp <> masterProp) then ret (new, master :: unnamed)
  else ret (new, unnamed).

(** Lines 852-853: the counters of [env.statistics]. *)
Definition countSplit (compCnt : nat) (s : State) : State :=
  upd_splittedComponents (fun n => Unsigned.add n (Z.of_nat compCnt))
    (upd_splittedClauses (fun n => Unsigned.add n 1) s).

(** The locals as lines 855-874 initialise them. *)
Definition initialLocals (cl : ClausePtr) (clProp : BDDNode) (compCnt : nat)
  : Locals :=
  mkLocals clProp [cl] (Z.of_nat compCnt) [] [] None.

(** Lines 852-1061: the clause has [compCnt] components, [compCnt] not 1. *)
Definition split (cl : ClausePtr) (c : Clause) (comps : list (list nat))
  : M (list ClausePtr * list ClausePtr) :=
  modify (countSplit (List.length comps)) ;;;
  let* clProp := getProp cl in
  let a0 := initialLocals cl clProp (List.length comps) in
  let* a1 := foldM (propositionalComponent c) comps a0 in
  let* r := foldM_return (component c) comps a1 in
  match r with
  | inr _ => ret ([], [])
  | inl a2 =>
      let* '(master, masterNew, a3) := chooseMaster a2 in
      let* '(newProp, premises) :=
        foldM (nameComponent master)
          (newComponentStack a3 ++ unnamedComponentStack a3)
          (newMasterProp a3, masterPremises a3) in
      finishSplit master masterNew newProp premises
        (unnamedComponentStack a3) (newComponentStack a3)
  end.

(** The results are [newComponents] and [modifiedComponents], each in
    the order in which the iterator yields its elements. *)
Definition doSplitting (cl : ClausePtr) : M (list ClausePtr * list ClausePtr) :=
  let* c := getClause cl in
  let clen := length c in
  if decide (clen <= 1)%nat then handleNoSplit cl
  else
    let comps := unionFindComponents clen (componentUnions (literals c)) in
    if decide (List.length comps = 1%nat) then handleNoSplit cl
    else split cl c comps.

(** The splitter before its first call. *)
Definition initial (h : list Clause) (firstVar : Z) : State :=
  mkState h firstVar [] ∅ ∅ ∅ ∅ [] 0 0 0.

(** *** Invariants of the splitter state *)

(** [p] is one of the naming premises kept in the two premise maps. *)
Definition isPremise (s : State) (p : ClausePtr) : Prop :=
  exists pred, propPredPosNamePremises s !! pred = Some p
               \/ propPredNegNamePremises s !! pred = Some p.

(** [p] is a clause of the variant index. *)
Definition inIndex (s : State) (p : ClausePtr) : Prop :=
  p ∈ map snd (variantIndex s).

(** The state is well formed: the naming premise kept for a propositional
    literal is the clause [{lit}] of lines 1086-1088 for the name of the
    predicate, and its creation has been recorded; and the clauses of the
    variant index exist and are not naming premises. *)
Definition wf (s : State) : Prop :=
  (forall lit p,
      args lit = [] ->
      premiseMap lit s !! functor lit = Some p ->
      exists n, propPredNames s !! functor lit = Some n
                /\ heap s !! p = Some (namingPremise lit n)
                /\ recordNonPropInference p ∈ inferenceStore s)
  /\ (forall p, inIndex s p -> (p < List.length (heap s))%nat /\ ~ isPremise s p).

(** Nothing the splitter knows is forgotten from [s] to [s']: names and
    premises are kept, and so are the clauses of the variant index and of
    the store. *)
Definition extends (s s' : State) : Prop :=
  propPredNames s ⊆ propPredNames s'
  /\ propPredPosNamePremises s ⊆ propPredPosNamePremises s'
  /\ propPredNegNamePremises s ⊆ propPredNegNamePremises s'
  /\ (forall p, inIndex s p -> inIndex s' p)
  /\ (List.length (heap s) <= List.length (heap s'))%nat.

Definition isNonPropInference (r : StoreRecord) : Prop :=
  match r with
  | recordNonPropInference _ => True
  | _ => False
  end.

(** From [s] to [s'] no clause of the store has changed and no component
    has been named: clauses have only been added, and the inference store
    has only been told of new clauses. *)
Definition onlyAdds (s s' : State) : Prop :=
  heap s `prefix_of` heap s'
  /\ clauseNames s' = clauseNames s
  /\ exists rs, inferenceStore s' = inferenceStore s ++ rs
                /\ Forall isNonPropInference rs.


(** The clauses that the locals of [doSplitting] hold as components all
    come from the variant index. *)
Definition componentsInIndex (s : State) (a : Locals) : Prop :=
  (forall p, p ∈ newComponentStack a -> inIndex s p)
  /\ (forall p, p ∈ unnamedComponentStack a -> inIndex s p)
  /\ (forall p, masterComp a = Some p -> inIndex s p).


(** What can happen to the state after [s]: calls of [doSplitting] on
    clauses that are not naming premises, calls of [getPropPredName] on
    propositional literals, and, outside the splitter, the creation of
    clauses, the allocation of BDD variables and changes to the
    propositional part of clauses that are not naming premises. *)
Inductive later (s : State) : State -> Prop :=
| later_refl : later s s
| later_doSplitting s1 s2 cl new modified :
    later s s1 -> ~ isPremise s1 cl ->
    doSplitting cl s1 = Ok (new, modified) s2 ->
    later s s2
| later_getPropPredName s1 s2 lit n p b :
    later s s1 -> arity lit = 0%nat ->
    getPropPredName lit s1 = Ok (n, p, b) s2 ->
    later s s2
| later_newClause s1 c :
    later s s1 -> later s (upd_heap (fun h => h ++ [c]) s1)
| later_getNewVar s1 :
    later s s1 -> later s (upd_bdd_newVar (fun v => v + 1) s1)
| later_setProp s1 p c n :
    later s s1 -> ~ isPremise s1 p -> heap s1 !! p = Some c ->
    later s (upd_heap (fun h => <[p := withProp n c]> h) s1).

(** The BDD variables that serve as names are below the next variable of
    the BDD, and no two predicates or components have the same name. *)
Definition namesDistinct (s : State) : Prop :=
  (forall pred n, propPredNames s !! pred = Some n -> n < bdd_newVar s)
  /\ (forall p n, clauseNames s !! p = Some n -> n < bdd_newVar s)
  /\ (forall pred1 pred2 n,
        propPredNames s !! pred1 = Some n -> propPredNames s !! pred2 = Some n ->
        pred1 = pred2)
  /\ (forall p1 p2 n,
        clauseNames s !! p1 = Some n -> clauseNames s !! p2 = Some n -> p1 = p2)
  /\ (forall pred p n,
        propPredNames s !! pred = Some n -> clauseNames s !! p = Some n -> False).

(** From [s] to [s'] the counters of split clauses and of their
    components are the same, the BDD has not taken back a variable, and
    the names have stayed distinct. *)
Definition steady (s s' : State) : Prop :=
  splittedClauses s' = splittedClauses s
  /\ splittedComponents s' = splittedComponents s
  /\ bdd_newVar s <= bdd_newVar s'
  /\ (namesDistinct s -> namesDistinct s').

End Splitter.
End Splitter.

(** ** The answer literal manager ([Shell/AnswerExtractor.cpp]) *)

Module AnswerLiteralManager.
Import Kernel.
Section AnswerLiteralManager.

Context {BDDNode : Type} `{!BDD BDDNode}.

(** [Flattening::flatten] is declared elsewhere. *)
Variable flatten : Formula -> Formula.

#[local] Abbreviation Clause := (Kernel.Clause BDDNode).

(** A [Unit*]: an index into the unit store. *)
Definition UnitPtr : Type := nat.

(** A [Unit] is a [Clause] or a [FormulaUnit]. *)
Inductive Unit : Type :=
| ClauseUnit (c : Clause)
| FormulaUnit (f : Formula) (inf : Inference) (it : InputType).

Definition isClause (u : Unit) : bool :=
  match u with ClauseUnit _ => true | FormulaUnit _ _ _ => false end.

Definition unitInputType (u : Unit) : InputType :=
  match u with ClauseUnit c => inputType c | FormulaUnit _ _ it => it end.

(** Modelled from the spec: [Clause::noProp] and [Clause::noSplits] are
    missing.  The propositional part is empty when it is absent or the
    constant false (the clause is unconditional), and a clause has no
    splits when its set of split levels is absent or empty. *)
Definition noProp (c : Clause) : bool :=
  match prop c with
  | None => true
  | Some n => isFalse n
  end.

Definition noSplits (c : Clause) : bool :=
  match splits c with
  | None => true
  | Some l => bool_decide (l = [])
  end.

(** [Signature::Symbol], by the members the modelled code uses. *)
Record Symbol : Type := mkSymbol {
  symbolArity : nat;
  answerPredicate : bool
}.

Definition markAnswerPredicate (sym : Symbol) : Symbol :=
  mkSymbol (symbolArity sym) true.

(** The state: the predicates of [env.signature], the unit store, and the
    members [_answers] (a stack, top at the head) and [_resolverClauses]
    of the manager. *)
Record State : Type := mkState {
  predicates : list Symbol;
  units : list Unit;
  answers : list UnitPtr;
  resolverClauses : gmap Z UnitPtr
}.

Definition upd_predicates (f : list Symbol -> list Symbol) (s : State) : State :=
  mkState (f (predicates s)) (units s) (answers s) (resolverClauses s).
Definition upd_units (f : list Unit -> list Unit) (s : State) : State :=
  mkState (predicates s) (f (units s)) (answers s) (resolverClauses s).
Definition upd_answers (f : list UnitPtr -> list UnitPtr) (s : State) : State :=
  mkState (predicates s) (units s) (f (answers s)) (resolverClauses s).
Definition upd_resolverClauses (f : gmap Z UnitPtr -> gmap Z UnitPtr) (s : State)
  : State :=
  mkState (predicates s) (units s) (answers s) (f (resolverClauses s)).

Inductive Fault : Type :=
| DanglingPointer (p : UnitPtr)
| NotAClause (p : UnitPtr)
| UnknownPredicate (pred : Z).

(** A call returns, or throws [MainLoop::RefutationFoundException] with
    the refutation it carries, or goes wrong. *)
Inductive Res (A : Type) : Type :=
| Ok (a : A) (s : State)
| Thrown (refutation : UnitPtr) (s : State)
| Failed (f : Fault).
#[global] Arguments Ok {A} a s.
#[global] Arguments Thrown {A} refutation s.
#[global] Arguments Failed {A} f.

Definition M (A : Type) : Type := State -> Res A.

Definition ret {A} (a : A) : M A := fun s => Ok a s.
Definition fail {A} (f : Fault) : M A := fun _ => Failed f.
Definition throw {A} (refutation : UnitPtr) : M A := fun s => Thrown refutation s.
Definition bind {A B} (m : M A) (k : A -> M B) : M B :=
  fun s => match m s with
           | Ok a s' => k a s'
           | Thrown r s' => Thrown r s'
           | Failed f => Failed f
           end.
Definition gets {A} (f : State -> A) : M A := fun s => Ok (f s) s.
Definition modify (f : State -> State) : M unit := fun s => Ok tt (f s).

#[local] Notation "'let*' x ':=' m 'in' k" := (bind m (fun x => k))
  (at level 10, x name, m at level 100, k at level 200).
#[local] Notation "m ;;; k" := (bind m (fun _ => k))
  (at level 100, k at level 200, right associativity).

Fixpoint foldM {A B} (f : B -> A -> M A) (l : list B) (a : A) : M A :=
  match l with
  | [] => ret a
  | x :: xs => let* a' := f x a in foldM f xs a'
  end.

Fixpoint mapM {A B} (f : A -> M B) (l : list A) : M (list B) :=
  match l with
  | [] => ret []
  | x :: xs => let* y := f x in let* ys := mapM f xs in ret (y :: ys)
  end.

Definition getUnit (p : UnitPtr) : M Unit :=
  fun s => match units s !! p with
           | Some u => Ok u s
           | None => Failed (DanglingPointer p)
           end.

(** Dereferencing a [Clause*]. *)
Definition getClause (p : UnitPtr) : M Clause :=
  let* u := getUnit p in
  match u with
  | ClauseUnit c => ret c
  | FormulaUnit _ _ _ => fail (NotAClause p)
  end.

(** [new] of a unit. *)
Definition newUnit (u : Unit) : M UnitPtr :=
  fun s => Ok (List.length (units s)) (upd_units (fun h => h ++ [u]) s).

(** The symbol with number [pred], a value of type [unsigned]. *)
Definition lookupPredicate (pred : Z) (s : State) : option Symbol :=
  if decide (0 <= pred) then predicates s !! Z.to_nat pred else None.

(** [env.signature->getPredicate(pred)] *)
Definition getPredicate (pred : Z) : M Symbol :=
  fun s => match lookupPredicate pred s with
           | Some sym => Ok sym s
           | None => Failed (UnknownPredicate pred)
           end.

(** Modelled from the spec: [Signature::addNamePredicate] is missing.  It
    adds a fresh predicate symbol of the given arity and returns its
    number. *)
Definition addNamePredicate (arity : nat) : M Z :=
  fun s => Ok (Z.of_nat (List.length (predicates s)))
              (upd_predicates (fun l => l ++ [mkSymbol arity false]) s).

(** [TermList(var, false)] for a [var] that is converted to [unsigned]:
    [makeVar] stores [var * 4 + ORD_VAR], computed in [unsigned]
    arithmetic, and the variable of the term is the number that [var()]
    reads back from it. *)
Definition ordinaryVar (var : Z) : TermList :=
  OrdVar (TermList.var (TermList.ofVar (Unsigned.wrap var) false)).

(** [Literal::create(pred, arity, polarity, commutative, args)] *)
Definition createLiteral (pred : Z) (polarity : bool) (ts : list TermList)
  : Literal :=
  mkLiteral pred polarity ts.

(** [Clause::fromIterator(it, inputType, inf)] *)
Definition fromIterator (lits : list Literal) (it : InputType) (inf : Inference)
  : Clause :=
  mkClause lits it inf None None.

(** *** [AnswerLiteralManager::getAnswerLiteral] *)
Definition getAnswerLiteral (vars : list Z) : M Literal :=
  let litArgs := map ordinaryVar vars in
  let vcnt := List.length litArgs in
  let* pred := addNamePredicate vcnt in
  modify (upd_predicates
            (fun l => alter markAnswerPredicate (Z.to_nat pred) l)) ;;;
  ret (createLiteral pred true litArgs).

(** *** [AnswerLiteralManager::tryAddingAnswerLiteral]

    [FormulaList::push] puts the new element in front of the list, so
    the answer literal, pushed last, is the first conjunct. *)
Definition tryAddingAnswerLiteral (unit : UnitPtr) : M UnitPtr :=
  let* u := getUnit unit in
  match u with
  | ClauseUnit _ => ret unit
  | FormulaUnit form _ it =>
      if decide (it <> CONJECTURE) then ret unit
      else
        match form with
        | NegatedFormula (QuantifiedFormula EXISTS vars qarg) =>
            let* ansLit := getAnswerLiteral vars in
            let conjArgs := [AtomicFormula ansLit; qarg] in
            let conj := JunctionFormula AND conjArgs in
            let newQuant := QuantifiedFormula EXISTS vars conj in
            let newForm := flatten (NegatedFormula newQuant) in
            newUnit (FormulaUnit newForm (Inference1 ANSWER_LITERAL unit) it)
        | _ => ret unit
        end
  end.

(** *** [AnswerLiteralManager::addAnswerLiterals]: every unit of the list
    that [tryAddingAnswerLiteral] changes is replaced. *)
Definition addAnswerLiterals (us : list UnitPtr) : M (list UnitPtr) :=
  mapM tryAddingAnswerLiteral us.

(** *** [AnswerLiteralManager::isAnswerLiteral] *)
Definition isAnswerLiteral (lit : Literal) : M bool :=
  let* sym := getPredicate (functor lit) in
  ret (answerPredicate sym).

(** *** [AnswerLiteralManager::getResolverClause] *)

(** The clause built on lines 416-421. *)
Definition resolverClause (pred : Z) (arity : nat) : Clause :=
  fromIterator
    [createLiteral pred true (map (fun i => ordinaryVar (Z.of_nat i)) (seq 0 arity))]
    AXIOM (Inference0 ANSWER_LITERAL).

Definition getResolverClause (pred : Z) : M UnitPtr :=
  let* found := gets (fun s => resolverClauses s !! pred) in
  match found with
  | Some res => ret res
  | None =>
      let* predSym := getPredicate pred in
      let* res := newUnit (ClauseUnit (resolverClause pred (symbolArity predSym))) in
      modify (upd_resolverClauses (fun m => <[pred := res]> m)) ;;;
      ret res
  end.

(** *** [AnswerLiteralManager::getRefutation]

    [UnitList::push] puts the new element in front of the list. *)
Definition getRefutation (answer : UnitPtr) : M UnitPtr :=
  let* c := getClause answer in
  let* premises :=
    foldM (fun lit premises =>
             let* resolvingPrem := getResolverClause (functor lit) in
             ret (resolvingPrem :: premises))
          (literals c) [answer] in
  let inf := InferenceMany UNIT_RESULTING_RESOLUTION premises in
  newUnit (ClauseUnit (fromIterator [] (inputType c) inf)).

(** *** [AnswerLiteralManager::onNewClause] *)

(** The loop on lines 383-387: false when some literal makes the function
    return. *)
Fixpoint allAnswerLiterals (lits : list Literal) : M bool :=
  match lits with
  | [] => ret true
  | lit :: rest =>
      let* b := isAnswerLiteral lit in
      if b then allAnswerLiterals rest else ret false
  end.

Definition onNewClause (cl : UnitPtr) : M unit :=
  let* c := getClause cl in
  if negb (noProp c) || negb (noSplits c) then ret tt
  else
    let* all := allAnswerLiterals (literals c) in
    if all then
      modify (upd_answers (fun l => cl :: l)) ;;;
      let* refutation := getRefutation cl in
      throw refutation
    else ret tt.


(** *** [AnswerLiteralManager::tryGetAnswer]

    The loop on lines 281-292 over the clauses that the iterator of
    [_answers] yields, the last one pushed first.  The stack [answer] has
    its top at the head of the list; the results are the returned value
    and the stack afterwards. *)
Fixpoint firstUnitAnswer (cls : list UnitPtr) (answer : list TermList)
  : M (bool * list TermList) :=
  match cls with
  | [] => ret (false, answer)
  | ansCl :: rest =>
      let* c := getClause ansCl in
      match literals c with
      | [lit] => ret (true, rev (args lit) ++ answer)
      | _ => firstUnitAnswer rest answer
      end
  end.

Definition tryGetAnswer (refutation : UnitPtr) (answer : list TermList)
  : M (bool * list TermList) :=
  let* cls := gets answers in
  firstUnitAnswer cls answer.


(** *** Invariants of the manager state *)

(** The predicate of [lit] is declared and marked as an answer
    predicate. *)
Definition hasAnswerPredicate (s : State) (lit : Literal) : bool :=
  match lookupPredicate (functor lit) s with
  | Some sym => answerPredicate sym
  | None => false
  end.

(** Every clause kept in [_resolverClauses] is the resolver clause of its
    predicate. *)
Definition resolversOk (s : State) : Prop :=
  forall pred r,
    resolverClauses s !! pred = Some r ->
    exists sym, lookupPredicate pred s = Some sym
                /\ units s !! r = Some (ClauseUnit (resolverClause pred (symbolArity sym))).

(** From [s] to [s'] the signature and the answers are the same, units
    have only been added, and resolver clauses have only been added. *)
Definition grows (s s' : State) : Prop :=
  predicates s' = predicates s
  /\ answers s' = answers s
  /\ units s `prefix_of` units s'
  /\ resolverClauses s ⊆ resolverClauses s'.

(** The manager before its first call, for a signature and a unit store. *)
Definition initial (preds : list Symbol) (us : list Unit) : State :=
  mkState preds us [] ∅.


(** The units that [tryAddingAnswerLiteral] rewrites: a formula unit of
    input type [CONJECTURE] for [not (exists vars. phi)]. *)
Definition existentialConjecture (u : Unit) : option (list Z * Formula) :=
  match u with
  | FormulaUnit (NegatedFormula (QuantifiedFormula EXISTS vars phi)) _ CONJECTURE =>
      Some (vars, phi)
  | _ => None
  end.


(** The resolver clause of the predicate of [lit], as declared in [s0], is
    kept at [r] in [s]. *)
Definition resolverAt (s0 s : State) (lit : Literal) (r : UnitPtr) : Prop :=
  resolverClauses s !! functor lit = Some r
  /\ exists sym, lookupPredicate (functor lit) s0 = Some sym
                 /\ units s !! r
                    = Some (ClauseUnit (resolverClause (functor lit) (symbolArity sym))).

(** [p] points to a clause of exactly one literal. *)
Definition isUnitAnswer (s : State) (p : UnitPtr) : Prop :=
  exists c lit, units s !! p = Some (ClauseUnit c) /\ literals c = [lit].

(** [p] points to a unit that [tryAddingAnswerLiteral] rewrites, and the
    number of such units in a list. *)
Definition isExistentialConjecture (s : State) (p : UnitPtr) : bool :=
  match units s !! p with
  | Some u => bool_decide (is_Some (existentialConjecture u))
  | None => false
  end.

Definition existentialConjectures (s : State) (us : list UnitPtr) : nat :=
  List.length (filter (fun p => Is_true (isExistentialConjecture s p)) us).

End AnswerLiteralManager.
End AnswerLiteralManager.

(** ** The conjunctive goal extractor ([Shell/AnswerExtractor.cpp],
  [ConjunctionGoalAnswerExractor::SubstBuilder]) *)

Module SubstBuilder.
Import Kernel.
Section SubstBuilder.

(** Modelled from the spec: [RobSubstitution] and [BacktrackData] are
    missing.  [unify] and [unifyArgs] extend the substitution on success
    and leave it unchanged on failure; a success yields what is needed to
    undo it.  [bdRecord(trail)] starts recording the mutations into
    [trail], [bdDone()] ends the innermost recording, and
    [trail.backtrack()] undoes the mutations recorded in it; recordings
    nest as a stack. *)
Context {Subst Undo : Type}.
Variable unify : TermList -> nat -> TermList -> nat -> Subst -> option (Subst * Undo).
Variable unifyArgs : Literal -> nat -> Literal -> nat -> Subst -> option (Subst * Undo).
Variable undo : Undo -> Subst -> Subst.

(** [SLQueryResult], by the members the modelled code uses. *)
Record SLQueryResult : Type := mkSLQueryResult {
  literal : Literal;
  clause : nat
}.

(** [_lemmas.getUnifications(lit, false, false)]: what the iterator will
    yield, in order.  The lemma index does not change during the search. *)
Variable getUnifications : Literal -> list SLQueryResult.

(** The calls that the search makes, for stating which of them happen. *)
Inductive Event : Type :=
| EnterGoal (depth : nat)
| LeaveGoal (depth : nat)
| UnifyArgs (depth : nat) (goal : Literal) (goalBank : nat)
    (lemma : Literal) (lemmaBank : nat) (success : bool)
| Unify (depth : nat) (t1 : TermList) (bank1 : nat) (t2 : TermList) (bank2 : nat)
    (success : bool).

(** The members of [SubstBuilder], the substitution with the stack of its
    recordings in progress (each the index of the element of [_btData] it
    records into, innermost first), and the calls made so far, newest
    first. *)
Record State : Type := mkState {
  goalLits : list Literal;
  subst : Subst;
  recordings : list nat;
  btData : list (list Undo);
  unifIts : list (list SLQueryResult);
  triedEqUnif : list bool;
  depth : nat;
  trace : list Event
}.

Definition goalCnt (s : State) : nat := List.length (goalLits s).

Definition upd_subst (f : Subst -> Subst) (s : State) : State :=
  mkState (goalLits s) (f (subst s)) (recordings s) (btData s) (unifIts s)
    (triedEqUnif s) (depth s) (trace s).
Definition upd_recordings (f : list nat -> list nat) (s : State) : State :=
  mkState (goalLits s) (subst s) (f (recordings s)) (btData s) (unifIts s)
    (triedEqUnif s) (depth s) (trace s).
Definition upd_btData (f : list (list Undo) -> list (list Undo)) (s : State) : State :=
  mkState (goalLits s) (subst s) (recordings s) (f (btData s)) (unifIts s)
    (triedEqUnif s) (depth s) (trace s).
Definition upd_unifIts (f : list (list SLQueryResult) -> list (list SLQueryResult))
    (s : State) : State :=
  mkState (goalLits s) (subst s) (recordings s) (btData s) (f (unifIts s))
    (triedEqUnif s) (depth s) (trace s).
Definition upd_triedEqUnif (f : list bool -> list bool) (s : State) : State :=
  mkState (goalLits s) (subst s) (recordings s) (btData s) (unifIts s)
    (f (triedEqUnif s)) (depth s) (trace s).
Definition upd_depth (f : nat -> nat) (s : State) : State :=
  mkState (goalLits s) (subst s) (recordings s) (btData s) (unifIts s)
    (triedEqUnif s) (f (depth s)) (trace s).
Definition upd_trace (f : list Event -> list Event) (s : State) : State :=
  mkState (goalLits s) (subst s) (recordings s) (btData s) (unifIts s)
    (triedEqUnif s) (depth s) (f (trace s)).

Inductive Fault : Type :=
| IndexOutOfRange (i : nat)
| MissingArgument (l : Literal) (n : nat)
| OutOfFuel.

Inductive Res (A : Type) : Type :=
| Ok (a : A) (s : State)
| Failed (f : Fault).
#[global] Arguments Ok {A} a s.
#[global] Arguments Failed {A} f.

Definition M (A : Type) : Type := State -> Res A.

Definition ret {A} (a : A) : M A := fun s => Ok a s.
Definition fail {A} (f : Fault) : M A := fun _ => Failed f.
Definition bind {A B} (m : M A) (k : A -> M B) : M B :=
  fun s => match m s with
           | Ok a s' => k a s'
           | Failed f => Failed f
           end.
Definition gets {A} (f : State -> A) : M A := fun s => Ok (f s) s.
Definition modify (f : State -> State) : M unit := fun s => Ok tt (f s).

#[local] Notation "'let*' x ':=' m 'in' k" := (bind m (fun x => k))
  (at level 10, x name, m at level 100, k at level 200).
#[local] Notation "m ;;; k" := (bind m (fun _ => k))
  (at level 100, k at level 200, right associativity).

(** Reading and writing element [i] of a [DArray]. *)
Definition readAt {A} (arr : State -> list A) (i : nat) : M A :=
  fun s => match arr s !! i with
           | Some a => Ok a s
           | None => Failed (IndexOutOfRange i)
           end.

Definition writeAt {A} (arr : State -> list A)
    (upd : (list A -> list A) -> State -> State) (i : nat) (a : A) : M unit :=
  fun s => if decide (i < List.length (arr s))%nat
           then Ok tt (upd (fun l => <[i := a]> l) s)
           else Failed (IndexOutOfRange i).

Definition log (e : Event) : M unit := modify (upd_trace (fun t => e :: t)).

(** [lit->nthArgument(n)] *)
Definition nthArgument (l : Literal) (n : nat) : M TermList :=
  match args l !! n with
  | Some t => ret t
  | None => fail (MissingArgument l n)
  end.

(** A successful unification changes the substitution, and the change is
    recorded in the innermost recording in progress. *)
Definition commit (r : Subst * Undo) : M unit :=
  modify (upd_subst (fun _ => fst r)) ;;;
  let* rs := gets recordings in
  match rs with
  | [] => ret tt
  | d :: _ => modify (upd_btData (fun l => alter (fun us => snd r :: us) d l))
  end.

(** [_subst.unifyArgs(l1, b1, l2, b2)] *)
Definition doUnifyArgs (l1 : Literal) (b1 : nat) (l2 : Literal) (b2 : nat) : M bool :=
  let* d := gets depth in
  let* sigma := gets subst in
  match unifyArgs l1 b1 l2 b2 sigma with
  | Some r => log (UnifyArgs d l1 b1 l2 b2 true) ;;; commit r ;;; ret true
  | None => log (UnifyArgs d l1 b1 l2 b2 false) ;;; ret false
  end.

(** [_subst.unify(t1, b1, t2, b2)] *)
Definition doUnify (t1 : TermList) (b1 : nat) (t2 : TermList) (b2 : nat) : M bool :=
  let* d := gets depth in
  let* sigma := gets subst in
  match unify t1 b1 t2 b2 sigma with
  | Some r => log (Unify d t1 b1 t2 b2 true) ;;; commit r ;;; ret true
  | None => log (Unify d t1 b1 t2 b2 false) ;;; ret false
  end.

(** [_subst.bdRecord(_btData[d])], [_subst.bdDone()] and
    [_btData[d].backtrack()]. *)
Definition bdRecord (d : nat) : M unit :=
  modify (upd_recordings (fun l => d :: l)).

Definition bdDone : M unit := modify (upd_recordings (fun l => tail l)).

Definition backtrack (d : nat) : M unit :=
  let* us := readAt btData d in
  modify (upd_subst (fun sigma => fold_left (fun acc u => undo u acc) us sigma)) ;;;
  writeAt btData upd_btData d [].

(** *** [SubstBuilder::enterGoal] *)
Definition enterGoal : M unit :=
  let* d := gets depth in
  let* goal := readAt goalLits d in
  writeAt unifIts upd_unifIts d (getUnifications goal) ;;;
  writeAt triedEqUnif upd_triedEqUnif d false ;;;
  bdRecord d ;;;
  log (EnterGoal d).

(** *** [SubstBuilder::leaveGoal] *)
Definition leaveGoal : M unit :=
  let* d := gets depth in
  bdDone ;;;
  backtrack d ;;;
  log (LeaveGoal d).

(** The loop on lines 160-167: the iterator is advanced until a lemma
    unifies or nothing is left.  The result is whether one did, with what
    is left of the iterator. *)
Fixpoint tryLemmas (goalLit : Literal) (it : list SLQueryResult)
  : M (bool * list SLQueryResult) :=
  match it with
  | [] => ret (false, [])
  | qres :: rest =>
      let* b := doUnifyArgs goalLit 0 (literal qres) 1 in
      if b then ret (true, rest) else tryLemmas goalLit rest
  end.

(** *** [SubstBuilder::nextGoalUnif] *)
Definition nextGoalUnif : M bool :=
  let* d := gets depth in
  let* goalLit := readAt goalLits d in
  let* it := readAt unifIts d in
  let* r := tryLemmas goalLit it in
  writeAt unifIts upd_unifIts d (snd r) ;;;
  if fst r then ret true
  else
    let* tried := readAt triedEqUnif d in
    if negb tried && isEquality goalLit && isPositive goalLit then
      writeAt triedEqUnif upd_triedEqUnif d true ;;;
      let* t0 := nthArgument goalLit 0 in
      let* t1 := nthArgument goalLit 1 in
      doUnify t0 0 t1 0
    else ret false.

(** One iteration of the loop of [run], lines 115-128.  [Some b] is the
    end of the loop with [run] returning [b] (after lines 130-135 when
    [b] is true), [None] the next iteration. *)
Definition runStep : M (option bool) :=
  let* b := nextGoalUnif in
  if b then
    modify (upd_depth (fun d => d + 1)%nat) ;;;
    let* d := gets depth in
    let* n := gets goalCnt in
    if decide (d = n) then
      modify (upd_recordings (fun l => drop d l)) ;;;
      ret (Some true)
    else enterGoal ;;; ret None
  else
    leaveGoal ;;;
    let* d := gets depth in
    if decide (d = 0%nat) then ret (Some false)
    else modify (upd_depth (fun d => d - 1)%nat) ;;; ret None.

Fixpoint runLoop (fuel : nat) : M bool :=
  match fuel with
  | O => fail OutOfFuel
  | S fuel' =>
      let* r := runStep in
      match r with
      | Some b => ret b
      | None => runLoop fuel'
      end
  end.

(** *** [SubstBuilder::run], with a bound on the iterations of its loop. *)
Definition run (fuel : nat) : M bool :=
  modify (upd_depth (fun _ => 0%nat)) ;;;
  enterGoal ;;;
  runLoop fuel.

(** The constructor: every array has [_goalCnt] elements. *)
Definition SubstBuilder (goals : list Literal) (sigma : Subst) : State :=
  let n := List.length goals in
  mkState goals sigma [] (replicate n []) (replicate n []) (replicate n false)
    0%nat [].


(** *** The calls of a search *)

(** The number of calls of [unify] made at depth [d] since the goal at that
    depth was last entered, in a trace that has its newest call first. *)
Fixpoint fallbacksSinceEntry (d : nat) (t : list Event) : nat :=
  match t with
  | [] => 0
  | EnterGoal d' :: t' =>
      if decide (d' = d) then 0%nat else fallbacksSinceEntry d t'
  | Unify d' _ _ _ _ _ :: t' =>
      ((if decide (d' = d) then 1 else 0) + fallbacksSinceEntry d t')%nat
  | _ :: t' => fallbacksSinceEntry d t'
  end.

Definition isUnifyArgs (e : Event) : Prop :=
  match e with
  | UnifyArgs _ _ _ _ _ _ => True
  | _ => False
  end.

(** The calls of [unifyArgs] that exhaust an iterator without success. *)
Definition failedLemmas (d : nat) (goalLit : Literal) (it : list SLQueryResult)
  : list Event :=
  rev (map (fun qres => UnifyArgs d goalLit 0 (literal qres) 1 false) it).

(** The states of a run of [run] in which [nextGoalUnif] is called: the
    state in which the loop is entered and the state after each iteration
    that does not end it. *)
Inductive reachable (goals : list Literal) (sigma : Subst) : State -> Prop :=
| reachable_start s :
    bind (modify (upd_depth (fun _ => 0%nat))) (fun _ => enterGoal)
      (SubstBuilder goals sigma) = Ok tt s ->
    reachable goals sigma s
| reachable_step s s' :
    reachable goals sigma s -> runStep s = Ok None s' -> reachable goals sigma s'.

(** What [runStep] does after [nextGoalUnif] has returned false, lines
    123-127. *)
Definition backtrackStep : M (option bool) :=
  leaveGoal ;;;
  let* d := gets depth in
  if decide (d = 0%nat) then ret (Some false)
  else modify (upd_depth (fun d => d - 1)%nat) ;;; ret None.

(** A step that leaves the goals, the depth and the flags alone and only
    adds calls of [unifyArgs] to the trace. *)
Definition quiet (s s' : State) : Prop :=
  goalLits s' = goalLits s /\ depth s' = depth s
  /\ triedEqUnif s' = triedEqUnif s
  /\ exists evs, trace s' = evs ++ trace s /\ Forall isUnifyArgs evs.

(** The flag of a depth is set whenever [unify] has been called at that
    depth since the goal was entered, which has happened at most once; and
    every call of [unify] was on the two arguments, in bank 0, of a goal
    that is a positive equality. *)
Definition searchInv (s : State) : Prop :=
  (forall d, (fallbacksSinceEntry d (trace s) <= 1)%nat
             /\ (fallbacksSinceEntry d (trace s) = 1%nat ->
                 triedEqUnif s !! d = Some true))
  /\ (forall d t1 b1 t2 b2 ok,
        Unify d t1 b1 t2 b2 ok ∈ trace s ->
        exists L, goalLits s !! d = Some L
                  /\ isEquality L = true /\ isPositive L = true
                  /\ args L !! 0%nat = Some t1 /\ args L !! 1%nat = Some t2
                  /\ b1 = 0%nat /\ b2 = 0%nat).

(** *** The bookkeeping of a search *)

(** What [backtrack] relies on: undoing a successful unification gives back
    the substitution it was made in. *)
Definition undoes : Prop :=
  (forall t1 b1 t2 b2 sigma r,
      unify t1 b1 t2 b2 sigma = Some r -> undo (snd r) (fst r) = sigma)
  /\ (forall l1 b1 l2 b2 sigma r,
        unifyArgs l1 b1 l2 b2 sigma = Some r -> undo (snd r) (fst r) = sigma).

(** What [backtrack] does to the substitution. *)
Definition unwind (us : list Undo) (sigma : Subst) : Subst :=
  fold_left (fun acc u => undo u acc) us sigma.

(** The recordings in progress at depth [d]: one for each goal entered,
    innermost first. *)
Fixpoint countdown (d : nat) : list nat :=
  d :: match d with
       | O => []
       | S d' => countdown d'
       end.

(** The unifications recorded for the goals up to depth [d], newest first. *)
Fixpoint pendingUpTo (s : State) (d : nat) : list Undo :=
  default [] (btData s !! d)
  ++ match d with
     | O => []
     | S d' => pendingUpTo s d'
     end.

(** What is left to try for the goal at depth [i]: the lemmas that its
    iterator has not yielded, and the equality fallback while its flag is
    not set. *)
Definition remaining (s : State) (i : nat) : nat :=
  (List.length (default [] (unifIts s !! i))
   + (if default false (triedEqUnif s !! i) then 0 else 1))%nat.

(** A bound on the iterations of the loop of [run] for the goals [goals]. *)
Fixpoint searchBound (goals : list Literal) : nat :=
  match goals with
  | [] => 0
  | g :: rest =>
      ((List.length (getUnifications g) + 1) * (1 + searchBound rest) + 1)%nat
  end.

(** A bound on the iterations left in state [s], by the goals up to depth
    [d]. *)
Fixpoint potentialUpTo (s : State) (d : nat) : nat :=
  (remaining s d * (1 + searchBound (drop (S d) (goalLits s))) + 1
   + match d with
     | O => 0
     | S d' => potentialUpTo s d'
     end)%nat.

(** The invariant of the loop of [run] for the substitution [sigma] that
    the search started with: a goal is entered at every depth up to
    [_depth] and one recording is in progress for each; nothing is recorded
    for the goals below; and undoing what is recorded gives [sigma]. *)
Definition runInv (sigma : Subst) (s : State) : Prop :=
  (depth s < goalCnt s)%nat
  /\ List.length (btData s) = goalCnt s
  /\ List.length (unifIts s) = goalCnt s
  /\ List.length (triedEqUnif s) = goalCnt s
  /\ recordings s = countdown (depth s)
  /\ (forall i, (depth s < i)%nat -> (i < goalCnt s)%nat -> btData s !! i = Some [])
  /\ (undoes -> unwind (pendingUpTo s (depth s)) (subst s) = sigma).

(** A step at depth [d] that only unifies: what it changes in the
    substitution it records in [_btData[d]]. *)
Definition recorded (d : nat) (s s' : State) : Prop :=
  goalLits s' = goalLits s /\ depth s' = depth s
  /\ recordings s' = recordings s
  /\ unifIts s' = unifIts s /\ triedEqUnif s' = triedEqUnif s
  /\ exists us, btData s' = alter (fun old => us ++ old) d (btData s)
                /\ (undoes -> unwind us (subst s') = subst s).

(** A positive equality among the goals has its two arguments. *)
Definition hasArguments (l : Literal) : Prop :=
  isEquality l = true -> isPositive l = true ->
  (2 <= List.length (args l))%nat.
(** The flag of a goal that is entered is set only when [unify] has been
    called at its depth since it was entered. *)
Definition entryInv (s : State) : Prop :=
  forall d, (d <= depth s)%nat -> triedEqUnif s !! d = Some true ->
            fallbacksSinceEntry d (trace s) = 1%nat.

End SubstBuilder.
End SubstBuilder.

(** ** [AnswerExtractor::getNeededUnits] (AnswerExtractor.cpp, lines 58-90) *)

Module AnswerExtractor.
Import Kernel.

#[global] Instance Rule_eq_dec : EqDecision Rule.
Proof. solve_decision. Defined.

Section AnswerExtractor.

(** Modelled from the spec: [InferenceStore] and [UnitSpec] are missing.  A
    [UnitSpec] names a unit with or without its propositional part;
    [getParents] gives the rule that a unit was derived by and the premises
    of the inference, in the order in which its iterator yields them. *)
Context {Unit UnitSpec : Type} `{Countable UnitSpec}.
Variable mkUnitSpec : Unit -> bool -> UnitSpec.
Variable unit : UnitSpec -> Unit.
Variable isClause : UnitSpec -> bool.
Variable getParents : UnitSpec -> Rule * list UnitSpec.

(** The locals of [getNeededUnits] and its two out-parameters; each stack
    has its top at the head. *)
Record State : Type := mkState {
  seen : gset UnitSpec;
  toDo : list UnitSpec;
  premiseClauses : list Unit;
  conjectures : list Unit
}.

(** The condition of lines 79-80. *)
Definition isPremiseClause (curr : UnitSpec) (infRule : Rule) : bool :=
  bool_decide (infRule = CLAUSIFY)
  || (isClause curr
      && (bool_decide (infRule = INPUT)
          || bool_decide (infRule = NEGATED_CONJECTURE_RULE))).

(** Lines 69-88: one iteration of the loop, for the [curr] that
    [toDo.pop()] gives and the [rest] of the stack. *)
Definition visit (curr : UnitSpec) (rest : list UnitSpec) (s : State) : State :=
  if decide (curr ∈ seen s) then
    mkState (seen s) rest (premiseClauses s) (conjectures s)
  else
    let infRule := fst (getParents curr) in
    let parents := snd (getParents curr) in
    mkState ({[curr]} ∪ seen s) (rev parents ++ rest)
      (if isPremiseClause curr infRule then unit curr :: premiseClauses s
       else premiseClauses s)
      (if bool_decide (infRule = NEGATED_CONJECTURE_RULE)
       then unit curr :: conjectures s
       else conjectures s).

(** The loop of lines 68-89, with a bound on its iterations. *)
Fixpoint loop (fuel : nat) (s : State) : option State :=
  match toDo s with
  | [] => Some s
  | curr :: rest =>
      match fuel with
      | O => None
      | S fuel' => loop fuel' (visit curr rest s)
      end
  end.

(** *** [AnswerExtractor::getNeededUnits]: the two stacks after the call. *)
Definition getNeededUnits (fuel : nat) (refutation : Unit)
    (premiseClauses0 conjectures0 : list Unit) : option (list Unit * list Unit) :=
  match loop fuel (mkState ∅ [mkUnitSpec refutation false]
                     premiseClauses0 conjectures0) with
  | Some s => Some (premiseClauses s, conjectures s)
  | None => None
  end.

(** *** The units of a derivation *)

(** [x] is [root] or a premise, of a premise, ... of [root]. *)
Inductive needed (root : UnitSpec) : UnitSpec -> Prop :=
| needed_root : needed root root
| needed_parent x p :
    needed root x -> p ∈ snd (getParents x) -> needed root p.

(** A bound on the iterations of the loop for a derivation within the
    units [universe]. *)
Definition neededBound (universe : list UnitSpec) : nat :=
  (1 + sum_list_with (fun x => 1 + List.length (snd (getParents x))) universe)%nat.

(** The iterations left in state [s]. *)
Definition workLeft (universe : list UnitSpec) (s : State) : nat :=
  (List.length (toDo s)
   + sum_list_with (fun x => 1 + List.length (snd (getParents x)))
       (filter (fun x => x ∉ seen s) universe))%nat.

(** The invariant of the loop: [order] are the units visited, the newest
    first. *)
Definition visited (root : UnitSpec) (premiseClauses0 conjectures0 : list Unit)
    (order : list UnitSpec) (s : State) : Prop :=
  NoDup order
  /\ (forall x, x ∈ seen s <-> x ∈ order)
  /\ (forall x, x ∈ order -> needed root x)
  /\ (forall x, x ∈ toDo s -> needed root x)
  /\ (forall x p, x ∈ order -> p ∈ snd (getParents x) -> p ∈ order \/ p ∈ toDo s)
  /\ (root ∈ order \/ root ∈ toDo s)
  /\ premiseClauses s
     = map unit (filter (fun x => Is_true (isPremiseClause x (fst (getParents x)))) order)
       ++ premiseClauses0
  /\ conjectures s
     = map unit (filter (fun x => fst (getParents x) = NEGATED_CONJECTURE_RULE) order)
       ++ conjectures0.

End AnswerExtractor.
End AnswerExtractor.

(** A derivation with a shared premise: the refutation 0 comes from the
    clauses 1 and 2, and both come from the negated conjecture 3, a
    formula. *)
Module NeededUnitsExamples.
Import Kernel AnswerExtractor.

Definition isClause (x : nat * bool) : bool := bool_decide (fst x <> 3%nat).

Definition getParents (x : nat * bool) : Rule * list (nat * bool) :=
  match fst x with
  | 0%nat => (UNIT_RESULTING_RESOLUTION, [(1%nat, false); (2%nat, false)])
  | 1%nat => (CLAUSIFY, [(3%nat, false)])
  | 2%nat => (CLAUSIFY, [(3%nat, false)])
  | 3%nat => (NEGATED_CONJECTURE_RULE, [])
  | _ => (INPUT, [])
  end.

Definition derivation : list (nat * bool) :=
  [(0%nat, false); (1%nat, false); (2%nat, false); (3%nat, false)].

Definition getNeededUnits (fuel : nat) (refutation : nat)
  : option (list nat * list nat) :=
  AnswerExtractor.getNeededUnits pair fst isClause getParents fuel refutation [] [].

End NeededUnitsExamples.

(** ** The union-find structure of the interpolation
    ([Shell/InterpolantsNew.cpp]) *)

Module InterpolantsNew.

(** A [Unit*], as an address. *)
Definition Unit : Type := nat.

(** [UnionFindMap]: [std::unordered_map<Unit*, Unit*>]; a unit that is
    its own representative has no entry. *)
Abbreviation UnionFindMap := (gmap Unit Unit).

(** A call returns, or it is aborted by one of the [assert]s of
    [<assert.h>] (lines 575 and 589), or the bound on the iterations of
    the loop of [root] is reached. *)
Inductive Outcome (A : Type) : Type :=
| Returns (a : A)
| AssertionFailed
| OutOfFuel.
#[global] Arguments Returns {A} a.
#[global] Arguments AssertionFailed {A}.
#[global] Arguments OutOfFuel {A}.

Definition andThen {A B} (o : Outcome A) (k : A -> Outcome B) : Outcome B :=
  match o with
  | Returns a => k a
  | AssertionFailed => AssertionFailed
  | OutOfFuel => OutOfFuel
  end.

(** [InterpolantsNew::root], with a bound on the iterations of its loop.
    The assertion of line 575 fails at an entry that maps a unit to
    itself. *)
Fixpoint root (fuel : nat) (unitsToRepresentative : UnionFindMap) (unit : Unit)
  : Outcome Unit :=
  match unitsToRepresentative !! unit with
  | None => Returns unit
  | Some next =>
      if decide (next = unit) then AssertionFailed
      else
        match fuel with
        | O => OutOfFuel
        | S fuel' => root fuel' unitsToRepresentative next
        end
  end.

(** [InterpolantsNew::find] *)
Definition find (fuel : nat) (unitsToRepresentative : UnionFindMap)
    (unit1 unit2 : Unit) : Outcome bool :=
  andThen (root fuel unitsToRepresentative unit1) (fun root1 =>
  andThen (root fuel unitsToRepresentative unit2) (fun root2 =>
  Returns (bool_decide (root1 = root2)))).

(** [InterpolantsNew::merge]: the map afterwards.  The assertion of line
    589 fails when the two units are the same. *)
Definition merge (fuel : nat) (unitsToRepresentative : UnionFindMap)
    (unit1 unit2 : Unit) : Outcome UnionFindMap :=
  if decide (unit1 = unit2) then AssertionFailed
  else
    andThen (root fuel unitsToRepresentative unit1) (fun root1 =>
    andThen (root fuel unitsToRepresentative unit2) (fun root2 =>
    if decide (root1 <> root2)
    then Returns (<[root2 := root1]> unitsToRepresentative)
    else Returns unitsToRepresentative)).

(** Following the entries of the map from [u] ends in [r]. *)
Inductive rootOf (m : UnionFindMap) : Unit -> Unit -> Prop :=
| rootOf_here u : m !! u = None -> rootOf m u u
| rootOf_step u v r : m !! u = Some v -> rootOf m v r -> rootOf m u r.

(** The loop of [root] ends for every unit. *)
Definition terminating (m : UnionFindMap) : Prop := forall u, exists r, rootOf m u r.

(** Two units are in one class. *)
Definition sameClass (m : UnionFindMap) (a b : Unit) : Prop :=
  exists r, rootOf m a r /\ rootOf m b r.

End InterpolantsNew.

(** ** Variable names of the formula builder ([Api/Helper.cpp],
    [class FBHelperCore]) *)

Module FBHelperCore.

(** What the methods throw. *)
Inductive Exception : Type :=
| FormulaBuilderException (msg : string)
| InvalidTPTPNameException (msg : string) (name : string).

(** The members [_checkNames], [vars], [varNames] and [nextVar]. *)
Record State : Type := mkState {
  _checkNames : bool;
  vars : gmap string Z;
  varNames : gmap Z string;
  nextVar : Z
}.

(** [isupper], in the C locale. *)
Definition isupper (c : Ascii.ascii) : bool :=
  (65 <=? Z.of_nat (Ascii.nat_of_ascii c)) && (Z.of_nat (Ascii.nat_of_ascii c) <=? 90).

(** [varName[0]]: for the empty string this is the terminating null
    character. *)
Definition firstChar (varName : string) : Ascii.ascii :=
  match varName with
  | EmptyString => Ascii.zero
  | String c _ => c
  end.

(** Modelled from the spec: [Lib::Map::insert] is missing.  It stores the
    value under the key unless the key has a value already, and returns
    the value that is stored under the key afterwards. *)
Definition Map_insert `{Countable K} {V} (key : K) (val : V) (m : gmap K V)
  : V * gmap K V :=
  match m !! key with
  | Some stored => (stored, m)
  | None => (val, <[key := val]> m)
  end.

(** [FBHelperCore::getVar]: the variable or the exception thrown, and the
    state afterwards. *)
Definition getVar (varName : string) (s : State) : (Z + Exception) * State :=
  if _checkNames s && negb (isupper (firstChar varName)) then
    (inr (InvalidTPTPNameException
            "Variable name must start with an uppercase character" varName), s)
  else
    let '(res, vars') := Map_insert varName (nextVar s) (vars s) in
    if decide (res = nextVar s) then
      (inl res,
       mkState (_checkNames s) vars'
         (snd (Map_insert res varName (varNames s)))
         (Unsigned.add (nextVar s) 1))
    else (inl res, mkState (_checkNames s) vars' (varNames s) (nextVar s)).

(** [FBHelperCore::getVarName]; what it prints before it throws is not
    modelled. *)
Definition getVarName (v : Z) (s : State) : string + Exception :=
  match varNames s !! v with
  | Some res => inl res
  | None =>
      inr (FormulaBuilderException
             "Var object was used in FormulaBuilder object which did not create it")
  end.

(** The names that [getVarAlias] tries, and the loop that tries them:
    [do { i++; name=origName+"_"+Int::toString(i); } while(vars.find(name))],
    with a bound on its iterations.  [Int::toString] is declared
    elsewhere. *)
Definition aliasName (Int_toString : Z -> string) (origName : string) (i : Z)
  : string :=
  origName +:+ "_" +:+ Int_toString i.

Fixpoint aliasLoop (Int_toString : Z -> string) (fuel : nat) (origName : string)
    (i : Z) (s : State) : option string :=
  match fuel with
  | O => None
  | S fuel' =>
      let i' := i + 1 in
      let name := aliasName Int_toString origName i' in
      match vars s !! name with
      | Some _ => aliasLoop Int_toString fuel' origName i' s
      | None => Some name
      end
  end.

(** [FBHelperCore::FBVarFactory::getVarAlias]; [None] when the bound is
    reached. *)
Definition getVarAlias (Int_toString : Z -> string) (fuel : nat) (var : Z)
    (s : State) : option ((Z + Exception) * State) :=
  match getVarName var s with
  | inr e => Some (inr e, s)
  | inl origName =>
      match aliasLoop Int_toString fuel origName 0 s with
      | Some name => Some (getVar name s)
      | None => None
      end
  end.

(** [FBHelperCore::FBVarFactory::getVarName] *)
Definition FBVarFactory_getVarName (var : Z) (s : State) : string + Exception :=
  getVarName var s.

(** A new [FBHelperCore]: no variable is known. *)
Definition initial (checkNames : bool) : State := mkState checkNames ∅ ∅ 0.

(** The two maps are inverse to each other and know the variables below
    [nextVar]. *)
Definition consistent (s : State) : Prop :=
  (forall name v, vars s !! name = Some v <-> varNames s !! v = Some name)
  /\ (forall v name, varNames s !! v = Some name -> 0 <= v < nextVar s)
  /\ 0 <= nextVar s.

End FBHelperCore.

(** ** Three-valued booleans ([Lib/MaybeBool.hpp]) *)

Module MaybeBool.

(** [enum Value] *)
Inductive Value : Type :=
| FALSE
| TRUE
| UNKNOWN.

#[global] Instance Value_eq_dec : EqDecision Value.
Proof. solve_decision. Defined.

Record MaybeBool : Type := mkMaybeBool { _value : Value }.

(** The constructors [MaybeBool()] and [MaybeBool(bool val)]. *)
Definition default : MaybeBool := mkMaybeBool UNKNOWN.
Definition ofBool (val : bool) : MaybeBool := mkMaybeBool (if val then TRUE else FALSE).

Definition known (m : MaybeBool) : bool := bool_decide (_value m <> UNKNOWN).
Definition isTrue (m : MaybeBool) : bool := bool_decide (_value m = TRUE).
Definition isFalse (m : MaybeBool) : bool := bool_decide (_value m = FALSE).

(** [operator==], on another [MaybeBool] and on a [Value]. *)
Definition eqb (m o : MaybeBool) : bool := bool_decide (_value m = _value o).
Definition eqbValue (m : MaybeBool) (o : Value) : bool := bool_decide (_value m = o).

(** [value]: [_value==TRUE] *)
Definition value (m : MaybeBool) : bool := bool_decide (_value m = TRUE).

Definition makeUnknown (m : MaybeBool) : MaybeBool := mkMaybeBool UNKNOWN.

Definition mightBecameFalse (m : MaybeBool) : MaybeBool :=
  if isTrue m then makeUnknown m else m.

Definition mightBecameTrue (m : MaybeBool) : MaybeBool :=
  if isFalse m then makeUnknown m else m.

End MaybeBool.

(** ** Interpreted symbols ([Kernel/Theory.hpp]) *)

Module Theory.

(** [enum Interpretation], in declaration order. *)
Inductive Interpretation : Type :=
| EQUAL
| GREATER
| GREATER_EQUAL
| LESS
| LESS_EQUAL
| INT_GREATER
| INT_GREATER_EQUAL
| INT_LESS
| INT_LESS_EQUAL
| SUCCESSOR
| UNARY_MINUS
| PLUS
| MINUS
| MULTIPLY
| DIVIDE
| INT_DIVIDE.

#[global] Instance Interpretation_eq_dec : EqDecision Interpretation.
Proof. solve_decision. Defined.

(** The integer value the compiler gives each enumerator. *)
Definition Interpretation_value (i : Interpretation) : Z :=
  match i with
  | EQUAL => 0
  | GREATER => 1
  | GREATER_EQUAL => 2
  | LESS => 3
  | LESS_EQUAL => 4
  | INT_GREATER => 5
  | INT_GREATER_EQUAL => 6
  | INT_LESS => 7
  | INT_LESS_EQUAL => 8
  | SUCCESSOR => 9
  | UNARY_MINUS => 10
  | PLUS => 11
  | MINUS => 12
  | MULTIPLY => 13
  | DIVIDE => 14
  | INT_DIVIDE => 15
  end.

Definition interpretationElementCount : Z := 16.

Definition all_Interpretations : list Interpretation :=
  [EQUAL; GREATER; GREATER_EQUAL; LESS; LESS_EQUAL; INT_GREATER;
   INT_GREATER_EQUAL; INT_LESS; INT_LESS_EQUAL; SUCCESSOR; UNARY_MINUS;
   PLUS; MINUS; MULTIPLY; DIVIDE; INT_DIVIDE].

End Theory.

(** ** Instances of the interfaces above

  The code behind the interfaces is not part of the modelled sources.
  The instances here supply them for running the model on concrete
  inputs. *)

Module ROBDD.
Import Kernel.

(** Modelled from the spec: the implementation of [Kernel::BDD] is
    missing.  A node of a reduced ordered BDD is the constant true, the
    constant false, or a triple (var, low, high); variables are ordered by
    their number, and hash-consing makes equal nodes identical. *)
Inductive node : Type :=
| Leaf (b : bool)
| Node (var : Z) (low high : node).

#[global] Instance node_eq_dec : EqDecision node.
Proof. solve_decision. Defined.

(** No node has two equal children. *)
Definition mk (v : Z) (l h : node) : node :=
  if decide (l = h) then l else Node v l h.

Fixpoint apply (op : bool -> bool -> bool) (a : node) : node -> node :=
  fix inner (b : node) : node :=
    match a, b with
    | Leaf x, Leaf y => Leaf (op x y)
    | Leaf _, Node vb lb hb => mk vb (inner lb) (inner hb)
    | Node va la ha, Leaf _ => mk va (apply op la b) (apply op ha b)
    | Node va la ha, Node vb lb hb =>
        if Z.eqb va vb then mk va (apply op la lb) (apply op ha hb)
        else if Z.ltb va vb then mk va (apply op la b) (apply op ha b)
        else mk vb (inner lb) (inner hb)
    end.

Definition atomic (v : Z) (positive : bool) : node :=
  Node v (Leaf (negb positive)) (Leaf positive).

#[global] Instance bdd : BDD node := {|
  getTrue := Leaf true;
  getFalse := Leaf false;
  getAtomic := atomic;
  conjunction := apply andb;
  disjunction := apply orb;
  isTrue n := bool_decide (n = Leaf true);
  isFalse n := bool_decide (n = Leaf false)
|}.

End ROBDD.

Module Components.

(** Modelled from the spec: the implementation of [IntUnionFind] is
    missing.  The elements [0..n-1] are partitioned into classes, two
    elements being in one class when a chain of unions links them; the
    classes are kept in the order of their first elements. *)
Definition classOf (x : nat) (classes : list (list nat)) : list nat :=
  default [] (head (filter (fun c => x ∈ c) classes)).

Definition union (classes : list (list nat)) (ab : nat * nat) : list (list nat) :=
  let ca := classOf (fst ab) classes in
  let cb := classOf (snd ab) classes in
  if decide (ca = cb) then classes
  else
    let '(lower, upper) :=
      if decide (default 0 (head ca) <= default 0 (head cb))%nat
      then (ca, cb) else (cb, ca) in
    omap (fun c => if decide (c = lower) then Some (lower ++ upper)
                   else if decide (c = upper) then None
                   else Some c) classes.

Definition components (n : nat) (unions : list (nat * nat)) : list (list nat) :=
  fold_left union unions (map (fun i => [i]) (seq 0 n)).

(** A variant test for ground clauses: the same literals in the same
    order. *)
Definition sameLiterals (l1 l2 : list Kernel.Literal) : bool :=
  bool_decide (l1 = l2).

End Components.

(** Concrete clauses and states of the splitter, over the interfaces
    above. *)
Module SplitterExamples.
Import Kernel Splitter.

Definition doSplitting := Splitter.doSplitting (BDDNode := ROBDD.node)
  Components.sameLiterals Components.components.

(** The propositional literals [p] and [~r] and the literals [q(X)],
    [t(Y)] and [u(Y)]. *)
Definition p : Literal := mkLiteral 1 true [].
Definition not_p : Literal := mkLiteral 1 false [].
Definition not_r : Literal := mkLiteral 2 false [].
Definition q_X : Literal := mkLiteral 3 true [OrdVar 0].
Definition t_Y : Literal := mkLiteral 4 true [OrdVar 1].
Definition u_Y : Literal := mkLiteral 5 true [OrdVar 1].

Definition inputClause (lits : list Literal) (pr : ROBDD.node) : Clause ROBDD.node :=
  mkClause lits AXIOM (Inference0 INPUT) (Some pr) None.

(** The unit clause [p]. *)
Definition unit_p : Clause ROBDD.node := inputClause [p] (ROBDD.Leaf false).

(** The clause [p \/ ~r \/ q(X)], with three components. *)
Definition p_r_q : Clause ROBDD.node :=
  inputClause [p; not_r; q_X] (ROBDD.Leaf false).

(** The locals and the state of [doSplitting] on [p \/ ~r \/ q(X)] when
    the first loop has handled the component of [p]. *)
Definition after_p : Res (Locals (BDDNode := ROBDD.node)) :=
  foldM (propositionalComponent p_r_q) [[0%nat]]
    (initialLocals 0%nat (ROBDD.Leaf false) 3) (countSplit 3 (initial [p_r_q] 1)).

Definition after_p_locals : Locals :=
  match after_p with
  | Ok a _ => a
  | Failed _ => initialLocals 0%nat (ROBDD.Leaf false) 3
  end.

Definition after_p_state : State :=
  match after_p with
  | Ok _ s => s
  | Failed _ => initial [] 0
  end.

(** The clauses [q(X) \/ t(Y)], unconditional, and [q(X) \/ u(Y)], which
    holds under the negation of variable 1. *)
Definition q_t : Clause ROBDD.node := inputClause [q_X; t_Y] (ROBDD.Leaf false).
Definition q_u : Clause ROBDD.node := inputClause [q_X; u_Y] (ROBDD.atomic 1 false).

(** The state after [q(X) \/ t(Y)] has been split: [q(X)] has the name 1. *)
Definition q_named : State :=
  match doSplitting 0%nat (initial [q_t; q_u] 1) with
  | Ok _ s => s
  | Failed _ => initial [] 0
  end.

(** The state after [getPropPredName] has been called on [p] in the
    initial state. *)
Definition p_named : State (BDDNode := ROBDD.node) :=
  match getPropPredName p (initial [] 1) with
  | Ok _ s => s
  | Failed _ => initial [] 0
  end.

(** The iterators and the state that [doSplitting] leaves on
    [p \/ ~r \/ q(X)] in the initial state. *)
Definition p_r_q_emitted : list ClausePtr * list ClausePtr :=
  match doSplitting 0%nat (initial [p_r_q] 1) with
  | Ok a _ => a
  | Failed _ => ([], [])
  end.

Definition p_r_q_split : State :=
  match doSplitting 0%nat (initial [p_r_q] 1) with
  | Ok _ s => s
  | Failed _ => initial [] 0
  end.

End SplitterExamples.

(** Concrete units and states of the answer literal manager. *)
Module AnswerExamples.
Import Kernel AnswerLiteralManager.

(** The signature with the predicate [p] and the answer predicate [ans],
    both of arity 1. *)
Definition signature : list Symbol := [mkSymbol 1 false; mkSymbol 1 true].

Definition a : TermList := Ref 0 [].
Definition p_X : Literal := mkLiteral 0 true [OrdVar 0].
Definition not_ans_a : Literal := mkLiteral 1 false [a].

(** The clause [~ans(a)], without propositional part and without splits. *)
Definition answerClause : Clause ROBDD.node :=
  mkClause [not_ans_a] NEGATED_CONJECTURE (Inference0 CLAUSIFY) None None.

Definition reported : State (BDDNode := ROBDD.node) :=
  initial signature [ClauseUnit answerClause].

(** The conjecture [not (exists X. p(X))]. *)
Definition conjecture : Unit (BDDNode := ROBDD.node) :=
  FormulaUnit (NegatedFormula (QuantifiedFormula EXISTS [0] (AtomicFormula p_X)))
    (Inference0 INPUT) CONJECTURE.

Definition parsed : State (BDDNode := ROBDD.node) :=
  initial [mkSymbol 1 false] [conjecture].

(** A flattening for formulas that are flat already. *)
Definition noFlattening (f : Formula) : Formula := f.

(** The conjecture [not (exists X. p(X))] for the variable [X] that has
    the number [2^30]. *)
Definition wide : Z := 2 ^ 30.
Definition p_wide : Literal := mkLiteral 0 true [OrdVar wide].

Definition wideConjecture : Unit (BDDNode := ROBDD.node) :=
  FormulaUnit (NegatedFormula (QuantifiedFormula EXISTS [wide] (AtomicFormula p_wide)))
    (Inference0 INPUT) CONJECTURE.

Definition parsedWide : State (BDDNode := ROBDD.node) :=
  initial [mkSymbol 1 false] [wideConjecture].

End AnswerExamples.

(** A search of the conjunctive goal extractor over a substitution that
    only unifies equal terms. *)
Module SearchExamples.
Import Kernel SubstBuilder.

Definition syntacticUnify (t1 : TermList) (b1 : nat) (t2 : TermList) (b2 : nat)
    (sigma : unit) : option (unit * unit) :=
  if decide (t1 = t2) then Some (tt, tt) else None.

Definition syntacticUnifyArgs (l1 : Literal) (b1 : nat) (l2 : Literal) (b2 : nat)
    (sigma : unit) : option (unit * unit) :=
  if decide (args l1 = args l2) then Some (tt, tt) else None.

Definition noUndo (u sigma : unit) : unit := sigma.

Definition a : TermList := Ref 1 [].
Definition b : TermList := Ref 2 [].

(** The goal [a = a] and a lemma index whose only candidate is [a = b]. *)
Definition a_eq_a : Literal := mkLiteral 0 true [a; a].
Definition a_eq_b : Literal := mkLiteral 0 true [a; b].

Definition lemmas (goal : Literal) : list SLQueryResult :=
  [mkSLQueryResult a_eq_b 0].

(** The state in which the loop of [run] is entered. *)
Definition entered : State (Subst := unit) (Undo := unit) :=
  match bind (modify (upd_depth (fun _ => 0%nat))) (fun _ => enterGoal lemmas)
          (SubstBuilder [a_eq_a] tt) with
  | Ok _ s => s
  | Failed _ => SubstBuilder [] tt
  end.

(** A substitution that binds variables, with the substitution before as
    what undoes a unification. *)
Definition Bindings : Type := list (Z * TermList).

Fixpoint bindingOf (v : Z) (sigma : Bindings) : option TermList :=
  match sigma with
  | [] => None
  | (w, t) :: rest => if decide (w = v) then Some t else bindingOf v rest
  end.

Definition bindUnify (t1 : TermList) (b1 : nat) (t2 : TermList) (b2 : nat)
    (sigma : Bindings) : option (Bindings * Bindings) :=
  if decide (t1 = t2) then Some (sigma, sigma) else None.

Definition bindUnifyArgs (l1 : Literal) (b1 : nat) (l2 : Literal) (b2 : nat)
    (sigma : Bindings) : option (Bindings * Bindings) :=
  match args l1, args l2 with
  | [OrdVar v], [t] =>
      match bindingOf v sigma with
      | Some t' => if decide (t' = t) then Some (sigma, sigma) else None
      | None => Some ((v, t) :: sigma, sigma)
      end
  | _, _ => if decide (args l1 = args l2) then Some (sigma, sigma) else None
  end.

Definition restore (u sigma : Bindings) : Bindings := u.

(** The goals [q(X)] and [r(X)], with the lemmas [q(a)], [q(b)] and
    [r(c)]: no binding of [X] answers both. *)
Definition c : TermList := Ref 3 [].
Definition q_X : Literal := mkLiteral 3 true [OrdVar 0].
Definition r_X : Literal := mkLiteral 4 true [OrdVar 0].
Definition q_a : Literal := mkLiteral 3 true [a].
Definition q_b : Literal := mkLiteral 3 true [b].
Definition r_c : Literal := mkLiteral 4 true [c].

Definition unitLemmas (goal : Literal) : list SLQueryResult :=
  if decide (functor goal = 3) then [mkSLQueryResult q_a 0; mkSLQueryResult q_b 1]
  else [mkSLQueryResult r_c 2].

(** The search for [q(X) /\ r(X)] and the state it ends in. *)
Definition conjunctionSearch : Res (Subst := Bindings) (Undo := Bindings) bool :=
  run bindUnify bindUnifyArgs restore unitLemmas 13 (SubstBuilder [q_X; r_X] []).

Definition conjunctionSearched : State (Subst := Bindings) (Undo := Bindings) :=
  match conjunctionSearch with
  | Ok _ s => s
  | Failed _ => SubstBuilder [] []
  end.

End SearchExamples.

(** * Properties *)

(** ** Literal headers *)

Module LiteralHeader.
Import Kernel.

Lemma wrap_small z : Unsigned.in_range z -> Unsigned.wrap z = z.
Proof. unfold Unsigned.in_range, Unsigned.wrap. intros H. apply Z.mod_small. exact H. Qed.

Lemma polarity_cases l : polarity l = 0 \/ polarity l = 1.
Proof. unfold polarity. destruct (polarity_bit l); auto. Qed.

Lemma polarity_negate l : polarity (negate l) = 1 - polarity l.
Proof. unfold polarity, negate. simpl. destruct (polarity_bit l); reflexivity. Qed.

(** The header of a literal whose predicate number is below [2^31] is
    computed without overflow. *)
Lemma in_range_iff z : Unsigned.in_range z <-> 0 <= z < 4294967296.
Proof. reflexivity. Qed.

Lemma header_small l :
  0 <= functor l < 2 ^ 31 -> header l = 2 * functor l + polarity l.
Proof.
  intros Hp. change (2 ^ 31) with 2147483648 in Hp.
  unfold header, Unsigned.add, Unsigned.mul.
  destruct (polarity_cases l) as [Hq | Hq]; rewrite Hq;
    rewrite (wrap_small (2 * functor l)), wrap_small;
    try reflexivity; apply in_range_iff; lia.
Qed.

Lemma complementaryHeader_small l :
  0 <= functor l < 2 ^ 31 -> complementaryHeader l = 2 * functor l + 1 - polarity l.
Proof.
  intros Hp. change (2 ^ 31) with 2147483648 in Hp.
  unfold complementaryHeader, Unsigned.add, Unsigned.sub, Unsigned.mul.
  destruct (polarity_cases l) as [Hq | Hq]; rewrite Hq;
    rewrite (wrap_small (2 * functor l)), (wrap_small (2 * functor l + 1)), wrap_small;
    try reflexivity; apply in_range_iff; lia.
Qed.

(** C7, as stated, fails: in [unsigned] arithmetic the header of a literal
    whose predicate number is [2^31] or more wraps around, so it is not
    [2*p + q] and the predicate number cannot be recovered from it. *)
Lemma header_wraps_around :
  ~ (forall l : Literal,
       Unsigned.in_range (functor l) ->
       header l = 2 * functor l + polarity l /\
       headerToPredicateNumber (header l) = functor l).
Proof.
  intros H.
  destruct (H (mkLiteral 2147483648 true [])) as [H1 _].
  - apply in_range_iff. simpl. lia.
  - vm_compute in H1. discriminate H1.
Qed.

(** C7, amended: for every literal with predicate number [p] below [2^31]
    and polarity [q], [header] is [2*p + q] and [complementaryHeader] is
    [2*p + 1 - q]; the conversions give back [p] and [q]; and the
    complementary header is the header of the literal with the same
    predicate and the opposite polarity. *)
Theorem header_roundtrip (l : Literal) :
  0 <= functor l < 2 ^ 31 ->
  header l = 2 * functor l + polarity l /\
  complementaryHeader l = 2 * functor l + 1 - polarity l /\
  headerToPredicateNumber (header l) = functor l /\
  headerToPolarity (header l) = polarity l /\
  complementaryHeader l = header (negate l).
Proof.
  intros Hp.
  pose proof (header_small l Hp) as Hh.
  pose proof (complementaryHeader_small l Hp) as Hc.
  pose proof (polarity_cases l) as Hq.
  repeat split.
  - exact Hh.
  - exact Hc.
  - rewrite Hh. unfold headerToPredicateNumber.
    destruct Hq as [-> | ->]; Z.div_mod_to_equations; lia.
  - rewrite Hh. unfold headerToPolarity.
    destruct Hq as [-> | ->]; Z.div_mod_to_equations; lia.
  - rewrite Hc, (header_small (negate l)) by exact Hp.
    rewrite polarity_negate. simpl. lia.
Qed.

Lemma header_roundtrip_witness :
  header (mkLiteral 5 true []) = 11 /\
  headerToPredicateNumber (header (mkLiteral 5 true [])) = 5.
Proof.
  destruct (header_roundtrip (mkLiteral 5 true [])) as (H1 & _ & H3 & _).
  - simpl. lia.
  - split; [exact H1 | exact H3].
Defined.

(** X8: the polarity survives the encoding of the header for every
    predicate number. *)
Theorem header_polarity (l : Literal) :
  Unsigned.in_range (functor l) ->
  headerToPolarity (header l) = polarity l
  /\ headerToPolarity (complementaryHeader l) = 1 - polarity l
  /\ complementaryHeader l = header (negate l)
  /\ header l <> complementaryHeader l
  /\ headerToPredicateNumber (header l) = functor l mod 2 ^ 31
  /\ headerToPredicateNumber (complementaryHeader l)
     = headerToPredicateNumber (header l)
  /\ (headerToPredicateNumber (header l) = functor l <-> functor l < 2 ^ 31).
Proof.
  intros Hf. destruct (proj1 (in_range_iff _) Hf) as [Hf0 Hf1].
  assert (Hn : polarity (negate l) = 1 - polarity l) by apply polarity_negate.
  assert (Hfn : functor (negate l) = functor l) by reflexivity.
  unfold header, complementaryHeader, headerToPolarity, headerToPredicateNumber.
  rewrite Hn, Hfn.
  unfold Unsigned.add, Unsigned.sub, Unsigned.mul, Unsigned.wrap,
    Unsigned.modulus, Unsigned.bits.
  change (2 ^ 32) with 4294967296. change (2 ^ 31) with 2147483648.
  assert (Hw : (2 * functor l) mod 4294967296 = 2 * (functor l mod 2147483648)).
  { Z.div_mod_to_equations. lia. }
  rewrite Hw.
  assert (Hm : 0 <= functor l mod 2147483648 < 2147483648)
    by (apply Z.mod_pos_bound; lia).
  set (g := functor l mod 2147483648) in *.
  assert (Hiff : g = functor l <-> functor l < 2147483648).
  { subst g. split; [intros E; lia | intros E; apply Z.mod_small; lia]. }
  destruct (polarity_cases l) as [Hp | Hp]; rewrite Hp.
  - replace ((2 * g + 0) mod 4294967296) with (2 * g) by (rewrite Z.mod_small by lia; lia).
    replace ((2 * g + 1) mod 4294967296) with (2 * g + 1) by (rewrite Z.mod_small by lia; lia).
    replace ((2 * g + 1 - 0) mod 4294967296) with (2 * g + 1) by (rewrite Z.mod_small by lia; lia).
    replace ((2 * g + (1 - 0)) mod 4294967296) with (2 * g + 1) by (rewrite Z.mod_small by lia; lia).
    replace ((2 * g) mod 2) with 0 by (Z.div_mod_to_equations; lia).
    replace ((2 * g + 1) mod 2) with 1 by (Z.div_mod_to_equations; lia).
    replace ((2 * g) / 2) with g by (Z.div_mod_to_equations; lia).
    replace ((2 * g + 1) / 2) with g by (Z.div_mod_to_equations; lia).
    repeat split; try lia; apply Hiff.
  - replace ((2 * g + 1) mod 4294967296) with (2 * g + 1) by (rewrite Z.mod_small by lia; lia).
    replace ((2 * g + 1 - 1) mod 4294967296) with (2 * g) by (rewrite Z.mod_small by lia; lia).
    replace ((2 * g + (1 - 1)) mod 4294967296) with (2 * g) by (rewrite Z.mod_small by lia; lia).
    replace ((2 * g) mod 2) with 0 by (Z.div_mod_to_equations; lia).
    replace ((2 * g + 1) mod 2) with 1 by (Z.div_mod_to_equations; lia).
    replace ((2 * g) / 2) with g by (Z.div_mod_to_equations; lia).
    replace ((2 * g + 1) / 2) with g by (Z.div_mod_to_equations; lia).
    repeat split; try lia; apply Hiff.
Qed.

Lemma header_polarity_witness :
  headerToPolarity (header (mkLiteral (2 ^ 31 + 5) true [])) = 1
  /\ headerToPredicateNumber (header (mkLiteral (2 ^ 31 + 5) true [])) = 5.
Proof.
  assert (Hf : Unsigned.in_range (functor (mkLiteral (2 ^ 31 + 5) true [])))
    by (vm_compute; split; [discriminate | reflexivity]).
  destruct (header_polarity (mkLiteral (2 ^ 31 + 5) true []) Hf)
    as (H1 & _ & _ & _ & H5 & _).
  split; [exact H1 | exact H5].
Defined.

End LiteralHeader.

(** ** The representation of term lists *)

Module TermListFacts.
Import TermList.

Lemma land_3 (z : Z) : 0 <= z -> Z.land z 3 = z mod 4.
Proof. intros _. change 3 with (Z.ones 2). rewrite Z.land_ones by lia. reflexivity. Qed.

Lemma land_1 (z : Z) : 0 <= z -> Z.land z 1 = z mod 2.
Proof. intros _. change 1 with (Z.ones 1) at 1. rewrite Z.land_ones by lia. reflexivity. Qed.

Lemma makeVar_content (v : Z) :
  Unsigned.in_range v -> content (makeVar v) = 4 * (v mod 2 ^ 30) + 1.
Proof.
  intros Hv. unfold makeVar, Unsigned.add, Unsigned.mul, Unsigned.wrap,
    Unsigned.modulus, Unsigned.bits, Unsigned.in_range in *. simpl.
  change (2 ^ 32) with 4294967296 in *. change (2 ^ 30) with 1073741824.
  Z.div_mod_to_equations. lia.
Qed.

Lemma makeSpecialVar_content (v : Z) :
  Unsigned.in_range v -> content (makeSpecialVar v) = 4 * (v mod 2 ^ 30) + 3.
Proof.
  intros Hv. unfold makeSpecialVar, Unsigned.add, Unsigned.mul, Unsigned.wrap,
    Unsigned.modulus, Unsigned.bits, Unsigned.in_range in *. simpl.
  change (2 ^ 32) with 4294967296 in *. change (2 ^ 30) with 1073741824.
  Z.div_mod_to_equations. lia.
Qed.

Lemma tag_mod (t : TermList) :
  0 <= content t ->
  tag t = TermTag_of (content t mod 4).
Proof. intros H. unfold tag. rewrite land_3 by exact H. reflexivity. Qed.

(** X1: the variable number survives [makeVar] and [makeSpecialVar] up to
    30 bits. *)
Theorem makeVar_var (v : Z) (special : bool) :
  Unsigned.in_range v ->
  let t := ofVar v special in
  isVar t = true
  /\ isOrdinaryVar t = negb special
  /\ isSpecialVar t = special
  /\ isTerm t = false
  /\ isEmpty t = false
  /\ var t = v mod 2 ^ 30
  /\ (var t = v <-> v < 2 ^ 30).
Proof.
  intros Hv t.
  assert (Hc : content t = 4 * (v mod 2 ^ 30) + (if special then 3 else 1)).
  { subst t. unfold ofVar. destruct special;
      [apply makeSpecialVar_content | apply makeVar_content]; exact Hv. }
  assert (Hm : 0 <= v mod 2 ^ 30 < 2 ^ 30) by (apply Z.mod_pos_bound; lia).
  assert (Hpos : 0 <= content t) by (rewrite Hc; destruct special; lia).
  assert (Htag : tag t = if special then SPEC_VAR else ORD_VAR).
  { rewrite tag_mod by exact Hpos. rewrite Hc.
    replace ((4 * (v mod 2 ^ 30) + (if special then 3 else 1)) mod 4)
      with (if special then 3 else 1).
    - destruct special; reflexivity.
    - destruct special; Z.div_mod_to_equations; lia. }
  assert (Hvar : var t = v mod 2 ^ 30).
  { unfold var. rewrite Hc.
    replace ((4 * (v mod 2 ^ 30) + (if special then 3 else 1)) / 4)
      with (v mod 2 ^ 30) by (destruct special; Z.div_mod_to_equations; lia).
    unfold Unsigned.wrap, Unsigned.modulus, Unsigned.bits.
    apply Z.mod_small. change (2 ^ 30) with 1073741824 in *.
    change (2 ^ 32) with 4294967296. lia. }
  split; [| split; [| split; [| split; [| split; [| split]]]]].
  - unfold isVar. apply bool_decide_eq_true. rewrite land_1 by exact Hpos.
    rewrite Hc. destruct special; Z.div_mod_to_equations; lia.
  - unfold isOrdinaryVar. rewrite Htag. destruct special; reflexivity.
  - unfold isSpecialVar. rewrite Htag. destruct special; reflexivity.
  - unfold isTerm. rewrite Htag. destruct special; reflexivity.
  - unfold isEmpty. rewrite Htag. destruct special; reflexivity.
  - exact Hvar.
  - rewrite Hvar. unfold Unsigned.in_range, Unsigned.modulus, Unsigned.bits in Hv.
    split.
    + intros E. rewrite <- E. lia.
    + intros Hlt. apply Z.mod_small. lia.
Qed.

Lemma makeVar_var_witness :
  Unsigned.in_range 7
  /\ var (ofVar 7 false) = 7
  /\ isOrdinaryVar (ofVar 7 false) = true
  /\ var (ofVar (2 ^ 30 + 7) true) = 7.
Proof.
  assert (H7 : Unsigned.in_range 7) by (vm_compute; split; [discriminate | reflexivity]).
  assert (H30 : Unsigned.in_range (2 ^ 30 + 7)) by (vm_compute; split; [discriminate | reflexivity]).
  split; [exact H7 |].
  destruct (makeVar_var 7 false H7) as (_ & Ho & _ & _ & _ & Hv & _).
  destruct (makeVar_var (2 ^ 30 + 7) true H30) as (_ & _ & _ & _ & _ & Hv' & _).
  split; [exact Hv | split; [exact Ho | exact Hv']].
Defined.

(** X2: the tag partitions the term lists. *)
Theorem tag_partition (t : TermList) :
  0 <= content t ->
  (isTerm t = true /\ isOrdinaryVar t = false /\ isEmpty t = false
     /\ isSpecialVar t = false /\ content t mod 4 = 0
   \/ isTerm t = false /\ isOrdinaryVar t = true /\ isEmpty t = false
     /\ isSpecialVar t = false /\ content t mod 4 = 1
   \/ isTerm t = false /\ isOrdinaryVar t = false /\ isEmpty t = true
     /\ isSpecialVar t = false /\ content t mod 4 = 2
   \/ isTerm t = false /\ isOrdinaryVar t = false /\ isEmpty t = false
     /\ isSpecialVar t = true /\ content t mod 4 = 3)
  /\ isVar t = isOrdinaryVar t || isSpecialVar t
  /\ isNonEmpty t = negb (isEmpty t)
  /\ (forall v w, Unsigned.in_range v -> Unsigned.in_range w ->
                  makeVar v <> makeSpecialVar w)
  /\ (forall v special, Unsigned.in_range v -> ofVar v special <> makeEmpty).
Proof.
  intros Hpos.
  assert (Hr : 0 <= content t mod 4 < 4) by (apply Z.mod_pos_bound; lia).
  assert (Hcases : content t mod 4 = 0 \/ content t mod 4 = 1
                   \/ content t mod 4 = 2 \/ content t mod 4 = 3) by lia.
  assert (Htag := tag_mod t Hpos).
  assert (H2 : Z.land (content t) 1 = (content t mod 4) mod 2).
  { rewrite land_1 by exact Hpos. Z.div_mod_to_equations. lia. }
  split; [| split; [| split; [| split]]].
  - unfold isTerm, isOrdinaryVar, isEmpty, isSpecialVar. rewrite Htag.
    destruct Hcases as [E | [E | [E | E]]]; rewrite E;
      [left | right; left | right; right; left | right; right; right];
      repeat split; reflexivity.
  - unfold isVar, isOrdinaryVar, isSpecialVar. rewrite Htag, H2.
    destruct Hcases as [E | [E | [E | E]]]; rewrite E; reflexivity.
  - unfold isNonEmpty, isEmpty. destruct (decide (tag t = FUN)) as [E | E].
    + rewrite bool_decide_eq_false_2 by (intros F; exact (F E)).
      rewrite bool_decide_eq_true_2 by exact E. reflexivity.
    + rewrite bool_decide_eq_true_2 by exact E.
      rewrite bool_decide_eq_false_2 by exact E. reflexivity.
  - intros v w Hv Hw E. apply (f_equal content) in E.
    rewrite makeVar_content, makeSpecialVar_content in E by assumption. lia.
  - intros v special Hv E. apply (f_equal content) in E.
    unfold ofVar in E. destruct special;
      [rewrite makeSpecialVar_content in E by assumption
      | rewrite makeVar_content in E by assumption];
      unfold makeEmpty in E; simpl in E; lia.
Qed.

Lemma tag_partition_witness :
  isVar (mkTermList 13) = isOrdinaryVar (mkTermList 13) || isSpecialVar (mkTermList 13)
  /\ isNonEmpty (mkTermList 13) = negb (isEmpty (mkTermList 13)).
Proof.
  assert (H : 0 <= content (mkTermList 13)) by (simpl; lia).
  destruct (tag_partition (mkTermList 13) H) as (_ & Hv & Hn & _).
  split; [exact Hv | exact Hn].
Defined.

End TermListFacts.

(** ** The header of a term *)

Module TermFacts.
Import Term.

(** X3: [isSpecial] holds for the three special functors and for nothing
    else. *)
Theorem isSpecial_exact (t : Term) :
  Unsigned.in_range (functor t) ->
  (isSpecial t = true <->
   functor t = SF_TERM_ITE \/ functor t = SF_LET_TERM_IN_TERM
   \/ functor t = SF_LET_FORMULA_IN_TERM).
Proof.
  unfold Unsigned.in_range, Unsigned.modulus, Unsigned.bits, isSpecial,
    SPECIAL_FUNCTOR_LOWER_BOUND, SF_TERM_ITE, SF_LET_TERM_IN_TERM,
    SF_LET_FORMULA_IN_TERM.
  change (2 ^ 32) with 4294967296. intros H.
  rewrite bool_decide_eq_true. lia.
Qed.

Lemma isSpecial_exact_witness :
  isSpecial (makeSymbol SF_LET_TERM_IN_TERM 3
               (mkTerm 0 0 false false 0 0 true false false false 0 0)) = true
  /\ isSpecial (makeSymbol 12 3
                  (mkTerm 0 0 false false 0 0 true false false false 0 0)) = false.
Proof.
  split.
  - apply (isSpecial_exact
             (makeSymbol SF_LET_TERM_IN_TERM 3
                (mkTerm 0 0 false false 0 0 true false false false 0 0))).
    + vm_compute. split; [discriminate | reflexivity].
    + right. left. reflexivity.
  - reflexivity.
Defined.

(** X4: the number of variables and the sort of a two-variable
    equality. *)
Theorem setVars_twoVarEquality (t : Term) (v sort : Z) :
  vars (setVars v t) = (if isTwoVarEquality t then 2 else v)
  /\ isTwoVarEquality (setVars v t) = isTwoVarEquality t
  /\ (isTwoVarEquality t = true ->
      twoVarEqSort (setVars v (setTwoVarEqSort sort t)) = sort
      /\ vars (setTwoVarEqSort sort t) = 2
      /\ ground (setVars 0 t) = false)
  /\ (isTwoVarEquality t = false ->
      ground (setVars v t) = bool_decide (v = 0)
      /\ vars (markTwoVarEquality (setVars v t)) = 2
      /\ twoVarEqSort (markTwoVarEquality (setVars v t)) = v).
Proof.
  unfold vars, setVars, isTwoVarEquality, twoVarEqSort, setTwoVarEqSort,
    ground, vars, markTwoVarEquality, set_vars_sort.
  destruct t as [f a h tw w vs p c sh l o d]; simpl.
  destruct tw; simpl; repeat split; try reflexivity; try discriminate.
Qed.

(** X5: the cache of the number of distinct variables. *)
Theorem getDistinctVars_cached (computeDistinctVars : Term -> Z) (t : Term) :
  info_distinctVars t = TERM_DIST_VAR_UNKNOWN ->
  0 <= computeDistinctVars t ->
  let n := computeDistinctVars t in
  let t' := snd (getDistinctVars computeDistinctVars t) in
  fst (getDistinctVars computeDistinctVars t) = n
  /\ askDistinctVars t = (false, None)
  /\ (n < TERM_DIST_VAR_UNKNOWN ->
      askDistinctVars t' = (true, Some n)
      /\ forall compute', getDistinctVars compute' t' = (n, t'))
  /\ (TERM_DIST_VAR_UNKNOWN <= n ->
      t' = t /\ askDistinctVars t' = (false, None)).
Proof.
  intros Hu Hn n t'. subst n t'.
  unfold getDistinctVars, askDistinctVars. rewrite Hu.
  destruct (decide (TERM_DIST_VAR_UNKNOWN = TERM_DIST_VAR_UNKNOWN)) as [_ | F];
    [| exfalso; apply F; reflexivity].
  destruct (decide (computeDistinctVars t < TERM_DIST_VAR_UNKNOWN)) as [Hlt | Hge];
    simpl.
  - assert (Hb : bitfield 23 (computeDistinctVars t) = computeDistinctVars t).
    { unfold bitfield. apply Z.mod_small. unfold TERM_DIST_VAR_UNKNOWN in Hlt.
      change (2 ^ 23) with 8388608. lia. }
    rewrite Hb.
    assert (Hne : computeDistinctVars t <> TERM_DIST_VAR_UNKNOWN) by lia.
    split; [reflexivity | split; [reflexivity | split]].
    + intros _. destruct (decide (computeDistinctVars t = TERM_DIST_VAR_UNKNOWN));
        [contradiction |].
      split; [reflexivity |]. intros compute'. reflexivity.
    + intros Hge. lia.
  - split; [reflexivity | split; [reflexivity | split]].
    + intros Hlt. lia.
    + intros _. rewrite Hu.
      destruct (decide (TERM_DIST_VAR_UNKNOWN = TERM_DIST_VAR_UNKNOWN)) as [_ | F];
        [| exfalso; apply F; reflexivity].
      split; reflexivity.
Qed.

Lemma getDistinctVars_cached_witness :
  let t := mkTerm 5 2 false false 0 0 true false false false 0 TERM_DIST_VAR_UNKNOWN in
  fst (getDistinctVars (fun _ => 2) t) = 2
  /\ askDistinctVars (snd (getDistinctVars (fun _ => 2) t)) = (true, Some 2).
Proof.
  intros t.
  assert (Hu : info_distinctVars t = TERM_DIST_VAR_UNKNOWN) by reflexivity.
  assert (Hn : 0 <= (fun _ : Term => 2) t) by (simpl; lia).
  destruct (getDistinctVars_cached (fun _ => 2) t Hu Hn) as (H1 & _ & H3 & _).
  split; [exact H1 |].
  apply H3. reflexivity.
Defined.

(** X6: the bit-fields [_arity] and [order] keep what fits. *)
Theorem bitfields_roundtrip (t : Term) (number a val : Z) :
  0 <= a -> 0 <= val ->
  functor (makeSymbol number a t) = number
  /\ arity (makeSymbol number a t) = a mod 2 ^ 27
  /\ (arity (makeSymbol number a t) = a <-> a < 2 ^ 27)
  /\ getArgumentOrderValue (setArgumentOrderValue val t) = val mod 8
  /\ (getArgumentOrderValue (setArgumentOrderValue val t) = val <-> val < 8).
Proof.
  intros Ha Hv. unfold functor, arity, makeSymbol, getArgumentOrderValue,
    setArgumentOrderValue, bitfield. simpl.
  change (2 ^ 27) with 134217728. change (2 ^ 3) with 8.
  repeat split; try reflexivity; intros H.
  - rewrite <- H. Z.div_mod_to_equations. lia.
  - apply Z.mod_small. lia.
  - rewrite <- H. Z.div_mod_to_equations. lia.
  - apply Z.mod_small. lia.
Qed.

Lemma bitfields_roundtrip_witness :
  arity (makeSymbol 4 (2 ^ 27 + 1)
           (mkTerm 0 0 false false 0 0 true false false false 0 0)) = 1
  /\ getArgumentOrderValue
       (setArgumentOrderValue 3
          (mkTerm 0 0 false false 0 0 true false false false 0 0)) = 3.
Proof.
  assert (Ha : 0 <= 2 ^ 27 + 1) by (vm_compute; discriminate).
  assert (Hv : 0 <= 3) by lia.
  destruct (bitfields_roundtrip
              (mkTerm 0 0 false false 0 0 true false false false 0 0)
              4 (2 ^ 27 + 1) 3 Ha Hv) as (_ & H2 & _ & H4 & _).
  split; [exact H2 | exact H4].
Defined.

(** X7: the arguments are laid out backwards from [args()]. *)
Theorem nthArgument_layout (t : Term) (n : Z) :
  0 <= n < arity t -> arity t < 2 ^ 27 ->
  nthArgument 0 t = args t
  /\ next (nthArgument n t) = nthArgument (n + 1) t
  /\ nthArgument (arity t) t = _args
  /\ _args < nthArgument n t <= args t
  /\ getArgumentIndex (nthArgument n t) t = n
  /\ (forall m, 0 <= m < arity t -> nthArgument m t = nthArgument n t -> m = n).
Proof.
  intros Hn Ha. unfold nthArgument, args, next, getArgumentIndex, _args,
    Unsigned.wrap, Unsigned.modulus, Unsigned.bits.
  change (2 ^ 27) with 134217728 in Ha. change (2 ^ 32) with 4294967296.
  repeat split; try lia.
  replace (arity t - (0 + (arity t - n) - 0)) with n by lia.
  apply Z.mod_small. lia.
Qed.

Lemma nthArgument_layout_witness :
  let t := makeSymbol 4 3 (mkTerm 0 0 false false 0 0 true false false false 0 0) in
  next (nthArgument 1 t) = nthArgument 2 t /\ getArgumentIndex (nthArgument 1 t) t = 1.
Proof.
  intros t.
  assert (Hn : 0 <= 1 < arity t) by (vm_compute; split; [discriminate | reflexivity]).
  assert (Ha : arity t < 2 ^ 27) by (vm_compute; reflexivity).
  destruct (nthArgument_layout t 1 Hn Ha) as (_ & H2 & _ & _ & H5 & _).
  split; [exact H2 | exact H5].
Defined.

End TermFacts.

(** ** The termination reason *)

Module TerminationReason.
Import Statistics.

Lemma TerminationReason_bits_eq : TerminationReason_bits = 3.
Proof. reflexivity. Qed.



End TerminationReason.

(** ** SAT clause equality *)

Module ClauseSharing.
Import SAT.

Section Equals.
Context {SATLiteral : Type} `{EqDecision SATLiteral}.

Lemma at_index_length (c : SATClause SATLiteral) :
  at_index c (SAT.length c) = ReadsPastEnd (SAT.length c) (SAT.length c).
Proof.
  unfold at_index, SAT.length.
  rewrite (lookup_ge_None_2 (literals c) (List.length (literals c))) by lia.
  reflexivity.
Qed.

(** C9: for clauses of equal length [n], the loop of [equals] starts at
    index [n], so the first thing it does is read the first clause at
    index [n], one past its last literal; this happens on every such
    call, also for [n = 0]. *)
Theorem equals_reads_past_end (c1 c2 : SATClause SATLiteral) :
  SAT.length c1 = SAT.length c2 ->
  equals c1 c2 = ReadsPastEnd (SAT.length c1) (SAT.length c1).
Proof.
  intros Hlen. unfold equals.
  destruct (decide (SAT.length c1 <> SAT.length c2)) as [Hne | _];
    [contradiction |].
  destruct (SAT.length c1) as [| n] eqn:Hn.
  - simpl. rewrite <- Hn at 1. rewrite at_index_length, Hn. reflexivity.
  - simpl. rewrite <- Hn at 1. rewrite at_index_length, Hn. reflexivity.
Qed.

End Equals.

Lemma equals_reads_past_end_witness :
  equals (mkSATClause [1; 2]%nat) (mkSATClause [1; 2]%nat) = ReadsPastEnd 2 2 /\
  equals (mkSATClause (@nil nat)) (mkSATClause []) = ReadsPastEnd 0 0.
Proof.
  split.
  - apply (equals_reads_past_end (mkSATClause [1; 2]%nat) (mkSATClause [1; 2]%nat)).
    reflexivity.
  - apply (equals_reads_past_end (mkSATClause (@nil nat)) (mkSATClause [])).
    reflexivity.
Defined.

End ClauseSharing.

(** ** The splitter *)

Module SplitterFacts.
Import Kernel Splitter.
Section WithInterfaces.

Context {BDDNode : Type} `{!BDD BDDNode}.
Variable isVariant : list Literal -> list Literal -> bool.
Variable unionFindComponents : nat -> list (nat * nat) -> list (list nat).

#[local] Abbreviation Clause := (Kernel.Clause BDDNode).
#[local] Abbreviation State := (@Splitter.State BDDNode).
#[local] Abbreviation M := (@Splitter.M BDDNode).

(** *** Running a computation *)

Lemma bind_Ok {A B} (m : M A) (k : A -> M B) (s s' : State) (b : B) :
  bind m k s = Ok b s' ->
  exists a s1, m s = Ok a s1 /\ k a s1 = Ok b s'.
Proof.
  unfold bind. destruct (m s) as [a s1 | f]; [| discriminate].
  intros H. exists a, s1. split; [reflexivity | exact H].
Qed.

Lemma bind_Ok_intro {A B} (m : M A) (k : A -> M B) (s s1 : State) (a : A) :
  m s = Ok a s1 -> bind m k s = k a s1.
Proof. unfold bind. intros ->. reflexivity. Qed.

Lemma ret_Ok {A} (a b : A) (s s' : State) : ret a s = Ok b s' -> b = a /\ s' = s.
Proof. unfold ret. intros H. injection H as <- <-. split; reflexivity. Qed.

Lemma gets_Ok {A} (f : State -> A) (b : A) (s s' : State) :
  gets f s = Ok b s' -> b = f s /\ s' = s.
Proof. unfold gets. intros H. injection H as <- <-. split; reflexivity. Qed.

Lemma modify_Ok (f : State -> State) (u : unit) (s s' : State) :
  modify f s = Ok u s' -> s' = f s.
Proof. unfold modify. intros H. injection H as _ <-. reflexivity. Qed.

Lemma getClause_Ok (p : ClausePtr) (c : Clause) (s s' : State) :
  getClause p s = Ok c s' -> heap s !! p = Some c /\ s' = s.
Proof.
  unfold getClause. destruct (heap s !! p) as [c' |]; [| discriminate].
  intros H. injection H as <- <-. split; reflexivity.
Qed.

Lemma getProp_Ok (p : ClausePtr) (n : BDDNode) (s s' : State) :
  getProp p s = Ok n s' ->
  (exists c, heap s !! p = Some c /\ prop c = Some n) /\ s' = s.
Proof.
  unfold getProp. intros H. apply bind_Ok in H as (c & s1 & Hc & H).
  apply getClause_Ok in Hc as [Hc ->].
  destruct (prop c) as [n' |] eqn:Hp; [| discriminate].
  apply ret_Ok in H as [-> ->]. split; [| reflexivity].
  exists c. split; assumption.
Qed.

Lemma setProp_Ok (p : ClausePtr) (n : BDDNode) (u : unit) (s s' : State) :
  setProp p n s = Ok u s' ->
  exists c, heap s !! p = Some c /\
            s' = upd_heap (fun h => <[p := withProp n c]> h) s.
Proof.
  unfold setProp. intros H. apply bind_Ok in H as (c & s1 & Hc & H).
  apply getClause_Ok in Hc as [Hc ->]. apply modify_Ok in H.
  exists c. split; assumption.
Qed.

Lemma newClause_Ok (c : Clause) (p : ClausePtr) (s s' : State) :
  newClause c s = Ok p s' ->
  p = List.length (heap s) /\ s' = upd_heap (fun h => h ++ [c]) s.
Proof. unfold newClause. intros H. injection H as <- <-. split; reflexivity. Qed.

Lemma literalAt_Ok (c : Clause) (i : nat) (l : Literal) (s s' : State) :
  literalAt c i s = Ok l s' -> literals c !! i = Some l /\ s' = s.
Proof.
  unfold literalAt. destruct (literals c !! i) as [l' |]; [| discriminate].
  intros H. apply ret_Ok in H as [-> ->]. split; reflexivity.
Qed.

Lemma mapM_literalAt_Ok (c : Clause) (comp : list nat) (ls : list Literal) (s s' : State) :
  mapM (literalAt c) comp s = Ok ls s' -> s' = s.
Proof.
  revert ls s'. induction comp as [| i comp IH]; intros ls s' H; simpl in H.
  - apply ret_Ok in H as [_ ->]. reflexivity.
  - apply bind_Ok in H as (l & s1 & Hl & H).
    apply literalAt_Ok in Hl as [_ ->].
    apply bind_Ok in H as (ls' & s2 & Hls & H).
    apply IH in Hls as ->. apply ret_Ok in H as [_ ->]. reflexivity.
Qed.

Lemma extends_refl (s : State) : extends s s.
Proof. unfold extends. repeat split; auto. Qed.

Lemma extends_trans (s1 s2 s3 : State) : extends s1 s2 -> extends s2 s3 -> extends s1 s3.
Proof.
  intros (A1 & A2 & A3 & A4 & A5) (B1 & B2 & B3 & B4 & B5).
  unfold extends. repeat split.
  - etrans; eassumption.
  - etrans; eassumption.
  - etrans; eassumption.
  - auto.
  - lia.
Qed.

Lemma onlyAdds_refl (s : State) : onlyAdds s s.
Proof.
  unfold onlyAdds. repeat split; [reflexivity |].
  exists []. rewrite app_nil_r. split; [reflexivity | constructor].
Qed.

Lemma onlyAdds_trans (s1 s2 s3 : State) : onlyAdds s1 s2 -> onlyAdds s2 s3 -> onlyAdds s1 s3.
Proof.
  intros (A1 & A2 & r1 & A3 & A4) (B1 & B2 & r2 & B3 & B4).
  unfold onlyAdds. repeat split.
  - etrans; eassumption.
  - congruence.
  - exists (r1 ++ r2). rewrite B3, A3, app_assoc. split; [reflexivity |].
    apply Forall_app. split; assumption.
Qed.

(** Properties that only look at some fields of the state. *)
Lemma wf_fields (s s' : State) :
  heap s' = heap s ->
  propPredNames s' = propPredNames s ->
  propPredPosNamePremises s' = propPredPosNamePremises s ->
  propPredNegNamePremises s' = propPredNegNamePremises s ->
  inferenceStore s' = inferenceStore s ->
  variantIndex s' = variantIndex s ->
  wf s -> wf s'.
Proof.
  intros E1 E2 E3 E4 E5 E6 [W1 W2]. unfold wf, premiseMap, inIndex, isPremise in *.
  rewrite E1, E2, E3, E4, E5, E6. split; assumption.
Qed.

Lemma extends_fields (s s' : State) :
  heap s' = heap s ->
  propPredNames s' = propPredNames s ->
  propPredPosNamePremises s' = propPredPosNamePremises s ->
  propPredNegNamePremises s' = propPredNegNamePremises s ->
  variantIndex s' = variantIndex s ->
  extends s s'.
Proof.
  intros E1 E2 E3 E4 E5. unfold extends, inIndex.
  rewrite E1, E2, E3, E4, E5. repeat split; auto.
Qed.

Lemma onlyAdds_fields (s s' : State) :
  heap s' = heap s ->
  clauseNames s' = clauseNames s ->
  inferenceStore s' = inferenceStore s ->
  onlyAdds s s'.
Proof.
  intros E1 E2 E3. unfold onlyAdds. rewrite E1, E2, E3.
  repeat split; [reflexivity |].
  exists []. rewrite app_nil_r. split; [reflexivity | constructor].
Qed.

(** The state that [getPropPredName] leaves behind, in each of its cases. *)
Lemma getPropPredName_eq (lit : Literal) (s : State) :
  let n := default (bdd_newVar s) (propPredNames s !! functor lit) in
  let s1 := match propPredNames s !! functor lit with
            | Some _ => s
            | None => upd_propPredNames (fun m => <[functor lit := bdd_newVar s]> m)
                        (upd_bdd_newVar (fun v => v + 1) s)
            end in
  getPropPredName lit s =
    match premiseMap lit s !! functor lit with
    | Some q => Ok (n, q, true) s1
    | None =>
        let p := List.length (heap s) in
        let ins := fun m : gmap Z ClausePtr => <[functor lit := p]> m in
        Ok (n, p, false)
          ((if isPositive lit then upd_propPredPosNamePremises ins
            else upd_propPredNegNamePremises ins)
             (upd_inferenceStore (fun l => l ++ [recordNonPropInference p])
                (upd_heap (fun h => h ++ [namingPremise lit n]) s1)))
    end.
Proof.
  unfold getPropPredName.
  cbv beta iota delta [bind gets ret getNewVar modify newClause record setPremise].
  unfold premiseMap.
  destruct (propPredNames s !! functor lit) as [m |]; simpl;
    destruct (isPositive lit);
    match goal with
    | |- context [?m !! functor lit] => destruct (m !! functor lit)
    end; reflexivity.
Qed.

Lemma premiseMap_cases (lit : Literal) (s : State) :
  (isPositive lit = true /\ premiseMap lit s = propPredPosNamePremises s)
  \/ (isPositive lit = false /\ premiseMap lit s = propPredNegNamePremises s).
Proof. unfold premiseMap. destruct (isPositive lit); auto. Qed.

(** What [getPropPredName] returns and how it changes the state. *)
Lemma getPropPredName_facts (lit : Literal) (s s' : State) n p b :
  getPropPredName lit s = Ok (n, p, b) s' ->
  propPredNames s' !! functor lit = Some n
  /\ (match propPredNames s !! functor lit with
      | Some m => n = m /\ bdd_newVar s' = bdd_newVar s
      | None => n = bdd_newVar s /\ bdd_newVar s' = bdd_newVar s + 1
      end)
  /\ premiseMap lit s' !! functor lit = Some p
  /\ extends s s' /\ onlyAdds s s' /\ variantIndex s' = variantIndex s
  /\ (forall q, isPremise s' q -> isPremise s q \/ q = p)
  /\ (forall lit' q,
        premiseMap lit' s' !! functor lit' = Some q ->
        premiseMap lit' s !! functor lit' = Some q
        \/ (q = p /\ functor lit' = functor lit /\ isPositive lit' = isPositive lit))
  /\ ((premiseMap lit s !! functor lit = Some p /\ heap s' = heap s
       /\ inferenceStore s' = inferenceStore s /\ b = true)
      \/ (premiseMap lit s !! functor lit = None /\ p = List.length (heap s)
          /\ heap s' = heap s ++ [namingPremise lit n]
          /\ inferenceStore s' = inferenceStore s ++ [recordNonPropInference p]
          /\ b = false)).
Proof.
  rewrite getPropPredName_eq. cbv zeta.
  set (n0 := default (bdd_newVar s) (propPredNames s !! functor lit)).
  set (s1 := match propPredNames s !! functor lit with
             | Some _ => s
             | None => _
             end).
  assert (propPredNames s1 !! functor lit = Some n0
          /\ propPredNames s ⊆ propPredNames s1
          /\ heap s1 = heap s
          /\ propPredPosNamePremises s1 = propPredPosNamePremises s
          /\ propPredNegNamePremises s1 = propPredNegNamePremises s
          /\ inferenceStore s1 = inferenceStore s
          /\ variantIndex s1 = variantIndex s
          /\ clauseNames s1 = clauseNames s
          /\ match propPredNames s !! functor lit with
             | Some m => n0 = m /\ bdd_newVar s1 = bdd_newVar s
             | None => n0 = bdd_newVar s /\ bdd_newVar s1 = bdd_newVar s + 1
             end)
    as (N1 & N2 & N3 & N4 & N5 & N6 & N7 & N8 & N9).
  { subst n0 s1. destruct (propPredNames s !! functor lit) as [m |] eqn:Hn; simpl.
    - repeat split; auto.
    - repeat split; auto.
      + apply lookup_insert_eq.
      + apply insert_subseteq. exact Hn. }
  clearbody s1 n0.
  assert (premiseMap lit s1 = premiseMap lit s) as N45.
  { unfold premiseMap. rewrite N4, N5. reflexivity. }
  rewrite <- N45.
  destruct (premiseMap lit s1 !! functor lit) as [q |] eqn:Hq.
  - (* the premise exists *)
    intros H. injection H as <- <- <- <-.
    split; [exact N1 |]. split; [exact N9 |]. split; [exact Hq |].
    split.
    { unfold extends, inIndex. rewrite N3, N4, N5, N7. repeat split; auto. }
    split.
    { apply onlyAdds_fields; assumption. }
    split; [exact N7 |]. split.
    { intros q' Hq'. left. unfold isPremise in *. rewrite N4, N5 in Hq'. exact Hq'. }
    split.
    { intros lit' q' Hq'. left. unfold premiseMap in *. rewrite N4, N5 in Hq'. exact Hq'. }
    left. repeat split; auto.
  - (* the premise is created *)
    cbv zeta. intros H. injection H as <- <- <- <-.
    assert (premiseMap lit s1 !! functor lit = None) as Hq' by exact Hq.
    unfold premiseMap in Hq.
    split.
    { destruct (isPositive lit); simpl; exact N1. }
    split.
    { destruct (isPositive lit); simpl; exact N9. }
    split.
    { unfold premiseMap. destruct (isPositive lit); simpl; apply lookup_insert_eq. }
    split.
    { unfold extends, inIndex.
      destruct (isPositive lit); simpl; rewrite ?N3, ?N4, ?N5, ?N7;
        repeat split; auto;
        try (rewrite length_app; simpl; lia);
        try (apply insert_subseteq; rewrite <- ?N4, <- ?N5; exact Hq). }
    split.
    { unfold onlyAdds. destruct (isPositive lit); simpl; rewrite N3, N6, N8;
        (split; [apply prefix_app_r; reflexivity |]);
        (split; [reflexivity |]);
        eexists; (split; [reflexivity |]); repeat constructor. }
    split.
    { destruct (isPositive lit); simpl; exact N7. }
    split.
    { intros q' [pred Hq'']. unfold isPremise.
      destruct (isPositive lit); simpl in Hq''; rewrite ?N3, ?N4, ?N5 in Hq''.
      - destruct Hq'' as [Hq'' | Hq'']; [| left; exists pred; auto].
        destruct (decide (functor lit = pred)) as [<- | Hne].
        + rewrite lookup_insert_eq in Hq''. right. congruence.
        + rewrite lookup_insert_ne in Hq'' by exact Hne. left; exists pred; auto.
      - destruct Hq'' as [Hq'' | Hq'']; [left; exists pred; auto |].
        destruct (decide (functor lit = pred)) as [<- | Hne].
        + rewrite lookup_insert_eq in Hq''. right. congruence.
        + rewrite lookup_insert_ne in Hq'' by exact Hne. left; exists pred; auto. }
    split.
    { intros lit' q' Hq''. unfold premiseMap in Hq'' |- *.
      destruct (isPositive lit) eqn:Hpos, (isPositive lit') eqn:Hpos';
        simpl in Hq''; rewrite ?N4, ?N5 in Hq''; auto;
        (destruct (decide (functor lit = functor lit')) as [He | Hne];
         [rewrite He, lookup_insert_eq in Hq''; right; split; [congruence | auto]
         | rewrite lookup_insert_ne in Hq'' by exact Hne; left; exact Hq'']). }
    right. rewrite <- N3.
    destruct (isPositive lit); simpl; rewrite ?N6; repeat split; auto.
Qed.


Lemma premiseMap_isPremise (lit : Literal) (s : State) (p : ClausePtr) :
  premiseMap lit s !! functor lit = Some p -> isPremise s p.
Proof.
  unfold premiseMap, isPremise. intros H. exists (functor lit).
  destruct (isPositive lit); auto.
Qed.

Lemma isPremise_valid (s : State) (p : ClausePtr) :
  wf s -> isPremise s p -> (p < List.length (heap s))%nat.
Proof.
  intros [W1 _] [pred [Hp | Hp]].
  - destruct (W1 (mkLiteral pred true []) p eq_refl Hp) as (n & _ & Hh & _).
    apply lookup_lt_Some in Hh. exact Hh.
  - destruct (W1 (mkLiteral pred false []) p eq_refl Hp) as (n & _ & Hh & _).
    apply lookup_lt_Some in Hh. exact Hh.
Qed.

Lemma literal_eq (l1 l2 : Literal) :
  functor l1 = functor l2 -> isPositive l1 = isPositive l2 -> args l1 = args l2 ->
  l1 = l2.
Proof.
  destruct l1, l2. unfold isPositive. simpl. intros -> -> ->. reflexivity.
Qed.

Lemma getPropPredName_wf (lit : Literal) (s s' : State) n p b :
  wf s -> args lit = [] ->
  getPropPredName lit s = Ok (n, p, b) s' ->
  wf s'.
Proof.
  intros Hwf Hargs H.
  pose proof Hwf as [W1 W2].
  apply getPropPredName_facts in H
    as (F1 & _ & F3 & (E1 & _) & (A1 & _ & rs & A3 & _) & F6 & F7 & F8 & F9).
  split.
  - intros lit' q Hargs' Hq.
    destruct (F8 lit' q Hq) as [Hold | (-> & Hf & Hpos)].
    + destruct (W1 lit' q Hargs' Hold) as (n' & Hn' & Hh & Hr).
      exists n'. split; [| split].
      * eapply lookup_weaken; eassumption.
      * eapply prefix_lookup_Some; eassumption.
      * rewrite A3. apply elem_of_app. left. exact Hr.
    + assert (lit' = lit) as -> by (apply literal_eq; congruence).
      exists n. split; [exact F1 |].
      destruct F9 as [(Hold & Hh & Hs & _) | (_ & Hp & Hh & Hs & _)].
      * destruct (W1 lit p Hargs Hold) as (n' & Hn' & Hh' & Hr).
        assert (n' = n) as ->.
        { eapply lookup_weaken in Hn'; [| exact E1]. congruence. }
        rewrite Hh, Hs. split; assumption.
      * split.
        -- rewrite Hh, Hp. rewrite lookup_app_r by lia.
           rewrite Nat.sub_diag. reflexivity.
        -- rewrite Hs. apply elem_of_app. right. apply list_elem_of_here.
  - intros q Hq. unfold inIndex in Hq. rewrite F6 in Hq.
    destruct (W2 q Hq) as [Hlt Hnp]. split.
    + apply prefix_length in A1. lia.
    + intros Hq'. destruct (F7 q Hq') as [Hold | ->]; [exact (Hnp Hold) |].
      destruct F9 as [(Hold & _) | (_ & Hp & _)].
      * apply Hnp. eapply premiseMap_isPremise. exact Hold.
      * lia.
Qed.

(** The clause that [getPropPredName] returns is the naming premise of the
    literal. *)
Lemma getPropPredName_premise (lit : Literal) (s s' : State) n p b :
  wf s -> args lit = [] ->
  getPropPredName lit s = Ok (n, p, b) s' ->
  heap s' !! p = Some (namingPremise lit n)
  /\ recordNonPropInference p ∈ inferenceStore s'.
Proof.
  intros Hwf Hargs H.
  pose proof (getPropPredName_wf _ _ _ _ _ _ Hwf Hargs H) as [W1 _].
  apply getPropPredName_facts in H as (F1 & _ & F3 & _).
  destruct (W1 lit p Hargs F3) as (n' & Hn' & Hh & Hr).
  assert (n' = n) as -> by congruence.
  split; assumption.
Qed.

Lemma getPropPredName_total (lit : Literal) (s : State) :
  exists n p b s', getPropPredName lit s = Ok (n, p, b) s'.
Proof.
  rewrite getPropPredName_eq. cbv zeta.
  destruct (premiseMap lit s !! functor lit); eauto.
Qed.

#[local] Abbreviation handleNoSplit := (Splitter.handleNoSplit isVariant).
#[local] Abbreviation insertAndReport := (Splitter.insertAndReport isVariant).
#[local] Abbreviation insertIntoIndex := (Splitter.insertIntoIndex isVariant).
#[local] Abbreviation doSplitting := (Splitter.doSplitting isVariant unionFindComponents).
#[local] Abbreviation split := (Splitter.split isVariant).
#[local] Abbreviation component := (Splitter.component isVariant).
#[local] Abbreviation chooseMaster := (Splitter.chooseMaster isVariant).
#[local] Abbreviation Locals := (@Splitter.Locals BDDNode).
#[local] Abbreviation later := (Splitter.later isVariant unionFindComponents).

Lemma wf_initial (h : list Clause) (v : Z) : wf (initial h v).
Proof.
  split.
  - intros lit p _ Hp. unfold premiseMap, initial in Hp.
    destruct (isPositive lit); simpl in Hp; rewrite lookup_empty in Hp; discriminate.
  - intros p Hp. unfold inIndex, initial in Hp. simpl in Hp.
    apply elem_of_nil in Hp. contradiction.
Qed.

(** C4: for a clause [cl] that is exactly one literal [lit] of arity 0,
    [doSplitting] takes the no-split path, which asks [getPropPredName]
    for the name [n] of [lit] (allocated or looked up) and its naming
    premise, creates a clause without literals whose propositional part is
    [atomic(n, isPositive(lit))], derived by [SPLITTING] from [cl] and the
    naming premise, records it, and only then goes on to the insertion into
    the variant index, with the new clause in place of [cl]. *)
Theorem handleNoSplit_propositional_unit
    (cl : ClausePtr) (c : Clause) (lit : Literal) (s : State) :
  wf s ->
  heap s !! cl = Some c ->
  literals c = [lit] ->
  arity lit = 0%nat ->
  exists n premise b s1,
    getPropPredName lit s = Ok (n, premise, b) s1
    /\ propPredNames s1 !! functor lit = Some n
    /\ heap s1 !! premise = Some (namingPremise lit n)
    /\ let newCl := List.length (heap s1) in
       let named :=
         mkClause [] (inputType c) (Inference2 SPLITTING cl premise)
           (Some (getAtomic n (isPositive lit))) None in
       let s2 :=
         upd_inferenceStore (fun l => l ++ [recordNonPropInference newCl])
           (upd_heap (fun h => h ++ [named]) s1) in
       heap s2 !! newCl = Some named
       /\ Kernel.length named = 0%nat
       /\ variantIndex s2 = variantIndex s
       /\ handleNoSplit cl s = insertAndReport newCl s2
       /\ doSplitting cl s = handleNoSplit cl s.
Proof.
  intros Hwf Hc Hlits Har.
  destruct (getPropPredName_total lit s) as (n & premise & b & s1 & Hg).
  exists n, premise, b, s1.
  assert (args lit = []) as Hargs.
  { unfold arity in Har. destruct (args lit); [reflexivity | discriminate]. }
  pose proof (getPropPredName_premise _ _ _ _ _ _ Hwf Hargs Hg) as [Hprem _].
  pose proof (getPropPredName_facts _ _ _ _ _ _ Hg) as (F1 & _ & _ & _ & _ & F6 & _).
  split; [exact Hg |]. split; [exact F1 |]. split; [exact Hprem |].
  cbv zeta. split; [| split; [| split; [| split]]].
  - simpl. rewrite lookup_app_r by lia. rewrite Nat.sub_diag. reflexivity.
  - reflexivity.
  - simpl. exact F6.
  - unfold Splitter.handleNoSplit, nameAndReplace.
    unfold bind at 1. unfold bind at 1. unfold getClause. rewrite Hc, Hlits.
    destruct (decide (arity lit = 0%nat)) as [_ | Hne]; [| contradiction].
    unfold bind at 1. rewrite Hg. reflexivity.
  - unfold Splitter.doSplitting. unfold bind at 1. unfold getClause. rewrite Hc.
    unfold Kernel.length. rewrite Hlits. simpl. reflexivity.
Qed.

(** *** The invariants under the primitive updates *)

Lemma wf_newClause (c : Clause) (s : State) :
  wf s -> wf (upd_heap (fun h => h ++ [c]) s).
Proof.
  intros [W1 W2]. split.
  - intros lit p Hargs Hp. destruct (W1 lit p Hargs Hp) as (n & Hn & Hh & Hr).
    exists n. split; [exact Hn |]. split; [| exact Hr].
    simpl. apply lookup_app_l_Some. exact Hh.
  - intros p Hp. destruct (W2 p Hp) as [Hlt Hnp]. split; [| exact Hnp].
    simpl. rewrite length_app. lia.
Qed.

Lemma wf_record (r : StoreRecord) (s : State) :
  wf s -> wf (upd_inferenceStore (fun l => l ++ [r]) s).
Proof.
  intros [W1 W2]. split.
  - intros lit p Hargs Hp. destruct (W1 lit p Hargs Hp) as (n & Hn & Hh & Hr).
    exists n. split; [exact Hn |]. split; [exact Hh |].
    simpl. apply elem_of_app. left. exact Hr.
  - exact W2.
Qed.

Lemma wf_variantIndexInsert (k : list Literal) (p : ClausePtr) (s : State) :
  wf s -> (p < List.length (heap s))%nat -> ~ isPremise s p ->
  wf (upd_variantIndex (fun l => l ++ [(k, p)]) s).
Proof.
  intros [W1 W2] Hlt Hnp. split; [exact W1 |].
  intros q Hq. unfold inIndex in Hq. simpl in Hq.
  rewrite map_app in Hq. apply elem_of_app in Hq as [Hq | Hq].
  - exact (W2 q Hq).
  - simpl in Hq. apply list_elem_of_singleton in Hq as ->. split; assumption.
Qed.

Lemma wf_setProp (p : ClausePtr) (c : Clause) (s : State) :
  wf s -> ~ isPremise s p -> wf (upd_heap (fun h => <[p := c]> h) s).
Proof.
  intros [W1 W2] Hnp. split.
  - intros lit q Hargs Hq. destruct (W1 lit q Hargs Hq) as (n & Hn & Hh & Hr).
    exists n. split; [exact Hn |]. split; [| exact Hr].
    simpl. rewrite list_lookup_insert_ne; [exact Hh |].
    intros ->. apply Hnp. eapply premiseMap_isPremise. exact Hq.
  - intros q Hq. destruct (W2 q Hq) as [Hlt Hnq]. split; [| exact Hnq].
    simpl. rewrite length_insert. exact Hlt.
Qed.

Lemma extends_newClause (c : Clause) (s : State) :
  extends s (upd_heap (fun h => h ++ [c]) s).
Proof.
  unfold extends. simpl. repeat split; auto. rewrite length_app. lia.
Qed.

Lemma extends_setProp (p : ClausePtr) (c : Clause) (s : State) :
  extends s (upd_heap (fun h => <[p := c]> h) s).
Proof.
  unfold extends. simpl. repeat split; auto. rewrite length_insert. lia.
Qed.

Lemma extends_variantIndexInsert (k : list Literal) (p : ClausePtr) (s : State) :
  extends s (upd_variantIndex (fun l => l ++ [(k, p)]) s).
Proof.
  unfold extends. simpl. repeat split; auto.
  intros q Hq. unfold inIndex in *. simpl. rewrite map_app.
  apply elem_of_app. left. exact Hq.
Qed.

Lemma extends_isPremise (s s' : State) (p : ClausePtr) :
  extends s s' -> isPremise s p -> isPremise s' p.
Proof.
  intros (_ & E2 & E3 & _) [pred [Hp | Hp]]; exists pred.
  - left. eapply lookup_weaken; eassumption.
  - right. eapply lookup_weaken; eassumption.
Qed.

Lemma onlyAdds_newClause (c : Clause) (s : State) :
  onlyAdds s (upd_heap (fun h => h ++ [c]) s).
Proof.
  unfold onlyAdds. simpl. split; [apply prefix_app_r; reflexivity |].
  split; [reflexivity |]. exists []. rewrite app_nil_r. split; [reflexivity | constructor].
Qed.

Lemma onlyAdds_recordNonProp (p : ClausePtr) (s : State) :
  onlyAdds s (upd_inferenceStore (fun l => l ++ [recordNonPropInference p]) s).
Proof.
  unfold onlyAdds. simpl. split; [reflexivity |]. split; [reflexivity |].
  eexists. split; [reflexivity |]. repeat constructor.
Qed.

Lemma retrieveVariants_inIndex (lits : list Literal) (s : State) (p : ClausePtr) :
  p ∈ retrieveVariants isVariant lits s -> inIndex s p.
Proof.
  unfold retrieveVariants, inIndex. intros H.
  apply list_elem_of_fmap in H as (e & -> & He).
  apply list_elem_of_filter in He as [_ He].
  apply list_elem_of_fmap. exists e. split; [reflexivity | exact He].
Qed.

(** *** The first loop *)

Lemma propositionalComponent_facts (c : Clause) (comp : list nat) (a a' : Locals)
    (s s' : State) :
  propositionalComponent c comp a s = Ok a' s' ->
  extends s s' /\ onlyAdds s s' /\ variantIndex s' = variantIndex s
  /\ newComponentStack a' = newComponentStack a
  /\ unnamedComponentStack a' = unnamedComponentStack a
  /\ masterComp a' = masterComp a
  /\ (wf s -> wf s').
Proof.
  unfold propositionalComponent. destruct comp as [| i rest]; [discriminate |].
  intros H. apply bind_Ok in H as (lit & s1 & Hl & H).
  apply literalAt_Ok in Hl as [Hl ->].
  assert (forall b : Locals, ret a s = Ok b s' ->
            extends s s' /\ onlyAdds s s' /\ variantIndex s' = variantIndex s
            /\ newComponentStack b = newComponentStack a
            /\ unnamedComponentStack b = unnamedComponentStack a
            /\ masterComp b = masterComp a /\ (wf s -> wf s')) as Hskip.
  { intros b Hb. apply ret_Ok in Hb as [-> ->].
    split; [apply extends_refl |]. split; [apply onlyAdds_refl |].
    repeat (split; [reflexivity |]). auto. }
  destruct rest as [| j rest]; [| exact (Hskip _ H)].
  destruct (decide (arity lit <> 0%nat)) as [Hne | He]; [exact (Hskip _ H) |].
  apply bind_Ok in H as ([[n p] b] & s1 & Hg & H).
  apply ret_Ok in H as [-> ->]. simpl.
  assert (args lit = []) as Hargs.
  { unfold arity in He. destruct (args lit); [reflexivity | simpl in He; lia]. }
  pose proof (getPropPredName_facts _ _ _ _ _ _ Hg) as (_ & _ & _ & F4 & F5 & F6 & _).
  split; [exact F4 |]. split; [exact F5 |]. split; [exact F6 |].
  repeat (split; [reflexivity |]).
  intros Hwf. eapply getPropPredName_wf; eassumption.
Qed.

Lemma propositionalLoop_facts (c : Clause) (comps : list (list nat)) (a a' : Locals)
    (s s' : State) :
  foldM (propositionalComponent c) comps a s = Ok a' s' ->
  extends s s' /\ onlyAdds s s' /\ variantIndex s' = variantIndex s
  /\ newComponentStack a' = newComponentStack a
  /\ unnamedComponentStack a' = unnamedComponentStack a
  /\ masterComp a' = masterComp a
  /\ (wf s -> wf s').
Proof.
  revert a s. induction comps as [| comp comps IH]; intros a s H; simpl in H.
  - apply ret_Ok in H as [-> ->].
    split; [apply extends_refl |]. split; [apply onlyAdds_refl |].
    repeat (split; [reflexivity |]). auto.
  - apply bind_Ok in H as (a1 & s1 & H1 & H).
    apply propositionalComponent_facts in H1 as (A1 & A2 & A3 & A4 & A5 & A6 & A7).
    apply IH in H as (B1 & B2 & B3 & B4 & B5 & B6 & B7).
    split; [eapply extends_trans; eassumption |].
    split; [eapply onlyAdds_trans; eassumption |].
    repeat (split; [congruence |]). auto.
Qed.

Lemma foldM_app {A B} (f : B -> A -> M A) (l1 l2 : list B) (a : A) (s : State) :
  foldM f (l1 ++ l2) a s = bind (foldM f l1 a) (foldM f l2) s.
Proof.
  revert a s. induction l1 as [| x l1 IH]; intros a s; simpl.
  - reflexivity.
  - unfold bind. destruct (f x a s) as [a1 s1 | e]; [| reflexivity].
    rewrite IH. reflexivity.
Qed.

Lemma foldM_return_app {A B R} (f : B -> A -> M (A + R)) (l1 l2 : list B) (a : A)
    (s : State) :
  foldM_return f (l1 ++ l2) a s =
  bind (foldM_return f l1 a)
    (fun r => match r with
              | inl a' => foldM_return f l2 a'
              | inr v => ret (inr v)
              end) s.
Proof.
  revert a s. induction l1 as [| x l1 IH]; intros a s; simpl.
  - reflexivity.
  - unfold bind. destruct (f x a s) as [[a1 | v] s1 | e]; [| reflexivity | reflexivity].
    rewrite IH. reflexivity.
Qed.

(** *** The second loop *)

Lemma componentsInIndex_extends (s s' : State) (a : Locals) :
  extends s s' -> componentsInIndex s a -> componentsInIndex s' a.
Proof.
  intros (_ & _ & _ & E & _) (C1 & C2 & C3). unfold componentsInIndex.
  repeat split; auto.
Qed.

Lemma component_facts (c : Clause) (comp : list nat) (a : Locals)
    (r : Locals + unit) (s s' : State) :
  component c comp a s = Ok r s' ->
  extends s s' /\ onlyAdds s s'
  /\ (wf s -> wf s')
  /\ (componentsInIndex s a ->
      forall a', r = inl a' -> componentsInIndex s' a').
Proof.
  unfold Splitter.component. intros H.
  apply bind_Ok in H as (lits & s1 & Hl & H).
  apply mapM_literalAt_Ok in Hl as ->.
  assert (forall (b : Locals) r0,
            ret r0 s = Ok r s' -> (forall a', r0 = inl a' -> a' = b) ->
            newComponentStack b = newComponentStack a ->
            (forall p, p ∈ unnamedComponentStack b ->
                       p ∈ unnamedComponentStack a \/ inIndex s p) ->
            (forall p, masterComp b = Some p ->
                       masterComp a = Some p \/ inIndex s p) ->
            extends s s' /\ onlyAdds s s' /\ (wf s -> wf s')
            /\ (componentsInIndex s a ->
                forall a', r = inl a' -> componentsInIndex s' a')) as Hsame.
  { intros b r0 Hr Hr0 Hb1 Hb2 Hb3. apply ret_Ok in Hr as [-> ->].
    split; [apply extends_refl |]. split; [apply onlyAdds_refl |].
    split; [auto |].
    intros (C1 & C2 & C3) a' Ha'. apply Hr0 in Ha' as ->.
    unfold componentsInIndex. rewrite Hb1. split; [exact C1 |]. split.
    - intros p Hp. destruct (Hb2 p Hp); auto.
    - intros p Hp. destruct (Hb3 p Hp); auto. }
  assert (forall b b' : Locals, inl (B := unit) b = inl b' -> b' = b) as Hinl.
  { intros b b' Hb. injection Hb as <-. reflexivity. }
  match type of H with
  | (if ?b then _ else _) _ = _ => destruct b
  end.
  { eapply Hsame; [exact H | apply Hinl | reflexivity | auto | auto]. }
  apply bind_Ok in H as (variants & s1 & Hv & H).
  apply gets_Ok in Hv as [-> ->].
  destruct (retrieveVariants isVariant lits s) as [| v vs] eqn:Hvs.
  - (* a new component *)
    apply bind_Ok in H as ([] & s1 & H1 & H). apply modify_Ok in H1 as ->.
    apply bind_Ok in H as (p & s2 & H2 & H). apply newClause_Ok in H2 as [-> ->].
    apply bind_Ok in H as ([] & s3 & H3 & H). apply modify_Ok in H3 as ->.
    apply bind_Ok in H as ([] & s4 & H4 & H). apply modify_Ok in H4 as ->.
    apply ret_Ok in H as [-> ->].
    set (s1 := upd_uniqueComponents _ s).
    set (p := List.length (heap s1)).
    assert (extends s s1) as E1 by (apply extends_fields; reflexivity).
    assert (onlyAdds s s1) as O1 by (apply onlyAdds_fields; reflexivity).
    split.
    { eapply extends_trans; [exact E1 |].
      eapply extends_trans; [apply extends_newClause |].
      eapply extends_trans; [apply extends_variantIndexInsert |].
      apply extends_fields; reflexivity. }
    split.
    { eapply onlyAdds_trans; [exact O1 |].
      eapply onlyAdds_trans; [apply onlyAdds_newClause |].
      eapply onlyAdds_trans; [| apply onlyAdds_recordNonProp].
      apply onlyAdds_fields; reflexivity. }
    split.
    { intros Hwf. apply wf_record. apply wf_variantIndexInsert.
      - apply wf_newClause. eapply wf_fields; [.. | exact Hwf]; reflexivity.
      - simpl. rewrite length_app. simpl. subst p. simpl. lia.
      - intros Hp. apply (isPremise_valid s) in Hp; [| exact Hwf].
        subst p s1. simpl in Hp. lia. }
    intros (C1 & C2 & C3) a' Ha'. injection Ha' as <-.
    unfold componentsInIndex, inIndex. simpl.
    split; [| split].
    + intros q Hq. rewrite map_app. apply elem_of_app.
      apply elem_of_cons in Hq as [-> | Hq].
      * right. simpl. apply list_elem_of_here.
      * left. apply C1. exact Hq.
    + intros q Hq. rewrite map_app. apply elem_of_app. left. apply C2. exact Hq.
    + intros q Hq. rewrite map_app. apply elem_of_app. left. apply C3. exact Hq.
  - (* a variant exists *)
    assert (inIndex s v) as Hv.
    { apply (retrieveVariants_inIndex lits). rewrite Hvs. apply list_elem_of_here. }
    apply bind_Ok in H as (names & s1 & Hn & H).
    apply gets_Ok in Hn as [-> ->].
    destruct (clauseNames s !! v) as [compName |].
    + match type of H with
      | (if ?b then _ else _) _ = _ => destruct b
      end.
      * eapply Hsame; [exact H | apply Hinl | reflexivity | auto |].
        simpl. intros p Hp. injection Hp as <-. auto.
      * destruct (isTrue _).
        -- apply ret_Ok in H as [-> ->].
           split; [apply extends_refl |]. split; [apply onlyAdds_refl |].
           split; [auto |]. intros _ a' Ha'. discriminate Ha'.
        -- eapply Hsame; [exact H | apply Hinl | reflexivity | auto | auto].
    + eapply Hsame; [exact H | apply Hinl | reflexivity | | auto].
      simpl. intros p Hp. apply elem_of_cons in Hp as [-> | Hp]; auto.
Qed.

Lemma componentLoop_facts (c : Clause) (comps : list (list nat)) (a : Locals)
    (r : Locals + unit) (s s' : State) :
  foldM_return (component c) comps a s = Ok r s' ->
  extends s s' /\ onlyAdds s s'
  /\ (wf s -> wf s')
  /\ (componentsInIndex s a ->
      forall a', r = inl a' -> componentsInIndex s' a').
Proof.
  revert a s. induction comps as [| comp comps IH]; intros a s H; simpl in H.
  - apply ret_Ok in H as [-> ->].
    split; [apply extends_refl |]. split; [apply onlyAdds_refl |].
    split; [auto |]. intros Hc a' Ha'. injection Ha' as <-. exact Hc.
  - apply bind_Ok in H as (r1 & s1 & H1 & H).
    apply component_facts in H1 as (A1 & A2 & A3 & A4).
    destruct r1 as [a1 | []].
    + apply IH in H as (B1 & B2 & B3 & B4).
      split; [eapply extends_trans; eassumption |].
      split; [eapply onlyAdds_trans; eassumption |].
      split; [auto |]. intros Hc a' Ha'. eapply B4; [| exact Ha'].
      eapply A4; [exact Hc | reflexivity].
    + apply ret_Ok in H as [-> ->].
      split; [exact A1 |]. split; [exact A2 |]. split; [exact A3 |].
      intros _ a' Ha'. discriminate Ha'.
Qed.

(** *** Insertion into the variant index *)

Lemma insertIntoIndex_facts (cl r : ClausePtr) (ni mo : bool) (s s' : State) :
  insertIntoIndex cl s = Ok (r, ni, mo) s' ->
  extends s s' /\ inIndex s' r
  /\ (wf s -> ~ isPremise s cl -> wf s')
  /\ (ni = true -> r = cl).
Proof.
  unfold Splitter.insertIntoIndex. intros H.
  apply bind_Ok in H as (c & s1 & Hc & H). apply getClause_Ok in Hc as [Hc ->].
  apply bind_Ok in H as (variants & s1 & Hv & H). apply gets_Ok in Hv as [-> ->].
  destruct (retrieveVariants isVariant (literals c) s) as [| v vs] eqn:Hvs.
  - apply bind_Ok in H as ([] & s1 & H1 & H). apply modify_Ok in H1 as ->.
    apply bind_Ok in H as ([] & s2 & H2 & H). apply modify_Ok in H2 as ->.
    apply ret_Ok in H as [H ->]. injection H as -> -> ->.
    set (s1 := upd_uniqueComponents _ s).
    assert (extends s s1) as E1 by (apply extends_fields; reflexivity).
    split; [eapply extends_trans; [exact E1 | apply extends_variantIndexInsert] |].
    split.
    { unfold inIndex. simpl. rewrite map_app. apply elem_of_app. right.
      apply list_elem_of_here. }
    split; [| reflexivity].
    intros Hwf Hnp. apply wf_variantIndexInsert.
    + eapply wf_fields; [.. | exact Hwf]; reflexivity.
    + apply lookup_lt_Some in Hc. exact Hc.
    + exact Hnp.
  - assert (inIndex s v) as Hv.
    { apply (retrieveVariants_inIndex (literals c)). rewrite Hvs. apply list_elem_of_here. }
    apply bind_Ok in H as (oldCompProp & s1 & H1 & H). apply getProp_Ok in H1 as [_ ->].
    apply bind_Ok in H as (oldClProp & s1 & H1 & H). apply getProp_Ok in H1 as [_ ->].
    destruct (decide (oldCompProp = conjunction oldCompProp oldClProp)).
    + apply ret_Ok in H as [H ->]. injection H as -> -> ->.
      split; [apply extends_refl |]. split; [exact Hv |].
      split; [auto | discriminate].
    + apply bind_Ok in H as ([] & s1 & H1 & H).
      apply setProp_Ok in H1 as (c' & Hc' & ->).
      apply bind_Ok in H as ([] & s2 & H2 & H). apply modify_Ok in H2 as ->.
      apply ret_Ok in H as [H ->]. injection H as -> -> ->.
      split.
      { eapply extends_trans; [apply extends_setProp |].
        apply extends_fields; reflexivity. }
      split; [exact Hv |]. split; [| discriminate].
      intros Hwf _. apply wf_record. apply wf_setProp; [exact Hwf |].
      destruct Hwf as [_ W2]. apply W2. exact Hv.
Qed.

(** *** The choice of the master component *)

Lemma chooseMaster_facts (a a' : Locals) (m : ClausePtr) (mn : bool) (s s' : State) :
  chooseMaster a s = Ok (m, mn, a') s' ->
  extends s s'
  /\ (wf s -> wf s')
  /\ (componentsInIndex s a -> componentsInIndex s' a' /\ inIndex s' m).
Proof.
  unfold Splitter.chooseMaster. intros H.
  destruct (newComponentStack a) as [| m1 rest1] eqn:Hnew.
  - destruct (unnamedComponentStack a) as [| m2 rest2] eqn:Hun.
    + destruct (masterComp a) as [m3 |] eqn:Hm.
      * apply ret_Ok in H as [H ->]. injection H as -> -> ->.
        split; [apply extends_refl |]. split; [auto |].
        intros Hc. split; [exact Hc |]. apply Hc. exact Hm.
      * apply bind_Ok in H as (emptyCl & s1 & H1 & H).
        apply newClause_Ok in H1 as [-> ->].
        apply bind_Ok in H as ([[m' ni] mo] & s2 & H2 & H).
        apply ret_Ok in H as [H ->]. injection H as -> -> ->.
        apply insertIntoIndex_facts in H2 as (E & Hin & Hw & _).
        split; [eapply extends_trans; [apply extends_newClause | exact E] |].
        split.
        { intros Hwf. apply Hw; [apply wf_newClause; exact Hwf |].
          intros Hp. apply (isPremise_valid s) in Hp; [lia | exact Hwf]. }
        intros _. split; [| exact Hin].
        unfold componentsInIndex. simpl. split; [| split].
        -- intros p Hp. apply elem_of_nil in Hp. contradiction.
        -- intros p Hp. apply elem_of_nil in Hp. contradiction.
        -- intros p Hp. injection Hp as <-. exact Hin.
    + apply ret_Ok in H as [H ->]. injection H as -> -> ->.
      split; [apply extends_refl |]. split; [auto |].
      intros (C1 & C2 & C3).
      assert (inIndex s m2) as Hm by (apply C2; rewrite Hun; apply list_elem_of_here).
      split; [| exact Hm].
      unfold componentsInIndex. simpl. split; [| split].
      * intros p Hp. apply elem_of_nil in Hp. contradiction.
      * intros p Hp. apply C2. rewrite Hun. apply list_elem_of_further. exact Hp.
      * intros p Hp. injection Hp as <-. exact Hm.
  - apply ret_Ok in H as [H ->]. injection H as -> -> ->.
    split; [apply extends_refl |]. split; [auto |].
    intros (C1 & C2 & C3).
    assert (inIndex s m1) as Hm by (apply C1; rewrite Hnew; apply list_elem_of_here).
    split; [| exact Hm].
    unfold componentsInIndex. simpl. split; [| split].
    + intros p Hp. apply C1. rewrite Hnew. apply list_elem_of_further. exact Hp.
    + exact C2.
    + intros p Hp. injection Hp as <-. exact Hm.
Qed.

(** *** The third loop *)

Lemma nameComponent_facts (master comp : ClausePtr)
    (acc acc' : BDDNode * list ClausePtr) (s s' : State) :
  nameComponent master comp acc s = Ok acc' s' ->
  extends s s' /\ (wf s -> inIndex s comp -> wf s').
Proof.
  unfold nameComponent. intros H.
  destruct (decide (comp = master)).
  { apply ret_Ok in H as [-> ->]. split; [apply extends_refl | auto]. }
  apply bind_Ok in H as (compName & s1 & H1 & H).
  unfold getNewVar in H1. injection H1 as <- <-.
  apply bind_Ok in H as (names & s2 & H2 & H). apply gets_Ok in H2 as [-> ->].
  set (s1 := upd_bdd_newVar _ s) in *.
  assert (extends s s1) as E1 by (apply extends_fields; reflexivity).
  assert (wf s -> wf s1) as W1.
  { intros Hwf. eapply wf_fields; [.. | exact Hwf]; reflexivity. }
  destruct (clauseNames s1 !! comp).
  { apply ret_Ok in H as [-> ->]. split; [exact E1 | auto]. }
  apply bind_Ok in H as ([] & s2 & H2 & H). apply modify_Ok in H2 as ->.
  set (s2 := upd_clauseNames _ s1) in *.
  assert (extends s1 s2) as E2 by (apply extends_fields; reflexivity).
  assert (wf s1 -> wf s2) as W2.
  { intros Hwf. eapply wf_fields; [.. | exact Hwf]; reflexivity. }
  apply bind_Ok in H as (oldCompProp & s3 & H3 & H). apply getProp_Ok in H3 as [_ ->].
  apply bind_Ok in H as ([] & s3 & H3 & H). apply ret_Ok in H as [-> ->].
  destruct (decide (conjunction oldCompProp (getAtomic (bdd_newVar s) false)
                    <> oldCompProp)).
  - apply bind_Ok in H3 as ([] & s4 & H4 & H3).
    apply setProp_Ok in H4 as (c' & Hc' & ->). apply modify_Ok in H3 as ->.
    split.
    { eapply extends_trans; [exact E1 |]. eapply extends_trans; [exact E2 |].
      eapply extends_trans; [apply extends_setProp |].
      apply extends_fields; reflexivity. }
    intros Hwf Hin. apply wf_record. apply wf_setProp; [auto |].
    destruct Hwf as [_ Hw]. apply (Hw comp Hin).
  - apply ret_Ok in H3 as [_ ->].
    split; [eapply extends_trans; eassumption | auto].
Qed.

Lemma nameLoop_facts (master : ClausePtr) (comps : list ClausePtr)
    (acc acc' : BDDNode * list ClausePtr) (s s' : State) :
  foldM (nameComponent master) comps acc s = Ok acc' s' ->
  extends s s' /\ (wf s -> (forall p, p ∈ comps -> inIndex s p) -> wf s').
Proof.
  revert acc s. induction comps as [| comp comps IH]; intros acc s H; simpl in H.
  - apply ret_Ok in H as [-> ->]. split; [apply extends_refl | auto].
  - apply bind_Ok in H as (acc1 & s1 & H1 & H).
    apply nameComponent_facts in H1 as (A1 & A2).
    apply IH in H as (B1 & B2).
    split; [eapply extends_trans; eassumption |].
    intros Hwf Hin. apply B2.
    + apply A2; [exact Hwf |]. apply Hin. apply list_elem_of_here.
    + intros p Hp. destruct A1 as (_ & _ & _ & A1 & _). apply A1.
      apply Hin. apply list_elem_of_further. exact Hp.
Qed.

(** *** The end of a split *)

Lemma finishSplit_facts (master : ClausePtr) (masterNew : bool) (newProp : BDDNode)
    (premises unnamed new out1 out2 : list ClausePtr) (s s' : State) :
  finishSplit master masterNew newProp premises unnamed new s = Ok (out1, out2) s' ->
  extends s s'
  /\ (wf s -> inIndex s master -> wf s')
  /\ (forall p, p ∈ out1 ++ out2 -> p = master \/ p ∈ new \/ p ∈ unnamed).
Proof.
  unfold finishSplit. intros H.
  apply bind_Ok in H as (oldProp & s1 & H1 & H). apply getProp_Ok in H1 as [_ ->].
  apply bind_Ok in H as ([] & s1 & H1 & H). apply setProp_Ok in H1 as (c' & Hc' & ->).
  apply bind_Ok in H as ([] & s2 & H2 & H). apply modify_Ok in H2 as ->.
  split.
  { assert (s' = upd_inferenceStore
                   (fun l => l ++ [recordSplitting master oldProp
                                     (conjunction oldProp newProp) (rev premises)])
                   (upd_heap (fun h => <[master := withProp (conjunction oldProp newProp) c']> h) s))
      as ->.
    { destruct masterNew; [apply ret_Ok in H as [_ ->]; reflexivity |].
      destruct (decide (oldProp <> conjunction oldProp newProp));
        apply ret_Ok in H as [_ ->]; reflexivity. }
    eapply extends_trans; [apply extends_setProp |].
    apply extends_fields; reflexivity. }
  split.
  { intros Hwf Hin.
    assert (s' = upd_inferenceStore
                   (fun l => l ++ [recordSplitting master oldProp
                                     (conjunction oldProp newProp) (rev premises)])
                   (upd_heap (fun h => <[master := withProp (conjunction oldProp newProp) c']> h) s))
      as ->.
    { destruct masterNew; [apply ret_Ok in H as [_ ->]; reflexivity |].
      destruct (decide (oldProp <> conjunction oldProp newProp));
        apply ret_Ok in H as [_ ->]; reflexivity. }
    apply wf_record. apply wf_setProp; [exact Hwf |].
    destruct Hwf as [_ Hw]. apply (Hw master Hin). }
  intros p Hp. apply elem_of_app in Hp.
  destruct masterNew.
  - apply ret_Ok in H as [H _]. injection H as -> ->.
    destruct Hp as [Hp | Hp]; [| auto].
    apply elem_of_cons in Hp as [-> | Hp]; auto.
  - destruct (decide (oldProp <> conjunction oldProp newProp));
      apply ret_Ok in H as [H _]; injection H as -> ->.
    + destruct Hp as [Hp | Hp]; [auto |].
      apply elem_of_cons in Hp as [-> | Hp]; auto.
    + destruct Hp as [Hp | Hp]; auto.
Qed.

(** *** A whole split *)

Lemma componentsInIndex_initial (cl : ClausePtr) (clProp : BDDNode) (n : nat)
    (s : State) :
  componentsInIndex s (initialLocals cl clProp n).
Proof.
  unfold componentsInIndex, initialLocals. simpl. split; [| split].
  - intros p Hp. apply elem_of_nil in Hp. contradiction.
  - intros p Hp. apply elem_of_nil in Hp. contradiction.
  - intros p Hp. discriminate Hp.
Qed.

(** A run of [split] goes through the first loop and then only extends the
    state; what it emits comes from the variant index. *)
Lemma split_inv (cl : ClausePtr) (c : Clause) (comps : list (list nat))
    (new modified : list ClausePtr) (s s' : State) :
  split cl c comps s = Ok (new, modified) s' ->
  exists clProp a1 s1,
    (exists c0, heap s !! cl = Some c0 /\ prop c0 = Some clProp) /\
    foldM (propositionalComponent c) comps
      (initialLocals cl clProp (List.length comps))
      (countSplit (List.length comps) s) = Ok a1 s1
    /\ extends s s1 /\ extends s1 s'
    /\ (wf s -> wf s' /\ forall p, p ∈ new ++ modified -> inIndex s' p).
Proof.
  unfold Splitter.split. intros H.
  apply bind_Ok in H as ([] & s0 & H0 & H). apply modify_Ok in H0 as ->.
  set (s0 := countSplit _ s) in *.
  assert (extends s s0) as E0 by (apply extends_fields; reflexivity).
  assert (wf s -> wf s0) as W0.
  { intros Hwf. eapply wf_fields; [.. | exact Hwf]; reflexivity. }
  apply bind_Ok in H as (clProp & s1 & H1 & H). apply getProp_Ok in H1 as [Hcl ->].
  apply bind_Ok in H as (a1 & s1 & H1 & H).
  exists clProp, a1, s1. split; [exact Hcl |]. split; [exact H1 |].
  pose proof (propositionalLoop_facts _ _ _ _ _ _ H1) as (E1 & _ & I1 & N1 & U1 & M1 & W1).
  split; [exact (extends_trans _ _ _ E0 E1) |].
  assert (componentsInIndex s1 a1) as C1.
  { unfold componentsInIndex. rewrite N1, U1, M1.
    apply (componentsInIndex_initial cl clProp (List.length comps) s1). }
  apply bind_Ok in H as (r & s2 & H2 & H).
  apply componentLoop_facts in H2 as (E2 & _ & W2 & C2).
  destruct r as [a2 | []].
  - specialize (C2 C1 a2 eq_refl).
    apply bind_Ok in H as ([[master masterNew] a3] & s3 & H3 & H).
    apply chooseMaster_facts in H3 as (E3 & W3 & C3).
    destruct (C3 C2) as [(C3n & C3u & C3m) Hm].
    apply bind_Ok in H as ([newProp premises] & s4 & H4 & H).
    apply nameLoop_facts in H4 as (E4 & W4).
    pose proof E4 as (_ & _ & _ & I4 & _).
    apply finishSplit_facts in H as (E5 & W5 & O5).
    pose proof E5 as (_ & _ & _ & I5 & _).
    split.
    { repeat (eapply extends_trans; [eassumption |]). apply extends_refl. }
    intros Hwf. split.
    + apply W5; [| apply I4; exact Hm]. apply W4; [auto |].
      intros p Hp. apply elem_of_app in Hp as [Hp | Hp]; auto.
    + intros p Hp. apply I5, I4. destruct (O5 p Hp) as [-> | [Hp' | Hp']]; auto.
  - apply ret_Ok in H as [H ->]. injection H as -> ->.
    split; [exact E2 |].
    intros Hwf. split; [auto |].
    intros p Hp. simpl in Hp. apply elem_of_nil in Hp. contradiction.
Qed.

Lemma split_facts (cl : ClausePtr) (c : Clause) (comps : list (list nat))
    (new modified : list ClausePtr) (s s' : State) :
  split cl c comps s = Ok (new, modified) s' ->
  extends s s'
  /\ (wf s -> wf s' /\ forall p, p ∈ new ++ modified -> inIndex s' p).
Proof.
  intros H. apply split_inv in H as (clProp & a1 & s1 & _ & _ & E1 & E2 & W).
  split; [eapply extends_trans; eassumption | exact W].
Qed.

(** *** The no-split path *)

Lemma nameAndReplace_facts (cl cl' : ClausePtr) (s s' : State) :
  nameAndReplace cl s = Ok cl' s' ->
  extends s s'
  /\ (wf s -> ~ isPremise s cl -> wf s' /\ ~ isPremise s' cl').
Proof.
  unfold nameAndReplace. intros H.
  apply bind_Ok in H as (c & s1 & Hc & H). apply getClause_Ok in Hc as [Hc ->].
  assert (ret cl s = Ok cl' s' ->
          extends s s' /\ (wf s -> ~ isPremise s cl -> wf s' /\ ~ isPremise s' cl'))
    as Hsame.
  { intros Hr. apply ret_Ok in Hr as [-> ->]. split; [apply extends_refl | auto]. }
  destruct (literals c) as [| lit [| lit2 rest]]; [exact (Hsame H) | | exact (Hsame H)].
  destruct (decide (arity lit = 0%nat)) as [Har | _]; [| exact (Hsame H)].
  assert (args lit = []) as Hargs.
  { unfold arity in Har. destruct (args lit); [reflexivity | discriminate]. }
  apply bind_Ok in H as ([[n premise] b] & s1 & Hg & H).
  apply bind_Ok in H as (newCl & s2 & H2 & H). apply newClause_Ok in H2 as [-> ->].
  apply bind_Ok in H as ([] & s3 & H3 & H). apply modify_Ok in H3 as ->.
  apply ret_Ok in H as [-> ->].
  pose proof (getPropPredName_facts _ _ _ _ _ _ Hg) as (_ & _ & _ & E1 & _).
  split.
  { eapply extends_trans; [exact E1 |].
    eapply extends_trans; [apply extends_newClause |].
    apply extends_fields; reflexivity. }
  intros Hwf Hnp.
  pose proof (getPropPredName_wf _ _ _ _ _ _ Hwf Hargs Hg) as Hwf1.
  split.
  - apply wf_record. apply wf_newClause. exact Hwf1.
  - intros Hp. apply (isPremise_valid s1) in Hp; [lia | exact Hwf1].
Qed.

Lemma insertIntoIndex_premises (cl r : ClausePtr) (ni mo : bool) (s s' : State)
    (p : ClausePtr) :
  insertIntoIndex cl s = Ok (r, ni, mo) s' -> isPremise s' p -> isPremise s p.
Proof.
  unfold Splitter.insertIntoIndex. intros H.
  apply bind_Ok in H as (c & s1 & Hc & H). apply getClause_Ok in Hc as [Hc ->].
  apply bind_Ok in H as (variants & s1 & Hv & H). apply gets_Ok in Hv as [-> ->].
  destruct (retrieveVariants isVariant (literals c) s) as [| v vs].
  - apply bind_Ok in H as ([] & s1 & H1 & H). apply modify_Ok in H1 as ->.
    apply bind_Ok in H as ([] & s2 & H2 & H). apply modify_Ok in H2 as ->.
    apply ret_Ok in H as [_ ->]. intros Hp. exact Hp.
  - apply bind_Ok in H as (oldCompProp & s1 & H1 & H). apply getProp_Ok in H1 as [_ ->].
    apply bind_Ok in H as (oldClProp & s1 & H1 & H). apply getProp_Ok in H1 as [_ ->].
    destruct (decide (oldCompProp = conjunction oldCompProp oldClProp)).
    + apply ret_Ok in H as [_ ->]. auto.
    + apply bind_Ok in H as ([] & s1 & H1 & H).
      apply setProp_Ok in H1 as (c' & Hc' & ->).
      apply bind_Ok in H as ([] & s2 & H2 & H). apply modify_Ok in H2 as ->.
      apply ret_Ok in H as [_ ->]. intros Hp. exact Hp.
Qed.

Lemma insertAndReport_facts (cl : ClausePtr) (new modified : list ClausePtr)
    (s s' : State) :
  insertAndReport cl s = Ok (new, modified) s' ->
  extends s s' /\ (wf s -> ~ isPremise s cl -> wf s').
Proof.
  unfold Splitter.insertAndReport. intros H.
  apply bind_Ok in H as ([[insCl ni] mo] & s1 & H1 & H).
  pose proof (fun p => insertIntoIndex_premises _ _ _ _ _ _ p H1) as P1.
  apply insertIntoIndex_facts in H1 as (E1 & _ & W1 & _).
  destruct ni; [apply ret_Ok in H as [_ ->]; split; assumption |].
  destruct mo; [| apply ret_Ok in H as [_ ->]; split; assumption].
  apply bind_Ok in H as (ic & s2 & H2 & H). apply getClause_Ok in H2 as [_ ->].
  match type of H with
  | (if ?b then _ else _) _ = _ => destruct b
  end; [| apply ret_Ok in H as [_ ->]; split; assumption].
  apply bind_Ok in H as (oldClProp & s2 & H2 & H). apply getProp_Ok in H2 as [_ ->].
  apply bind_Ok in H as (insProp & s2 & H2 & H). apply getProp_Ok in H2 as [_ ->].
  apply bind_Ok in H as ([] & s2 & H2 & H). apply setProp_Ok in H2 as (c' & Hc' & ->).
  apply bind_Ok in H as ([] & s3 & H3 & H). apply modify_Ok in H3 as ->.
  apply ret_Ok in H as [_ ->].
  split.
  { eapply extends_trans; [exact E1 |].
    eapply extends_trans; [apply extends_setProp |].
    apply extends_fields; reflexivity. }
  intros Hwf Hnp. apply wf_record. apply wf_setProp; [auto |].
  intros Hp. apply Hnp, P1, Hp.
Qed.

Lemma handleNoSplit_facts (cl : ClausePtr) (new modified : list ClausePtr)
    (s s' : State) :
  handleNoSplit cl s = Ok (new, modified) s' ->
  extends s s' /\ (wf s -> ~ isPremise s cl -> wf s').
Proof.
  unfold Splitter.handleNoSplit. intros H.
  apply bind_Ok in H as (cl' & s1 & H1 & H).
  apply nameAndReplace_facts in H1 as (E1 & W1).
  apply insertAndReport_facts in H as (E2 & W2).
  split; [eapply extends_trans; eassumption |].
  intros Hwf Hnp. destruct (W1 Hwf Hnp) as [Hwf1 Hnp1]. auto.
Qed.

(** [doSplitting] keeps the state well formed and forgets nothing, when the
    clause it is given is not one of the naming premises. *)
Lemma doSplitting_facts (cl : ClausePtr) (new modified : list ClausePtr)
    (s s' : State) :
  doSplitting cl s = Ok (new, modified) s' ->
  extends s s' /\ (wf s -> ~ isPremise s cl -> wf s').
Proof.
  unfold Splitter.doSplitting. intros H.
  apply bind_Ok in H as (c & s1 & Hc & H). apply getClause_Ok in Hc as [Hc ->].
  destruct (decide (Kernel.length c <= 1)%nat); [exact (handleNoSplit_facts _ _ _ _ _ H) |].
  destruct (decide (List.length _ = 1%nat)); [exact (handleNoSplit_facts _ _ _ _ _ H) |].
  apply split_facts in H as (E & W). split; [exact E |].
  intros Hwf _. apply W. exact Hwf.
Qed.

Lemma later_facts (s s' : State) :
  later s s' -> extends s s' /\ (wf s -> wf s').
Proof.
  induction 1 as [| s1 s2 cl new modified _ [IH1 IH2] Hnp Hd
                  | s1 s2 lit n p b _ [IH1 IH2] Har Hg
                  | s1 c _ [IH1 IH2]
                  | s1 _ [IH1 IH2]
                  | s1 p c n _ [IH1 IH2] Hnp Hc].
  - split; [apply extends_refl | auto].
  - apply doSplitting_facts in Hd as (E & W).
    split; [eapply extends_trans; eassumption | auto].
  - assert (args lit = []) as Hargs.
    { unfold arity in Har. destruct (args lit); [reflexivity | discriminate]. }
    pose proof (getPropPredName_facts _ _ _ _ _ _ Hg) as (_ & _ & _ & E & _).
    split; [eapply extends_trans; eassumption |].
    intros Hwf. eapply getPropPredName_wf; [apply IH2, Hwf | exact Hargs | exact Hg].
  - split; [eapply extends_trans; [exact IH1 | apply extends_newClause] |].
    intros Hwf. apply wf_newClause. auto.
  - split; [eapply extends_trans; [exact IH1 | apply extends_fields; reflexivity] |].
    intros Hwf. eapply wf_fields; [.. | apply IH2, Hwf]; reflexivity.
  - split; [eapply extends_trans; [exact IH1 | apply extends_setProp] |].
    intros Hwf. apply wf_setProp; auto.
Qed.

Lemma arity_0_args (lit : Literal) : arity lit = 0%nat -> args lit = [].
Proof. unfold arity. destruct (args lit); [reflexivity | discriminate]. Qed.

(** One iteration of the first loop on a component that is one literal of
    arity 0. *)
Lemma propositionalComponent_named (c : Clause) (i : nat) (lit : Literal) (a : Locals)
    (s s' : State) n premise b :
  literals c !! i = Some lit -> arity lit = 0%nat ->
  getPropPredName lit s = Ok (n, premise, b) s' ->
  propositionalComponent c [i] a s =
  Ok (mkLocals (disjunction (newMasterProp a) (getAtomic n (isPositive lit)))
        (premise :: masterPremises a) (remainingComps a - 1)
        (unnamedComponentStack a) (newComponentStack a) (masterComp a)) s'.
Proof.
  intros Hl Har Hg. unfold propositionalComponent, literalAt.
  rewrite Hl. unfold bind at 1. unfold ret at 1.
  destruct (decide (arity lit <> 0%nat)) as [Hne | _]; [contradiction |].
  unfold bind. rewrite Hg. reflexivity.
Qed.

Lemma foldM_singleton {A B} (f : B -> A -> M A) (x : B) (a a' : A) (s s' : State) :
  f x a s = Ok a' s' -> foldM f [x] a s = Ok a' s'.
Proof. intros H. simpl. unfold bind. rewrite H. reflexivity. Qed.

(** C2: in [doSplitting] on a clause with at least two components, at a
    component that is one literal [lit] of arity 0, reached in the first
    loop with locals [a] in state [s1]: [getPropPredName] gives a variable
    [n] for [lit], a fresh one when the predicate of [lit] had none; the
    accumulated propositional part becomes the disjunction of its previous
    value with [atomic(n, isPositive(lit))]; the naming premise is pushed
    on the master premises; it is the clause [{lit}] with propositional
    part [atomic(n, not isPositive(lit))] and its creation is recorded in
    the inference store; and it is not among the new or the modified
    components that [doSplitting] emits. *)
Theorem doSplitting_propositional_component
    (cl : ClausePtr) (c : Clause) (clProp : BDDNode) (s : State)
    (pre post : list (list nat)) (i : nat) (lit : Literal)
    (a : Locals) (s1 : State) :
  let comps := unionFindComponents (Kernel.length c) (componentUnions (literals c)) in
  let a0 := initialLocals cl clProp (List.length comps) in
  let s0 := countSplit (List.length comps) s in
  wf s ->
  heap s !! cl = Some c ->
  prop c = Some clProp ->
  (1 < Kernel.length c)%nat ->
  (2 <= List.length comps)%nat ->
  comps = pre ++ [i] :: post ->
  literals c !! i = Some lit ->
  arity lit = 0%nat ->
  foldM (propositionalComponent c) pre a0 s0 = Ok a s1 ->
  exists n premise b s2,
    getPropPredName lit s1 = Ok (n, premise, b) s2
    /\ match propPredNames s1 !! functor lit with
       | Some m => n = m /\ bdd_newVar s2 = bdd_newVar s1
       | None => n = bdd_newVar s1 /\ bdd_newVar s2 = bdd_newVar s1 + 1
       end
    /\ foldM (propositionalComponent c) (pre ++ [[i]]) a0 s0 =
       Ok (mkLocals (disjunction (newMasterProp a) (getAtomic n (isPositive lit)))
             (premise :: masterPremises a) (remainingComps a - 1)
             (unnamedComponentStack a) (newComponentStack a) (masterComp a)) s2
    /\ heap s2 !! premise
       = Some (mkClause [lit] AXIOM (Inference0 CLAUSE_NAMING)
                 (Some (getAtomic n (negb (isPositive lit)))) None)
    /\ recordNonPropInference premise ∈ inferenceStore s2
    /\ forall new modified s',
         doSplitting cl s = Ok (new, modified) s' ->
         (premise ∉ new) /\ (premise ∉ modified)
         /\ heap s' !! premise
            = Some (mkClause [lit] AXIOM (Inference0 CLAUSE_NAMING)
                      (Some (getAtomic n (negb (isPositive lit)))) None)
         /\ recordNonPropInference premise ∈ inferenceStore s'.
Proof.
  intros comps a0 s0 Hwf Hc Hprop Hlen Hcnt Hcomps Hl Har Hpre.
  assert (wf s0) as Hwf0.
  { eapply wf_fields; [.. | exact Hwf]; reflexivity. }
  pose proof (propositionalLoop_facts _ _ _ _ _ _ Hpre) as (_ & _ & _ & _ & _ & _ & W1).
  specialize (W1 Hwf0).
  destruct (getPropPredName_total lit s1) as (n & premise & b & s2 & Hg).
  exists n, premise, b, s2.
  pose proof (arity_0_args lit Har) as Hargs.
  pose proof (getPropPredName_facts _ _ _ _ _ _ Hg) as (F1 & F2 & F3 & _).
  pose proof (getPropPredName_premise _ _ _ _ _ _ W1 Hargs Hg) as [Hheap Hrec].
  pose proof (propositionalComponent_named c i lit a s1 s2 n premise b Hl Har Hg) as Hstep.
  split; [exact Hg |]. split; [exact F2 |].
  split.
  { rewrite foldM_app. unfold bind. rewrite Hpre.
    apply foldM_singleton. exact Hstep. }
  split; [exact Hheap |]. split; [exact Hrec |].
  intros new modified s' Hd.
  (* the run of doSplitting goes through the same first loop *)
  unfold Splitter.doSplitting in Hd.
  apply bind_Ok in Hd as (c' & s'' & Hc' & Hd). apply getClause_Ok in Hc' as [Hc' ->].
  assert (c' = c) as -> by congruence.
  fold comps in Hd.
  destruct (decide (Kernel.length c <= 1)%nat) as [Hle | _]; [lia |].
  destruct (decide (List.length comps = 1%nat)) as [He | _]; [lia |].
  apply split_inv in Hd as (clProp' & a1 & s3 & (c0 & Hc0 & Hp0) & Hloop & _ & E3 & W3).
  assert (clProp' = clProp) as -> by congruence.
  fold a0 s0 in Hloop.
  destruct (W3 Hwf) as [Hwf' Hout].
  (* the first loop passes through [s2] *)
  rewrite Hcomps in Hloop.
  change (pre ++ [i] :: post) with (pre ++ [[i]] ++ post) in Hloop.
  rewrite foldM_app in Hloop. unfold bind in Hloop. rewrite Hpre in Hloop.
  rewrite foldM_app in Hloop. unfold bind in Hloop.
  rewrite (foldM_singleton _ _ _ _ _ _ Hstep) in Hloop.
  apply propositionalLoop_facts in Hloop as (E2 & _).
  assert (extends s2 s') as E by (eapply extends_trans; eassumption).
  assert (isPremise s' premise) as Hp'.
  { eapply extends_isPremise; [exact E |]. eapply premiseMap_isPremise. exact F3. }
  assert (forall q, q ∈ new ++ modified -> q <> premise) as Hne.
  { intros q Hq ->. destruct Hwf' as [_ W]. destruct (W premise (Hout _ Hq)) as [_ Hn].
    exact (Hn Hp'). }
  split; [intros Hin; apply (Hne premise); [apply elem_of_app; auto | reflexivity] |].
  split; [intros Hin; apply (Hne premise); [apply elem_of_app; auto | reflexivity] |].
  (* the premise is still the naming premise at the end *)
  destruct Hwf' as [W _].
  assert (premiseMap lit s' !! functor lit = Some premise) as Hpm.
  { destruct E as (_ & Epos & Eneg & _). unfold premiseMap in F3 |- *.
    destruct (isPositive lit); eapply lookup_weaken; eassumption. }
  destruct (W lit premise Hargs Hpm) as (n' & Hn' & Hh' & Hr').
  assert (n' = n) as ->.
  { destruct E as (En & _). eapply lookup_weaken in F1; [| exact En]. congruence. }
  split; assumption.
Qed.

(** C10: names of propositional literals are allocated per predicate.
    After a call of [getPropPredName] on a literal [lit1] of arity 0 has
    returned the variable [n1] (the next fresh variable if the predicate had
    no name yet), every later call on a literal [lit2] of the same
    predicate, of either polarity, returns [n1] again and allocates no
    variable.  The premise it returns is the clause [{lit2}] with
    propositional part [atomic(n1, isNegative(lit2))]: [atomic(n1, false)]
    for a positive literal and [atomic(n1, true)] for a negative one.  The
    premises of the two polarities are different clauses, and the premise of
    a polarity stays the same clause. *)
Theorem getPropPredName_per_predicate
    (s s1 s2 : State) (lit1 lit2 : Literal) (n1 : Z) (p1 : ClausePtr) (b1 : bool) :
  wf s ->
  arity lit1 = 0%nat ->
  getPropPredName lit1 s = Ok (n1, p1, b1) s1 ->
  later s1 s2 ->
  functor lit2 = functor lit1 ->
  arity lit2 = 0%nat ->
  (propPredNames s !! functor lit1 = None -> n1 = bdd_newVar s)
  /\ heap s1 !! p1 = Some (namingPremise lit1 n1)
  /\ exists p2 b2 s3,
       getPropPredName lit2 s2 = Ok (n1, p2, b2) s3
       /\ bdd_newVar s3 = bdd_newVar s2
       /\ heap s3 !! p2
          = Some (mkClause [lit2] AXIOM (Inference0 CLAUSE_NAMING)
                    (Some (getAtomic n1 (negb (isPositive lit2)))) None)
       /\ heap s3 !! p1 = Some (namingPremise lit1 n1)
       /\ (isPositive lit2 = isPositive lit1 -> p2 = p1)
       /\ (isPositive lit2 <> isPositive lit1 -> p2 <> p1).
Proof.
  intros Hwf Har1 Hg1 Hlater Hf Har2.
  pose proof (arity_0_args _ Har1) as Hargs1.
  pose proof (arity_0_args _ Har2) as Hargs2.
  pose proof (getPropPredName_facts _ _ _ _ _ _ Hg1) as (F1 & F2 & F3 & _).
  pose proof (getPropPredName_wf _ _ _ _ _ _ Hwf Hargs1 Hg1) as Hwf1.
  pose proof (getPropPredName_premise _ _ _ _ _ _ Hwf Hargs1 Hg1) as [Hh1 _].
  pose proof Hlater as Hl. apply later_facts in Hl as [E12 W12]. specialize (W12 Hwf1).
  split.
  { intros Hnone. rewrite Hnone in F2. apply F2. }
  split; [exact Hh1 |].
  destruct (getPropPredName_total lit2 s2) as (n2 & p2 & b2 & s3 & Hg2).
  pose proof (getPropPredName_facts _ _ _ _ _ _ Hg2) as (G1 & G2 & G3 & E23 & _ & _ & _ & _ & G9).
  pose proof (getPropPredName_wf _ _ _ _ _ _ W12 Hargs2 Hg2) as Hwf3.
  pose proof (getPropPredName_premise _ _ _ _ _ _ W12 Hargs2 Hg2) as [Hh2 _].
  (* the name is the one of the first call *)
  assert (propPredNames s2 !! functor lit2 = Some n1) as Hn.
  { rewrite Hf. destruct E12 as (En & _). eapply lookup_weaken; eassumption. }
  rewrite Hn in G2. destruct G2 as [-> Hvar].
  exists p2, b2, s3.
  split; [exact Hg2 |]. split; [exact Hvar |]. split; [exact Hh2 |].
  (* the first premise is still there *)
  assert (extends s1 s3) as E13 by (eapply extends_trans; eassumption).
  assert (premiseMap lit1 s3 !! functor lit1 = Some p1) as Hpm.
  { destruct E13 as (_ & Epos & Eneg & _). unfold premiseMap in F3 |- *.
    destruct (isPositive lit1); eapply lookup_weaken; eassumption. }
  assert (heap s3 !! p1 = Some (namingPremise lit1 n1)) as Hh13.
  { destruct Hwf3 as [W _]. destruct (W lit1 p1 Hargs1 Hpm) as (n' & Hn' & Hh' & _).
    assert (n' = n1) as ->; [| exact Hh'].
    rewrite <- Hf in Hn'. congruence. }
  split; [exact Hh13 |]. split.
  - intros Hpos. assert (lit2 = lit1) as -> by (apply literal_eq; congruence).
    congruence.
  - intros Hpos ->. rewrite Hh13 in Hh2. unfold namingPremise in Hh2.
    injection Hh2 as Hlit _. apply Hpos. rewrite Hlit. reflexivity.
Qed.

(** The iteration of the second loop that leaves [doSplitting]. *)
Lemma component_discards (c : Clause) (comp : list nat) (a : Locals) (s : State)
    (lits : list Literal) (v : ClausePtr) (vs : list ClausePtr) (n : Z) :
  mapM (literalAt c) comp s = Ok lits s ->
  isPropositional lits = false ->
  retrieveVariants isVariant lits s = v :: vs ->
  clauseNames s !! v = Some n ->
  isLastComponent a (remainingComps a - 1) = false ->
  isTrue (disjunction (newMasterProp a) (getAtomic n true)) = true ->
  component c comp a s = Ok (inr tt) s.
Proof.
  intros Hl Hp Hv Hn Hlast Htrue. unfold Splitter.component.
  unfold bind at 1. rewrite Hl, Hp.
  unfold bind at 1. unfold gets at 1. rewrite Hv.
  unfold bind at 1. unfold gets at 1. rewrite Hn, Hlast, Htrue. reflexivity.
Qed.

(** C3: when, in the second loop of [doSplitting], the component at hand
    has a variant in the index that already has a name [n], it does not
    become the master, and disjoining [atomic(n, true)] makes the
    accumulated propositional part the constant true, then [doSplitting]
    returns at once: both iterators are empty and the state is the one of
    that moment.  Compared with the state at the call, no clause of the
    store has changed (so no propositional part has), no component has been
    named, and all that the inference store has been told is the creation
    of clauses: there is no splitting record. *)
Theorem doSplitting_discards
    (cl : ClausePtr) (c : Clause) (clProp : BDDNode) (s : State)
    (pre post : list (list nat)) (comp : list nat)
    (a1 a2 : Locals) (s1 s2 : State)
    (lits : list Literal) (v : ClausePtr) (vs : list ClausePtr) (n : Z) :
  let comps := unionFindComponents (Kernel.length c) (componentUnions (literals c)) in
  let a0 := initialLocals cl clProp (List.length comps) in
  let s0 := countSplit (List.length comps) s in
  heap s !! cl = Some c ->
  prop c = Some clProp ->
  (1 < Kernel.length c)%nat ->
  List.length comps <> 1%nat ->
  comps = pre ++ comp :: post ->
  foldM (propositionalComponent c) comps a0 s0 = Ok a1 s1 ->
  foldM_return (component c) pre a1 s1 = Ok (inl a2) s2 ->
  mapM (literalAt c) comp s2 = Ok lits s2 ->
  isPropositional lits = false ->
  retrieveVariants isVariant lits s2 = v :: vs ->
  clauseNames s2 !! v = Some n ->
  isLastComponent a2 (remainingComps a2 - 1) = false ->
  isTrue (disjunction (newMasterProp a2) (getAtomic n true)) = true ->
  doSplitting cl s = Ok ([], []) s2
  /\ (forall p c', heap s !! p = Some c' -> heap s2 !! p = Some c')
  /\ clauseNames s2 = clauseNames s
  /\ exists rs, inferenceStore s2 = inferenceStore s ++ rs
                /\ Forall isNonPropInference rs
                /\ forall master oldProp newProp premises,
                     recordSplitting master oldProp newProp premises ∉ rs.
Proof.
  intros comps a0 s0 Hc Hprop Hlen Hcnt Hcomps Hloop1 Hloop2 Hl Hp Hv Hn Hlast Htrue.
  pose proof (component_discards c comp a2 s2 lits v vs n Hl Hp Hv Hn Hlast Htrue) as Hstep.
  split.
  { unfold Splitter.doSplitting. unfold bind at 1. unfold getClause. rewrite Hc.
    fold comps.
    destruct (decide (Kernel.length c <= 1)%nat) as [Hle | _]; [lia |].
    destruct (decide (List.length comps = 1%nat)) as [He | _]; [contradiction |].
    unfold Splitter.split. unfold bind at 1. unfold modify at 1.
    fold s0. unfold bind at 1.
    assert (getProp cl s0 = Ok clProp s0) as ->.
    { unfold getProp, bind, getClause. simpl. rewrite Hc, Hprop. reflexivity. }
    fold a0. unfold bind at 1. rewrite Hloop1.
    unfold bind at 1. rewrite Hcomps at 1.
    rewrite foldM_return_app. unfold bind at 1. rewrite Hloop2.
    simpl. unfold bind at 1. rewrite Hstep. reflexivity. }
  assert (onlyAdds s s2) as (O1 & O2 & rs & O3 & O4).
  { eapply onlyAdds_trans; [apply (onlyAdds_fields s s0); reflexivity |].
    apply propositionalLoop_facts in Hloop1 as (_ & O1 & _).
    apply componentLoop_facts in Hloop2 as (_ & O2 & _).
    eapply onlyAdds_trans; eassumption. }
  split; [intros p c' Hpc; eapply prefix_lookup_Some; eassumption |].
  split; [exact O2 |].
  exists rs. split; [exact O3 |]. split; [exact O4 |].
  intros master oldProp newProp premises Hin.
  rewrite Forall_forall in O4. apply O4 in Hin. exact Hin.
Qed.

(** *** Names and counters *)

Lemma steady_refl (s : State) : steady s s.
Proof. split; [reflexivity |]. split; [reflexivity |]. split; [lia | auto]. Qed.

Lemma steady_trans (s1 s2 s3 : State) : steady s1 s2 -> steady s2 s3 -> steady s1 s3.
Proof.
  intros (A1 & A2 & A3 & A4) (B1 & B2 & B3 & B4).
  split; [congruence |]. split; [congruence |]. split; [lia | auto].
Qed.

Lemma steady_fields (s s' : State) :
  propPredNames s' = propPredNames s ->
  clauseNames s' = clauseNames s ->
  bdd_newVar s' = bdd_newVar s ->
  splittedClauses s' = splittedClauses s ->
  splittedComponents s' = splittedComponents s ->
  steady s s'.
Proof.
  intros H1 H2 H3 H4 H5. split; [exact H4 |]. split; [exact H5 |].
  split; [lia |]. unfold namesDistinct. rewrite H1, H2, H3. auto.
Qed.

Lemma steady_getNewVar (s : State) : steady s (upd_bdd_newVar (fun v => v + 1) s).
Proof.
  split; [reflexivity |]. split; [reflexivity |]. split; [simpl; lia |].
  intros (N1 & N2 & N3 & N4 & N5). unfold namesDistinct. simpl.
  split; [intros pred n Hn; apply N1 in Hn; lia |].
  split; [intros p n Hn; apply N2 in Hn; lia |].
  split; [exact N3 |]. split; [exact N4 | exact N5].
Qed.

Lemma steady_newPred (pred : Z) (s : State) :
  propPredNames s !! pred = None ->
  steady s (upd_propPredNames (fun m => <[pred := bdd_newVar s]> m)
              (upd_bdd_newVar (fun v => v + 1) s)).
Proof.
  intros Hnone.
  split; [reflexivity |]. split; [reflexivity |]. split; [simpl; lia |].
  intros (N1 & N2 & N3 & N4 & N5). unfold namesDistinct. simpl.
  split; [| split; [| split; [| split]]].
  - intros q n. destruct (decide (q = pred)) as [-> | Hq].
    + rewrite lookup_insert_eq. intros E. injection E as <-. lia.
    + rewrite lookup_insert_ne by congruence. intros Hn. apply N1 in Hn. lia.
  - intros p n Hn. apply N2 in Hn. lia.
  - intros q1 q2 n.
    destruct (decide (q1 = pred)) as [-> | H1], (decide (q2 = pred)) as [-> | H2];
      rewrite ?lookup_insert_eq, ?lookup_insert_ne by congruence.
    + reflexivity.
    + intros E Hn. injection E as <-. apply N1 in Hn. lia.
    + intros Hn E. injection E as <-. apply N1 in Hn. lia.
    + apply N3.
  - exact N4.
  - intros q p n. destruct (decide (q = pred)) as [-> | Hq].
    + rewrite lookup_insert_eq. intros E Hn. injection E as <-. apply N2 in Hn. lia.
    + rewrite lookup_insert_ne by congruence. apply N5.
Qed.

Lemma steady_newClauseName (comp : ClausePtr) (s : State) :
  clauseNames s !! comp = None ->
  steady s (upd_clauseNames (fun m => <[comp := bdd_newVar s]> m)
              (upd_bdd_newVar (fun v => v + 1) s)).
Proof.
  intros Hnone.
  split; [reflexivity |]. split; [reflexivity |]. split; [simpl; lia |].
  intros (N1 & N2 & N3 & N4 & N5). unfold namesDistinct. simpl.
  split; [| split; [| split; [| split]]].
  - intros q n Hn. apply N1 in Hn. lia.
  - intros p n. destruct (decide (p = comp)) as [-> | Hp].
    + rewrite lookup_insert_eq. intros E. injection E as <-. lia.
    + rewrite lookup_insert_ne by congruence. intros Hn. apply N2 in Hn. lia.
  - exact N3.
  - intros p1 p2 n.
    destruct (decide (p1 = comp)) as [-> | H1], (decide (p2 = comp)) as [-> | H2];
      rewrite ?lookup_insert_eq, ?lookup_insert_ne by congruence.
    + reflexivity.
    + intros E Hn. injection E as <-. apply N2 in Hn. lia.
    + intros Hn E. injection E as <-. apply N2 in Hn. lia.
    + apply N4.
  - intros q p n. destruct (decide (p = comp)) as [-> | Hp].
    + rewrite lookup_insert_eq. intros Hn E. injection E as <-. apply N1 in Hn. lia.
    + rewrite lookup_insert_ne by congruence. apply N5.
Qed.

Lemma getPropPredName_steady (lit : Literal) (s s' : State) n p b :
  getPropPredName lit s = Ok (n, p, b) s' -> steady s s'.
Proof.
  rewrite getPropPredName_eq. cbv zeta.
  set (s1 := match propPredNames s !! functor lit with
             | Some _ => s
             | None => _
             end).
  assert (steady s s1) as S1.
  { subst s1. destruct (propPredNames s !! functor lit) eqn:E;
      [apply steady_refl | apply steady_newPred; exact E]. }
  destruct (premiseMap lit s !! functor lit) as [q |]; intros H; injection H as _ _ _ <-.
  - exact S1.
  - eapply steady_trans; [exact S1 |].
    destruct (isPositive lit); apply steady_fields; reflexivity.
Qed.

Lemma propositionalComponent_steady (c : Clause) (comp : list nat) (a a' : Locals)
    (s s' : State) :
  propositionalComponent c comp a s = Ok a' s' -> steady s s'.
Proof.
  unfold propositionalComponent. intros H.
  destruct comp as [| i rest]; [discriminate H |].
  apply bind_Ok in H as (lit & s1 & Hl & H). apply literalAt_Ok in Hl as [_ ->].
  destruct rest; [| apply ret_Ok in H as [_ ->]; apply steady_refl].
  destruct (decide (arity lit <> 0%nat)) as [Har | Har];
    [apply ret_Ok in H as [_ ->]; apply steady_refl |].
  apply bind_Ok in H as ([[n premise] b] & s1 & Hg & H).
  apply ret_Ok in H as [_ ->]. eapply getPropPredName_steady. exact Hg.
Qed.

Lemma propositionalLoop_steady (c : Clause) (comps : list (list nat)) (a a' : Locals)
    (s s' : State) :
  foldM (propositionalComponent c) comps a s = Ok a' s' -> steady s s'.
Proof.
  revert a s. induction comps as [| comp comps IH]; intros a s H; simpl in H.
  - apply ret_Ok in H as [_ ->]. apply steady_refl.
  - apply bind_Ok in H as (a1 & s1 & H1 & H).
    eapply steady_trans; [eapply propositionalComponent_steady; exact H1 |].
    eapply IH. exact H.
Qed.

Lemma component_steady (c : Clause) (comp : list nat) (a : Locals)
    (r : Locals + unit) (s s' : State) :
  component c comp a s = Ok r s' -> steady s s'.
Proof.
  unfold Splitter.component. intros H.
  apply bind_Ok in H as (lits & s1 & Hl & H).
  apply mapM_literalAt_Ok in Hl as ->.
  match type of H with
  | (if ?b then _ else _) _ = _ => destruct b
  end; [apply ret_Ok in H as [_ ->]; apply steady_refl |].
  apply bind_Ok in H as (variants & s1 & Hv & H).
  apply gets_Ok in Hv as [-> ->].
  destruct (retrieveVariants isVariant lits s) as [| v vs].
  - apply bind_Ok in H as ([] & s1 & H1 & H). apply modify_Ok in H1 as ->.
    apply bind_Ok in H as (p & s2 & H2 & H). apply newClause_Ok in H2 as [-> ->].
    apply bind_Ok in H as ([] & s3 & H3 & H). apply modify_Ok in H3 as ->.
    apply bind_Ok in H as ([] & s4 & H4 & H). apply modify_Ok in H4 as ->.
    apply ret_Ok in H as [_ ->]. apply steady_fields; reflexivity.
  - apply bind_Ok in H as (names & s1 & Hn & H).
    apply gets_Ok in Hn as [-> ->].
    destruct (clauseNames s !! v) as [compName |].
    + match type of H with
      | (if ?b then _ else _) _ = _ => destruct b
      end; [apply ret_Ok in H as [_ ->]; apply steady_refl |].
      destruct (isTrue _); apply ret_Ok in H as [_ ->]; apply steady_refl.
    + apply ret_Ok in H as [_ ->]. apply steady_refl.
Qed.

Lemma componentLoop_steady (c : Clause) (comps : list (list nat)) (a : Locals)
    (r : Locals + unit) (s s' : State) :
  foldM_return (component c) comps a s = Ok r s' -> steady s s'.
Proof.
  revert a s. induction comps as [| comp comps IH]; intros a s H; simpl in H.
  - apply ret_Ok in H as [_ ->]. apply steady_refl.
  - apply bind_Ok in H as (r1 & s1 & H1 & H).
    apply component_steady in H1.
    destruct r1 as [a1 | []].
    + eapply steady_trans; [exact H1 | eapply IH; exact H].
    + apply ret_Ok in H as [_ ->]. exact H1.
Qed.

Lemma insertIntoIndex_steady (cl r : ClausePtr) (ni mo : bool) (s s' : State) :
  insertIntoIndex cl s = Ok (r, ni, mo) s' -> steady s s'.
Proof.
  unfold Splitter.insertIntoIndex. intros H.
  apply bind_Ok in H as (c & s1 & Hc & H). apply getClause_Ok in Hc as [Hc ->].
  apply bind_Ok in H as (variants & s1 & Hv & H). apply gets_Ok in Hv as [-> ->].
  destruct (retrieveVariants isVariant (literals c) s) as [| v vs].
  - apply bind_Ok in H as ([] & s1 & H1 & H). apply modify_Ok in H1 as ->.
    apply bind_Ok in H as ([] & s2 & H2 & H). apply modify_Ok in H2 as ->.
    apply ret_Ok in H as [_ ->]. apply steady_fields; reflexivity.
  - apply bind_Ok in H as (oldCompProp & s1 & H1 & H). apply getProp_Ok in H1 as [_ ->].
    apply bind_Ok in H as (oldClProp & s1 & H1 & H). apply getProp_Ok in H1 as [_ ->].
    destruct (decide (oldCompProp = conjunction oldCompProp oldClProp)).
    + apply ret_Ok in H as [_ ->]. apply steady_refl.
    + apply bind_Ok in H as ([] & s1 & H1 & H).
      apply setProp_Ok in H1 as (c' & Hc' & ->).
      apply bind_Ok in H as ([] & s2 & H2 & H). apply modify_Ok in H2 as ->.
      apply ret_Ok in H as [_ ->]. apply steady_fields; reflexivity.
Qed.

Lemma chooseMaster_steady (a a' : Locals) (m : ClausePtr) (mn : bool) (s s' : State) :
  chooseMaster a s = Ok (m, mn, a') s' -> steady s s'.
Proof.
  unfold Splitter.chooseMaster. intros H.
  destruct (newComponentStack a) as [| m1 rest1];
    [| apply ret_Ok in H as [_ ->]; apply steady_refl].
  destruct (unnamedComponentStack a) as [| m2 rest2];
    [| apply ret_Ok in H as [_ ->]; apply steady_refl].
  destruct (masterComp a) as [m3 |]; [apply ret_Ok in H as [_ ->]; apply steady_refl |].
  apply bind_Ok in H as (emptyCl & s1 & H1 & H).
  apply newClause_Ok in H1 as [-> ->].
  apply bind_Ok in H as ([[m' ni] mo] & s2 & H2 & H).
  apply ret_Ok in H as [_ ->].
  eapply steady_trans; [| eapply insertIntoIndex_steady; exact H2].
  apply steady_fields; reflexivity.
Qed.

Lemma nameComponent_steady (master comp : ClausePtr)
    (acc acc' : BDDNode * list ClausePtr) (s s' : State) :
  nameComponent master comp acc s = Ok acc' s' -> steady s s'.
Proof.
  unfold nameComponent. intros H.
  destruct (decide (comp = master)); [apply ret_Ok in H as [_ ->]; apply steady_refl |].
  apply bind_Ok in H as (compName & s1 & H1 & H).
  unfold getNewVar in H1. injection H1 as <- <-.
  apply bind_Ok in H as (names & s2 & H2 & H). apply gets_Ok in H2 as [-> ->].
  simpl in H.
  destruct (clauseNames s !! comp) eqn:Hname.
  { apply ret_Ok in H as [_ ->]. apply steady_getNewVar. }
  apply bind_Ok in H as ([] & s2 & H2 & H). apply modify_Ok in H2 as ->.
  apply bind_Ok in H as (oldCompProp & s3 & H3 & H). apply getProp_Ok in H3 as [_ ->].
  apply bind_Ok in H as ([] & s3 & H3 & H). apply ret_Ok in H as [_ ->].
  eapply steady_trans; [apply (steady_newClauseName comp s Hname) |].
  destruct (decide (conjunction oldCompProp (getAtomic (bdd_newVar s) false)
                    <> oldCompProp)).
  - apply bind_Ok in H3 as ([] & s4 & H4 & H3).
    apply setProp_Ok in H4 as (c' & Hc' & ->). apply modify_Ok in H3 as ->.
    apply steady_fields; reflexivity.
  - apply ret_Ok in H3 as [_ ->]. apply steady_refl.
Qed.

Lemma nameLoop_steady (master : ClausePtr) (comps : list ClausePtr)
    (acc acc' : BDDNode * list ClausePtr) (s s' : State) :
  foldM (nameComponent master) comps acc s = Ok acc' s' -> steady s s'.
Proof.
  revert acc s. induction comps as [| comp comps IH]; intros acc s H; simpl in H.
  - apply ret_Ok in H as [_ ->]. apply steady_refl.
  - apply bind_Ok in H as (acc1 & s1 & H1 & H).
    eapply steady_trans; [eapply nameComponent_steady; exact H1 | eapply IH; exact H].
Qed.

Lemma finishSplit_steady (master : ClausePtr) (masterNew : bool) (newProp : BDDNode)
    (premises unnamed new out1 out2 : list ClausePtr) (s s' : State) :
  finishSplit master masterNew newProp premises unnamed new s = Ok (out1, out2) s' ->
  steady s s'.
Proof.
  unfold finishSplit. intros H.
  apply bind_Ok in H as (oldProp & s1 & H1 & H). apply getProp_Ok in H1 as [_ ->].
  apply bind_Ok in H as ([] & s1 & H1 & H). apply setProp_Ok in H1 as (c' & Hc' & ->).
  apply bind_Ok in H as ([] & s2 & H2 & H). apply modify_Ok in H2 as ->.
  assert (s' = upd_inferenceStore
                 (fun l => l ++ [recordSplitting master oldProp
                                   (conjunction oldProp newProp) (rev premises)])
                 (upd_heap (fun h => <[master := withProp (conjunction oldProp newProp) c']> h) s))
    as ->.
  { destruct masterNew; [apply ret_Ok in H as [_ ->]; reflexivity |].
    destruct (decide (oldProp <> conjunction oldProp newProp));
      apply ret_Ok in H as [_ ->]; reflexivity. }
  apply steady_fields; reflexivity.
Qed.

Lemma nameAndReplace_steady (cl cl' : ClausePtr) (s s' : State) :
  nameAndReplace cl s = Ok cl' s' -> steady s s'.
Proof.
  unfold nameAndReplace. intros H.
  apply bind_Ok in H as (c & s1 & Hc & H). apply getClause_Ok in Hc as [Hc ->].
  destruct (literals c) as [| lit [| lit2 rest]];
    [apply ret_Ok in H as [_ ->]; apply steady_refl |
    | apply ret_Ok in H as [_ ->]; apply steady_refl].
  destruct (decide (arity lit = 0%nat)) as [Har | _];
    [| apply ret_Ok in H as [_ ->]; apply steady_refl].
  apply bind_Ok in H as ([[n premise] b] & s1 & Hg & H).
  apply bind_Ok in H as (newCl & s2 & H2 & H). apply newClause_Ok in H2 as [-> ->].
  apply bind_Ok in H as ([] & s3 & H3 & H). apply modify_Ok in H3 as ->.
  apply ret_Ok in H as [_ ->].
  eapply steady_trans; [eapply getPropPredName_steady; exact Hg |].
  apply steady_fields; reflexivity.
Qed.

Lemma insertAndReport_steady (cl : ClausePtr) (new modified : list ClausePtr)
    (s s' : State) :
  insertAndReport cl s = Ok (new, modified) s' -> steady s s'.
Proof.
  unfold Splitter.insertAndReport. intros H.
  apply bind_Ok in H as ([[insCl ni] mo] & s1 & H1 & H).
  apply insertIntoIndex_steady in H1.
  destruct ni; [apply ret_Ok in H as [_ ->]; exact H1 |].
  destruct mo; [| apply ret_Ok in H as [_ ->]; exact H1].
  apply bind_Ok in H as (ic & s2 & H2 & H). apply getClause_Ok in H2 as [_ ->].
  match type of H with
  | (if ?b then _ else _) _ = _ => destruct b
  end; [| apply ret_Ok in H as [_ ->]; exact H1].
  apply bind_Ok in H as (oldClProp & s2 & H2 & H). apply getProp_Ok in H2 as [_ ->].
  apply bind_Ok in H as (insProp & s2 & H2 & H). apply getProp_Ok in H2 as [_ ->].
  apply bind_Ok in H as ([] & s2 & H2 & H). apply setProp_Ok in H2 as (c' & Hc' & ->).
  apply bind_Ok in H as ([] & s3 & H3 & H). apply modify_Ok in H3 as ->.
  apply ret_Ok in H as [_ ->].
  eapply steady_trans; [exact H1 | apply steady_fields; reflexivity].
Qed.

Lemma handleNoSplit_steady (cl : ClausePtr) (new modified : list ClausePtr)
    (s s' : State) :
  handleNoSplit cl s = Ok (new, modified) s' -> steady s s'.
Proof.
  unfold Splitter.handleNoSplit. intros H.
  apply bind_Ok in H as (cl' & s1 & H1 & H).
  eapply steady_trans; [eapply nameAndReplace_steady; exact H1 |].
  eapply insertAndReport_steady. exact H.
Qed.

Lemma split_steady (cl : ClausePtr) (c : Clause) (comps : list (list nat))
    (new modified : list ClausePtr) (s s' : State) :
  split cl c comps s = Ok (new, modified) s' ->
  steady (countSplit (List.length comps) s) s'.
Proof.
  unfold Splitter.split. intros H.
  apply bind_Ok in H as ([] & s0 & H0 & H). apply modify_Ok in H0 as ->.
  apply bind_Ok in H as (clProp & s1 & H1 & H). apply getProp_Ok in H1 as [_ ->].
  apply bind_Ok in H as (a1 & s1 & H1 & H).
  apply propositionalLoop_steady in H1.
  apply bind_Ok in H as (r & s2 & H2 & H).
  apply componentLoop_steady in H2.
  destruct r as [a2 | []].
  - apply bind_Ok in H as ([[master masterNew] a3] & s3 & H3 & H).
    apply chooseMaster_steady in H3.
    apply bind_Ok in H as ([newProp premises] & s4 & H4 & H).
    apply nameLoop_steady in H4.
    apply finishSplit_steady in H.
    repeat (eapply steady_trans; [eassumption |]). apply steady_refl.
  - apply ret_Ok in H as [_ ->]. eapply steady_trans; eassumption.
Qed.

Lemma doSplitting_steady (cl : ClausePtr) (c : Clause) (new modified : list ClausePtr)
    (s s' : State) :
  heap s !! cl = Some c ->
  doSplitting cl s = Ok (new, modified) s' ->
  let comps := unionFindComponents (Kernel.length c) (componentUnions (literals c)) in
  (((Kernel.length c <= 1)%nat \/ List.length comps = 1%nat) /\ steady s s')
  \/ ((1 < Kernel.length c)%nat /\ List.length comps <> 1%nat
      /\ steady (countSplit (List.length comps) s) s').
Proof.
  intros Hcl H comps. unfold Splitter.doSplitting in H.
  apply bind_Ok in H as (c0 & s1 & Hc & H). apply getClause_Ok in Hc as [Hc ->].
  assert (c0 = c) as -> by congruence.
  destruct (decide (Kernel.length c <= 1)%nat) as [Hlen | Hlen].
  { left. split; [left; exact Hlen | exact (handleNoSplit_steady _ _ _ _ _ H)]. }
  fold comps in H.
  destruct (decide (List.length comps = 1%nat)) as [Hone | Hmany].
  { left. split; [right; exact Hone | exact (handleNoSplit_steady _ _ _ _ _ H)]. }
  right. split; [lia |]. split; [exact Hmany |].
  eapply split_steady. exact H.
Qed.

Lemma namesDistinct_initial (h : list Clause) (v : Z) : namesDistinct (initial h v).
Proof.
  unfold namesDistinct, initial. simpl.
  split; [intros pred n Hn; rewrite lookup_empty in Hn; discriminate |].
  split; [intros p n Hn; rewrite lookup_empty in Hn; discriminate |].
  split; [intros p1 p2 n Hn; rewrite lookup_empty in Hn; discriminate |].
  split; [intros p1 p2 n Hn; rewrite lookup_empty in Hn; discriminate |].
  intros pred p n Hn. rewrite lookup_empty in Hn. discriminate.
Qed.

(** X21: the BDD variables that [doSplitting] hands out as names are
    distinct.  When the names known before the call are below the next
    fresh variable and pairwise different, so are the names known after
    it: no two propositional predicates and no two components share a
    name, and no predicate shares one with a component. *)
Theorem doSplitting_names_distinct (cl : ClausePtr) (new modified : list ClausePtr)
    (s s' : State) :
  namesDistinct s ->
  doSplitting cl s = Ok (new, modified) s' ->
  namesDistinct s'
  /\ bdd_newVar s <= bdd_newVar s'
  /\ (forall pred1 pred2 n,
        propPredNames s' !! pred1 = Some n -> propPredNames s' !! pred2 = Some n ->
        pred1 = pred2)
  /\ (forall p1 p2 n,
        clauseNames s' !! p1 = Some n -> clauseNames s' !! p2 = Some n -> p1 = p2)
  /\ (forall pred p n m,
        propPredNames s' !! pred = Some n -> clauseNames s' !! p = Some m -> n <> m)
  /\ (forall pred n, propPredNames s' !! pred = Some n -> n < bdd_newVar s')
  /\ (forall p n, clauseNames s' !! p = Some n -> n < bdd_newVar s').
Proof.
  intros Hn H.
  assert (exists c, heap s !! cl = Some c) as [c Hc].
  { unfold Splitter.doSplitting in H.
    apply bind_Ok in H as (c & s1 & Hc & _). apply getClause_Ok in Hc as [Hc _].
    exists c. exact Hc. }
  assert (namesDistinct s' /\ bdd_newVar s <= bdd_newVar s') as [Hn' Hle].
  { destruct (doSplitting_steady _ _ _ _ _ _ Hc H)
      as [(_ & _ & _ & Hle & Hkeep) | (_ & _ & _ & _ & Hle & Hkeep)].
    - split; [apply Hkeep; exact Hn | exact Hle].
    - split; [apply Hkeep; exact Hn | exact Hle]. }
  split; [exact Hn' |]. split; [exact Hle |].
  destruct Hn' as (N1 & N2 & N3 & N4 & N5).
  split; [exact N3 |]. split; [exact N4 |].
  split; [| split; [exact N1 | exact N2]].
  intros pred p n m Hp Hq ->. exact (N5 _ _ _ Hp Hq).
Qed.

(** X22: [doSplitting] counts a clause as split exactly when it has more
    than one literal and does not form a single component; then
    [splittedClauses] goes up by one and [splittedComponents] by the
    number of components, and otherwise neither changes. *)
Theorem doSplitting_counts (cl : ClausePtr) (c : Clause) (new modified : list ClausePtr)
    (s s' : State) :
  heap s !! cl = Some c ->
  doSplitting cl s = Ok (new, modified) s' ->
  let comps := unionFindComponents (Kernel.length c) (componentUnions (literals c)) in
  let splits := bool_decide ((1 < Kernel.length c)%nat /\ List.length comps <> 1%nat) in
  splittedClauses s'
  = (if splits then Unsigned.add (splittedClauses s) 1 else splittedClauses s)
  /\ splittedComponents s'
     = (if splits
        then Unsigned.add (splittedComponents s) (Z.of_nat (List.length comps))
        else splittedComponents s).
Proof.
  intros Hc H comps splits.
  destruct (doSplitting_steady _ _ _ _ _ _ Hc H)
    as [(Hno & S1 & S2 & _) | (Hlen & Hmany & S1 & S2 & _)]; fold comps in Hno || fold comps in Hmany.
  - subst splits. rewrite bool_decide_eq_false_2 by (intros [A B]; destruct Hno; [lia | contradiction]).
    split; assumption.
  - subst splits. rewrite bool_decide_eq_true_2 by (split; assumption).
    fold comps in S1, S2. split; [exact S1 | exact S2].
Qed.

(** *** What is emitted *)

Lemma insertAndReport_emits (cl : ClausePtr) (new modified : list ClausePtr)
    (s s' : State) :
  insertAndReport cl s = Ok (new, modified) s' ->
  (forall p, p ∈ new ++ modified ->
     inIndex s' p
     \/ (p = cl /\ exists c n, heap s' !! cl = Some c /\ prop c = Some n
                              /\ isFalse n = true))
  /\ (forall p, isPremise s' p -> isPremise s p).
Proof.
  unfold Splitter.insertAndReport. intros H.
  apply bind_Ok in H as ([[insCl ni] mo] & s1 & H1 & H).
  pose proof (fun p => insertIntoIndex_premises _ _ _ _ _ _ p H1) as P1.
  apply insertIntoIndex_facts in H1 as (E1 & Hin & _ & _).
  destruct ni.
  { apply ret_Ok in H as [H ->]. injection H as Hnew Hmod; subst new modified. split; [| exact P1].
    intros p Hp. simpl in Hp. apply list_elem_of_singleton in Hp as ->.
    left. exact Hin. }
  destruct mo.
  2:{ apply ret_Ok in H as [H ->]. injection H as Hnew Hmod; subst new modified. split; [| exact P1].
      intros p Hp. simpl in Hp. apply elem_of_nil in Hp. contradiction. }
  apply bind_Ok in H as (ic & s2 & H2 & H). apply getClause_Ok in H2 as [Hic ->].
  destruct (isEmpty ic && match prop ic with Some n => isFalse n | None => false end)
    eqn:Href.
  2:{ apply ret_Ok in H as [H ->]. injection H as Hnew Hmod; subst new modified. split; [| exact P1].
      intros p Hp. simpl in Hp. apply list_elem_of_singleton in Hp as ->.
      left. exact Hin. }
  apply bind_Ok in H as (oldClProp & s2 & H2 & H). apply getProp_Ok in H2 as [_ ->].
  apply bind_Ok in H as (insProp & s2 & H2 & H).
  apply getProp_Ok in H2 as [(ic' & Hic' & Hprop) ->].
  apply bind_Ok in H as ([] & s2 & H2 & H). apply setProp_Ok in H2 as (c' & Hc' & ->).
  apply bind_Ok in H as ([] & s3 & H3 & H). apply modify_Ok in H3 as ->.
  apply ret_Ok in H as [H ->]. injection H as Hnew Hmod; subst new modified.
  assert (ic' = ic) as -> by congruence.
  split.
  - intros p Hp. simpl in Hp. apply list_elem_of_singleton in Hp as ->.
    right. split; [reflexivity |].
    exists (withProp insProp c'), insProp. simpl.
    split; [| split; [reflexivity |]].
    + apply list_lookup_insert_eq. apply lookup_lt_Some in Hc'. exact Hc'.
    + apply andb_prop in Href as [_ Href]. rewrite Hprop in Href. exact Href.
  - intros p Hp. apply P1. exact Hp.
Qed.

Lemma handleNoSplit_emits (cl : ClausePtr) (new modified : list ClausePtr)
    (s s' : State) :
  wf s -> ~ isPremise s cl ->
  handleNoSplit cl s = Ok (new, modified) s' ->
  forall p, p ∈ new ++ modified ->
    ~ isPremise s' p
    /\ (inIndex s' p
        \/ exists c n, heap s' !! p = Some c /\ prop c = Some n /\ isFalse n = true).
Proof.
  intros Hwf Hnp H. unfold Splitter.handleNoSplit in H.
  apply bind_Ok in H as (cl' & s1 & H1 & H).
  apply nameAndReplace_facts in H1 as (_ & W1).
  destruct (W1 Hwf Hnp) as [Hwf1 Hnp1].
  pose proof (insertAndReport_emits _ _ _ _ _ H) as (Hem & Hpre).
  apply insertAndReport_facts in H as (_ & W2).
  pose proof (W2 Hwf1 Hnp1) as Hwf'.
  intros p Hp. destruct (Hem p Hp) as [Hin | (-> & c & n & Hc & Hn & Hf)].
  - split; [| left; exact Hin]. destruct Hwf' as [_ Hw]. apply (Hw p Hin).
  - split; [| right; exists c, n; auto].
    intros Hprem. apply Hnp1. apply Hpre. exact Hprem.
Qed.

(** X23: [doSplitting] never hands a naming premise to its caller.  Every
    clause in its two iterators exists and is not the naming premise of a
    propositional predicate, and it is a clause of the variant index or
    the refutation, whose propositional part is false.  The state stays
    well formed and nothing known before the call is forgotten. *)
Theorem doSplitting_emits (cl : ClausePtr) (new modified : list ClausePtr)
    (s s' : State) :
  wf s -> ~ isPremise s cl ->
  doSplitting cl s = Ok (new, modified) s' ->
  wf s' /\ extends s s'
  /\ forall p, p ∈ new ++ modified ->
       ~ isPremise s' p
       /\ (p < List.length (heap s'))%nat
       /\ (inIndex s' p
           \/ exists c n, heap s' !! p = Some c /\ prop c = Some n
                          /\ isFalse n = true).
Proof.
  intros Hwf Hnp H.
  pose proof (doSplitting_facts _ _ _ _ _ H) as (Hext & Hw).
  pose proof (Hw Hwf Hnp) as Hwf'.
  split; [exact Hwf' |]. split; [exact Hext |].
  assert (forall p, p ∈ new ++ modified ->
            ~ isPremise s' p
            /\ (inIndex s' p
                \/ exists c n, heap s' !! p = Some c /\ prop c = Some n
                               /\ isFalse n = true)) as Hem.
  { unfold Splitter.doSplitting in H.
    apply bind_Ok in H as (c & s1 & Hc & H). apply getClause_Ok in Hc as [Hc ->].
    destruct (decide (Kernel.length c <= 1)%nat);
      [exact (handleNoSplit_emits _ _ _ _ _ Hwf Hnp H) |].
    destruct (decide (List.length _ = 1%nat));
      [exact (handleNoSplit_emits _ _ _ _ _ Hwf Hnp H) |].
    apply split_facts in H as (_ & W). destruct (W Hwf) as [_ Hin].
    intros p Hp. split; [| left; apply Hin; exact Hp].
    destruct Hwf' as [_ Hw']. apply (Hw' p). apply Hin. exact Hp. }
  intros p Hp. destruct (Hem p Hp) as [Hnprem Hcase].
  split; [exact Hnprem |]. split; [| exact Hcase].
  destruct Hcase as [Hin | (c & n & Hc & _)].
  - destruct Hwf' as [_ Hw']. apply (Hw' p Hin).
  - apply lookup_lt_Some in Hc. exact Hc.
Qed.

(** *** Insertion and retrieval *)

Lemma retrieveVariants_app (lits key : list Literal) (p : ClausePtr) (s : State) :
  retrieveVariants isVariant lits
    (upd_variantIndex (fun l => l ++ [(key, p)]) s)
  = retrieveVariants isVariant lits s ++ (if isVariant key lits then [p] else []).
Proof.
  unfold retrieveVariants. simpl. rewrite filter_app, map_app. f_equal.
  rewrite filter_cons. simpl. destruct (isVariant key lits); simpl.
  - destruct (decide (Is_true true)) as [_ | F]; [reflexivity | exfalso; apply F; exact I].
  - destruct (decide (Is_true false)) as [F | _]; [destruct F | reflexivity].
Qed.

(** X24: [insertIntoIndex] on a clause without a variant in the index
    inserts it and reports it as new.  After that the index finds it for
    its own literals; inserting it again changes nothing when conjunction
    is idempotent on its propositional part; and inserting a variant of it
    either changes nothing or puts the conjunction of the two
    propositional parts on the indexed clause and records the merge. *)
Theorem insertIntoIndex_roundtrip (cl : ClausePtr) (c : Clause) (n : BDDNode)
    (s : State) :
  heap s !! cl = Some c ->
  prop c = Some n ->
  retrieveVariants isVariant (literals c) s = [] ->
  isVariant (literals c) (literals c) = true ->
  let s1 := upd_variantIndex (fun l => l ++ [(literals c, cl)])
              (upd_uniqueComponents (fun k => Unsigned.add k 1) s) in
  insertIntoIndex cl s = Ok (cl, true, false) s1
  /\ retrieveVariants isVariant (literals c) s1 = [cl]
  /\ (conjunction n n = n -> insertIntoIndex cl s1 = Ok (cl, false, false) s1)
  /\ (forall cl2 c2 n2,
        heap s !! cl2 = Some c2 -> prop c2 = Some n2 ->
        retrieveVariants isVariant (literals c2) s = [] ->
        isVariant (literals c) (literals c2) = true ->
        insertIntoIndex cl2 s1
        = if decide (n = conjunction n n2) then Ok (cl, false, false) s1
          else Ok (cl, false, true)
                 (upd_inferenceStore
                    (fun l => l ++ [recordMerge cl n cl2 (conjunction n n2)])
                    (upd_heap (fun h => <[cl := withProp (conjunction n n2) c]> h) s1))).
Proof.
  intros Hc Hn Hnone Hrefl s1.
  assert (Hins : insertIntoIndex cl s = Ok (cl, true, false) s1).
  { unfold Splitter.insertIntoIndex, bind, getClause, gets. rewrite Hc, Hnone.
    reflexivity. }
  assert (Hret : forall lits, retrieveVariants isVariant lits s = [] ->
                   isVariant (literals c) lits = true ->
                   retrieveVariants isVariant lits s1 = [cl]).
  { intros lits H0 Hv. subst s1. rewrite retrieveVariants_app, Hv.
    unfold retrieveVariants in H0 |- *. simpl. rewrite H0. reflexivity. }
  assert (Hmerge : forall cl2 c2 n2,
            heap s !! cl2 = Some c2 -> prop c2 = Some n2 ->
            retrieveVariants isVariant (literals c2) s = [] ->
            isVariant (literals c) (literals c2) = true ->
            insertIntoIndex cl2 s1
            = if decide (n = conjunction n n2) then Ok (cl, false, false) s1
              else Ok (cl, false, true)
                     (upd_inferenceStore
                        (fun l => l ++ [recordMerge cl n cl2 (conjunction n n2)])
                        (upd_heap (fun h => <[cl := withProp (conjunction n n2) c]> h) s1))).
  { intros cl2 c2 n2 Hc2 Hn2 H0 Hv.
    assert (Hc' : heap s1 !! cl = Some c) by exact Hc.
    assert (Hc2' : heap s1 !! cl2 = Some c2) by exact Hc2.
    unfold Splitter.insertIntoIndex, bind, getClause, gets, getProp, bind, getClause.
    rewrite Hc2'. rewrite (Hret _ H0 Hv). rewrite Hc', Hn. unfold ret.
    rewrite Hc2', Hn2.
    destruct (decide (n = conjunction n n2)); [reflexivity |].
    unfold setProp, bind, getClause. rewrite Hc'. reflexivity. }
  split; [exact Hins |]. split; [exact (Hret _ Hnone Hrefl) |].
  split; [| exact Hmerge].
  intros Hidem. rewrite (Hmerge cl c n Hc Hn Hnone Hrefl).
  rewrite Hidem. destruct (decide (n = n)) as [_ | F]; [reflexivity | contradiction].
Qed.

End WithInterfaces.

Section Witnesses.
Import SplitterExamples.

Lemma doSplitting_propositional_component_witness :
  (exists new modified s',
     SplitterExamples.doSplitting 0%nat (initial [p_r_q] 1) = Ok (new, modified) s')
  /\ exists n premise b s2,
       getPropPredName not_r after_p_state = Ok (n, premise, b) s2
       /\ heap s2 !! premise
          = Some (mkClause [not_r] AXIOM (Inference0 CLAUSE_NAMING)
                    (Some (ROBDD.atomic n true)) None)
       /\ forall new modified s',
            SplitterExamples.doSplitting 0%nat (initial [p_r_q] 1)
            = Ok (new, modified) s' ->
            (premise ∉ new) /\ (premise ∉ modified).
Proof.
  split; [eexists _, _, _; vm_compute; reflexivity |].
  destruct (doSplitting_propositional_component
              Components.sameLiterals Components.components
              0%nat p_r_q (ROBDD.Leaf false) (initial [p_r_q] 1)
              [[0%nat]] [[2%nat]] 1%nat not_r after_p_locals after_p_state)
    as (n & premise & b & s2 & H1 & _ & _ & H4 & _ & H6).
  - apply wf_initial.
  - reflexivity.
  - reflexivity.
  - vm_compute. lia.
  - vm_compute. lia.
  - vm_compute. reflexivity.
  - reflexivity.
  - reflexivity.
  - vm_compute. reflexivity.
  - exists n, premise, b, s2. split; [exact H1 |]. split; [exact H4 |].
    intros new modified s' Hd. destruct (H6 new modified s' Hd) as (A & B & _).
    split; assumption.
Defined.

Lemma doSplitting_discards_witness :
  SplitterExamples.doSplitting 1%nat q_named = Ok ([], []) (countSplit 2 q_named).
Proof.
  apply (doSplitting_discards
           Components.sameLiterals Components.components
           1%nat q_u (ROBDD.atomic 1 false) q_named
           [] [[1%nat]] [0%nat]
           (initialLocals 1%nat (ROBDD.atomic 1 false) 2)
           (initialLocals 1%nat (ROBDD.atomic 1 false) 2)
           (countSplit 2 q_named) (countSplit 2 q_named)
           [q_X] 2%nat [] 1).
  - vm_compute. reflexivity.
  - reflexivity.
  - vm_compute. lia.
  - vm_compute. lia.
  - vm_compute. reflexivity.
  - vm_compute. reflexivity.
  - vm_compute. reflexivity.
  - vm_compute. reflexivity.
  - vm_compute. reflexivity.
  - vm_compute. reflexivity.
  - vm_compute. reflexivity.
  - vm_compute. reflexivity.
  - vm_compute. reflexivity.
Defined.

Lemma handleNoSplit_propositional_unit_witness :
  SplitterExamples.doSplitting 0%nat (initial [unit_p] 1)
  = Splitter.handleNoSplit Components.sameLiterals 0%nat (initial [unit_p] 1).
Proof.
  destruct (handleNoSplit_propositional_unit
              Components.sameLiterals Components.components
              0%nat unit_p p (initial [unit_p] 1))
    as (n & premise & b & s1 & _ & _ & _ & _ & _ & _ & _ & H).
  - apply wf_initial.
  - reflexivity.
  - reflexivity.
  - reflexivity.
  - exact H.
Defined.

Lemma getPropPredName_per_predicate_witness :
  exists p2 b2 s3,
    getPropPredName not_p p_named = Ok (1, p2, b2) s3 /\ p2 <> 0%nat.
Proof.
  destruct (getPropPredName_per_predicate
              Components.sameLiterals Components.components
              (initial [] 1) p_named p_named p not_p 1 0%nat false)
    as (_ & _ & p2 & b2 & s3 & H1 & _ & _ & _ & _ & H6).
  - apply wf_initial.
  - reflexivity.
  - vm_compute. reflexivity.
  - apply later_refl.
  - reflexivity.
  - reflexivity.
  - exists p2, b2, s3. split; [exact H1 |]. apply H6. discriminate.
Defined.

Lemma doSplitting_names_distinct_witness :
  SplitterExamples.doSplitting 0%nat (initial [p_r_q] 1)
  = Ok (fst p_r_q_emitted, snd p_r_q_emitted) p_r_q_split
  /\ namesDistinct p_r_q_split
  /\ bdd_newVar (initial (BDDNode := ROBDD.node) [p_r_q] 1) <= bdd_newVar p_r_q_split.
Proof.
  assert (H : SplitterExamples.doSplitting 0%nat (initial [p_r_q] 1)
              = Ok (fst p_r_q_emitted, snd p_r_q_emitted) p_r_q_split)
    by (vm_compute; reflexivity).
  destruct (doSplitting_names_distinct
              Components.sameLiterals Components.components
              0%nat (fst p_r_q_emitted) (snd p_r_q_emitted)
              (initial [p_r_q] 1) p_r_q_split
              (namesDistinct_initial [p_r_q] 1) H)
    as (H1 & H2 & _).
  split; [exact H |]. split; [exact H1 | exact H2].
Defined.

Lemma doSplitting_counts_witness :
  splittedClauses p_r_q_split = 1 /\ splittedComponents p_r_q_split = 3.
Proof.
  assert (H : SplitterExamples.doSplitting 0%nat (initial [p_r_q] 1)
              = Ok (fst p_r_q_emitted, snd p_r_q_emitted) p_r_q_split)
    by (vm_compute; reflexivity).
  destruct (doSplitting_counts
              Components.sameLiterals Components.components
              0%nat p_r_q (fst p_r_q_emitted) (snd p_r_q_emitted)
              (initial [p_r_q] 1) p_r_q_split eq_refl H)
    as [H1 H2].
  split; (etransitivity; [eassumption | vm_compute; reflexivity]).
Defined.

Lemma doSplitting_emits_witness :
  wf p_r_q_split
  /\ forall p, p ∈ fst p_r_q_emitted ++ snd p_r_q_emitted ->
       ~ isPremise p_r_q_split p.
Proof.
  assert (H : SplitterExamples.doSplitting 0%nat (initial [p_r_q] 1)
              = Ok (fst p_r_q_emitted, snd p_r_q_emitted) p_r_q_split)
    by (vm_compute; reflexivity).
  assert (Hnp : ~ isPremise (initial [p_r_q] 1) 0%nat).
  { intros [pred [Hp | Hp]]; simpl in Hp; rewrite lookup_empty in Hp;
      discriminate. }
  destruct (doSplitting_emits
              Components.sameLiterals Components.components
              0%nat (fst p_r_q_emitted) (snd p_r_q_emitted)
              (initial [p_r_q] 1) p_r_q_split
              (wf_initial [p_r_q] 1) Hnp H)
    as (H1 & _ & H3).
  split; [exact H1 |]. intros p Hp. apply (H3 p Hp).
Defined.

Lemma insertIntoIndex_roundtrip_witness :
  exists s1,
    Splitter.insertIntoIndex Components.sameLiterals 0%nat (initial [q_t; q_u] 1)
    = Ok (0%nat, true, false) s1
    /\ retrieveVariants Components.sameLiterals [q_X; t_Y] s1 = [0%nat].
Proof.
  destruct (insertIntoIndex_roundtrip
              Components.sameLiterals
              0%nat q_t (ROBDD.Leaf false) (initial [q_t; q_u] 1))
    as (H1 & H2 & _).
  - reflexivity.
  - reflexivity.
  - reflexivity.
  - vm_compute. reflexivity.
  - eexists. split; [exact H1 | exact H2].
Defined.

End Witnesses.

End SplitterFacts.

(** ** The answer literal manager *)

Module AnswerLiteralFacts.
Import Kernel AnswerLiteralManager.
Section WithFlattening.

Context {BDDNode : Type} `{!BDD BDDNode}.
Variable flatten : Formula -> Formula.

#[local] Abbreviation Clause := (Kernel.Clause BDDNode).
#[local] Abbreviation State := (@AnswerLiteralManager.State BDDNode).
#[local] Abbreviation Unit := (@AnswerLiteralManager.Unit BDDNode).
#[local] Abbreviation M := (@AnswerLiteralManager.M BDDNode).
#[local] Abbreviation tryAddingAnswerLiteral :=
  (AnswerLiteralManager.tryAddingAnswerLiteral flatten).

Lemma bind_run {A B} (m : M A) (k : A -> M B) (s s1 : State) (a : A) :
  m s = Ok a s1 -> bind m k s = k a s1.
Proof. unfold bind. intros ->. reflexivity. Qed.

Lemma alter_last {A} (f : A -> A) (l : list A) (x : A) :
  alter f (List.length l) (l ++ [x]) = l ++ [f x].
Proof.
  induction l as [| y l IH]; simpl.
  - reflexivity.
  - f_equal. exact IH.
Qed.

(** What [getAnswerLiteral] does: the fresh predicate gets the number of
    the variables as its arity and is marked. *)
(** The variable of [TermList(var, false)] is [var] reduced to 30 bits. *)
Lemma ordinaryVar_mod (v : Z) : ordinaryVar v = OrdVar (v mod 2 ^ 30).
Proof.
  unfold ordinaryVar, TermList.ofVar, TermList.var. f_equal.
  assert (Hr : Unsigned.in_range (Unsigned.wrap v)).
  { unfold Unsigned.in_range, Unsigned.wrap, Unsigned.modulus, Unsigned.bits.
    apply Z.mod_pos_bound. reflexivity. }
  rewrite (TermListFacts.makeVar_content _ Hr).
  unfold Unsigned.wrap, Unsigned.modulus, Unsigned.bits.
  change (2 ^ 32) with 4294967296. change (2 ^ 30) with 1073741824.
  Z.div_mod_to_equations. lia.
Qed.

Lemma map_ordinaryVar (vars : list Z) :
  map ordinaryVar vars = map (fun v => OrdVar (v mod 2 ^ 30)) vars.
Proof. apply map_ext. intros v. apply ordinaryVar_mod. Qed.

Lemma getAnswerLiteral_eq (vars : list Z) (s : State) :
  getAnswerLiteral vars s =
  Ok (mkLiteral (Z.of_nat (List.length (predicates s))) true
        (map (fun v => OrdVar (v mod 2 ^ 30)) vars))
     (upd_predicates (fun l => l ++ [mkSymbol (List.length vars) true]) s).
Proof.
  rewrite <- (map_ordinaryVar vars).
  unfold getAnswerLiteral, addNamePredicate, bind, modify, ret, createLiteral.
  simpl. rewrite Nat2Z.id, length_map. 
  unfold upd_predicates. simpl. rewrite alter_last. reflexivity.
Qed.

Lemma lookupPredicate_fresh (s : State) :
  lookupPredicate (Z.of_nat (List.length (predicates s))) s = None.
Proof.
  unfold lookupPredicate. destruct (decide _); [| reflexivity].
  rewrite Nat2Z.id. apply lookup_ge_None_2. lia.
Qed.

Lemma lookupPredicate_added (s : State) (sym : Symbol) :
  lookupPredicate (Z.of_nat (List.length (predicates s)))
    (upd_predicates (fun l => l ++ [sym]) s) = Some sym.
Proof.
  unfold lookupPredicate. destruct (decide _) as [_ | Hn]; [| lia].
  rewrite Nat2Z.id. simpl. rewrite lookup_app_r by lia.
  rewrite Nat.sub_diag. reflexivity.
Qed.

Lemma ordinaryVar_small (vars : list Z) :
  Forall (fun v => 0 <= v < 2 ^ 30) vars ->
  map (fun v => OrdVar (v mod 2 ^ 30)) vars = map OrdVar vars.
Proof.
  induction 1 as [| v vars Hv _ IH]; simpl; [reflexivity |].
  rewrite IH, Z.mod_small by exact Hv. reflexivity.
Qed.

Lemma existentialConjecture_Some (u : Unit) (vars : list Z) (phi : Formula) :
  existentialConjecture u = Some (vars, phi) <->
  exists inf,
    u = FormulaUnit (NegatedFormula (QuantifiedFormula EXISTS vars phi)) inf CONJECTURE.
Proof.
  split.
  - destruct u as [c | form inf it]; [discriminate |].
    destruct form as [l | c fs | c l r | f | c vs f | c]; try discriminate.
    destruct f as [l | c fs | c l r | f | c vs f | c]; try discriminate.
    destruct c; try discriminate. destruct it; try discriminate.
    simpl. intros H. injection H as -> ->. exists inf. reflexivity.
  - intros (inf & ->). reflexivity.
Qed.

Lemma tryAddingAnswerLiteral_eq (unit : UnitPtr) (u : Unit) (s : State) :
  units s !! unit = Some u ->
  tryAddingAnswerLiteral unit s =
  match existentialConjecture u with
  | Some (vars, phi) =>
      let ans := mkLiteral (Z.of_nat (List.length (predicates s))) true
                   (map (fun v => OrdVar (v mod 2 ^ 30)) vars) in
      Ok (List.length (units s))
         (upd_units
            (fun l =>
               l ++ [FormulaUnit
                       (flatten
                          (NegatedFormula
                             (QuantifiedFormula EXISTS vars
                                (JunctionFormula AND [AtomicFormula ans; phi]))))
                       (Inference1 ANSWER_LITERAL unit) CONJECTURE])
            (upd_predicates (fun l => l ++ [mkSymbol (List.length vars) true]) s))
  | None => Ok unit s
  end.
Proof.
  intros Hu. unfold AnswerLiteralManager.tryAddingAnswerLiteral.
  unfold bind at 1. unfold getUnit. rewrite Hu.
  destruct u as [c | form inf it]; [reflexivity |].
  destruct form as [l | c fs | c l r | f | c vs f | c];
    try (destruct (decide (it <> CONJECTURE)); reflexivity).
  destruct f as [l | c fs | c l r | f | c vs f | c];
    try (destruct (decide (it <> CONJECTURE)); reflexivity).
  destruct c; try (destruct (decide (it <> CONJECTURE)); reflexivity).
  destruct (decide (it <> CONJECTURE)) as [Hit | Hit].
  - destruct it; try reflexivity. contradiction.
  - assert (it = CONJECTURE) as ->.
    { destruct it; try reflexivity; exfalso; apply Hit; discriminate. }
    simpl. unfold bind. rewrite getAnswerLiteral_eq. reflexivity.
Qed.

(** C5, amended: [tryAddingAnswerLiteral] returns a unit other than the
    one it is given exactly for a formula unit of input type [CONJECTURE]
    whose formula is [not (exists x1...xn. phi)].  The new unit is then a
    formula unit, derived by [ANSWER_LITERAL] from the old one, for the
    flattening of [not (exists x1...xn. (ans(y1,...,yn) and phi))], with the
    answer literal as the first conjunct, where [ans] is a fresh predicate
    of arity [n] that is marked as an answer predicate and [yi] is the
    variable whose number is that of [xi] kept to 30 bits: [xi] itself
    when the numbers of the quantified variables are below [2^30].  Every
    other unit is returned as it is and nothing changes. *)
Theorem tryAddingAnswerLiteral_spec (unit : UnitPtr) (u : Unit) (s : State) :
  units s !! unit = Some u ->
  exists res s',
    tryAddingAnswerLiteral unit s = Ok res s'
    /\ (res <> unit <->
        exists vars phi inf,
          u = FormulaUnit (NegatedFormula (QuantifiedFormula EXISTS vars phi))
                inf CONJECTURE)
    /\ (res = unit -> s' = s)
    /\ (forall vars phi inf,
          u = FormulaUnit (NegatedFormula (QuantifiedFormula EXISTS vars phi))
                inf CONJECTURE ->
          let pred := Z.of_nat (List.length (predicates s)) in
          let ans := mkLiteral pred true
                       (map (fun v => OrdVar (v mod 2 ^ 30)) vars) in
          res = List.length (units s)
          /\ units s' =
             units s ++
             [FormulaUnit
                (flatten
                   (NegatedFormula
                      (QuantifiedFormula EXISTS vars
                         (JunctionFormula AND [AtomicFormula ans; phi]))))
                (Inference1 ANSWER_LITERAL unit) CONJECTURE]
          /\ lookupPredicate pred s = None
          /\ lookupPredicate pred s' = Some (mkSymbol (List.length vars) true)
          /\ arity ans = List.length vars
          /\ (Forall (fun v => 0 <= v < 2 ^ 30) vars -> args ans = map OrdVar vars)).
Proof.
  intros Hu.
  assert (unit < List.length (units s))%nat as Hlt by (eapply lookup_lt_Some; exact Hu).
  rewrite (tryAddingAnswerLiteral_eq unit u s Hu).
  destruct (existentialConjecture u) as [[vars phi] |] eqn:He.
  - apply existentialConjecture_Some in He as (inf & ->).
    eexists _, _. split; [reflexivity |]. split; [| split].
    + split; [| intros _; lia]. intros _. exists vars, phi, inf. reflexivity.
    + intros Hr. lia.
    + intros vars' phi' inf' H. injection H as <- <- <-.
      split; [reflexivity |]. split; [reflexivity |].
      split; [apply lookupPredicate_fresh |].
      split; [apply (lookupPredicate_added s) |].
      split; [unfold arity; simpl; apply length_map |].
      simpl. apply ordinaryVar_small.
  - exists unit, s. split; [reflexivity |]. split; [| split].
    + split; [intros Hne; contradiction |].
      intros (vars & phi & inf & ->). discriminate He.
    + reflexivity.
    + intros vars phi inf ->. discriminate He.
Qed.

(** *** Capture of answer clauses *)

Lemma grows_refl (s : State) : grows s s.
Proof. unfold grows. repeat split; reflexivity. Qed.

Lemma grows_trans (s1 s2 s3 : State) : grows s1 s2 -> grows s2 s3 -> grows s1 s3.
Proof.
  intros (A1 & A2 & A3 & A4) (B1 & B2 & B3 & B4). unfold grows.
  split; [congruence |]. split; [congruence |].
  split; etrans; eassumption.
Qed.

Lemma lookupPredicate_grows (s s' : State) (pred : Z) :
  grows s s' -> lookupPredicate pred s' = lookupPredicate pred s.
Proof. intros (E & _). unfold lookupPredicate. rewrite E. reflexivity. Qed.

(** The loop of [onNewClause] over the literals. *)
Lemma allAnswerLiterals_true (lits : list Literal) (s : State) :
  forallb (hasAnswerPredicate s) lits = true ->
  allAnswerLiterals lits s = Ok true s.
Proof.
  induction lits as [| lit lits IH]; simpl; intros H; [reflexivity |].
  apply andb_prop in H as [H1 H2].
  unfold bind, isAnswerLiteral, getPredicate, bind, ret.
  unfold hasAnswerPredicate in H1.
  destruct (lookupPredicate (functor lit) s) as [sym |]; [| discriminate].
  rewrite H1. apply IH. exact H2.
Qed.

Lemma allAnswerLiterals_false (lits : list Literal) (s : State) :
  forallb (hasAnswerPredicate s) lits = false ->
  allAnswerLiterals lits s = Ok false s
  \/ exists pred, allAnswerLiterals lits s = Failed (UnknownPredicate pred).
Proof.
  induction lits as [| lit lits IH]; simpl; intros H; [discriminate |].
  unfold bind, isAnswerLiteral, getPredicate, bind, ret.
  unfold hasAnswerPredicate in H.
  destruct (lookupPredicate (functor lit) s) as [sym |]; [| right; eauto].
  destruct (answerPredicate sym); [| left; reflexivity].
  simpl in H. apply IH. exact H.
Qed.

Lemma allAnswerLiterals_declared (lits : list Literal) (s : State) :
  Forall (fun lit => is_Some (lookupPredicate (functor lit) s)) lits ->
  allAnswerLiterals lits s = Ok (forallb (hasAnswerPredicate s) lits) s.
Proof.
  induction 1 as [| lit lits [sym Hsym] _ IH]; simpl; [reflexivity |].
  unfold bind, isAnswerLiteral, getPredicate, bind, ret, hasAnswerPredicate.
  rewrite Hsym. destruct (answerPredicate sym); [exact IH | reflexivity].
Qed.

(** [getResolverClause] returns the resolver clause of a declared
    predicate, creating it the first time. *)
Lemma getResolverClause_ok (pred : Z) (sym : Symbol) (s : State) :
  resolversOk s ->
  lookupPredicate pred s = Some sym ->
  exists r s',
    getResolverClause pred s = Ok r s'
    /\ resolverClauses s' !! pred = Some r
    /\ units s' !! r = Some (ClauseUnit (resolverClause pred (symbolArity sym)))
    /\ grows s s' /\ resolversOk s'.
Proof.
  intros Hok Hsym. unfold getResolverClause, bind, gets.
  destruct (resolverClauses s !! pred) as [r |] eqn:Hr.
  - exists r, s. split; [reflexivity |]. split; [exact Hr |].
    destruct (Hok pred r Hr) as (sym' & Hsym' & Hu).
    assert (sym' = sym) as -> by congruence.
    split; [exact Hu |]. split; [apply grows_refl | exact Hok].
  - unfold getPredicate. rewrite Hsym. unfold newUnit, modify, ret. simpl.
    eexists _, _. split; [reflexivity |]. simpl.
    split; [apply lookup_insert_eq |].
    split.
    { rewrite lookup_app_r by lia. rewrite Nat.sub_diag. reflexivity. }
    split.
    { unfold grows. simpl. split; [reflexivity |]. split; [reflexivity |].
      split; [apply prefix_app_r; reflexivity |].
      apply insert_subseteq. exact Hr. }
    intros pred' r' Hr'. simpl in Hr'.
    destruct (decide (pred = pred')) as [<- | Hne].
    + rewrite lookup_insert_eq in Hr'. injection Hr' as <-.
      exists sym. split; [exact Hsym |]. simpl.
      rewrite lookup_app_r by lia. rewrite Nat.sub_diag. reflexivity.
    + rewrite lookup_insert_ne in Hr' by exact Hne.
      destruct (Hok pred' r' Hr') as (sym' & Hsym' & Hu).
      exists sym'. split; [exact Hsym' |]. simpl.
      apply lookup_app_l_Some. exact Hu.
Qed.

Lemma hasAnswerPredicate_grows (s s' : State) (lit : Literal) :
  grows s s' -> hasAnswerPredicate s' lit = hasAnswerPredicate s lit.
Proof.
  intros Hg. unfold hasAnswerPredicate. rewrite (lookupPredicate_grows s s' _ Hg).
  reflexivity.
Qed.

(** The loop of [getRefutation]: one resolver clause per literal, each
    pushed in front of the premises. *)
Lemma resolverLoop_ok (lits : list Literal) (prem0 : list UnitPtr) (s : State) :
  resolversOk s ->
  forallb (hasAnswerPredicate s) lits = true ->
  exists rs s',
    foldM (fun lit premises =>
             bind (getResolverClause (functor lit))
               (fun resolvingPrem => ret (resolvingPrem :: premises)))
      lits prem0 s = Ok (rev rs ++ prem0) s'
    /\ grows s s' /\ resolversOk s'
    /\ Forall2 (resolverAt s s') lits rs.
Proof.
  revert prem0 s. induction lits as [| lit lits IH]; intros prem0 s Hok Hall.
  - exists [], s. simpl. split; [reflexivity |].
    split; [apply grows_refl |]. split; [exact Hok | constructor].
  - simpl in Hall. apply andb_prop in Hall as [H1 H2].
    unfold hasAnswerPredicate in H1.
    destruct (lookupPredicate (functor lit) s) as [sym |] eqn:Hsym; [| discriminate].
    destruct (getResolverClause_ok (functor lit) sym s Hok Hsym)
      as (r & s1 & Hr & Hr1 & Hr2 & Hg1 & Hok1).
    assert (forallb (hasAnswerPredicate s1) lits = true) as H2'.
    { rewrite <- H2. clear -Hg1. induction lits as [| l lits IHl]; simpl; [reflexivity |].
      rewrite IHl, (hasAnswerPredicate_grows s s1 l Hg1). reflexivity. }
    destruct (IH (r :: prem0) s1 Hok1 H2') as (rs & s' & Hrun & Hg2 & Hok2 & Hall2).
    exists (r :: rs), s'. split.
    { simpl. unfold bind at 1. unfold bind at 1. rewrite Hr. unfold ret at 1.
      rewrite Hrun. rewrite <- app_assoc. reflexivity. }
    split; [eapply grows_trans; eassumption |]. split; [exact Hok2 |].
    constructor.
    + split.
      * destruct Hg2 as (_ & _ & _ & Hsub). eapply lookup_weaken; eassumption.
      * exists sym. split; [exact Hsym |].
        destruct Hg2 as (_ & _ & Hpre & _). eapply prefix_lookup_Some; eassumption.
    + eapply Forall2_impl; [exact Hall2 |].
      intros l r' (A & sym' & B & C). split; [exact A |].
      exists sym'. split; [| exact C].
      rewrite <- (lookupPredicate_grows s s1 _ Hg1). exact B.
Qed.

Lemma getClause_eq (cl : UnitPtr) (c : Clause) (s : State) :
  units s !! cl = Some (ClauseUnit c) -> getClause cl s = Ok c s.
Proof. intros Hu. unfold getClause, bind, getUnit. rewrite Hu. reflexivity. Qed.

Lemma getRefutation_ok (cl : UnitPtr) (c : Clause) (s : State) :
  units s !! cl = Some (ClauseUnit c) ->
  resolversOk s ->
  forallb (hasAnswerPredicate s) (literals c) = true ->
  exists rs s1,
    getRefutation cl s =
      Ok (List.length (units s1))
         (upd_units
            (fun l => l ++ [ClauseUnit
                              (fromIterator [] (inputType c)
                                 (InferenceMany UNIT_RESULTING_RESOLUTION
                                    (rev rs ++ [cl])))]) s1)
    /\ grows s s1 /\ resolversOk s1
    /\ Forall2 (resolverAt s s1) (literals c) rs.
Proof.
  intros Hu Hok Hall.
  destruct (resolverLoop_ok (literals c) [cl] s Hok Hall) as (rs & s1 & Hrun & Hg & Hok1 & Hrs).
  exists rs, s1. split; [| auto].
  unfold getRefutation. rewrite (bind_run _ _ _ _ _ (getClause_eq cl c s Hu)).
  rewrite (bind_run _ _ _ _ _ Hrun). reflexivity.
Qed.

(** What a call of [onNewClause] does, with the resolver clauses as
    [getResolverClause] builds them. *)
Lemma onNewClause_run (cl : UnitPtr) (c : Clause) (s : State) :
  units s !! cl = Some (ClauseUnit c) ->
  resolversOk s ->
  let captured :=
    noProp c && noSplits c && forallb (hasAnswerPredicate s) (literals c) in
  ((exists refutation s', onNewClause cl s = Thrown refutation s') <-> captured = true)
  /\ (captured = true ->
      exists rs refutation s',
        onNewClause cl s = Thrown refutation s'
        /\ answers s' = cl :: answers s
        /\ units s' !! refutation
           = Some (ClauseUnit
                     (mkClause [] (inputType c)
                        (InferenceMany UNIT_RESULTING_RESOLUTION (rev rs ++ [cl]))
                        None None))
        /\ Forall2 (resolverAt s s') (literals c) rs
        /\ units s `prefix_of` units s'
        /\ predicates s' = predicates s
        /\ resolversOk s')
  /\ (captured = false ->
      Forall (fun lit => is_Some (lookupPredicate (functor lit) s)) (literals c) ->
      onNewClause cl s = Ok tt s).
Proof.
  intros Hu Hok captured.
  assert (onNewClause cl s =
          if negb (noProp c) || negb (noSplits c) then Ok tt s
          else bind (allAnswerLiterals (literals c))
                 (fun all => if all : bool then
                               bind (modify (upd_answers (fun l => cl :: l)))
                                 (fun _ => bind (getRefutation cl) (fun r => throw r))
                             else ret tt) s) as Hrun.
  { unfold onNewClause. rewrite (bind_run _ _ _ _ _ (getClause_eq cl c s Hu)).
    destruct (negb (noProp c) || negb (noSplits c)); reflexivity. }
  assert (captured = true ->
          exists rs refutation s',
            onNewClause cl s = Thrown refutation s'
            /\ answers s' = cl :: answers s
            /\ units s' !! refutation
               = Some (ClauseUnit
                         (mkClause [] (inputType c)
                            (InferenceMany UNIT_RESULTING_RESOLUTION (rev rs ++ [cl]))
                            None None))
            /\ Forall2 (resolverAt s s') (literals c) rs
            /\ units s `prefix_of` units s'
            /\ predicates s' = predicates s
            /\ resolversOk s') as Hyes.
  { intros Hcap. subst captured.
    apply andb_prop in Hcap as [Hcap Hall]. apply andb_prop in Hcap as [Hp Hs].
    rewrite Hrun, Hp, Hs. simpl.
    unfold bind at 1. rewrite (allAnswerLiterals_true _ _ Hall).
    unfold bind at 1. unfold modify at 1.
    set (sa := upd_answers (fun l => cl :: l) s).
    assert (resolversOk sa) as Hoka by exact Hok.
    assert (units sa !! cl = Some (ClauseUnit c)) as Hua by exact Hu.
    assert (forallb (hasAnswerPredicate sa) (literals c) = true) as Halla by exact Hall.
    destruct (getRefutation_ok cl c sa Hua Hoka Halla) as (rs & s1 & Href & Hg & Hok1 & Hrs).
    unfold bind at 1. rewrite Href. unfold throw.
    destruct Hg as (G1 & G2 & G3 & G4).
    eexists rs, _, _. split; [reflexivity |]. simpl.
    split; [exact G2 |].
    split; [rewrite lookup_app_r by lia; rewrite Nat.sub_diag; reflexivity |].
    split.
    { eapply Forall2_impl; [exact Hrs |].
      intros l r (A & sym & B & C). split; [exact A |]. exists sym.
      split; [exact B |]. simpl. apply lookup_app_l_Some. exact C. }
    split; [etrans; [exact G3 | apply prefix_app_r; reflexivity] |].
    split; [exact G1 |].
    intros pred r Hr. destruct (Hok1 pred r Hr) as (sym & A & B).
    exists sym. split; [exact A |]. simpl. apply lookup_app_l_Some. exact B. }
  split; [| split; [exact Hyes |]].
  - split.
    + intros (refutation & s' & Hthrown).
      destruct captured eqn:Hcap; [reflexivity | exfalso].
      subst captured. rewrite Hrun in Hthrown.
      destruct (noProp c); [| discriminate Hthrown].
      destruct (noSplits c); [| discriminate Hthrown].
      simpl in Hcap, Hthrown. unfold bind at 1 in Hthrown.
      destruct (allAnswerLiterals_false _ _ Hcap) as [Hf | (pred & Hf)];
        rewrite Hf in Hthrown; discriminate Hthrown.
    + intros Hcap. destruct (Hyes Hcap) as (rs & refutation & s' & H & _).
      exists refutation, s'. exact H.
  - intros Hcap Hdecl. subst captured. rewrite Hrun.
    destruct (noProp c); [| reflexivity].
    destruct (noSplits c); [| reflexivity].
    simpl in Hcap |- *. unfold bind at 1.
    rewrite (allAnswerLiterals_declared _ _ Hdecl), Hcap. reflexivity.
Qed.

(** The clause that [getResolverClause] builds on lines 410-421 is
    [{ans(X0,...,Xn-1)}]. *)
Lemma resolverClause_eq (pred : Z) (n : nat) :
  resolverClause (BDDNode := BDDNode) pred n
  = mkClause [mkLiteral pred true
                (map (fun i => OrdVar (Z.of_nat i mod 2 ^ 30)) (seq 0 n))]
      AXIOM (Inference0 ANSWER_LITERAL) None None.
Proof.
  unfold resolverClause, fromIterator, createLiteral. do 2 f_equal.
  f_equal. apply map_ext. intros i. apply ordinaryVar_mod.
Qed.

(** C1, amended: for a clause [c] reported to [onNewClause], the clause is
    pushed on the answers and [RefutationFoundException] is thrown exactly
    when [c] has no propositional part, no splits, and the predicate of
    every literal of [c] is an answer predicate (the polarity of the
    literals is not looked at).  The exception then carries a new clause
    without literals, of the input type of [c], derived by
    [UNIT_RESULTING_RESOLUTION] from the premises [r_k, ..., r_1, c], where
    [r_i] is the clause kept for the predicate [ans] of the [i]-th literal
    of [c]: the axiom [{ans(X0,...,Xn-1)}], one positive literal over the
    first [n] variables for the arity [n] of [ans], derived by
    [ANSWER_LITERAL] (a variable number is kept to 30 bits, which matters
    for no arity up to [2^30]).  Otherwise nothing is thrown, and when the
    predicates of the literals are declared the call returns and leaves
    the state as it was. *)
Theorem onNewClause_spec (cl : UnitPtr) (c : Clause) (s : State) :
  let resolver := fun (pred : Z) (n : nat) =>
    mkClause (BDDNode := BDDNode)
      [mkLiteral pred true (map (fun i => OrdVar (Z.of_nat i mod 2 ^ 30)) (seq 0 n))]
      AXIOM (Inference0 ANSWER_LITERAL) None None in
  let kept := fun (st : State) =>
    forall pred r,
      resolverClauses st !! pred = Some r ->
      exists sym, lookupPredicate pred st = Some sym
                  /\ units st !! r = Some (ClauseUnit (resolver pred (symbolArity sym))) in
  let captured :=
    noProp c && noSplits c && forallb (hasAnswerPredicate s) (literals c) in
  units s !! cl = Some (ClauseUnit c) ->
  kept s ->
  ((exists refutation s', onNewClause cl s = Thrown refutation s') <-> captured = true)
  /\ (captured = true ->
      exists rs refutation s',
        onNewClause cl s = Thrown refutation s'
        /\ answers s' = cl :: answers s
        /\ units s' !! refutation
           = Some (ClauseUnit
                     (mkClause [] (inputType c)
                        (InferenceMany UNIT_RESULTING_RESOLUTION (rev rs ++ [cl]))
                        None None))
        /\ Forall2
             (fun lit r =>
                resolverClauses s' !! functor lit = Some r
                /\ exists sym,
                     lookupPredicate (functor lit) s = Some sym
                     /\ units s' !! r
                        = Some (ClauseUnit
                                  (mkClause
                                     [mkLiteral (functor lit) true
                                        (map (fun i => OrdVar (Z.of_nat i mod 2 ^ 30))
                                           (seq 0 (symbolArity sym)))]
                                     AXIOM (Inference0 ANSWER_LITERAL) None None)))
             (literals c) rs
        /\ units s `prefix_of` units s'
        /\ predicates s' = predicates s
        /\ kept s')
  /\ (captured = false ->
      Forall (fun lit => is_Some (lookupPredicate (functor lit) s)) (literals c) ->
      onNewClause cl s = Ok tt s)
  /\ (forall pred n,
        Z.of_nat n <= 2 ^ 30 ->
        resolver pred n
        = mkClause [mkLiteral pred true (map (fun i => OrdVar (Z.of_nat i)) (seq 0 n))]
            AXIOM (Inference0 ANSWER_LITERAL) None None).
Proof.
  intros resolver kept captured Hu Hkept.
  assert (Hres : forall pred n,
            resolverClause (BDDNode := BDDNode) pred n = resolver pred n)
    by (intros pred n; apply resolverClause_eq).
  assert (Hok : resolversOk s).
  { intros pred r Hr. destruct (Hkept pred r Hr) as (sym & A & B).
    exists sym. split; [exact A |]. rewrite Hres. exact B. }
  destruct (onNewClause_run cl c s Hu Hok) as (Hiff & Hyes & Hno).
  split; [exact Hiff |]. split; [| split; [exact Hno |]].
  - intros Hcap.
    destruct (Hyes Hcap) as (rs & refutation & s' & Hrun & Hans & Href & Hrs & Hpre & Hpreds & Hok').
    exists rs, refutation, s'.
    split; [exact Hrun |]. split; [exact Hans |]. split; [exact Href |].
    split.
    { eapply Forall2_impl; [exact Hrs |].
      intros lit r (A & sym & B & C). split; [exact A |]. exists sym.
      split; [exact B |]. rewrite <- (resolverClause_eq (functor lit) (symbolArity sym)).
      exact C. }
    split; [exact Hpre |]. split; [exact Hpreds |].
    intros pred r Hr. destruct (Hok' pred r Hr) as (sym & A & B).
    exists sym. split; [exact A |]. rewrite <- Hres. exact B.
  - intros pred n Hn. subst resolver. simpl. do 2 f_equal. f_equal.
    apply map_ext_in. intros i Hi. apply in_seq in Hi.
    rewrite Z.mod_small by lia. reflexivity.
Qed.

#[local] Abbreviation addAnswerLiterals :=
  (AnswerLiteralManager.addAnswerLiterals flatten).

(** *** Reading an answer back *)

Lemma firstUnitAnswer_skip (pre : list UnitPtr) (rest : list UnitPtr)
    (answer : list TermList) (s : State) :
  Forall (fun p => exists c, units s !! p = Some (ClauseUnit c)
                             /\ List.length (literals c) <> 1%nat) pre ->
  firstUnitAnswer (pre ++ rest) answer s = firstUnitAnswer rest answer s.
Proof.
  induction 1 as [| p pre (c & Hc & Hlen) _ IH]; [reflexivity |].
  simpl. rewrite (bind_run _ _ _ _ _ (getClause_eq p c s Hc)).
  destruct (literals c) as [| l [| l' ls]]; [exact IH | | exact IH].
  simpl in Hlen. contradiction.
Qed.

(** X16: [tryGetAnswer] reads the arguments of the unit answer clause that
    was captured last. *)
Theorem tryGetAnswer_most_recent (refutation : UnitPtr) (answer : list TermList)
    (s : State) :
  Forall (fun p => exists c, units s !! p = Some (ClauseUnit c)) (answers s) ->
  (forall pre p post c lit,
      answers s = pre ++ p :: post ->
      Forall (fun q => ~ isUnitAnswer s q) pre ->
      units s !! p = Some (ClauseUnit c) -> literals c = [lit] ->
      tryGetAnswer refutation answer s = Ok (true, rev (args lit) ++ answer) s)
  /\ (Forall (fun q => ~ isUnitAnswer s q) (answers s) ->
      tryGetAnswer refutation answer s = Ok (false, answer) s).
Proof.
  intros Hvalid.
  assert (Hskip : forall l, Forall (fun p => exists c, units s !! p = Some (ClauseUnit c)) l ->
            Forall (fun q => ~ isUnitAnswer s q) l ->
            Forall (fun p => exists c, units s !! p = Some (ClauseUnit c)
                                       /\ List.length (literals c) <> 1%nat) l).
  { intros l Hv Hn. induction Hv as [| p l (c & Hc) _ IH]; [constructor |].
    inversion Hn as [| ? ? Hp Hl]; subst. constructor; [| apply IH; exact Hl].
    exists c. split; [exact Hc |]. intros Hlen. apply Hp.
    destruct (literals c) as [| lit [| ? ?]] eqn:E; simpl in Hlen; try lia.
    exists c, lit. split; assumption. }
  split.
  - intros pre p post c lit Heq Hpre Hp Hlit.
    unfold tryGetAnswer, bind, gets. rewrite Heq.
    rewrite Heq in Hvalid. apply Forall_app in Hvalid as [Hv1 _].
    rewrite (firstUnitAnswer_skip _ _ _ _ (Hskip _ Hv1 Hpre)).
    simpl. rewrite (bind_run _ _ _ _ _ (getClause_eq p c s Hp)). rewrite Hlit.
    reflexivity.
  - intros Hnone. unfold tryGetAnswer, bind, gets.
    rewrite <- (app_nil_r (answers s)).
    rewrite (firstUnitAnswer_skip _ _ _ _ (Hskip _ Hvalid Hnone)). reflexivity.
Qed.

Lemma onNewClause_thrown (cl : UnitPtr) (c : Clause) (s s' : State) (r : UnitPtr) :
  units s !! cl = Some (ClauseUnit c) ->
  resolversOk s ->
  onNewClause cl s = Thrown r s' ->
  answers s' = cl :: answers s
  /\ units s `prefix_of` units s'
  /\ predicates s' = predicates s
  /\ resolversOk s'
  /\ forallb (hasAnswerPredicate s) (literals c) = true.
Proof.
  intros Hu Hok Hrun.
  unfold onNewClause in Hrun. rewrite (bind_run _ _ _ _ _ (getClause_eq cl c s Hu)) in Hrun.
  destruct (negb (noProp c) || negb (noSplits c)); [discriminate Hrun |].
  unfold bind at 1 in Hrun.
  destruct (forallb (hasAnswerPredicate s) (literals c)) eqn:Hall.
  2:{ destruct (allAnswerLiterals_false _ _ Hall) as [Hf | (pred & Hf)];
        rewrite Hf in Hrun; discriminate Hrun. }
  rewrite (allAnswerLiterals_true _ _ Hall) in Hrun.
  unfold bind at 1 in Hrun. unfold modify at 1 in Hrun.
  set (sa := upd_answers (fun l => cl :: l) s) in Hrun.
  assert (resolversOk sa) as Hoka by exact Hok.
  assert (units sa !! cl = Some (ClauseUnit c)) as Hua by exact Hu.
  assert (forallb (hasAnswerPredicate sa) (literals c) = true) as Halla by exact Hall.
  destruct (getRefutation_ok cl c sa Hua Hoka Halla) as (rs & s1 & Href & Hg & Hok1 & Hrs).
  unfold bind at 1 in Hrun. rewrite Href in Hrun. unfold throw in Hrun.
  injection Hrun as <- <-.
  destruct Hg as (G1 & G2 & G3 & G4).
  split; [exact G2 |].
  split; [etrans; [exact G3 | apply prefix_app_r; reflexivity] |].
  split; [exact G1 |].
  split; [| reflexivity].
  intros pred r Hr. destruct (Hok1 pred r Hr) as (sym & A & B).
  exists sym. split; [exact A |]. simpl. apply lookup_app_l_Some. exact B.
Qed.

(** X17: the answer that [onNewClause] captures is the answer that
    [tryGetAnswer] gives. *)
Theorem tryGetAnswer_after_onNewClause (cl : UnitPtr) (c : Clause) (s s' : State)
    (thrown refutation : UnitPtr) (answer : list TermList) :
  units s !! cl = Some (ClauseUnit c) ->
  resolversOk s ->
  Forall (fun p => exists c', units s !! p = Some (ClauseUnit c')) (answers s) ->
  onNewClause cl s = Thrown thrown s' ->
  (forall lit, literals c = [lit] ->
     tryGetAnswer refutation answer s' = Ok (true, rev (args lit) ++ answer) s')
  /\ (List.length (literals c) <> 1%nat ->
      exists r, tryGetAnswer refutation answer s = Ok r s
                /\ tryGetAnswer refutation answer s' = Ok r s').
Proof.
  intros Hu Hok Hvalid Hrun.
  destruct (onNewClause_thrown _ _ _ _ _ Hu Hok Hrun) as (Ha & Hpre & _ & _ & _).
  assert (Hu' : units s' !! cl = Some (ClauseUnit c)).
  { eapply prefix_lookup_Some; [exact Hu | exact Hpre]. }
  split.
  - intros lit Hlit. unfold tryGetAnswer, bind, gets. rewrite Ha. simpl.
    rewrite (bind_run _ _ _ _ _ (getClause_eq cl c s' Hu')). rewrite Hlit. reflexivity.
  - intros Hlen.
    assert (Hloop : forall l,
              Forall (fun p => exists c', units s !! p = Some (ClauseUnit c')) l ->
              exists r, firstUnitAnswer l answer s = Ok r s
                        /\ firstUnitAnswer l answer s' = Ok r s').
    { induction 1 as [| p l (c' & Hc') _ (r & IH1 & IH2)].
      - eexists. split; reflexivity.
      - assert (Hc'' : units s' !! p = Some (ClauseUnit c')).
        { eapply prefix_lookup_Some; [exact Hc' | exact Hpre]. }
        simpl. rewrite (bind_run _ _ _ _ _ (getClause_eq p c' s Hc')).
        rewrite (bind_run _ _ _ _ _ (getClause_eq p c' s' Hc'')).
        destruct (literals c') as [| lit [| ? ?]].
        + exists r. split; assumption.
        + eexists. split; reflexivity.
        + exists r. split; assumption. }
    destruct (Hloop _ Hvalid) as (r & H1 & H2). exists r.
    unfold tryGetAnswer, bind, gets. rewrite Ha. split; [exact H1 |].
    simpl. rewrite (bind_run _ _ _ _ _ (getClause_eq cl c s' Hu')).
    destruct (literals c) as [| lit [| ? ?]]; [exact H2 | | exact H2].
    simpl in Hlen. contradiction.
Qed.

(** *** All units of a problem *)

Lemma isExistentialConjecture_prefix (s s' : State) (p : UnitPtr) :
  units s `prefix_of` units s' -> is_Some (units s !! p) ->
  isExistentialConjecture s' p = isExistentialConjecture s p.
Proof.
  intros Hpre [u Hu]. unfold isExistentialConjecture.
  assert (Hu' : units s' !! p = Some u)
    by (eapply prefix_lookup_Some; eassumption).
  rewrite Hu', Hu. reflexivity.
Qed.

Lemma existentialConjectures_prefix (s s' : State) (us : list UnitPtr) :
  units s `prefix_of` units s' -> Forall (fun p => is_Some (units s !! p)) us ->
  existentialConjectures s' us = existentialConjectures s us.
Proof.
  intros Hpre Hv. unfold existentialConjectures. f_equal.
  induction Hv as [| p us Hp _ IH]; [reflexivity |].
  rewrite !filter_cons. rewrite (isExistentialConjecture_prefix s s' p Hpre Hp).
  destruct (decide _); rewrite IH; reflexivity.
Qed.

(** X18: [addAnswerLiterals] replaces the existential conjectures and
    nothing else; the answer literal of a new unit has the quantified
    variables as its arguments, each number kept to 30 bits. *)
Theorem addAnswerLiterals_spec (us : list UnitPtr) (s : State) :
  Forall (fun p => is_Some (units s !! p)) us ->
  exists us' s',
    addAnswerLiterals us s = Ok us' s'
    /\ List.length us' = List.length us
    /\ units s `prefix_of` units s'
    /\ predicates s `prefix_of` predicates s'
    /\ answers s' = answers s
    /\ resolverClauses s' = resolverClauses s
    /\ List.length (units s') = (List.length (units s) + existentialConjectures s us)%nat
    /\ List.length (predicates s')
       = (List.length (predicates s) + existentialConjectures s us)%nat
    /\ forall i p u,
         us !! i = Some p -> units s !! p = Some u ->
         match existentialConjecture u with
         | None => us' !! i = Some p
         | Some (vars, phi) =>
             let k := existentialConjectures s (take i us) in
             let ans := mkLiteral (Z.of_nat (List.length (predicates s) + k)) true
                          (map (fun v => OrdVar (v mod 2 ^ 30)) vars) in
             us' !! i = Some (List.length (units s) + k)%nat
             /\ units s' !! (List.length (units s) + k)%nat
                = Some (FormulaUnit
                          (flatten
                             (NegatedFormula
                                (QuantifiedFormula EXISTS vars
                                   (JunctionFormula AND [AtomicFormula ans; phi]))))
                          (Inference1 ANSWER_LITERAL p) CONJECTURE)
             /\ lookupPredicate (functor ans) s = None
             /\ lookupPredicate (functor ans) s'
                = Some (mkSymbol (List.length vars) true)
         end.
Proof.
  revert s. induction us as [| p us IH]; intros s Hv.
  - exists [], s. split; [reflexivity |].
    split; [reflexivity |]. split; [reflexivity |]. split; [reflexivity |].
    split; [reflexivity |]. split; [reflexivity |].
    unfold existentialConjectures. simpl. rewrite !Nat.add_0_r.
    split; [reflexivity |]. split; [reflexivity |].
    intros i q u Hi. rewrite lookup_nil in Hi. discriminate.
  - inversion Hv as [| ? ? [u Hu] Hv']; subst.
    pose proof (tryAddingAnswerLiteral_eq p u s Hu) as Hstep.
    set (s1 := match existentialConjecture u with
               | Some (vars, phi) =>
                   upd_units
                     (fun l =>
                        l ++ [FormulaUnit
                                (flatten
                                   (NegatedFormula
                                      (QuantifiedFormula EXISTS vars
                                         (JunctionFormula AND
                                            [AtomicFormula
                                               (mkLiteral (Z.of_nat (List.length (predicates s)))
                                                  true (map (fun v => OrdVar (v mod 2 ^ 30)) vars)); phi]))))
                                (Inference1 ANSWER_LITERAL p) CONJECTURE])
                     (upd_predicates (fun l => l ++ [mkSymbol (List.length vars) true]) s)
               | None => s
               end).
    set (p1 := match existentialConjecture u with
               | Some _ => List.length (units s)
               | None => p
               end).
    assert (Hstep' : tryAddingAnswerLiteral p s = Ok p1 s1).
    { rewrite Hstep. subst s1 p1. destruct (existentialConjecture u) as [[vars phi] |];
        reflexivity. }
    assert (Hpre1 : units s `prefix_of` units s1).
    { subst s1. destruct (existentialConjecture u) as [[vars phi] |]; simpl;
        [apply prefix_app_r |]; reflexivity. }
    assert (Hpp1 : predicates s `prefix_of` predicates s1).
    { subst s1. destruct (existentialConjecture u) as [[vars phi] |]; simpl;
        [apply prefix_app_r |]; reflexivity. }
    assert (Hhd : isExistentialConjecture s p
                  = bool_decide (is_Some (existentialConjecture u))).
    { unfold isExistentialConjecture. rewrite Hu. reflexivity. }
    set (k1 := if isExistentialConjecture s p then 1%nat else 0%nat).
    assert (Hlen1 : List.length (units s1) = (List.length (units s) + k1)%nat
                    /\ List.length (predicates s1)
                       = (List.length (predicates s) + k1)%nat
                    /\ answers s1 = answers s
                    /\ resolverClauses s1 = resolverClauses s).
    { subst s1 k1. rewrite Hhd.
      destruct (existentialConjecture u) as [[vars phi] |].
      - rewrite bool_decide_eq_true_2 by (eexists; reflexivity). simpl.
        rewrite !length_app. simpl. auto.
      - rewrite bool_decide_eq_false_2 by (intros [? ?]; discriminate). simpl.
        rewrite !Nat.add_0_r. auto. }
    destruct Hlen1 as (Hlu1 & Hlp1 & Ha1 & Hr1).
    assert (Hv1 : Forall (fun q => is_Some (units s1 !! q)) us).
    { eapply Forall_impl; [exact Hv' |]. intros q [uq Hq]. exists uq.
      eapply prefix_lookup_Some; eassumption. }
    destruct (IH s1 Hv1) as (us' & s' & Hrun & Hl & Hpre & Hpp & Ha & Hr & Hlu & Hlp & Hpos).
    assert (Hcount : forall l, Forall (fun q => is_Some (units s !! q)) l ->
              existentialConjectures s1 l = existentialConjectures s l).
    { intros l Hl0. apply existentialConjectures_prefix; assumption. }
    assert (Hcons : forall l,
              existentialConjectures s (p :: l)
              = (k1 + existentialConjectures s l)%nat).
    { intros l. unfold existentialConjectures, k1. rewrite filter_cons.
      destruct (isExistentialConjecture s p); simpl.
      - destruct (decide (Is_true true)) as [_ | F]; [reflexivity | exfalso; apply F; exact I].
      - destruct (decide (Is_true false)) as [F | _]; [destruct F | reflexivity]. }
    exists (p1 :: us'), s'.
    split.
    { unfold AnswerLiteralManager.addAnswerLiterals. simpl.
      rewrite (bind_run _ _ _ _ _ Hstep').
      unfold AnswerLiteralManager.addAnswerLiterals in Hrun.
      rewrite (bind_run _ _ _ _ _ Hrun). reflexivity. }
    split; [simpl; rewrite Hl; reflexivity |].
    split; [etrans; eassumption |].
    split; [etrans; eassumption |].
    split; [congruence |].
    split; [congruence |].
    split; [rewrite Hlu, Hlu1, Hcons, (Hcount _ Hv'); lia |].
    split; [rewrite Hlp, Hlp1, Hcons, (Hcount _ Hv'); lia |].
    intros i q uq Hi Hq. destruct i as [| i]; simpl in Hi.
    + injection Hi as <-. assert (uq = u) as ->.
      { unfold UnitPtr in *. congruence. }
      subst p1 s1. destruct (existentialConjecture u) as [[vars phi] |] eqn:Eu;
        [| reflexivity].
      simpl. unfold existentialConjectures at 1 2. simpl. rewrite !Nat.add_0_r.
      split; [reflexivity |]. split.
      { eapply prefix_lookup_Some; [| exact Hpre]. simpl.
        rewrite lookup_app_r by lia. rewrite Nat.sub_diag. reflexivity. }
      split; [apply lookupPredicate_fresh |].
      unfold lookupPredicate. destruct (decide _) as [_ | F]; [| simpl in F; lia].
      simpl. rewrite Nat2Z.id.
      eapply prefix_lookup_Some; [| exact Hpp]. simpl.
      rewrite lookup_app_r by lia. rewrite Nat.sub_diag. reflexivity.
    + assert (Hq1 : units s1 !! q = Some uq)
        by (eapply prefix_lookup_Some; eassumption).
      specialize (Hpos i q uq Hi Hq1).
      destruct (existentialConjecture uq) as [[vars phi] |]; [| exact Hpos].
      simpl in Hpos |- *. rewrite Hcons.
      assert (Htk : Forall (fun q => is_Some (units s !! q)) (take i us)).
      { apply Forall_take. exact Hv'. }
      rewrite (Hcount _ Htk) in Hpos. rewrite Hlu1, Hlp1 in Hpos.
      replace (List.length (units s) + (k1 + existentialConjectures s (take i us)))%nat
        with (List.length (units s) + k1 + existentialConjectures s (take i us))%nat by lia.
      replace (List.length (predicates s) + (k1 + existentialConjectures s (take i us)))%nat
        with (List.length (predicates s) + k1 + existentialConjectures s (take i us))%nat by lia.
      destruct Hpos as (P1 & P2 & P3 & P4).
      split; [exact P1 |]. split; [exact P2 |]. split; [| exact P4].
      unfold lookupPredicate in P3 |- *. simpl in P3 |- *.
      destruct (decide _) as [_ | F]; [| reflexivity].
      rewrite Nat2Z.id in P3 |- *.
      apply lookup_ge_None_2. lia.
Qed.

(** *** Resolver clauses *)

Lemma getResolverClause_known (pred : Z) (r : UnitPtr) (s : State) :
  resolverClauses s !! pred = Some r -> getResolverClause pred s = Ok r s.
Proof. intros Hr. unfold getResolverClause, bind, gets. rewrite Hr. reflexivity. Qed.

(** X19: one resolver clause per answer predicate. *)
Theorem getResolverClause_cached (pred : Z) (sym : Symbol) (s : State) :
  resolversOk s ->
  lookupPredicate pred s = Some sym ->
  exists r s',
    getResolverClause pred s = Ok r s'
    /\ units s' !! r = Some (ClauseUnit (resolverClause pred (symbolArity sym)))
    /\ resolversOk s'
    /\ (forall r0, resolverClauses s !! pred = Some r0 -> r = r0 /\ s' = s)
    /\ (resolverClauses s !! pred = None ->
        r = List.length (units s)
        /\ units s' = units s ++ [ClauseUnit (resolverClause pred (symbolArity sym))])
    /\ (forall s'', grows s' s'' -> getResolverClause pred s'' = Ok r s'')
    /\ (forall pred', resolverClauses s' !! pred' = Some r -> pred' = pred).
Proof.
  intros Hok Hsym.
  destruct (getResolverClause_ok pred sym s Hok Hsym) as (r & s' & Hrun & Hr & Hu & Hg & Hok').
  exists r, s'. split; [exact Hrun |]. split; [exact Hu |]. split; [exact Hok' |].
  split; [| split; [| split]].
  - intros r0 Hr0. rewrite (getResolverClause_known _ _ _ Hr0) in Hrun.
    injection Hrun as <- <-. split; reflexivity.
  - intros Hnone. unfold getResolverClause, bind, gets in Hrun. rewrite Hnone in Hrun.
    unfold getPredicate in Hrun. rewrite Hsym in Hrun.
    unfold newUnit, modify in Hrun. injection Hrun as <- <-.
    split; reflexivity.
  - intros s'' (_ & _ & _ & Hsub). apply getResolverClause_known.
    eapply lookup_weaken; eassumption.
  - intros pred' Hr'.
    destruct (Hok' pred' r Hr') as (sym' & _ & Hu').
    assert (E : resolverClause (BDDNode := BDDNode) pred' (symbolArity sym')
                = resolverClause pred (symbolArity sym)).
    { unfold UnitPtr in *. congruence. }
    unfold resolverClause, fromIterator, createLiteral in E.
    injection E as E _. exact E.
Qed.

(** *** Answer literals *)

(** X20: the literal that [getAnswerLiteral] makes is a positive literal
    over a new predicate, with the given variables as its arguments, each
    number kept to 30 bits; it is an answer literal, and the only new
    one. *)
Theorem getAnswerLiteral_isAnswerLiteral (vars : list Z) (s : State) :
  exists lit s',
    getAnswerLiteral vars s = Ok lit s'
    /\ isAnswerLiteral lit s' = Ok true s'
    /\ isAnswerLiteral lit s = Failed (UnknownPredicate (functor lit))
    /\ isPositive lit = true
    /\ arity lit = List.length vars
    /\ args lit = map (fun v => OrdVar (v mod 2 ^ 30)) vars
    /\ functor lit = Z.of_nat (List.length (predicates s))
    /\ units s' = units s /\ answers s' = answers s
    /\ resolverClauses s' = resolverClauses s
    /\ (forall other b s1,
          isAnswerLiteral other s = Ok b s1 ->
          s1 = s /\ isAnswerLiteral other s' = Ok b s')
    /\ (forall other, functor other <> functor lit -> hasAnswerPredicate s' other
                                                     = hasAnswerPredicate s other).
Proof.
  eexists _, _. split; [apply getAnswerLiteral_eq |].
  set (sym := mkSymbol (List.length vars) true).
  set (s' := upd_predicates (fun l => l ++ [sym]) s).
  assert (Hnew : lookupPredicate (Z.of_nat (List.length (predicates s))) s' = Some sym)
    by apply lookupPredicate_added.
  assert (Hold : forall pred symo, lookupPredicate pred s = Some symo ->
                                   lookupPredicate pred s' = Some symo).
  { intros pred symo. unfold lookupPredicate. destruct (decide (0 <= pred)); [| discriminate].
    intros Hl. subst s'. simpl. apply lookup_app_l_Some. exact Hl. }
  split; [| split; [| split; [| split; [| split; [| split; [| split; [| split; [| split; [| split]]]]]]]]].
  - unfold isAnswerLiteral, bind, getPredicate. simpl functor. rewrite Hnew. reflexivity.
  - unfold isAnswerLiteral, bind, getPredicate. simpl functor.
    rewrite lookupPredicate_fresh. reflexivity.
  - reflexivity.
  - unfold arity. simpl. apply length_map.
  - reflexivity.
  - reflexivity.
  - reflexivity.
  - reflexivity.
  - reflexivity.
  - intros other b s1. unfold isAnswerLiteral, bind, getPredicate.
    destruct (lookupPredicate (functor other) s) as [symo |] eqn:E; [| discriminate].
    intros Hb. injection Hb as <- <-. split; [reflexivity |].
    rewrite (Hold _ _ E). reflexivity.
  - intros other Hne. simpl in Hne. unfold hasAnswerPredicate, lookupPredicate.
    destruct (decide (0 <= functor other)) as [Hp | Hn]; [| reflexivity].
    subst s'. simpl.
    destruct (decide (Z.to_nat (functor other) < List.length (predicates s))%nat).
    + rewrite lookup_app_l by assumption. reflexivity.
    + rewrite lookup_app_r by lia.
      rewrite (lookup_ge_None_2 (predicates s)) by lia.
      destruct (Z.to_nat (functor other) - List.length (predicates s))%nat eqn:E; [lia |].
      reflexivity.
Qed.

End WithFlattening.

Section Witnesses.
Import AnswerExamples.

Lemma resolversOk_initial (preds : list Symbol) (us : list (Unit (BDDNode := ROBDD.node))) :
  resolversOk (initial preds us).
Proof. intros pred r Hr. unfold initial in Hr. simpl in Hr. rewrite lookup_empty in Hr. discriminate. Qed.

(** C1, as stated, fails: the clause [~ans(a)] is captured, and its
    literal is not positive. *)
Lemma onNewClause_ignores_polarity :
  ~ (forall (s : State (BDDNode := ROBDD.node)) (cl : UnitPtr) (c : Clause ROBDD.node),
       units s !! cl = Some (ClauseUnit c) ->
       resolversOk s ->
       ((exists refutation s', onNewClause cl s = Thrown refutation s') <->
        (noProp c = true /\ noSplits c = true
         /\ forall lit, lit ∈ literals c ->
                        isPositive lit = true /\ hasAnswerPredicate s lit = true))).
Proof.
  intros H.
  destruct (H reported 0%nat answerClause eq_refl (resolversOk_initial _ _)) as [H1 _].
  destruct H1 as (_ & _ & Hpos).
  - eexists _, _. vm_compute. reflexivity.
  - destruct (Hpos not_ans_a) as [Hp _]; [apply list_elem_of_here |].
    discriminate Hp.
Qed.

Lemma onNewClause_spec_witness :
  exists refutation s', onNewClause 0%nat reported = Thrown refutation s'.
Proof.
  assert (Hkept : forall pred r,
            resolverClauses reported !! pred = Some r ->
            exists sym,
              lookupPredicate pred reported = Some sym
              /\ units reported !! r
                 = Some (ClauseUnit
                           (mkClause
                              [mkLiteral pred true
                                 (map (fun i => OrdVar (Z.of_nat i mod 2 ^ 30))
                                    (seq 0 (symbolArity sym)))]
                              AXIOM (Inference0 ANSWER_LITERAL) None None))).
  { intros pred r Hr. simpl in Hr. rewrite lookup_empty in Hr. discriminate Hr. }
  destruct (onNewClause_spec 0%nat answerClause reported eq_refl Hkept)
    as (_ & H & _).
  destruct (H eq_refl) as (rs & refutation & s' & Hrun & _).
  exists refutation, s'. exact Hrun.
Defined.

(** C5, as stated, fails: the argument of the answer literal for the
    quantified variable with the number [2^30] is the variable with the
    number 0, whatever [flatten] does afterwards, so the formula that is
    flattened is not [not (exists X. (p(X) and ans(X)))], in either order of
    the conjuncts. *)
Lemma tryAddingAnswerLiteral_truncates_variables :
  (forall flatten : Formula -> Formula,
      AnswerLiteralManager.tryAddingAnswerLiteral flatten 0%nat parsedWide
      = Ok 1%nat
          (mkState [mkSymbol 1 false; mkSymbol 1 true]
             [wideConjecture;
              FormulaUnit
                (flatten
                   (NegatedFormula
                      (QuantifiedFormula EXISTS [2 ^ 30]
                         (JunctionFormula AND
                            [AtomicFormula (mkLiteral 1 true [OrdVar 0]);
                             AtomicFormula p_wide]))))
                (Inference1 ANSWER_LITERAL 0%nat) CONJECTURE]
             [] ∅))
  /\ ~ (forall (flatten : Formula -> Formula) (s : State (BDDNode := ROBDD.node))
              (unit : UnitPtr) (vars : list Z) (phi : Formula) (inf : Inference),
         units s !! unit
         = Some (FormulaUnit (NegatedFormula (QuantifiedFormula EXISTS vars phi))
                   inf CONJECTURE) ->
         exists res s' pred inf' conj,
           AnswerLiteralManager.tryAddingAnswerLiteral flatten unit s = Ok res s'
           /\ (conj = [AtomicFormula (mkLiteral pred true (map OrdVar vars)); phi]
               \/ conj = [phi; AtomicFormula (mkLiteral pred true (map OrdVar vars))])
           /\ units s' !! res
              = Some (FormulaUnit
                        (flatten
                           (NegatedFormula
                              (QuantifiedFormula EXISTS vars (JunctionFormula AND conj))))
                        inf' CONJECTURE)).
Proof.
  split; [intros flatten; vm_compute; reflexivity |].
  intros H.
  destruct (H noFlattening parsedWide 0%nat [wide] (AtomicFormula p_wide)
              (Inference0 INPUT) eq_refl)
    as (res & s' & pred & inf' & conj & Hrun & Hconj & Hu).
  vm_compute in Hrun. injection Hrun as <- <-.
  destruct Hconj as [-> | ->]; vm_compute in Hu; discriminate Hu.
Qed.

Lemma tryAddingAnswerLiteral_spec_witness :
  exists res s',
    AnswerLiteralManager.tryAddingAnswerLiteral noFlattening 0%nat parsed = Ok res s'
    /\ res <> 0%nat.
Proof.
  destruct (tryAddingAnswerLiteral_spec noFlattening 0%nat conjecture parsed eq_refl)
    as (res & s' & Hrun & Hiff & _).
  exists res, s'. split; [exact Hrun |].
  apply Hiff. exists [0], (AtomicFormula p_X), (Inference0 INPUT). reflexivity.
Defined.

Lemma tryGetAnswer_most_recent_witness :
  tryGetAnswer 7%nat []
    (mkState signature [ClauseUnit answerClause] [0%nat] ∅)
  = Ok (true, [a]) (mkState signature [ClauseUnit answerClause] [0%nat] ∅).
Proof.
  set (s := mkState (BDDNode := ROBDD.node) signature [ClauseUnit answerClause] [0%nat] ∅).
  assert (Hvalid : Forall (fun p => exists c, units s !! p = Some (ClauseUnit c))
                     (answers s)).
  { repeat constructor. exists answerClause. reflexivity. }
  destruct (tryGetAnswer_most_recent 7%nat [] s Hvalid) as [H _].
  exact (H [] 0%nat [] answerClause not_ans_a eq_refl (Forall_nil_2 _) eq_refl eq_refl).
Defined.

Lemma tryGetAnswer_after_onNewClause_witness :
  exists thrown s',
    onNewClause 0%nat reported = Thrown thrown s'
    /\ tryGetAnswer thrown [] s' = Ok (true, [a]) s'.
Proof.
  assert (Hrun : exists thrown s', onNewClause 0%nat reported = Thrown thrown s')
    by (eexists _, _; vm_compute; reflexivity).
  destruct Hrun as (thrown & s' & Hrun).
  exists thrown, s'. split; [exact Hrun |].
  destruct (tryGetAnswer_after_onNewClause 0%nat answerClause reported s' thrown thrown []
              eq_refl (resolversOk_initial _ _) (Forall_nil_2 _) Hrun) as [H _].
  exact (H not_ans_a eq_refl).
Defined.

Lemma addAnswerLiterals_spec_witness :
  exists us' s',
    AnswerLiteralManager.addAnswerLiterals noFlattening [0%nat] parsed = Ok us' s'
    /\ us' = [1%nat].
Proof.
  assert (Hv : Forall (fun p => is_Some (units parsed !! p)) [0%nat]).
  { repeat constructor. exists conjecture. reflexivity. }
  destruct (addAnswerLiterals_spec noFlattening [0%nat] parsed Hv)
    as (us' & s' & Hrun & Hlen & _ & _ & _ & _ & _ & _ & Hpos).
  exists us', s'. split; [exact Hrun |].
  destruct (Hpos 0%nat 0%nat conjecture eq_refl eq_refl) as (H0 & _).
  destruct us' as [| u [| u' us']]; simpl in Hlen; try discriminate Hlen.
  simpl in H0. injection H0 as ->. reflexivity.
Defined.

Lemma getResolverClause_cached_witness :
  exists r s',
    getResolverClause 1 reported = Ok r s'
    /\ getResolverClause 1 s' = Ok r s'.
Proof.
  destruct (getResolverClause_cached 1 (mkSymbol 1 true) reported
              (resolversOk_initial _ _) eq_refl)
    as (r & s' & Hrun & _ & _ & _ & _ & Hlater & _).
  exists r, s'. split; [exact Hrun |].
  apply Hlater. apply grows_refl.
Defined.

End Witnesses.

End AnswerLiteralFacts.

(** ** The conjunctive goal extractor *)

Module SubstBuilderFacts.
Import Kernel SubstBuilder.
Section WithSubstitution.

Context {Subst Undo : Type}.
Variable unify : TermList -> nat -> TermList -> nat -> Subst -> option (Subst * Undo).
Variable unifyArgs : Literal -> nat -> Literal -> nat -> Subst -> option (Subst * Undo).
Variable undo : Undo -> Subst -> Subst.
Variable getUnifications : Literal -> list SLQueryResult.

#[local] Abbreviation State := (@SubstBuilder.State Subst Undo).
#[local] Abbreviation M := (@SubstBuilder.M Subst Undo).
#[local] Abbreviation nextGoalUnif := (SubstBuilder.nextGoalUnif unify unifyArgs).
#[local] Abbreviation tryLemmas := (SubstBuilder.tryLemmas unifyArgs).
#[local] Abbreviation doUnifyArgs := (SubstBuilder.doUnifyArgs unifyArgs).
#[local] Abbreviation doUnify := (SubstBuilder.doUnify unify).
#[local] Abbreviation enterGoal := (SubstBuilder.enterGoal (Subst := Subst) (Undo := Undo) getUnifications).
#[local] Abbreviation leaveGoal := (SubstBuilder.leaveGoal (Subst := Subst) undo).
#[local] Abbreviation runStep := (SubstBuilder.runStep unify unifyArgs undo getUnifications).
#[local] Abbreviation backtrackStep := (SubstBuilder.backtrackStep (Subst := Subst) undo).
#[local] Abbreviation reachable := (SubstBuilder.reachable unify unifyArgs undo getUnifications).

Lemma search_bind_Ok {A B} (m : M A) (k : A -> M B) (s s' : State) (b : B) :
  bind m k s = Ok b s' -> exists a s1, m s = Ok a s1 /\ k a s1 = Ok b s'.
Proof.
  unfold bind. destruct (m s) as [a s1 | f]; [| discriminate].
  intros H. exists a, s1. split; [reflexivity | exact H].
Qed.

Lemma search_bind_eq {A B} (m : M A) (k : A -> M B) (s s1 : State) (a : A) :
  m s = Ok a s1 -> bind m k s = k a s1.
Proof. unfold bind. intros ->. reflexivity. Qed.

Lemma search_ret_Ok {A} (a b : A) (s s' : State) : ret a s = Ok b s' -> b = a /\ s' = s.
Proof. unfold ret. intros H. injection H as <- <-. split; reflexivity. Qed.

Lemma search_gets_Ok {A} (f : State -> A) (b : A) (s s' : State) :
  gets f s = Ok b s' -> b = f s /\ s' = s.
Proof. unfold gets. intros H. injection H as <- <-. split; reflexivity. Qed.

Lemma search_modify_Ok (f : State -> State) (u : unit) (s s' : State) :
  modify f s = Ok u s' -> s' = f s.
Proof. unfold modify. intros H. injection H as _ <-. reflexivity. Qed.

Lemma readAt_Ok {A} (arr : State -> list A) (i : nat) (a : A) (s s' : State) :
  readAt arr i s = Ok a s' -> arr s !! i = Some a /\ s' = s.
Proof.
  unfold readAt. destruct (arr s !! i) as [a' |]; [| discriminate].
  intros H. injection H as <- <-. split; reflexivity.
Qed.

Lemma writeAt_Ok {A} (arr : State -> list A) upd (i : nat) (a : A) (u : unit)
    (s s' : State) :
  writeAt arr upd i a s = Ok u s' ->
  (i < List.length (arr s))%nat /\ s' = upd (fun l => <[i := a]> l) s.
Proof.
  unfold writeAt. destruct (decide (i < List.length (arr s))%nat); [| discriminate].
  intros H. injection H as _ <-. split; [assumption | reflexivity].
Qed.

Lemma quiet_refl (s : State) : quiet s s.
Proof. unfold quiet. repeat split. exists []. split; [reflexivity | constructor]. Qed.

Lemma quiet_trans (s1 s2 s3 : State) : quiet s1 s2 -> quiet s2 s3 -> quiet s1 s3.
Proof.
  intros (A1 & A2 & A3 & e1 & A4 & A5) (B1 & B2 & B3 & e2 & B4 & B5).
  unfold quiet. repeat split; try congruence.
  exists (e2 ++ e1). rewrite B4, A4, app_assoc. split; [reflexivity |].
  apply Forall_app. split; assumption.
Qed.

Lemma commit_quiet (r : Subst * Undo) (u : unit) (s s' : State) :
  commit r s = Ok u s' -> quiet s s' /\ trace s' = trace s.
Proof.
  unfold commit. intros H.
  apply search_bind_Ok in H as ([] & s1 & H1 & H). apply search_modify_Ok in H1 as ->.
  apply search_bind_Ok in H as (rs & s1 & H1 & H). apply search_gets_Ok in H1 as [-> ->].
  simpl in H. destruct (recordings s) as [| d rest].
  - apply search_ret_Ok in H as [_ ->]. split; [| reflexivity].
    unfold quiet. simpl. repeat split. exists []. split; [reflexivity | constructor].
  - apply search_modify_Ok in H as ->. split; [| reflexivity].
    unfold quiet. simpl. repeat split. exists []. split; [reflexivity | constructor].
Qed.

Lemma doUnifyArgs_quiet (l1 l2 : Literal) (b1 b2 : nat) (ok : bool) (s s' : State) :
  doUnifyArgs l1 b1 l2 b2 s = Ok ok s' -> quiet s s'.
Proof.
  unfold SubstBuilder.doUnifyArgs. intros H.
  apply search_bind_Ok in H as (d & s1 & H1 & H). apply search_gets_Ok in H1 as [-> ->].
  apply search_bind_Ok in H as (sigma & s1 & H1 & H). apply search_gets_Ok in H1 as [-> ->].
  destruct (unifyArgs l1 b1 l2 b2 (subst s)) as [r |].
  - apply search_bind_Ok in H as ([] & s1 & H1 & H). apply search_modify_Ok in H1 as ->.
    apply search_bind_Ok in H as ([] & s2 & H2 & H). apply commit_quiet in H2 as [Hq _].
    apply search_ret_Ok in H as [_ ->].
    eapply quiet_trans; [| exact Hq].
    unfold quiet. simpl. repeat split.
    eexists [_]. split; [reflexivity |]. repeat constructor.
  - apply search_bind_Ok in H as ([] & s1 & H1 & H). apply search_modify_Ok in H1 as ->.
    apply search_ret_Ok in H as [_ ->].
    unfold quiet. simpl. repeat split.
    eexists [_]. split; [reflexivity |]. repeat constructor.
Qed.

Lemma tryLemmas_quiet (goalLit : Literal) (it : list SLQueryResult)
    (r : bool * list SLQueryResult) (s s' : State) :
  tryLemmas goalLit it s = Ok r s' -> quiet s s'.
Proof.
  revert s. induction it as [| qres it IH]; intros s H; simpl in H.
  - apply search_ret_Ok in H as [_ ->]. apply quiet_refl.
  - apply search_bind_Ok in H as (b & s1 & H1 & H). apply doUnifyArgs_quiet in H1.
    destruct b.
    + apply search_ret_Ok in H as [_ ->]. exact H1.
    + eapply quiet_trans; [exact H1 | apply IH; exact H].
Qed.

Lemma doUnify_trace (t1 t2 : TermList) (b1 b2 : nat) (ok : bool) (s s' : State) :
  doUnify t1 b1 t2 b2 s = Ok ok s' ->
  goalLits s' = goalLits s /\ depth s' = depth s /\ triedEqUnif s' = triedEqUnif s
  /\ unifIts s' = unifIts s
  /\ trace s' = Unify (depth s) t1 b1 t2 b2 ok :: trace s
  /\ ok = bool_decide (is_Some (unify t1 b1 t2 b2 (subst s))).
Proof.
  unfold SubstBuilder.doUnify. intros H.
  apply search_bind_Ok in H as (d & s1 & H1 & H). apply search_gets_Ok in H1 as [-> ->].
  apply search_bind_Ok in H as (sigma & s1 & H1 & H). apply search_gets_Ok in H1 as [-> ->].
  destruct (unify t1 b1 t2 b2 (subst s)) as [r |].
  - apply search_bind_Ok in H as ([] & s1 & H1 & H). apply search_modify_Ok in H1 as ->.
    apply search_bind_Ok in H as ([] & s2 & H2 & H).
    apply search_ret_Ok in H as [-> ->].
    unfold commit in H2.
    apply search_bind_Ok in H2 as ([] & s3 & H3 & H2). apply search_modify_Ok in H3 as ->.
    apply search_bind_Ok in H2 as (rs & s3 & H3 & H2). apply search_gets_Ok in H3 as [-> ->].
    simpl in H2. destruct (recordings s) as [| d rest].
    + apply search_ret_Ok in H2 as [_ ->]. simpl. repeat split; reflexivity.
    + apply search_modify_Ok in H2 as ->. simpl. repeat split; reflexivity.
  - apply search_bind_Ok in H as ([] & s1 & H1 & H). apply search_modify_Ok in H1 as ->.
    apply search_ret_Ok in H as [-> ->]. simpl. repeat split; reflexivity.
Qed.

(** What a call of [nextGoalUnif] does to the goals, the depth, the flags
    and the trace: either it only tries lemmas, or it goes on, for a
    positive equality whose flag is not set, to set the flag and call
    [unify] on the two arguments in bank 0. *)
Lemma nextGoalUnif_cases (b : bool) (s s' : State) :
  nextGoalUnif s = Ok b s' ->
  goalLits s' = goalLits s /\ depth s' = depth s
  /\ ((triedEqUnif s' = triedEqUnif s
       /\ exists evs, trace s' = evs ++ trace s /\ Forall isUnifyArgs evs)
      \/ (exists L t0 t1 evs,
            goalLits s !! depth s = Some L
            /\ isEquality L = true /\ isPositive L = true
            /\ triedEqUnif s !! depth s = Some false
            /\ args L !! 0%nat = Some t0 /\ args L !! 1%nat = Some t1
            /\ triedEqUnif s' = <[depth s := true]> (triedEqUnif s)
            /\ (depth s < List.length (triedEqUnif s))%nat
            /\ trace s' = Unify (depth s) t0 0 t1 0 b :: evs ++ trace s
            /\ Forall isUnifyArgs evs)).
Proof.
  unfold SubstBuilder.nextGoalUnif. intros H.
  apply search_bind_Ok in H as (d & s1 & H1 & H). apply search_gets_Ok in H1 as [-> ->].
  apply search_bind_Ok in H as (goalLit & s1 & H1 & H). apply readAt_Ok in H1 as [Hgoal ->].
  apply search_bind_Ok in H as (it & s1 & H1 & H). apply readAt_Ok in H1 as [Hit ->].
  apply search_bind_Ok in H as (r & s1 & H1 & H).
  apply tryLemmas_quiet in H1 as (Q1 & Q2 & Q3 & evs & Q4 & Q5).
  apply search_bind_Ok in H as ([] & s2 & H2 & H). apply writeAt_Ok in H2 as [_ ->].
  destruct (fst r).
  { apply search_ret_Ok in H as [_ ->]. simpl. split; [exact Q1 |]. split; [exact Q2 |].
    left. split; [exact Q3 |]. exists evs. split; assumption. }
  apply search_bind_Ok in H as (tried & s3 & H3 & H). apply readAt_Ok in H3 as [Htried ->].
  simpl in Htried.
  destruct (negb tried && isEquality goalLit && isPositive goalLit) eqn:Hcond.
  - apply andb_prop in Hcond as [Hcond Hpos]. apply andb_prop in Hcond as [Htr Heq].
    destruct tried; [discriminate |].
    apply search_bind_Ok in H as ([] & s3 & H3 & H). apply writeAt_Ok in H3 as [Hlen ->].
    simpl in Hlen.
    apply search_bind_Ok in H as (t0 & s3 & H3 & H).
    unfold nthArgument in H3. destruct (args goalLit !! 0%nat) as [t0' |] eqn:Ht0; [| discriminate].
    apply search_ret_Ok in H3 as [-> ->].
    apply search_bind_Ok in H as (t1 & s3 & H3 & H).
    unfold nthArgument in H3. destruct (args goalLit !! 1%nat) as [t1' |] eqn:Ht1; [| discriminate].
    apply search_ret_Ok in H3 as [-> ->].
    apply doUnify_trace in H as (D1 & D2 & D3 & _ & D5 & _).
    simpl in D1, D2, D3, D5.
    split; [congruence |]. split; [congruence |].
    right. exists goalLit, t0', t1', evs.
    rewrite Q3 in Htried, Hlen, D3. rewrite Q2, Q4 in D5.
    repeat split; assumption.
  - apply search_ret_Ok in H as [_ ->]. simpl. split; [exact Q1 |]. split; [exact Q2 |].
    left. split; [exact Q3 |]. exists evs. split; assumption.
Qed.

Lemma enterGoal_trace (u : unit) (s s' : State) :
  enterGoal s = Ok u s' ->
  goalLits s' = goalLits s /\ depth s' = depth s
  /\ triedEqUnif s' = <[depth s := false]> (triedEqUnif s)
  /\ (depth s < List.length (triedEqUnif s))%nat
  /\ trace s' = EnterGoal (depth s) :: trace s.
Proof.
  unfold SubstBuilder.enterGoal. intros H.
  apply search_bind_Ok in H as (d & s1 & H1 & H). apply search_gets_Ok in H1 as [-> ->].
  apply search_bind_Ok in H as (goal & s1 & H1 & H). apply readAt_Ok in H1 as [_ ->].
  apply search_bind_Ok in H as ([] & s1 & H1 & H). apply writeAt_Ok in H1 as [_ ->].
  apply search_bind_Ok in H as ([] & s2 & H2 & H). apply writeAt_Ok in H2 as [Hlen ->].
  apply search_bind_Ok in H as ([] & s3 & H3 & H). apply search_modify_Ok in H3 as ->.
  apply search_modify_Ok in H as ->. simpl in *. repeat split; try reflexivity. exact Hlen.
Qed.

Lemma leaveGoal_trace (u : unit) (s s' : State) :
  leaveGoal s = Ok u s' ->
  goalLits s' = goalLits s /\ depth s' = depth s
  /\ triedEqUnif s' = triedEqUnif s
  /\ trace s' = LeaveGoal (depth s) :: trace s.
Proof.
  unfold SubstBuilder.leaveGoal. intros H.
  apply search_bind_Ok in H as (d & s1 & H1 & H). apply search_gets_Ok in H1 as [-> ->].
  apply search_bind_Ok in H as ([] & s1 & H1 & H). apply search_modify_Ok in H1 as ->.
  apply search_bind_Ok in H as ([] & s2 & H2 & H).
  unfold backtrack in H2.
  apply search_bind_Ok in H2 as (us & s3 & H3 & H2). apply readAt_Ok in H3 as [_ ->].
  apply search_bind_Ok in H2 as ([] & s3 & H3 & H2). apply search_modify_Ok in H3 as ->.
  apply writeAt_Ok in H2 as [_ ->].
  apply search_modify_Ok in H as ->. simpl. repeat split; reflexivity.
Qed.

(** *** The invariant of the search *)

Lemma fallbacksSinceEntry_quiet (d : nat) (evs t : list Event) :
  Forall isUnifyArgs evs ->
  fallbacksSinceEntry d (evs ++ t) = fallbacksSinceEntry d t.
Proof.
  induction 1 as [| e evs He _ IH]; simpl; [reflexivity |].
  destruct e; simpl in He; try contradiction. exact IH.
Qed.

Lemma elem_of_quiet (e : Event) (evs t : list Event) :
  Forall isUnifyArgs evs -> ~ isUnifyArgs e -> e ∈ evs ++ t -> e ∈ t.
Proof.
  intros Hevs He Hin. apply elem_of_app in Hin as [Hin | Hin]; [| exact Hin].
  rewrite Forall_forall in Hevs. exfalso. apply He. apply Hevs. exact Hin.
Qed.

Lemma searchInv_fields (s s' : State) :
  goalLits s' = goalLits s -> triedEqUnif s' = triedEqUnif s -> trace s' = trace s ->
  searchInv s -> searchInv s'.
Proof. intros E1 E2 E3. unfold searchInv. rewrite E1, E2, E3. auto. Qed.

Lemma searchInv_nextGoalUnif (b : bool) (s s' : State) :
  nextGoalUnif s = Ok b s' -> searchInv s -> searchInv s'.
Proof.
  intros H [I1 I2]. apply nextGoalUnif_cases in H as (G & D & [(T & evs & Htr & Hevs) | Hfb]).
  - split.
    + intros d. rewrite Htr, T, fallbacksSinceEntry_quiet by exact Hevs. apply I1.
    + intros d t1 b1 t2 b2 ok Hin. rewrite G. rewrite Htr in Hin.
      apply (I2 d t1 b1 t2 b2 ok). eapply elem_of_quiet; [exact Hevs | | exact Hin].
      simpl. auto.
  - destruct Hfb as (L & t0 & t1 & evs & HL & Heq & Hpos & Htried & Ht0 & Ht1 & T & Hlen & Htr & Hevs).
    split.
    + intros d. rewrite Htr, T. simpl.
      rewrite fallbacksSinceEntry_quiet by exact Hevs.
      destruct (I1 d) as [Hle Hone].
      destruct (decide (depth s = d)) as [<- | Hne].
      * assert (fallbacksSinceEntry (depth s) (trace s) = 0)%nat as ->.
        { destruct (fallbacksSinceEntry (depth s) (trace s)) as [| [| n]] eqn:Hc;
            [reflexivity | | lia].
          specialize (Hone eq_refl). congruence. }
        split; [lia |]. intros _. apply list_lookup_insert_eq. exact Hlen.
      * split; [simpl; exact Hle |]. simpl. intros Hc.
        rewrite list_lookup_insert_ne by exact Hne. apply Hone. exact Hc.
    + intros d t1' b1 t2 b2 ok Hin. rewrite G. rewrite Htr in Hin.
      apply elem_of_cons in Hin as [Hin | Hin].
      * injection Hin as -> -> -> -> -> ->. exists L. repeat split; assumption.
      * apply (I2 d t1' b1 t2 b2 ok). eapply elem_of_quiet; [exact Hevs | | exact Hin].
        simpl. auto.
Qed.

Lemma searchInv_enterGoal (u : unit) (s s' : State) :
  enterGoal s = Ok u s' -> searchInv s -> searchInv s'.
Proof.
  intros H [I1 I2]. apply enterGoal_trace in H as (G & D & T & Hlen & Htr).
  split.
  - intros d. rewrite Htr, T. simpl.
    destruct (decide (depth s = d)) as [<- | Hne].
    + split; [lia | discriminate].
    + destruct (I1 d) as [Hle Hone]. split; [exact Hle |].
      intros Hc. rewrite list_lookup_insert_ne by exact Hne. apply Hone. exact Hc.
  - intros d t1 b1 t2 b2 ok Hin. rewrite G. rewrite Htr in Hin.
    apply elem_of_cons in Hin as [Hin | Hin]; [discriminate Hin |].
    apply (I2 d t1 b1 t2 b2 ok Hin).
Qed.

Lemma searchInv_leaveGoal (u : unit) (s s' : State) :
  leaveGoal s = Ok u s' -> searchInv s -> searchInv s'.
Proof.
  intros H [I1 I2]. apply leaveGoal_trace in H as (G & D & T & Htr).
  split.
  - intros d. rewrite Htr, T. simpl. apply I1.
  - intros d t1 b1 t2 b2 ok Hin. rewrite G. rewrite Htr in Hin.
    apply elem_of_cons in Hin as [Hin | Hin]; [discriminate Hin |].
    apply (I2 d t1 b1 t2 b2 ok Hin).
Qed.

Lemma searchInv_runStep (r : option bool) (s s' : State) :
  runStep s = Ok r s' -> searchInv s -> searchInv s'.
Proof.
  unfold SubstBuilder.runStep. intros H Hinv.
  apply search_bind_Ok in H as (b & s1 & H1 & H).
  apply searchInv_nextGoalUnif in H1; [| exact Hinv].
  destruct b.
  - apply search_bind_Ok in H as ([] & s2 & H2 & H). apply search_modify_Ok in H2 as ->.
    apply search_bind_Ok in H as (d & s2 & H2 & H). apply search_gets_Ok in H2 as [-> ->].
    apply search_bind_Ok in H as (n & s2 & H2 & H). apply search_gets_Ok in H2 as [-> ->].
    assert (searchInv (upd_depth (fun d => (d + 1)%nat) s1)) as Hinv1.
    { eapply searchInv_fields; [.. | exact H1]; reflexivity. }
    destruct (decide _).
    + apply search_bind_Ok in H as ([] & s2 & H2 & H). apply search_modify_Ok in H2 as ->.
      apply search_ret_Ok in H as [_ ->].
      eapply searchInv_fields; [.. | exact Hinv1]; reflexivity.
    + apply search_bind_Ok in H as ([] & s2 & H2 & H). apply search_ret_Ok in H as [_ ->].
      eapply searchInv_enterGoal; eassumption.
  - apply search_bind_Ok in H as ([] & s2 & H2 & H).
    apply searchInv_leaveGoal in H2; [| exact H1].
    apply search_bind_Ok in H as (d & s3 & H3 & H). apply search_gets_Ok in H3 as [-> ->].
    destruct (decide _).
    + apply search_ret_Ok in H as [_ ->]. exact H2.
    + apply search_bind_Ok in H as ([] & s3 & H3 & H). apply search_modify_Ok in H3 as ->.
      apply search_ret_Ok in H as [_ ->].
      eapply searchInv_fields; [.. | exact H2]; reflexivity.
Qed.

Lemma searchInv_reachable (goals : list Literal) (sigma : Subst) (s : State) :
  reachable goals sigma s -> searchInv s.
Proof.
  induction 1 as [s Hstart | s s' _ IH Hstep].
  - apply search_bind_Ok in Hstart as ([] & s1 & H1 & H). apply search_modify_Ok in H1 as ->.
    eapply searchInv_enterGoal; [exact H |].
    split.
    + intros d. simpl. split; [lia | discriminate].
    + intros d t1 b1 t2 b2 ok Hin. simpl in Hin. apply elem_of_nil in Hin. contradiction.
  - eapply searchInv_runStep; eassumption.
Qed.

(** *** An exhausted iterator *)

Lemma upd_trace_app (e1 e2 : list Event) (s : State) :
  upd_trace (fun t => e1 ++ t) (upd_trace (fun t => e2 ++ t) s)
  = upd_trace (fun t => (e1 ++ e2) ++ t) s.
Proof. unfold upd_trace. simpl. rewrite app_assoc. reflexivity. Qed.

Lemma tryLemmas_exhausted (goalLit : Literal) (it : list SLQueryResult) (s : State) :
  Forall (fun qres => unifyArgs goalLit 0 (literal qres) 1 (subst s) = None) it ->
  tryLemmas goalLit it s
  = Ok (false, []) (upd_trace (fun t => failedLemmas (depth s) goalLit it ++ t) s).
Proof.
  revert s. induction it as [| qres it IH]; intros s Hit; simpl.
  - destruct s; reflexivity.
  - inversion Hit as [| q l Hq Hrest]; subst.
    unfold SubstBuilder.doUnifyArgs. unfold bind at 1. unfold bind at 1. unfold gets at 1.
    unfold bind at 1. unfold gets at 1. rewrite Hq.
    unfold bind at 1. unfold log, modify. unfold ret at 1.
    rewrite IH by exact Hrest. simpl.
    unfold failedLemmas. simpl.
    pose proof (upd_trace_app
                  (rev (map (fun q => UnifyArgs (depth s) goalLit 0 (literal q) 1 false) it))
                  [UnifyArgs (depth s) goalLit 0 (literal qres) 1 false] s) as E.
    simpl in E. rewrite <- E. reflexivity.
Qed.

Lemma doUnify_total (t1 t2 : TermList) (b1 b2 : nat) (s : State) :
  exists ok s', doUnify t1 b1 t2 b2 s = Ok ok s'.
Proof.
  unfold SubstBuilder.doUnify, bind, gets, log, modify, commit, bind, gets, modify, ret.
  destruct (unify t1 b1 t2 b2 (subst s)) as [r |]; simpl.
  - destruct (recordings s); eauto.
  - eauto.
Qed.

Lemma runStep_backtracks (s s' : State) :
  nextGoalUnif s = Ok false s' -> runStep s = backtrackStep s'.
Proof.
  intros H. unfold SubstBuilder.runStep. rewrite (search_bind_eq _ _ _ _ _ H). reflexivity.
Qed.

Lemma nextGoalUnif_exhausted (s : State) (L : Literal) (it : list SLQueryResult)
    (tried : bool) :
  goalLits s !! depth s = Some L ->
  unifIts s !! depth s = Some it ->
  triedEqUnif s !! depth s = Some tried ->
  Forall (fun qres => unifyArgs L 0 (literal qres) 1 (subst s) = None) it ->
  (isEquality L = true -> exists t0 t1, args L = [t0; t1]) ->
  exists b s',
    nextGoalUnif s = Ok b s'
    /\ (if negb tried && isEquality L && isPositive L
        then exists t0 t1,
               args L = [t0; t1]
               /\ trace s' = Unify (depth s) t0 0 t1 0 b
                               :: failedLemmas (depth s) L it ++ trace s
               /\ b = bool_decide (is_Some (unify t0 0 t1 0 (subst s)))
               /\ triedEqUnif s' !! depth s = Some true
        else b = false
             /\ trace s' = failedLemmas (depth s) L it ++ trace s
             /\ triedEqUnif s' = triedEqUnif s)
    /\ (b = false -> runStep s = backtrackStep s').
Proof.
  intros HL Hit Htried Hex Hwf.
  pose proof (lookup_lt_Some _ _ _ Hit) as Hlen1.
  pose proof (lookup_lt_Some _ _ _ Htried) as Hlen2.
  set (s1 := upd_trace (fun t => failedLemmas (depth s) L it ++ t) s).
  set (s2 := upd_unifIts (fun l => <[depth s := []]> l) s1).
  assert (forall k : bool -> M bool,
             (forall (b : bool) s', k false s2 = Ok b s' -> True) ->
             SubstBuilder.nextGoalUnif unify unifyArgs s
             = bind (readAt triedEqUnif (depth s))
                 (fun tried =>
                    if negb tried && isEquality L && isPositive L then
                      bind (writeAt triedEqUnif upd_triedEqUnif (depth s) true)
                        (fun _ => bind (nthArgument L 0)
                           (fun t0 => bind (nthArgument L 1)
                              (fun t1 => doUnify t0 0 t1 0)))
                    else ret false) s2) as Hrun.
  { intros _ _. unfold SubstBuilder.nextGoalUnif.
    unfold bind at 1. unfold gets at 1.
    unfold bind at 1. unfold readAt at 1. rewrite HL.
    unfold bind at 1. unfold readAt at 1. rewrite Hit.
    unfold bind at 1. rewrite (tryLemmas_exhausted L it s Hex). fold s1.
    unfold bind at 1. unfold writeAt at 1. simpl.
    destruct (decide (depth s < List.length (unifIts s))%nat) as [_ | Hn]; [| contradiction].
    reflexivity. }
  specialize (Hrun (fun _ => ret false) (fun _ _ _ => I)).
  assert (readAt triedEqUnif (depth s) s2 = Ok tried s2) as Hread.
  { unfold readAt. simpl. rewrite Htried. reflexivity. }
  rewrite (search_bind_eq _ _ _ _ _ Hread) in Hrun.
  destruct (negb tried && isEquality L && isPositive L) eqn:Hcond.
  - apply andb_prop in Hcond as [Hcond Hpos]. apply andb_prop in Hcond as [Htr Heq].
    destruct (Hwf Heq) as (t0 & t1 & Hargs).
    set (s3 := upd_triedEqUnif (fun l => <[depth s := true]> l) s2).
    assert (writeAt triedEqUnif upd_triedEqUnif (depth s) true s2 = Ok tt s3) as Hw.
    { unfold writeAt. simpl.
      destruct (decide (depth s < List.length (triedEqUnif s))%nat) as [_ | Hn];
        [reflexivity | contradiction]. }
    rewrite (search_bind_eq _ _ _ _ _ Hw) in Hrun.
    unfold nthArgument in Hrun. rewrite Hargs in Hrun. simpl in Hrun.
    unfold bind at 1 in Hrun. unfold ret at 1 in Hrun.
    unfold bind at 1 in Hrun. unfold ret at 1 in Hrun.
    destruct (doUnify_total t0 t1 0 0 s3) as (b & s' & Hu).
    rewrite Hu in Hrun. exists b, s'. split; [exact Hrun |].
    apply doUnify_trace in Hu as (D1 & D2 & D3 & _ & D5 & D6).
    split.
    + exists t0, t1. split; [exact Hargs |]. split; [exact D5 |]. split; [exact D6 |].
      rewrite D3. simpl. apply list_lookup_insert_eq. exact Hlen2.
    + intros ->. apply runStep_backtracks. exact Hrun.
  - exists false, s2. split; [exact Hrun |]. split.
    + repeat split; reflexivity.
    + intros _. apply runStep_backtracks. exact Hrun.
Qed.


(** *** The recordings and the end of the search *)

#[local] Abbreviation runLoop := (SubstBuilder.runLoop unify unifyArgs undo getUnifications).
#[local] Abbreviation run := (SubstBuilder.run unify unifyArgs undo getUnifications).
#[local] Abbreviation undoes := (SubstBuilder.undoes unify unifyArgs undo).
#[local] Abbreviation unwind := (SubstBuilder.unwind undo).
#[local] Abbreviation recorded := (SubstBuilder.recorded unify unifyArgs undo).
#[local] Abbreviation runInv := (SubstBuilder.runInv unify unifyArgs undo).
#[local] Abbreviation searchBound := (SubstBuilder.searchBound getUnifications).
#[local] Abbreviation potentialUpTo := (SubstBuilder.potentialUpTo (Subst := Subst) (Undo := Undo) getUnifications).

Lemma unwind_app (us vs : list Undo) (sigma : Subst) :
  unwind (us ++ vs) sigma = unwind vs (unwind us sigma).
Proof. unfold SubstBuilder.unwind. apply fold_left_app. Qed.

Lemma recorded_refl (d : nat) (s : State) : recorded d s s.
Proof.
  unfold SubstBuilder.recorded. repeat split. exists []. split.
  - symmetry. apply list_alter_id. reflexivity.
  - intros _. reflexivity.
Qed.

Lemma recorded_trans (d : nat) (s1 s2 s3 : State) :
  recorded d s1 s2 -> recorded d s2 s3 -> recorded d s1 s3.
Proof.
  intros (A1 & A2 & A3 & A4 & A5 & us & A6 & A7) (B1 & B2 & B3 & B4 & B5 & vs & B6 & B7).
  unfold SubstBuilder.recorded.
  split; [congruence |]. split; [congruence |]. split; [congruence |].
  split; [congruence |]. split; [congruence |].
  exists (vs ++ us). split.
  - rewrite B6, A6, list_alter_alter_eq. apply list_alter_ext; [| reflexivity].
    intros old _. simpl. rewrite app_assoc. reflexivity.
  - intros Hu. rewrite unwind_app, (B7 Hu). apply A7, Hu.
Qed.

Lemma recorded_trace (d : nat) (f : list Event -> list Event) (s s' : State) :
  recorded d s s' -> recorded d s (upd_trace f s').
Proof. intros H. exact H. Qed.

Lemma commit_recorded (d : nat) (rs : list nat) (r : Subst * Undo) (s : State) :
  recordings s = d :: rs ->
  (undoes -> undo (snd r) (fst r) = subst s) ->
  exists s', commit r s = Ok tt s' /\ recorded d s s'.
Proof.
  intros Hrec Hundo. unfold commit, bind, modify, gets. simpl. rewrite Hrec.
  eexists. split; [reflexivity |].
  unfold SubstBuilder.recorded. simpl. repeat split; try assumption.
  exists [snd r]. split; [reflexivity |]. exact Hundo.
Qed.

Lemma doUnifyArgs_recorded (d : nat) (rs : list nat) (l1 l2 : Literal) (b1 b2 : nat)
    (s : State) :
  recordings s = d :: rs ->
  exists ok s', doUnifyArgs l1 b1 l2 b2 s = Ok ok s' /\ recorded d s s'.
Proof.
  intros Hrec. unfold SubstBuilder.doUnifyArgs, bind, gets.
  destruct (unifyArgs l1 b1 l2 b2 (subst s)) as [r |] eqn:Hu.
  - unfold log, modify.
    destruct (commit_recorded d rs r
                (upd_trace (fun t => UnifyArgs (depth s) l1 b1 l2 b2 true :: t) s))
      as (s' & Hc & Hr).
    + exact Hrec.
    + intros [_ Hlaw]. simpl. exact (Hlaw _ _ _ _ _ _ Hu).
    + exists true, s'. rewrite Hc. split; [reflexivity | exact Hr].
  - exists false. eexists. split; [reflexivity |].
    exact (recorded_trace d _ s s (recorded_refl d s)).
Qed.

Lemma doUnify_recorded (d : nat) (rs : list nat) (t1 t2 : TermList) (b1 b2 : nat)
    (s : State) :
  recordings s = d :: rs ->
  exists ok s', doUnify t1 b1 t2 b2 s = Ok ok s' /\ recorded d s s'.
Proof.
  intros Hrec. unfold SubstBuilder.doUnify, bind, gets.
  destruct (unify t1 b1 t2 b2 (subst s)) as [r |] eqn:Hu.
  - unfold log, modify.
    destruct (commit_recorded d rs r
                (upd_trace (fun t => Unify (depth s) t1 b1 t2 b2 true :: t) s))
      as (s' & Hc & Hr).
    + exact Hrec.
    + intros [Hlaw _]. simpl. exact (Hlaw _ _ _ _ _ _ Hu).
    + exists true, s'. rewrite Hc. split; [reflexivity | exact Hr].
  - exists false. eexists. split; [reflexivity |].
    exact (recorded_trace d _ s s (recorded_refl d s)).
Qed.

Lemma tryLemmas_recorded (d : nat) (rs : list nat) (goalLit : Literal)
    (it : list SLQueryResult) (s : State) :
  recordings s = d :: rs ->
  exists b rest s',
    tryLemmas goalLit it s = Ok (b, rest) s' /\ recorded d s s'
    /\ (List.length rest + (if b then 1 else 0) <= List.length it)%nat.
Proof.
  revert s. induction it as [| qres it IH]; intros s Hrec.
  - exists false, [], s. split; [reflexivity |]. split; [apply recorded_refl |].
    simpl. lia.
  - destruct (doUnifyArgs_recorded d rs goalLit (literal qres) 0 1 s Hrec)
      as (ok & s1 & H1 & R1).
    simpl. unfold bind at 1. rewrite H1. destruct ok.
    + exists true, it, s1. split; [reflexivity |]. split; [exact R1 |]. simpl. lia.
    + destruct R1 as (A1 & A2 & A3 & A4) .
      destruct (IH s1) as (b & rest & s' & H2 & R2 & Hlen); [congruence |].
      exists b, rest, s'. split; [exact H2 |].
      split; [eapply recorded_trans; [| exact R2]; repeat split; tauto |].
      simpl. lia.
Qed.

Lemma nextGoalUnif_spec (rs : list nat) (s : State) (L : Literal)
    (it : list SLQueryResult) (tr : bool) :
  goalLits s !! depth s = Some L ->
  unifIts s !! depth s = Some it ->
  triedEqUnif s !! depth s = Some tr ->
  recordings s = depth s :: rs ->
  match nextGoalUnif s with
  | Ok b s' =>
      goalLits s' = goalLits s /\ depth s' = depth s
      /\ recordings s' = recordings s
      /\ (exists us, btData s' = alter (fun old => us ++ old) (depth s) (btData s)
                     /\ (undoes -> unwind us (subst s') = subst s))
      /\ (exists (it' : list SLQueryResult) (tr' : bool),
            unifIts s' = <[depth s := it']> (unifIts s)
            /\ triedEqUnif s' = <[depth s := tr']> (triedEqUnif s)
            /\ (List.length it' + (if tr' then 0 else 1) + (if b then 1 else 0)
                <= List.length it + (if tr then 0 else 1))%nat)
  | Failed f => ~ hasArguments L
  end.
Proof.
  intros Hgoal Hit Htr Hrec.
  destruct (tryLemmas_recorded (depth s) rs L it s Hrec)
    as (b & rest & s1 & H1 & (A1 & A2 & A3 & A4 & A5 & us & A6 & A7) & Hlen).
  assert (Hd : (depth s < List.length (unifIts s1))%nat).
  { rewrite A4. apply lookup_lt_Some in Hit. exact Hit. }
  assert (Hd' : (depth s < List.length (triedEqUnif s1))%nat).
  { rewrite A5. apply lookup_lt_Some in Htr. exact Htr. }
  unfold SubstBuilder.nextGoalUnif.
  unfold bind at 1, gets at 1. unfold bind at 1, readAt at 1. rewrite Hgoal.
  unfold bind at 1, readAt at 1. rewrite Hit.
  unfold bind at 1. rewrite H1. simpl fst. simpl snd.
  unfold bind at 1, writeAt at 1.
  destruct (decide (depth s < List.length (unifIts s1))%nat) as [_ | F];
    [| contradiction].
  destruct b.
  { unfold ret. simpl. split; [exact A1 |]. split; [exact A2 |]. split; [exact A3 |].
    split; [exists us; split; assumption |].
    exists rest, tr. rewrite A4, A5. split; [reflexivity |]. split.
    - symmetry. apply list_insert_id. exact Htr.
    - simpl in Hlen. lia. }
  unfold bind at 1, readAt at 1. simpl triedEqUnif. rewrite A5, Htr.
  destruct (negb tr && isEquality L && isPositive L) eqn:Hcond.
  2:{ unfold ret. simpl. split; [exact A1 |]. split; [exact A2 |]. split; [exact A3 |].
      split; [exists us; split; assumption |].
      exists rest, tr. rewrite A4, A5. split; [reflexivity |]. split.
      - symmetry. apply list_insert_id. exact Htr.
      - simpl in Hlen. lia. }
  apply andb_prop in Hcond as [Hcond Hpos]. apply andb_prop in Hcond as [Hntr Heq].
  destruct tr; [discriminate |].
  unfold bind at 1, writeAt at 1. simpl triedEqUnif.
  rewrite <- A5.
  destruct (decide (depth s < List.length (triedEqUnif s1))%nat) as [_ | F];
    [| contradiction].
  unfold bind at 1, nthArgument at 1.
  destruct (args L !! 0%nat) as [t0 |] eqn:Ht0.
  2:{ unfold fail. intros Hargs. specialize (Hargs Heq Hpos).
      apply lookup_ge_None in Ht0. lia. }
  unfold ret at 1.
  unfold bind at 1, nthArgument at 1.
  destruct (args L !! 1%nat) as [t1 |] eqn:Ht1.
  2:{ unfold fail. intros Hargs. specialize (Hargs Heq Hpos).
      apply lookup_ge_None in Ht1. lia. }
  unfold ret at 1.
  match goal with
  | |- match doUnify _ _ _ _ ?st with _ => _ end =>
      destruct (doUnify_recorded (depth s) rs t0 t1 0 0 st)
        as (ok & s' & H2 & (B1 & B2 & B3 & B4 & B5 & vs & B6 & B7));
        [simpl; congruence |]; rewrite H2
  end.
  simpl in B1, B2, B3, B4, B5, B6, B7.
  split; [congruence |]. split; [congruence |]. split; [congruence |].
  split.
  - exists (vs ++ us). split.
    + rewrite B6, A6, list_alter_alter_eq. apply list_alter_ext; [| reflexivity].
      intros old _. simpl. rewrite app_assoc. reflexivity.
    + intros Hu. rewrite unwind_app, (B7 Hu). apply A7, Hu.
  - exists rest, true. rewrite B4, B5, A4, A5. split; [reflexivity |].
    split; [reflexivity |]. simpl in Hlen |- *. destruct ok; lia.
Qed.

Lemma enterGoal_eq (s : State) (g : Literal) :
  goalLits s !! depth s = Some g ->
  (depth s < List.length (unifIts s))%nat ->
  (depth s < List.length (triedEqUnif s))%nat ->
  enterGoal s
  = Ok tt (upd_trace (fun t => EnterGoal (depth s) :: t)
             (upd_recordings (fun l => depth s :: l)
                (upd_triedEqUnif (fun l => <[depth s := false]> l)
                   (upd_unifIts (fun l => <[depth s := getUnifications g]> l) s)))).
Proof.
  intros Hg H1 H2.
  unfold SubstBuilder.enterGoal, bind, gets, readAt, writeAt, bdRecord, log, modify.
  rewrite Hg. simpl.
  destruct (decide (depth s < List.length (unifIts s))%nat) as [_ | F];
    [| contradiction].
  simpl.
  destruct (decide (depth s < List.length (triedEqUnif s))%nat) as [_ | F];
    [| contradiction].
  reflexivity.
Qed.

Lemma leaveGoal_eq (s : State) (us : list Undo) :
  btData s !! depth s = Some us ->
  leaveGoal s
  = Ok tt (upd_trace (fun t => LeaveGoal (depth s) :: t)
             (upd_btData (fun l => <[depth s := []]> l)
                (upd_subst (fun sigma => unwind us sigma)
                   (upd_recordings (fun l => tail l) s)))).
Proof.
  intros Hus.
  unfold SubstBuilder.leaveGoal, bind, gets, bdDone, backtrack, bind, readAt, writeAt,
    log, modify.
  simpl. rewrite Hus. simpl.
  destruct (decide (depth s < List.length (btData s))%nat) as [_ | F].
  - reflexivity.
  - exfalso. apply F. apply lookup_lt_Some in Hus. exact Hus.
Qed.

Lemma countdown_length (d : nat) : List.length (countdown d) = S d.
Proof. induction d as [| d IH]; simpl; [reflexivity |]. simpl in IH. rewrite IH. reflexivity. Qed.

Lemma countdown_head (d : nat) :
  countdown d = d :: match d with O => [] | S d' => countdown d' end.
Proof. destruct d; reflexivity. Qed.

Lemma pendingUpTo_ext (s s' : State) (d : nat) :
  (forall i, (i <= d)%nat -> btData s' !! i = btData s !! i) ->
  pendingUpTo s' d = pendingUpTo s d.
Proof.
  induction d as [| d IH]; intros H; simpl.
  - rewrite (H 0%nat) by lia. reflexivity.
  - rewrite (H (S d)) by lia. rewrite IH; [reflexivity |].
    intros i Hi. apply H. lia.
Qed.

Lemma remaining_ext (s s' : State) (i : nat) :
  unifIts s' !! i = unifIts s !! i ->
  triedEqUnif s' !! i = triedEqUnif s !! i ->
  remaining s' i = remaining s i.
Proof. unfold remaining. intros -> ->. reflexivity. Qed.

Lemma potentialUpTo_ext (s s' : State) (d : nat) :
  goalLits s' = goalLits s ->
  (forall i, (i <= d)%nat -> remaining s' i = remaining s i) ->
  potentialUpTo s' d = potentialUpTo s d.
Proof.
  intros Hg. induction d as [| d IH]; intros H; simpl.
  - rewrite Hg, (H 0%nat) by lia. reflexivity.
  - rewrite Hg, (H (S d)) by lia. rewrite IH; [reflexivity |].
    intros i Hi. apply H. lia.
Qed.

Lemma searchBound_drop (goals : list Literal) (d : nat) (g : Literal) :
  goals !! d = Some g ->
  searchBound (drop d goals)
  = ((List.length (getUnifications g) + 1) * (1 + searchBound (drop (S d) goals)) + 1)%nat.
Proof.
  revert d. induction goals as [| g0 goals IH]; intros d Hg; [discriminate |].
  destruct d as [| d].
  - injection Hg as ->. simpl. rewrite drop_0. reflexivity.
  - simpl in Hg. change (drop (S d) (g0 :: goals)) with (drop d goals).
    change (drop (S (S d)) (g0 :: goals)) with (drop (S d) goals).
    apply IH, Hg.
Qed.

Lemma countdown_pred (d : nat) : d <> 0%nat -> countdown d = d :: countdown (d - 1).
Proof. destruct d; [contradiction |]. intros _. simpl. rewrite Nat.sub_0_r. reflexivity. Qed.

Lemma pendingUpTo_pred (s : State) (d : nat) :
  d <> 0%nat ->
  pendingUpTo s d = default [] (btData s !! d) ++ pendingUpTo s (d - 1).
Proof. destruct d; [contradiction |]. intros _. simpl. rewrite Nat.sub_0_r. reflexivity. Qed.

Lemma potentialUpTo_pred (s : State) (d : nat) :
  d <> 0%nat ->
  potentialUpTo s d
  = (remaining s d * (1 + searchBound (drop (S d) (goalLits s))) + 1
     + potentialUpTo s (d - 1))%nat.
Proof. destruct d; [contradiction |]. intros _. simpl. rewrite Nat.sub_0_r. reflexivity. Qed.

Lemma pendingUpTo_recorded (s s' : State) (d : nat) (us old : list Undo) :
  btData s' = alter (fun old => us ++ old) d (btData s) ->
  btData s !! d = Some old ->
  pendingUpTo s' d = us ++ pendingUpTo s d.
Proof.
  intros Halt Hold.
  assert (Hd : default [] (btData s' !! d) = us ++ default [] (btData s !! d)).
  { rewrite Halt, list_lookup_alter_eq, Hold. reflexivity. }
  destruct d as [| d]; simpl.
  - rewrite Hd. rewrite <- app_assoc. reflexivity.
  - rewrite Hd. rewrite <- app_assoc. f_equal. f_equal.
    apply pendingUpTo_ext. intros i Hi. rewrite Halt.
    apply list_lookup_alter_ne. lia.
Qed.

Lemma potentialUpTo_changed (s s' : State) (d : nat) :
  goalLits s' = goalLits s ->
  (forall i, (i < d)%nat -> remaining s' i = remaining s i) ->
  (potentialUpTo s' d + remaining s d * (1 + searchBound (drop (S d) (goalLits s)))
   = potentialUpTo s d + remaining s' d * (1 + searchBound (drop (S d) (goalLits s))))%nat.
Proof.
  intros Hg H. destruct d as [| d]; simpl; rewrite Hg.
  - lia.
  - rewrite (potentialUpTo_ext s s' d Hg); [lia |].
    intros i Hi. apply H. lia.
Qed.

(** One iteration of the loop of [run] keeps the invariant and brings the
    search nearer to its end; at the end the recordings are closed. *)
Lemma runStep_spec (sigma : Subst) (s : State) :
  runInv sigma s ->
  match runStep s with
  | Ok r s' =>
      goalLits s' = goalLits s
      /\ match r with
         | None => runInv sigma s'
                   /\ (potentialUpTo s' (depth s') < potentialUpTo s (depth s))%nat
         | Some true => depth s' = goalCnt s /\ recordings s' = []
         | Some false =>
             depth s' = 0%nat /\ recordings s' = []
             /\ Forall (fun us => us = []) (btData s')
             /\ (undoes -> subst s' = sigma)
         end
  | Failed f => ~ Forall hasArguments (goalLits s)
  end.
Proof.
  intros (I1 & I2 & I3 & I4 & I5 & I6 & I7).
  unfold goalCnt in I1, I2, I3, I4, I6.
  destruct (lookup_lt_is_Some_2 (goalLits s) (depth s) I1) as [L HL].
  destruct (lookup_lt_is_Some_2 (unifIts s) (depth s)) as [it Hit]; [lia |].
  destruct (lookup_lt_is_Some_2 (triedEqUnif s) (depth s)) as [tr Htr]; [lia |].
  destruct (lookup_lt_is_Some_2 (btData s) (depth s)) as [B HB]; [lia |].
  pose proof I5 as I5'. rewrite countdown_head in I5'.
  pose proof (nextGoalUnif_spec _ s L it tr HL Hit Htr I5') as Hn.
  unfold SubstBuilder.runStep. unfold bind at 1.
  destruct (nextGoalUnif s) as [b s1 | f].
  2:{ intros HF. apply Hn. eapply Forall_lookup_1; eassumption. }
  destruct Hn as (N1 & N2 & N3 & (us & N4 & N5) & (it' & tr' & N6 & N7 & N8)).
  assert (Hrem : remaining s (depth s)
                 = (List.length it + (if tr then 0 else 1))%nat).
  { unfold remaining. rewrite Hit, Htr. reflexivity. }
  assert (Hrem1 : remaining s1 (depth s)
                  = (List.length it' + (if tr' then 0 else 1))%nat).
  { unfold remaining. rewrite N6, N7.
    rewrite !list_lookup_insert_eq by lia. reflexivity. }
  assert (Hrem_ne : forall i, i <> depth s -> remaining s1 i = remaining s i).
  { intros i Hi. apply remaining_ext.
    - rewrite N6. apply list_lookup_insert_ne. congruence.
    - rewrite N7. apply list_lookup_insert_ne. congruence. }
  assert (HB1 : btData s1 !! depth s = Some (us ++ B)).
  { rewrite N4, list_lookup_alter_eq, HB. reflexivity. }
  assert (Hpend1 : undoes -> unwind (pendingUpTo s1 (depth s)) (subst s1) = sigma).
  { intros Hu. rewrite (pendingUpTo_recorded s s1 (depth s) us B N4 HB).
    rewrite unwind_app, (N5 Hu). apply I7, Hu. }
  pose proof (potentialUpTo_changed s s1 (depth s) N1
                (fun i Hi => Hrem_ne i ltac:(lia))) as Hpot1.
  destruct b.
  - unfold bind at 1, modify at 1. unfold bind at 1, gets at 1.
    unfold bind at 1, gets at 1. unfold goalCnt.
    destruct (decide _) as [Hfin | Hfin]; simpl in Hfin;
      rewrite N1, N2, Nat.add_1_r in Hfin.
    + unfold bind, modify, ret. simpl. split; [exact N1 |].
      rewrite N2, Nat.add_1_r. split; [exact Hfin |].
      rewrite N3, I5. apply drop_ge. rewrite countdown_length. lia.
    + destruct (lookup_lt_is_Some_2 (goalLits s) (S (depth s))) as [g Hg]; [lia |].
      unfold bind at 1.
      rewrite (enterGoal_eq _ g).
      2:{ simpl. rewrite N1, N2, Nat.add_1_r. exact Hg. }
      2:{ simpl. rewrite N2, N6, length_insert. lia. }
      2:{ simpl. rewrite N2, N7, length_insert. lia. }
      unfold ret. simpl. rewrite N2, Nat.add_1_r.
      split; [exact N1 |]. split.
      * unfold SubstBuilder.runInv, goalCnt. simpl.
        rewrite N1, N2, Nat.add_1_r, N3, N4, N6, N7, !length_insert, length_alter.
        split; [lia |]. split; [exact I2 |]. split; [exact I3 |]. split; [exact I4 |].
        split; [rewrite I5; reflexivity |].
        split.
        { intros i Hi1 Hi2. rewrite list_lookup_alter_ne by lia. apply I6; lia. }
        intros Hu. simpl. rewrite N4.
        rewrite list_lookup_alter_ne by lia. rewrite (I6 (S (depth s))) by lia.
        simpl.
        rewrite <- (Hpend1 Hu). f_equal.
        apply pendingUpTo_ext. intros i Hi. simpl. rewrite N4. reflexivity.
      * simpl. rewrite N1.
        match goal with
        | |- (remaining ?st _ * _ + 1 + potentialUpTo ?st' _ < _)%nat =>
            assert (Hr : remaining st (S (depth s))
                         = (List.length (getUnifications g) + 1)%nat);
            [| assert (Hp : potentialUpTo st' (depth s) = potentialUpTo s1 (depth s))]
        end.
        { unfold remaining. simpl.
          rewrite !list_lookup_insert_eq by (rewrite ?N6, ?N7, ?length_insert; lia).
          simpl. lia. }
        { apply potentialUpTo_ext; [reflexivity |].
          intros i Hi. apply remaining_ext; simpl;
            apply list_lookup_insert_ne; lia. }
        rewrite Hr, Hp.
        pose proof (searchBound_drop (goalLits s) (S (depth s)) g Hg) as Hsb.
        rewrite Hrem, Hrem1 in Hpot1.
        nia.
  - unfold bind at 1.
    rewrite (leaveGoal_eq s1 (us ++ B)) by (rewrite N2; exact HB1).
    unfold bind at 1, gets at 1. rewrite N2.
    destruct (decide _) as [Hz | Hnz];
      [simpl in Hz; rewrite N2 in Hz | simpl in Hnz; rewrite N2 in Hnz].
    + unfold ret. simpl. split; [exact N1 |]. split; [congruence |].
      split; [rewrite N3, I5, Hz; reflexivity |].
      split.
      * apply Forall_lookup_2. intros i x Hx. rewrite N4 in Hx.
        destruct (decide (i = depth s)) as [-> | Hi].
        -- rewrite list_lookup_insert_eq in Hx by (rewrite length_alter; lia).
           congruence.
        -- rewrite list_lookup_insert_ne in Hx by congruence.
           rewrite list_lookup_alter_ne in Hx by congruence.
           pose proof (lookup_lt_Some _ _ _ Hx) as Hlt.
           rewrite (I6 i) in Hx by lia. congruence.
      * intros Hu. rewrite unwind_app, (N5 Hu).
        rewrite <- (I7 Hu). rewrite Hz in HB |- *. simpl. rewrite HB. simpl.
        rewrite app_nil_r. reflexivity.
    + unfold bind, modify, ret. simpl. split; [exact N1 |]. split.
      * unfold SubstBuilder.runInv, goalCnt. simpl.
        rewrite N1, N2, N3, N4, N6, N7, !length_insert, length_alter.
        split; [lia |]. split; [exact I2 |]. split; [exact I3 |]. split; [exact I4 |].
        split; [rewrite I5, (countdown_pred _ Hnz); reflexivity |].
        split.
        { intros i Hi1 Hi2. destruct (decide (i = depth s)) as [-> | Hi].
          - apply list_lookup_insert_eq. rewrite length_alter. lia.
          - rewrite list_lookup_insert_ne by congruence.
            rewrite list_lookup_alter_ne by congruence. apply I6; lia. }
        intros Hu. rewrite unwind_app, (N5 Hu).
        rewrite <- (I7 Hu), (pendingUpTo_pred s _ Hnz), HB. simpl.
        rewrite unwind_app. f_equal.
        apply pendingUpTo_ext. intros i Hi. simpl.
        rewrite list_lookup_insert_ne by lia. rewrite N4.
        apply list_lookup_alter_ne. lia.
      * simpl. rewrite N2.
        rewrite (potentialUpTo_pred s _ Hnz).
        match goal with
        | |- (potentialUpTo ?st _ < _)%nat =>
            assert (Hp : potentialUpTo st (depth s - 1) = potentialUpTo s (depth s - 1))
        end.
        { apply potentialUpTo_ext; [exact N1 |].
          intros i Hi. rewrite <- (Hrem_ne i) by lia. apply remaining_ext; reflexivity. }
        rewrite Hp. lia.
Qed.

Lemma potentialUpTo_pos (s : State) (d : nat) : (1 <= potentialUpTo s d)%nat.
Proof. destruct d; simpl; lia. Qed.

(** The loop of [run], from a state that satisfies the invariant: with
    fuel for the iterations that are left it ends, and it ends with the
    recordings closed. *)
Lemma runLoop_spec (sigma : Subst) (fuel : nat) (s : State) :
  runInv sigma s ->
  match runLoop fuel s with
  | Ok b s' =>
      goalLits s' = goalLits s /\ recordings s' = []
      /\ depth s' = (if b then goalCnt s else 0%nat)
      /\ (b = false ->
          Forall (fun us => us = []) (btData s') /\ (undoes -> subst s' = sigma))
  | Failed f =>
      (fuel < potentialUpTo s (depth s))%nat \/ ~ Forall hasArguments (goalLits s)
  end.
Proof.
  revert s. induction fuel as [| fuel IH]; intros s Hinv.
  - simpl. left. apply potentialUpTo_pos.
  - pose proof (runStep_spec sigma s Hinv) as Hstep.
    simpl. unfold bind at 1.
    destruct (runStep s) as [r s1 | f]; [| right; exact Hstep].
    destruct Hstep as [Hg Hr].
    destruct r as [[|] |].
    + destruct Hr as [Hd Hrec]. unfold ret.
      split; [exact Hg |]. split; [exact Hrec |]. split; [exact Hd |].
      discriminate.
    + destruct Hr as (Hd & Hrec & Hbt & Hsub). unfold ret.
      split; [exact Hg |]. split; [exact Hrec |]. split; [exact Hd |].
      intros _. split; assumption.
    + destruct Hr as [Hinv1 Hlt].
      specialize (IH s1 Hinv1).
      destruct (runLoop fuel s1) as [b s' | f].
      * destruct IH as (A1 & A2 & A3 & A4).
        split; [congruence |]. split; [exact A2 |].
        split; [unfold goalCnt in *; rewrite <- Hg; exact A3 |]. exact A4.
      * destruct IH as [IH | IH]; [left; lia | right; rewrite <- Hg; exact IH].
Qed.

(** The state in which the loop of [run] is entered. *)
Lemma run_start (g : Literal) (rest : list Literal) (sigma : Subst) :
  exists s1,
    bind (modify (upd_depth (fun _ => 0%nat))) (fun _ => enterGoal)
      (SubstBuilder (g :: rest) sigma) = Ok tt s1
    /\ goalLits s1 = g :: rest
    /\ runInv sigma s1
    /\ potentialUpTo s1 (depth s1) = searchBound (g :: rest).
Proof.
  unfold bind at 1, modify at 1.
  rewrite (enterGoal_eq _ g).
  2:{ reflexivity. }
  2:{ simpl. lia. }
  2:{ simpl. lia. }
  eexists. split; [reflexivity |]. split; [reflexivity |]. split.
  - unfold SubstBuilder.runInv, goalCnt. simpl.
    rewrite !length_replicate.
    split; [lia |]. split; [reflexivity |]. split; [reflexivity |].
    split; [reflexivity |]. split; [reflexivity |]. split.
    + intros i Hi1 Hi2. destruct i as [| i]; [lia |]. simpl.
      apply lookup_replicate_2. lia.
    + intros _. reflexivity.
  - simpl. unfold remaining. simpl. rewrite drop_0. lia.
Qed.

(** *** The equality fallback *)

#[local] Abbreviation entryInv := (SubstBuilder.entryInv (Subst := Subst) (Undo := Undo)).

Lemma entryInv_nextGoalUnif (b : bool) (s s' : State) :
  nextGoalUnif s = Ok b s' -> searchInv s -> entryInv s -> entryInv s'.
Proof.
  intros H [I1 _] E.
  apply nextGoalUnif_cases in H as (G & D & [(T & evs & Htr & Hevs) | Hfb]).
  - intros d Hd Hflag. rewrite D in Hd. rewrite T in Hflag.
    rewrite Htr, fallbacksSinceEntry_quiet by exact Hevs. apply E; assumption.
  - destruct Hfb as (L & t0 & t1 & evs & HL & Heq & Hpos & Htried & Ht0 & Ht1 & T
                     & Hlen & Htr & Hevs).
    intros d Hd Hflag. rewrite D in Hd. rewrite T in Hflag. rewrite Htr. simpl.
    rewrite fallbacksSinceEntry_quiet by exact Hevs.
    destruct (decide (depth s = d)) as [<- | Hne].
    + destruct (I1 (depth s)) as [Hle Hone].
      destruct (fallbacksSinceEntry (depth s) (trace s)) as [| [| n]] eqn:Hc;
        [reflexivity | | lia].
      specialize (Hone eq_refl). congruence.
    + rewrite list_lookup_insert_ne in Hflag by exact Hne. simpl.
      apply E; assumption.
Qed.

Lemma entryInv_runStep (s s' : State) :
  runStep s = Ok None s' -> searchInv s -> entryInv s -> entryInv s'.
Proof.
  unfold SubstBuilder.runStep. intros H Hinv E.
  apply search_bind_Ok in H as (b & s1 & H1 & H).
  pose proof (entryInv_nextGoalUnif _ _ _ H1 Hinv E) as E1.
  destruct b.
  - apply search_bind_Ok in H as ([] & s2 & H2 & H). apply search_modify_Ok in H2 as ->.
    apply search_bind_Ok in H as (d & s2 & H2 & H). apply search_gets_Ok in H2 as [-> ->].
    apply search_bind_Ok in H as (n & s2 & H2 & H). apply search_gets_Ok in H2 as [-> ->].
    destruct (decide _).
    + apply search_bind_Ok in H as ([] & s2 & H2 & H). apply search_modify_Ok in H2 as ->.
      apply search_ret_Ok in H as [H _]. discriminate H.
    + apply search_bind_Ok in H as ([] & s2 & H2 & H). apply search_ret_Ok in H as [_ ->].
      apply enterGoal_trace in H2 as (_ & D & T & Hlen & Htr).
      simpl in D, T, Hlen, Htr.
      intros d Hd Hflag. rewrite D in Hd. rewrite T in Hflag. rewrite Htr. simpl.
      destruct (decide ((depth s1 + 1)%nat = d)) as [<- | Hne].
      * rewrite list_lookup_insert_eq in Hflag by exact Hlen. discriminate Hflag.
      * rewrite list_lookup_insert_ne in Hflag by exact Hne.
        apply E1; [lia | exact Hflag].
  - apply search_bind_Ok in H as ([] & s2 & H2 & H).
    apply leaveGoal_trace in H2 as (_ & D & T & Htr).
    apply search_bind_Ok in H as (d & s3 & H3 & H). apply search_gets_Ok in H3 as [-> ->].
    destruct (decide _).
    + apply search_ret_Ok in H as [H _]. discriminate H.
    + apply search_bind_Ok in H as ([] & s3 & H3 & H). apply search_modify_Ok in H3 as ->.
      apply search_ret_Ok in H as [_ ->].
      intros d Hd Hflag. simpl in Hd, Hflag |- *. rewrite D in Hd. rewrite T in Hflag.
      rewrite Htr. simpl. apply E1; [lia | exact Hflag].
Qed.

Lemma entryInv_reachable (goals : list Literal) (sigma : Subst) (s : State) :
  reachable goals sigma s -> entryInv s.
Proof.
  induction 1 as [s Hstart | s s' Hreach IH Hstep].
  - apply search_bind_Ok in Hstart as ([] & s1 & H1 & H). apply search_modify_Ok in H1 as ->.
    apply enterGoal_trace in H as (_ & _ & T & _ & _). simpl in T.
    intros d _ Hflag. rewrite T in Hflag.
    apply list_lookup_insert_Some in Hflag as [(_ & Hf & _) | (_ & Hf)];
      [discriminate Hf |].
    apply lookup_replicate in Hf as [Hf _]. discriminate Hf.
  - eapply entryInv_runStep; [exact Hstep | | exact IH].
    eapply searchInv_reachable. exact Hreach.
Qed.

Lemma runInv_reachable (goals : list Literal) (sigma : Subst) (s : State) :
  reachable goals sigma s -> runInv sigma s.
Proof.
  induction 1 as [s Hstart | s s' _ IH Hstep].
  - destruct goals as [| g rest]; [discriminate Hstart |].
    destruct (run_start g rest sigma) as (s1 & H1 & _ & Hinv & _).
    rewrite H1 in Hstart. injection Hstart as <-. exact Hinv.
  - pose proof (runStep_spec sigma s IH) as Hspec. rewrite Hstep in Hspec.
    apply Hspec.
Qed.

Lemma failedLemmas_quiet (d : nat) (L : Literal) (it : list SLQueryResult) :
  Forall isUnifyArgs (failedLemmas d L it).
Proof.
  unfold failedLemmas. apply Forall_forall. intros e He.
  apply list_elem_of_In, in_rev, in_map_iff in He as (qres & <- & _). exact I.
Qed.


(** X25: [run] closes every recording it has started, and a search that
    fails leaves no trail and the substitution it was given. *)
Theorem run_restores (goals : list Literal) (sigma : Subst) (fuel : nat)
    (b : bool) (s' : State) :
  run fuel (SubstBuilder goals sigma) = Ok b s' ->
  goals <> [] /\ goalLits s' = goals /\ recordings s' = []
  /\ depth s' = (if b then List.length goals else 0%nat)
  /\ (b = false ->
      Forall (fun us => us = []) (btData s')
      /\ (undoes -> subst s' = sigma)).
Proof.
  destruct goals as [| g rest]; [discriminate |].
  destruct (run_start g rest sigma) as (s1 & Hstart & Hg & Hinv & _).
  unfold SubstBuilder.run. unfold bind at 1, modify at 1.
  unfold bind at 1, modify at 1 in Hstart.
  unfold bind at 1. rewrite Hstart.
  pose proof (runLoop_spec sigma fuel s1 Hinv) as Hloop.
  intros Hrun. rewrite Hrun in Hloop.
  destruct Hloop as (A1 & A2 & A3 & A4).
  unfold goalCnt in A3. rewrite Hg in A1, A3.
  split; [discriminate |]. split; [exact A1 |]. split; [exact A2 |].
  split; [exact A3 | exact A4].
Qed.

(** X26: for goals that are not empty and whose positive equalities have
    their two arguments, the search of [run] ends within [searchBound]
    iterations of its loop, at depth [_goalCnt] when it succeeds and at
    depth 0 when it fails. *)
Theorem run_terminates (goals : list Literal) (sigma : Subst) (fuel : nat) :
  goals <> [] ->
  Forall hasArguments goals ->
  (searchBound goals <= fuel)%nat ->
  exists b s',
    run fuel (SubstBuilder goals sigma) = Ok b s'
    /\ depth s' = (if b then List.length goals else 0%nat).
Proof.
  intros Hne Hargs Hfuel.
  destruct goals as [| g rest]; [contradiction |].
  destruct (run_start g rest sigma) as (s1 & Hstart & Hg & Hinv & Hpot).
  unfold SubstBuilder.run. unfold bind at 1, modify at 1.
  unfold bind at 1, modify at 1 in Hstart.
  unfold bind at 1. rewrite Hstart.
  pose proof (runLoop_spec sigma fuel s1 Hinv) as Hloop.
  destruct (runLoop fuel s1) as [b s' | f].
  - destruct Hloop as (_ & _ & A3 & _). unfold goalCnt in A3. rewrite Hg in A3.
    exists b, s'. split; [reflexivity | exact A3].
  - exfalso. destruct Hloop as [Hlt | Hbad].
    + rewrite Hpot in Hlt. lia.
    + apply Hbad. rewrite Hg. exact Hargs.
Qed.
End WithSubstitution.

Section Witnesses.
Import SearchExamples.


Lemma bindings_undoes : SubstBuilder.undoes bindUnify bindUnifyArgs restore.
Proof.
  split.
  - intros t1 b1 t2 b2 sigma r. unfold bindUnify.
    destruct (decide (t1 = t2)); [| discriminate].
    intros H. injection H as <-. reflexivity.
  - intros l1 b1 l2 b2 sigma r. unfold bindUnifyArgs.
    repeat case_match; try discriminate; intros Hr; injection Hr as <-; reflexivity.
Qed.

Lemma run_restores_witness :
  SubstBuilder.run bindUnify bindUnifyArgs restore unitLemmas 13
    (SubstBuilder [q_X; r_X] []) = Ok false conjunctionSearched
  /\ recordings conjunctionSearched = []
  /\ depth conjunctionSearched = 0%nat
  /\ subst conjunctionSearched = [].
Proof.
  assert (H : SubstBuilder.run bindUnify bindUnifyArgs restore unitLemmas 13
                (SubstBuilder [q_X; r_X] []) = Ok false conjunctionSearched)
    by (vm_compute; reflexivity).
  destruct (run_restores bindUnify bindUnifyArgs restore unitLemmas
              [q_X; r_X] [] 13%nat false conjunctionSearched H)
    as (_ & _ & H1 & H2 & H3).
  destruct (H3 eq_refl) as [_ H4].
  split; [exact H |]. split; [exact H1 |]. split; [exact H2 |].
  exact (H4 bindings_undoes).
Defined.

Lemma run_terminates_witness :
  exists b s',
    SubstBuilder.run bindUnify bindUnifyArgs restore unitLemmas 13
      (SubstBuilder [q_X; r_X] []) = Ok b s'.
Proof.
  destruct (run_terminates bindUnify bindUnifyArgs restore unitLemmas
              [q_X; r_X] [] 13%nat) as (b & s' & H & _).
  - discriminate.
  - apply Forall_cons_2; [intros Heq; discriminate Heq |].
    apply Forall_cons_2; [intros Heq; discriminate Heq |]. apply Forall_nil_2.
  - vm_compute. lia.
  - exists b, s'. exact H.
Defined.

End Witnesses.

End SubstBuilderFacts.

(** ** The units needed for a refutation *)

Module AnswerExtractorFacts.
Import Kernel AnswerExtractor.
Section WithInferenceStore.

Context {Unit UnitSpec : Type} `{Countable UnitSpec}.
Variable mkUnitSpec : Unit -> bool -> UnitSpec.
Variable unit : UnitSpec -> Unit.
Variable isClause : UnitSpec -> bool.
Variable getParents : UnitSpec -> Rule * list UnitSpec.

#[local] Abbreviation State := (@AnswerExtractor.State Unit UnitSpec _ _).
#[local] Abbreviation visit := (AnswerExtractor.visit unit isClause getParents).
#[local] Abbreviation loop := (AnswerExtractor.loop unit isClause getParents).
#[local] Abbreviation getNeededUnits :=
  (AnswerExtractor.getNeededUnits mkUnitSpec unit isClause getParents).
#[local] Abbreviation needed := (AnswerExtractor.needed getParents).
#[local] Abbreviation neededBound := (AnswerExtractor.neededBound getParents).
#[local] Abbreviation workLeft := (AnswerExtractor.workLeft (Unit := Unit) getParents).
#[local] Abbreviation visited := (AnswerExtractor.visited unit isClause getParents).
#[local] Abbreviation cost := (fun x : UnitSpec => (1 + List.length (snd (getParents x)))%nat).

Lemma visit_seen (curr : UnitSpec) (rest : list UnitSpec) (s : State) :
  curr ∈ seen s ->
  visit curr rest s = mkState (seen s) rest (premiseClauses s) (conjectures s).
Proof.
  intros Hin. unfold AnswerExtractor.visit.
  destruct (decide (curr ∈ seen s)); [reflexivity | contradiction].
Qed.

Lemma visit_new (curr : UnitSpec) (rest : list UnitSpec) (s : State) :
  curr ∉ seen s ->
  visit curr rest s
  = mkState ({[curr]} ∪ seen s) (rev (snd (getParents curr)) ++ rest)
      (if isPremiseClause isClause curr (fst (getParents curr))
       then unit curr :: premiseClauses s else premiseClauses s)
      (if bool_decide (fst (getParents curr) = NEGATED_CONJECTURE_RULE)
       then unit curr :: conjectures s else conjectures s).
Proof.
  intros Hin. unfold AnswerExtractor.visit.
  destruct (decide (curr ∈ seen s)); [contradiction | reflexivity].
Qed.

Lemma elem_of_rev (x : UnitSpec) (l : list UnitSpec) : x ∈ rev l <-> x ∈ l.
Proof. rewrite !list_elem_of_In. symmetry. apply in_rev. Qed.

(** Marking a unit of the universe as seen takes its cost off what is
    left. *)
Lemma sum_unseen_insert (universe : list UnitSpec) (curr : UnitSpec)
    (sn : gset UnitSpec) :
  curr ∈ universe -> curr ∉ sn ->
  (cost curr
   + sum_list_with cost (filter (fun x => x ∉ ({[curr]} ∪ sn : gset UnitSpec)) universe)
   <= sum_list_with cost (filter (fun x => x ∉ sn) universe))%nat.
Proof.
  intros Hin Hnew. induction universe as [| y universe IH].
  - apply elem_of_nil in Hin. contradiction.
  - assert (Hmono : (sum_list_with cost
                       (filter (fun x => x ∉ ({[curr]} ∪ sn : gset UnitSpec)) universe)
                     <= sum_list_with cost (filter (fun x => x ∉ sn) universe))%nat).
    { clear. induction universe as [| z universe IH]; [reflexivity |].
      rewrite !filter_cons.
      destruct (decide (z ∉ {[curr]} ∪ sn)) as [Hz | Hz].
      - destruct (decide (z ∉ sn)) as [_ | Hz']; [simpl in *; lia |].
        exfalso. apply Hz'. intros Hzs. apply Hz, elem_of_union. right. exact Hzs.
      - destruct (decide (z ∉ sn)); simpl in *; lia. }
    rewrite !filter_cons.
    destruct (decide (y = curr)) as [-> | Hne].
    + destruct (decide (curr ∉ {[curr]} ∪ sn)) as [Hc | _];
        [exfalso; apply Hc, elem_of_union; left; apply elem_of_singleton; reflexivity |].
      destruct (decide (curr ∉ sn)) as [_ | Hc]; [| contradiction].
      simpl in *. lia.
    + apply elem_of_cons in Hin as [-> | Hin]; [contradiction |].
      specialize (IH Hin).
      destruct (decide (y ∉ {[curr]} ∪ sn)) as [Hy | Hy].
      * destruct (decide (y ∉ sn)) as [_ | Hy']; [simpl in *; lia |].
        exfalso. apply Hy'. intros Hys. apply Hy, elem_of_union. right. exact Hys.
      * destruct (decide (y ∉ sn)) as [Hy' | _]; [| simpl in *; lia].
        exfalso. apply Hy. intros Hys. apply elem_of_union in Hys as [Hys | Hys].
        -- apply elem_of_singleton in Hys. contradiction.
        -- contradiction.
Qed.

(** One iteration keeps the invariant and leaves less to do. *)
Lemma visit_visited (universe : list UnitSpec) (root : UnitSpec)
    (pc0 cj0 : list Unit) (order : list UnitSpec) (curr : UnitSpec)
    (rest : list UnitSpec) (s : State) :
  (forall x p, x ∈ universe -> p ∈ snd (getParents x) -> p ∈ universe) ->
  visited root pc0 cj0 order s ->
  (forall x, x ∈ toDo s -> x ∈ universe) ->
  toDo s = curr :: rest ->
  exists order',
    visited root pc0 cj0 order' (visit curr rest s)
    /\ (forall x, x ∈ toDo (visit curr rest s) -> x ∈ universe)
    /\ (workLeft universe (visit curr rest s) < workLeft universe s)%nat.
Proof.
  intros Hclosed (V1 & V2 & V3 & V4 & V5 & V6 & V7 & V8) HU Htodo.
  assert (Hcurr : curr ∈ toDo s) by (rewrite Htodo; apply list_elem_of_here).
  assert (Hrest : forall x, x ∈ rest -> x ∈ toDo s).
  { intros x Hx. rewrite Htodo. apply list_elem_of_further, Hx. }
  destruct (decide (curr ∈ seen s)) as [Hseen | Hnew].
  - rewrite (visit_seen _ _ _ Hseen). exists order. split; [| split].
    + unfold AnswerExtractor.visited. simpl.
      split; [exact V1 |]. split; [exact V2 |]. split; [exact V3 |].
      split; [intros x Hx; apply V4, Hrest, Hx |].
      split.
      { intros x p Hx Hp. destruct (V5 x p Hx Hp) as [Ho | Ht]; [left; exact Ho |].
        rewrite Htodo in Ht. apply elem_of_cons in Ht as [-> | Ht].
        - left. apply V2, Hseen.
        - right. exact Ht. }
      split.
      { destruct V6 as [Ho | Ht]; [left; exact Ho |].
        rewrite Htodo in Ht. apply elem_of_cons in Ht as [-> | Ht].
        - left. apply V2, Hseen.
        - right. exact Ht. }
      split; assumption.
    + simpl. intros x Hx. apply HU, Hrest, Hx.
    + unfold AnswerExtractor.workLeft. simpl. rewrite Htodo. simpl. lia.
  - rewrite (visit_new _ _ _ Hnew). exists (curr :: order). split; [| split].
    + unfold AnswerExtractor.visited. simpl.
      split.
      { apply NoDup_cons. split; [| exact V1]. intros Ho. apply Hnew, V2, Ho. }
      split.
      { intros x. rewrite elem_of_union, elem_of_singleton, elem_of_cons, V2.
        reflexivity. }
      split.
      { intros x Hx. apply elem_of_cons in Hx as [-> | Hx]; [apply V4, Hcurr | apply V3, Hx]. }
      split.
      { intros x Hx. apply elem_of_app in Hx as [Hx | Hx].
        - apply (needed_parent getParents root curr x); [apply V4, Hcurr |].
          apply elem_of_rev, Hx.
        - apply V4, Hrest, Hx. }
      split.
      { intros x p Hx Hp. apply elem_of_cons in Hx as [-> | Hx].
        - right. apply elem_of_app. left.
          apply elem_of_rev, Hp.
        - destruct (V5 x p Hx Hp) as [Ho | Ht].
          + left. apply list_elem_of_further, Ho.
          + rewrite Htodo in Ht. apply elem_of_cons in Ht as [-> | Ht].
            * left. apply list_elem_of_here.
            * right. apply elem_of_app. right. exact Ht. }
      split.
      { destruct V6 as [Ho | Ht].
        - left. apply list_elem_of_further, Ho.
        - rewrite Htodo in Ht. apply elem_of_cons in Ht as [-> | Ht].
          + left. apply list_elem_of_here.
          + right. apply elem_of_app. right. exact Ht. }
      split.
      { rewrite filter_cons.
        destruct (isPremiseClause isClause curr (fst (getParents curr))) eqn:Hp.
        - destruct (decide (Is_true true)) as [_ | F]; [| exfalso; apply F; exact I].
          simpl. rewrite V7. reflexivity.
        - destruct (decide (Is_true false)) as [F | _]; [destruct F |]. exact V7. }
      { rewrite filter_cons.
        destruct (decide (fst (getParents curr) = NEGATED_CONJECTURE_RULE)) as [Hr | Hr].
        - rewrite bool_decide_eq_true_2 by exact Hr. simpl. rewrite V8. reflexivity.
        - rewrite bool_decide_eq_false_2 by exact Hr. exact V8. }
    + simpl. intros x Hx. apply elem_of_app in Hx as [Hx | Hx].
      * apply (Hclosed curr x); [apply HU, Hcurr |].
        apply elem_of_rev, Hx.
      * apply HU, Hrest, Hx.
    + unfold AnswerExtractor.workLeft. simpl. rewrite Htodo. simpl.
      rewrite length_app, length_rev.
      pose proof (sum_unseen_insert universe curr (seen s) (HU curr Hcurr) Hnew).
      simpl in *. lia.
Qed.

(** With fuel for what is left to do the loop ends, in a state that
    satisfies the invariant. *)
Lemma loop_visited (universe : list UnitSpec) (root : UnitSpec) (pc0 cj0 : list Unit) :
  (forall x p, x ∈ universe -> p ∈ snd (getParents x) -> p ∈ universe) ->
  forall (fuel : nat) (order : list UnitSpec) (s : State),
    visited root pc0 cj0 order s ->
    (forall x, x ∈ toDo s -> x ∈ universe) ->
    (workLeft universe s <= fuel)%nat ->
    exists order' s',
      loop fuel s = Some s' /\ visited root pc0 cj0 order' s' /\ toDo s' = [].
Proof.
  intros Hclosed fuel. induction fuel as [| fuel IH]; intros order s Hv HU Hfuel.
  - unfold AnswerExtractor.workLeft in Hfuel.
    destruct (toDo s) as [| curr rest] eqn:Htodo; [| simpl in Hfuel; lia].
    exists order, s. simpl. rewrite Htodo. split; [reflexivity |].
    split; [exact Hv | reflexivity].
  - destruct (toDo s) as [| curr rest] eqn:Htodo.
    + exists order, s. simpl. rewrite Htodo. split; [reflexivity |].
      split; [exact Hv | reflexivity].
    + rewrite <- Htodo in HU.
      destruct (visit_visited universe root pc0 cj0 order curr rest s
                  Hclosed Hv HU Htodo) as (order1 & Hv1 & HU1 & Hlt).
      destruct (IH order1 (visit curr rest s) Hv1 HU1) as (order' & s' & Hl & Hv' & He);
        [lia |].
      exists order', s'. simpl. rewrite Htodo. split; [exact Hl |].
      split; [exact Hv' | exact He].
Qed.

Lemma sum_filter_le (P : UnitSpec -> Prop) `{forall x, Decision (P x)}
    (f : UnitSpec -> nat) (l : list UnitSpec) :
  (sum_list_with f (filter P l) <= sum_list_with f l)%nat.
Proof.
  induction l as [| x l IH]; [reflexivity |].
  rewrite filter_cons. destruct (decide (P x)); simpl; lia.
Qed.

(** X27: for a derivation inside a finite set of units that is closed
    under premises, [getNeededUnits] ends within [neededBound] iterations.
    It visits exactly the units that the refutation depends on, each of
    them once, and what it pushes on [premiseClauses] and on [conjectures]
    are the visited units with the rules of lines 75 and 79-80, the newest
    on top of what the stacks held before. *)
Theorem getNeededUnits_spec (universe : list UnitSpec) (refutation : Unit)
    (premiseClauses0 conjectures0 : list Unit) (fuel : nat) :
  mkUnitSpec refutation false ∈ universe ->
  (forall x p, x ∈ universe -> p ∈ snd (getParents x) -> p ∈ universe) ->
  (neededBound universe <= fuel)%nat ->
  exists order,
    NoDup order
    /\ (forall x, x ∈ order <-> needed (mkUnitSpec refutation false) x)
    /\ getNeededUnits fuel refutation premiseClauses0 conjectures0
       = Some (map unit
                 (filter (fun x => Is_true (isPremiseClause isClause x (fst (getParents x))))
                    order)
               ++ premiseClauses0,
               map unit
                 (filter (fun x => fst (getParents x) = NEGATED_CONJECTURE_RULE) order)
               ++ conjectures0).
Proof.
  intros Hroot Hclosed Hfuel.
  set (root := mkUnitSpec refutation false) in *.
  set (s0 := mkState ∅ [root] premiseClauses0 conjectures0 : State).
  assert (Hv0 : visited root premiseClauses0 conjectures0 [] s0).
  { unfold AnswerExtractor.visited. simpl.
    split; [apply NoDup_nil_2 |].
    split; [intros x; rewrite elem_of_empty, elem_of_nil; reflexivity |].
    split; [intros x Hx; apply elem_of_nil in Hx; contradiction |].
    split; [intros x Hx; apply list_elem_of_singleton in Hx as ->; apply needed_root |].
    split; [intros x p Hx; apply elem_of_nil in Hx; contradiction |].
    split; [right; apply list_elem_of_here |].
    split; reflexivity. }
  destruct (loop_visited universe root premiseClauses0 conjectures0 Hclosed
              fuel [] s0 Hv0)
    as (order & s' & Hloop & (V1 & V2 & V3 & V4 & V5 & V6 & V7 & V8) & Hend).
  { simpl. intros x Hx. apply list_elem_of_singleton in Hx as ->. exact Hroot. }
  { unfold AnswerExtractor.workLeft, AnswerExtractor.neededBound in *.
    eapply Nat.le_trans; [| exact Hfuel]. simpl. apply le_n_S.
    apply sum_filter_le. }
  exists order. split; [exact V1 |]. split.
  - intros x. split; [apply V3 |].
    intros Hn. induction Hn as [| x p Hx IHx Hp].
    + destruct V6 as [Ho | Ht]; [exact Ho |].
      rewrite Hend in Ht. apply elem_of_nil in Ht. contradiction.
    + destruct (V5 x p IHx Hp) as [Ho | Ht]; [exact Ho |].
      rewrite Hend in Ht. apply elem_of_nil in Ht. contradiction.
  - unfold AnswerExtractor.getNeededUnits. fold root. fold s0.
    rewrite Hloop, V7, V8. reflexivity.
Qed.

End WithInferenceStore.

Section Witnesses.
Import NeededUnitsExamples.

Lemma derivation_closed (x p : nat * bool) :
  x ∈ derivation -> p ∈ snd (NeededUnitsExamples.getParents x) -> p ∈ derivation.
Proof.
  unfold derivation. intros Hx Hp.
  repeat (apply elem_of_cons in Hx as [-> | Hx]);
    [| | | | apply elem_of_nil in Hx; contradiction];
    simpl in Hp;
    repeat (apply elem_of_cons in Hp as [-> | Hp]);
    try (apply elem_of_nil in Hp; contradiction);
    repeat constructor.
Qed.

Lemma getNeededUnits_spec_witness :
  NeededUnitsExamples.getNeededUnits 9 0%nat = Some ([1%nat; 2%nat], [3%nat])
  /\ exists order,
       NoDup order
       /\ (forall x, x ∈ order
                     <-> AnswerExtractor.needed NeededUnitsExamples.getParents
                           (0%nat, false) x).
Proof.
  split; [vm_compute; reflexivity |].
  destruct (getNeededUnits_spec pair fst NeededUnitsExamples.isClause
              NeededUnitsExamples.getParents derivation 0%nat [] [] 9%nat)
    as (order & H1 & H2 & _).
  - apply list_elem_of_here.
  - exact derivation_closed.
  - vm_compute. lia.
  - exists order. split; [exact H1 | exact H2].
Defined.

End Witnesses.

End AnswerExtractorFacts.

(** ** The union-find structure of the interpolation *)

Module InterpolantsNewFacts.
Import InterpolantsNew.

Lemma rootOf_no_self (m : UnionFindMap) (u r : Unit) :
  rootOf m u r -> forall a, a = u -> m !! a <> Some a.
Proof.
  induction 1 as [u E | u v r E _ IH]; intros a -> Ea; [congruence |].
  assert (v = u) as -> by congruence. exact (IH u eq_refl Ea).
Qed.

Lemma terminating_no_self (m : UnionFindMap) (u : Unit) :
  terminating m -> m !! u <> Some u.
Proof. intros Ht. destruct (Ht u) as [r Hr]. exact (rootOf_no_self m u r Hr u eq_refl). Qed.

Lemma root_rootOf (fuel : nat) (m : UnionFindMap) (u r : Unit) :
  root fuel m u = Returns r -> rootOf m u r.
Proof.
  revert u. induction fuel as [| fuel IH]; intros u; simpl;
    destruct (m !! u) as [v |] eqn:E; intros H.
  - destruct (decide (v = u)); discriminate.
  - injection H as <-. apply rootOf_here. exact E.
  - destruct (decide (v = u)); [discriminate |].
    eapply rootOf_step; [exact E | apply IH; exact H].
  - injection H as <-. apply rootOf_here. exact E.
Qed.

Lemma rootOf_root (m : UnionFindMap) (u r : Unit) :
  rootOf m u r -> exists n, forall fuel, (n <= fuel)%nat -> root fuel m u = Returns r.
Proof.
  intros Hr. pose proof (rootOf_no_self m u r Hr) as Hself. revert Hself.
  induction Hr as [u E | u v r E Hr IH]; intros Hself.
  - exists 0%nat. intros fuel _. destruct fuel; simpl; rewrite E; reflexivity.
  - destruct (IH (rootOf_no_self m v r Hr)) as [n Hn].
    assert (Hvu : v <> u).
    { intros ->. exact (Hself u eq_refl E). }
    exists (S n). intros fuel Hf. destruct fuel as [| fuel]; [lia |].
    simpl. rewrite E. destruct (decide (v = u)); [contradiction |]. apply Hn. lia.
Qed.

Lemma rootOf_functional (m : UnionFindMap) (u r1 r2 : Unit) :
  rootOf m u r1 -> rootOf m u r2 -> r1 = r2.
Proof.
  induction 1 as [u E | u v r E _ IH]; inversion 1; subst; try congruence.
  apply IH. congruence.
Qed.

Lemma rootOf_is_root (m : UnionFindMap) (u r : Unit) : rootOf m u r -> m !! r = None.
Proof. induction 1; assumption. Qed.

Lemma rootOf_insert (m : UnionFindMap) (r1 r2 u r : Unit) :
  m !! r1 = None -> m !! r2 = None -> r1 <> r2 ->
  rootOf m u r ->
  rootOf (<[r2 := r1]> m) u (if decide (r = r2) then r1 else r).
Proof.
  intros H1 H2 Hne. induction 1 as [u E | u v r E _ IH].
  - destruct (decide (u = r2)) as [-> | Hu].
    + eapply rootOf_step; [apply lookup_insert_eq |].
      apply rootOf_here. rewrite lookup_insert_ne by congruence. exact H1.
    + apply rootOf_here. rewrite lookup_insert_ne by congruence. exact E.
  - eapply rootOf_step; [| exact IH].
    rewrite lookup_insert_ne by congruence. exact E.
Qed.

Lemma terminating_empty : terminating ∅.
Proof. intros u. exists u. apply rootOf_here. apply lookup_empty. Qed.

Lemma terminating_insert (m : UnionFindMap) (r1 r2 : Unit) :
  terminating m -> m !! r1 = None -> m !! r2 = None -> r1 <> r2 ->
  terminating (<[r2 := r1]> m).
Proof.
  intros Ht H1 H2 Hne u. destruct (Ht u) as [r Hr].
  eexists. apply rootOf_insert; eassumption.
Qed.

Lemma merge_eq (fuel : nat) (m : UnionFindMap) (u1 u2 r1 r2 : Unit) :
  u1 <> u2 ->
  root fuel m u1 = Returns r1 -> root fuel m u2 = Returns r2 ->
  merge fuel m u1 u2 = Returns (if decide (r1 <> r2) then <[r2 := r1]> m else m).
Proof.
  intros Hne E1 E2. unfold merge.
  destruct (decide (u1 = u2)); [contradiction |].
  rewrite E1, E2. simpl. destruct (decide (r1 <> r2)); reflexivity.
Qed.

Lemma merge_Returns (fuel : nat) (m m' : UnionFindMap) (u1 u2 : Unit) :
  merge fuel m u1 u2 = Returns m' ->
  u1 <> u2
  /\ exists r1 r2,
       root fuel m u1 = Returns r1 /\ root fuel m u2 = Returns r2
       /\ m' = (if decide (r1 <> r2) then <[r2 := r1]> m else m).
Proof.
  unfold merge. destruct (decide (u1 = u2)) as [| Hne]; [discriminate |].
  destruct (root fuel m u1) as [r1 | |] eqn:E1; simpl; try discriminate.
  destruct (root fuel m u2) as [r2 | |] eqn:E2; simpl; try discriminate.
  intros H. split; [exact Hne |]. exists r1, r2.
  split; [reflexivity |]. split; [reflexivity |].
  destruct (decide (r1 <> r2)); injection H as <-; reflexivity.
Qed.

(** X11: [merge] refuses to join a unit with itself, and on every map
    that it builds [root] ends without failing its assertion. *)
Theorem merge_terminating (m : UnionFindMap) (unit1 unit2 : Unit) :
  terminating m ->
  (unit1 = unit2 -> forall fuel, merge fuel m unit1 unit2 = AssertionFailed)
  /\ (unit1 <> unit2 ->
      exists n m',
        (forall fuel, (n <= fuel)%nat -> merge fuel m unit1 unit2 = Returns m')
        /\ terminating m'
        /\ (forall u, m' !! u <> Some u)
        /\ (forall u, exists k r, forall fuel, (k <= fuel)%nat ->
                        root fuel m' u = Returns r /\ m' !! r = None)
        /\ (m ⊆ m')).
Proof.
  intros Ht. split.
  { intros -> fuel. unfold merge.
    destruct (decide (unit2 = unit2)); [reflexivity | contradiction]. }
  intros Hne.
  destruct (Ht unit1) as [r1 Hr1]. destruct (Ht unit2) as [r2 Hr2].
  destruct (rootOf_root _ _ _ Hr1) as [n1 Hn1].
  destruct (rootOf_root _ _ _ Hr2) as [n2 Hn2].
  pose proof (rootOf_is_root _ _ _ Hr1) as N1.
  pose proof (rootOf_is_root _ _ _ Hr2) as N2.
  exists (Nat.max n1 n2), (if decide (r1 <> r2) then <[r2 := r1]> m else m).
  assert (Ht' : terminating (if decide (r1 <> r2) then <[r2 := r1]> m else m)).
  { destruct (decide (r1 <> r2)); [apply terminating_insert; assumption | exact Ht]. }
  split; [| split; [| split; [| split]]].
  - intros fuel Hf. apply merge_eq; [exact Hne | apply Hn1 | apply Hn2]; lia.
  - exact Ht'.
  - intros u. apply terminating_no_self. exact Ht'.
  - intros u. destruct (Ht' u) as [r Hr].
    destruct (rootOf_root _ _ _ Hr) as [k Hk].
    exists k, r. intros fuel Hf. split; [apply Hk; exact Hf |].
    eapply rootOf_is_root; exact Hr.
  - destruct (decide (r1 <> r2)); [| reflexivity].
    apply insert_subseteq. exact N2.
Qed.

Lemma merge_terminating_witness :
  exists n m',
    (forall fuel, (n <= fuel)%nat -> merge fuel ∅ 3%nat 5%nat = Returns m')
    /\ terminating m'.
Proof.
  destruct (merge_terminating ∅ 3%nat 5%nat terminating_empty) as [_ H].
  destruct H as (n & m' & H1 & H2 & _); [discriminate |].
  exists n, m'. split; [exact H1 | exact H2].
Defined.

Lemma sameClass_find (m : UnionFindMap) (a b : Unit) (fuel : nat) (v : bool) :
  find fuel m a b = Returns v -> (v = true <-> sameClass m a b).
Proof.
  unfold find. destruct (root fuel m a) as [ra | |] eqn:Ea; simpl; try discriminate.
  destruct (root fuel m b) as [rb | |] eqn:Eb; simpl; try discriminate.
  intros H. injection H as <-.
  apply root_rootOf in Ea, Eb. rewrite bool_decide_eq_true. split.
  - intros ->. exists rb. split; assumption.
  - intros (r & Ha & Hb).
    rewrite (rootOf_functional _ _ _ _ Ea Ha), (rootOf_functional _ _ _ _ Eb Hb).
    reflexivity.
Qed.

Lemma find_total (m : UnionFindMap) (a b : Unit) :
  terminating m ->
  exists n, forall fuel, (n <= fuel)%nat -> exists v, find fuel m a b = Returns v.
Proof.
  intros Ht. destruct (Ht a) as [ra Ha]. destruct (Ht b) as [rb Hb].
  destruct (rootOf_root _ _ _ Ha) as [na Hna].
  destruct (rootOf_root _ _ _ Hb) as [nb Hnb].
  exists (Nat.max na nb). intros fuel Hf. unfold find.
  rewrite Hna, Hnb by lia. eexists. reflexivity.
Qed.

Lemma rootOf_insert_inv (m : UnionFindMap) (r1 r2 u r' : Unit) :
  m !! r1 = None -> m !! r2 = None -> r1 <> r2 ->
  terminating m ->
  rootOf (<[r2 := r1]> m) u r' ->
  exists r, rootOf m u r /\ r' = (if decide (r = r2) then r1 else r).
Proof.
  intros H1 H2 Hne Ht H'. destruct (Ht u) as [r Hr]. exists r. split; [exact Hr |].
  eapply rootOf_functional; [exact H' |]. apply rootOf_insert; assumption.
Qed.

(** X12: [merge], when it returns (so for two different units), joins the
    classes of its arguments and nothing else. *)
Theorem merge_find (m m' : UnionFindMap) (unit1 unit2 : Unit) (fuel0 : nat) :
  terminating m ->
  merge fuel0 m unit1 unit2 = Returns m' ->
  unit1 <> unit2
  /\ (forall a b, exists n, forall fuel, (n <= fuel)%nat ->
        exists v, find fuel m' a b = Returns v)
  /\ (exists n, forall fuel, (n <= fuel)%nat -> find fuel m' unit1 unit2 = Returns true)
  /\ (forall a b fuel v,
        find fuel m' a b = Returns v ->
        (v = true <->
         sameClass m a b
         \/ (sameClass m a unit1 /\ sameClass m b unit2)
         \/ (sameClass m a unit2 /\ sameClass m b unit1))).
Proof.
  intros Ht Hm.
  apply merge_Returns in Hm as (Hdiff & r1 & r2 & E1 & E2 & Hm).
  apply root_rootOf in E1, E2.
  pose proof (rootOf_is_root _ _ _ E1) as N1.
  pose proof (rootOf_is_root _ _ _ E2) as N2.
  assert (Hchar : forall a b, sameClass m' a b <->
            sameClass m a b
            \/ (sameClass m a unit1 /\ sameClass m b unit2)
            \/ (sameClass m a unit2 /\ sameClass m b unit1)).
  { intros a b. destruct (decide (r1 <> r2)) as [Hne | Heq].
    - subst m'. split.
      + intros (r & Ha & Hb).
        destruct (rootOf_insert_inv _ _ _ _ _ N1 N2 Hne Ht Ha) as (ra & Ha0 & Era).
        destruct (rootOf_insert_inv _ _ _ _ _ N1 N2 Hne Ht Hb) as (rb & Hb0 & Erb).
        destruct (decide (ra = r2)) as [-> | Na], (decide (rb = r2)) as [-> | Nb].
        * left. exists r2. split; assumption.
        * subst r. subst rb. right. right. split.
          -- exists r2. split; assumption.
          -- exists r1. split; assumption.
        * subst r. subst ra. right. left. split.
          -- exists r1. split; assumption.
          -- exists r2. split; assumption.
        * subst r. subst rb. left. exists ra. split; assumption.
      + intros [(r & Ha & Hb) | [[(ra & Ha & Ha1) (rb & Hb & Hb2)]
                                | [(ra & Ha & Ha2) (rb & Hb & Hb1)]]].
        * exists (if decide (r = r2) then r1 else r).
          split; apply rootOf_insert; assumption.
        * rewrite (rootOf_functional _ _ _ _ Ha1 E1) in Ha.
          rewrite (rootOf_functional _ _ _ _ Hb2 E2) in Hb.
          exists r1. split.
          -- pose proof (rootOf_insert _ _ _ _ _ N1 N2 Hne Ha) as H.
             destruct (decide (r1 = r2)); [contradiction | exact H].
          -- pose proof (rootOf_insert _ _ _ _ _ N1 N2 Hne Hb) as H.
             destruct (decide (r2 = r2)); [exact H | contradiction].
        * rewrite (rootOf_functional _ _ _ _ Ha2 E2) in Ha.
          rewrite (rootOf_functional _ _ _ _ Hb1 E1) in Hb.
          exists r1. split.
          -- pose proof (rootOf_insert _ _ _ _ _ N1 N2 Hne Ha) as H.
             destruct (decide (r2 = r2)); [exact H | contradiction].
          -- pose proof (rootOf_insert _ _ _ _ _ N1 N2 Hne Hb) as H.
             destruct (decide (r1 = r2)); [contradiction | exact H].
    - subst m'. assert (r1 = r2) as <- by (destruct (decide (r1 = r2)); [assumption | contradiction]).
      split; [intros H; left; exact H |].
      intros [H | [[(ra & Ha & Ha1) (rb & Hb & Hb2)]
                  | [(ra & Ha & Ha2) (rb & Hb & Hb1)]]]; [exact H | |].
      + rewrite (rootOf_functional _ _ _ _ Ha1 E1) in Ha.
        rewrite (rootOf_functional _ _ _ _ Hb2 E2) in Hb.
        exists r1. split; assumption.
      + rewrite (rootOf_functional _ _ _ _ Ha2 E2) in Ha.
        rewrite (rootOf_functional _ _ _ _ Hb1 E1) in Hb.
        exists r1. split; assumption. }
  assert (Ht' : terminating m').
  { subst m'. destruct (decide (r1 <> r2));
      [apply terminating_insert; assumption | exact Ht]. }
  split; [exact Hdiff |]. split; [| split].
  - intros a b. apply find_total. exact Ht'.
  - destruct (find_total m' unit1 unit2 Ht') as [n Hn]. exists n.
    intros fuel Hf. destruct (Hn fuel Hf) as [v Hv]. rewrite Hv. f_equal.
    apply (sameClass_find _ _ _ _ _ Hv). apply Hchar. right. left. split.
    + exists r1. split; exact E1.
    + exists r2. split; exact E2.
  - intros a b fuel v Hv. rewrite (sameClass_find _ _ _ _ _ Hv). apply Hchar.
Qed.

Lemma merge_find_witness :
  exists n, forall fuel, (n <= fuel)%nat ->
    find fuel (<[5%nat := 3%nat]> ∅) 3%nat 5%nat = Returns true.
Proof.
  assert (Hm : merge 1 ∅ 3%nat 5%nat = Returns (<[5%nat := 3%nat]> ∅)) by reflexivity.
  destruct (merge_find ∅ _ 3%nat 5%nat 1 terminating_empty Hm) as (_ & _ & H & _).
  exact H.
Defined.

End InterpolantsNewFacts.

(** ** Variable names of the formula builder *)

Module FBHelperCoreFacts.
Import FBHelperCore.

Lemma consistent_initial (checkNames : bool) : consistent (initial checkNames).
Proof.
  split; [| split].
  - intros name v. unfold initial; simpl. rewrite !lookup_empty. split; discriminate.
  - intros v name. unfold initial; simpl. rewrite lookup_empty. discriminate.
  - simpl. lia.
Qed.

Lemma getVar_known (varName : string) (s : State) (v : Z) :
  consistent s ->
  _checkNames s && negb (isupper (firstChar varName)) = false ->
  vars s !! varName = Some v ->
  getVar varName s = (inl v, s).
Proof.
  intros (Hinv & Hlt & _) Hc Hv. unfold getVar, Map_insert. rewrite Hc, Hv.
  assert (v <> nextVar s).
  { apply Hinv in Hv. apply Hlt in Hv. lia. }
  destruct (decide (v = nextVar s)); [contradiction |].
  destruct s; reflexivity.
Qed.

Lemma getVar_fresh (varName : string) (s : State) :
  consistent s ->
  _checkNames s && negb (isupper (firstChar varName)) = false ->
  vars s !! varName = None ->
  getVar varName s =
  (inl (nextVar s),
   mkState (_checkNames s) (<[varName := nextVar s]> (vars s))
     (<[nextVar s := varName]> (varNames s)) (Unsigned.add (nextVar s) 1)).
Proof.
  intros (Hinv & Hlt & _) Hc Hv. unfold getVar, Map_insert. rewrite Hc, Hv.
  destruct (decide (nextVar s = nextVar s)); [| contradiction].
  destruct (varNames s !! nextVar s) as [n |] eqn:E.
  - apply Hlt in E. lia.
  - reflexivity.
Qed.

Lemma getVar_fresh_consistent (varName : string) (s : State) :
  consistent s ->
  nextVar s + 1 < Unsigned.modulus ->
  vars s !! varName = None ->
  let s' := mkState (_checkNames s) (<[varName := nextVar s]> (vars s))
              (<[nextVar s := varName]> (varNames s)) (Unsigned.add (nextVar s) 1) in
  consistent s'
  /\ nextVar s' = nextVar s + 1
  /\ getVarName (nextVar s) s' = inl varName
  /\ (forall v' name, getVarName v' s = inl name -> getVarName v' s' = inl name).
Proof.
  intros (Hinv & Hlt & Hn) Hbound Ev s'.
  assert (Hnext : Unsigned.add (nextVar s) 1 = nextVar s + 1).
  { unfold Unsigned.add, Unsigned.wrap. apply Z.mod_small. lia. }
  assert (Hfresh : varNames s !! nextVar s = None).
  { destruct (varNames s !! nextVar s) eqn:E; [| reflexivity].
    apply Hlt in E. lia. }
  split; [| split; [exact Hnext | split]].
  - split; [| split].
    + intros name v. subst s'; simpl.
      destruct (decide (name = varName)) as [-> | Hne].
      * rewrite lookup_insert_eq.
        destruct (decide (v = nextVar s)) as [-> | Hv].
        -- rewrite lookup_insert_eq. split; reflexivity.
        -- rewrite lookup_insert_ne by congruence. split; [congruence |].
           intros H. apply Hinv in H. congruence.
      * rewrite lookup_insert_ne by congruence.
        destruct (decide (v = nextVar s)) as [-> | Hv].
        -- rewrite lookup_insert_eq. split; [| congruence].
           intros H. apply Hinv in H. congruence.
        -- rewrite lookup_insert_ne by congruence. apply Hinv.
    + intros v name. subst s'; simpl. rewrite Hnext.
      destruct (decide (v = nextVar s)) as [-> | Hv].
      * intros _. lia.
      * rewrite lookup_insert_ne by congruence. intros H. apply Hlt in H. lia.
    + subst s'; simpl. rewrite Hnext. lia.
  - unfold getVarName. subst s'; simpl. rewrite lookup_insert_eq. reflexivity.
  - intros v' name. unfold getVarName. subst s'; simpl.
    destruct (varNames s !! v') as [n |] eqn:E; [| discriminate].
    intros H. rewrite lookup_insert_ne by congruence. rewrite E. exact H.
Qed.

(** X13: [getVar] and [getVarName] are inverse to each other. *)
Theorem getVar_getVarName (varName : string) (s : State) :
  consistent s ->
  nextVar s + 1 < Unsigned.modulus ->
  _checkNames s && negb (isupper (firstChar varName)) = false ->
  exists v s',
    getVar varName s = (inl v, s')
    /\ getVarName v s' = inl varName
    /\ consistent s'
    /\ (forall name, vars s !! name = Some v -> name = varName /\ s' = s)
    /\ (vars s !! varName = None -> v = nextVar s /\ nextVar s' = nextVar s + 1)
    /\ (forall v' name, getVarName v' s = inl name -> getVarName v' s' = inl name)
    /\ (forall other v2 s2,
          getVar other s' = (inl v2, s2) -> (v2 = v <-> other = varName))
    /\ getVar varName s' = (inl v, s').
Proof.
  intros Hcons Hbound Hc.
  pose proof Hcons as (Hinv & Hlt & Hn).
  destruct (vars s !! varName) as [v |] eqn:Ev.
  - exists v, s. rewrite (getVar_known _ _ _ Hcons Hc Ev).
    split; [reflexivity |]. split.
    { unfold getVarName. apply Hinv in Ev. rewrite Ev. reflexivity. }
    split; [exact Hcons |]. split.
    { intros name Hname. split; [| reflexivity].
      apply Hinv in Hname, Ev. congruence. }
    split; [discriminate |]. split; [intros v' name H; exact H |]. split.
    { intros other v2 s2 Ho.
      destruct (_checkNames s && negb (isupper (firstChar other))) eqn:Eco.
      { unfold getVar in Ho. rewrite Eco in Ho. discriminate. }
      destruct (vars s !! other) as [vo |] eqn:Eo.
      - rewrite (getVar_known _ _ _ Hcons Eco Eo) in Ho. injection Ho as -> _.
        split.
        + intros ->. apply Hinv in Eo, Ev. congruence.
        + intros ->. congruence.
      - rewrite (getVar_fresh _ _ Hcons Eco Eo) in Ho. injection Ho as <- _.
        split.
        + intros E. apply Hinv in Ev. apply Hlt in Ev. lia.
        + intros ->. congruence. }
    reflexivity.
  - set (s' := mkState (_checkNames s) (<[varName := nextVar s]> (vars s))
                 (<[nextVar s := varName]> (varNames s)) (Unsigned.add (nextVar s) 1)).
    assert (Hnext : Unsigned.add (nextVar s) 1 = nextVar s + 1).
    { unfold Unsigned.add, Unsigned.wrap. apply Z.mod_small. lia. }
    assert (Hfresh : varNames s !! nextVar s = None).
    { destruct (varNames s !! nextVar s) eqn:E; [| reflexivity].
      apply Hlt in E. lia. }
    assert (Hcons' : consistent s').
    { split; [| split].
      - intros name v. subst s'; simpl.
        destruct (decide (name = varName)) as [-> | Hne].
        + rewrite lookup_insert_eq.
          destruct (decide (v = nextVar s)) as [-> | Hv].
          * rewrite lookup_insert_eq. split; reflexivity.
          * rewrite lookup_insert_ne by congruence. split; [congruence |].
            intros H. apply Hinv in H. congruence.
        + rewrite lookup_insert_ne by congruence.
          destruct (decide (v = nextVar s)) as [-> | Hv].
          * rewrite lookup_insert_eq. split; [| congruence].
            intros H. apply Hinv in H. congruence.
          * rewrite lookup_insert_ne by congruence. apply Hinv.
      - intros v name. subst s'; simpl. rewrite Hnext.
        destruct (decide (v = nextVar s)) as [-> | Hv].
        + intros _. lia.
        + rewrite lookup_insert_ne by congruence. intros H. apply Hlt in H. lia.
      - subst s'; simpl. rewrite Hnext. lia. }
    exists (nextVar s), s'. rewrite (getVar_fresh _ _ Hcons Hc Ev).
    split; [reflexivity |]. split.
    { unfold getVarName. subst s'; simpl. rewrite lookup_insert_eq. reflexivity. }
    split; [exact Hcons' |]. split.
    { intros name Hname. apply Hinv in Hname. congruence. }
    split; [intros _; split; [reflexivity | exact Hnext] |]. split.
    { intros v' name. unfold getVarName. subst s'; simpl.
      destruct (varNames s !! v') as [n |] eqn:E; [| discriminate].
      intros H. rewrite lookup_insert_ne by congruence. rewrite E. exact H. }
    assert (Hc' : _checkNames s' && negb (isupper (firstChar varName)) = false)
      by exact Hc.
    assert (Ev' : vars s' !! varName = Some (nextVar s)).
    { subst s'; simpl. apply lookup_insert_eq. }
    split; [| apply getVar_known; assumption].
    intros other v2 s2 Ho.
    destruct (_checkNames s' && negb (isupper (firstChar other))) eqn:Eco.
    { unfold getVar in Ho. rewrite Eco in Ho. discriminate. }
    destruct (vars s' !! other) as [vo |] eqn:Eo.
    + rewrite (getVar_known _ _ _ Hcons' Eco Eo) in Ho. injection Ho as -> _.
      destruct Hcons' as (Hinv' & _). split.
      * intros ->. apply Hinv' in Eo, Ev'. congruence.
      * intros ->. congruence.
    + rewrite (getVar_fresh _ _ Hcons' Eco Eo) in Ho. injection Ho as <- _.
      split.
      * intros E. subst s'; simpl in E. rewrite Hnext in E. lia.
      * intros ->. congruence.
Qed.

Lemma getVar_getVarName_witness :
  exists v s',
    getVar "X" (initial true) = (inl v, s') /\ getVarName v s' = inl "X"%string.
Proof.
  assert (Hb : nextVar (initial true) + 1 < Unsigned.modulus) by reflexivity.
  assert (Hc : _checkNames (initial true) && negb (isupper (firstChar "X")) = false)
    by reflexivity.
  destruct (getVar_getVarName "X" (initial true) (consistent_initial true) Hb Hc)
    as (v & s' & H1 & H2 & _).
  exists v, s'. split; [exact H1 | exact H2].
Defined.

(** X14: names that are refused and variables that are unknown. *)
Theorem getVar_refuses (varName : string) (s : State) (v : Z) :
  (_checkNames s = true -> isupper (firstChar varName) = false ->
   getVar varName s
   = (inr (InvalidTPTPNameException
             "Variable name must start with an uppercase character" varName), s))
  /\ (_checkNames s = true ->
      exists e, getVar "" s = (inr e, s))
  /\ (_checkNames s = false -> exists w s', getVar varName s = (inl w, s'))
  /\ (consistent s -> nextVar s <= v ->
      exists e, getVarName v s = inr e).
Proof.
  split; [| split; [| split]].
  - intros Hc Hu. unfold getVar. rewrite Hc, Hu. reflexivity.
  - intros Hc. unfold getVar. rewrite Hc. simpl. eexists. reflexivity.
  - intros Hc. unfold getVar. rewrite Hc. simpl.
    destruct (Map_insert varName (nextVar s) (vars s)) as [res vars'].
    destruct (decide (res = nextVar s)); eexists _, _; reflexivity.
  - intros (_ & Hlt & _) Hv. unfold getVarName.
    destruct (varNames s !! v) as [n |] eqn:E.
    + apply Hlt in E. lia.
    + eexists. reflexivity.
Qed.

Lemma taken_bound (f : nat -> string) (m : gmap string Z) (k : nat) :
  (forall i j, f i = f j -> i = j) ->
  (forall j, (j < k)%nat -> is_Some (m !! f j)) -> (k <= size m)%nat.
Proof.
  intros Hinj. revert m. induction k as [| k IH]; intros m Hall; [lia |].
  destruct (Hall k ltac:(lia)) as [x Hx].
  assert (Hk : (k <= size (delete (f k) m))%nat).
  { apply IH. intros j Hj. destruct (Hall j ltac:(lia)) as [y Hy].
    exists y. rewrite lookup_delete_ne; [exact Hy |].
    intros E. apply Hinj in E. lia. }
  rewrite map_size_delete_Some in Hk by (exists x; exact Hx).
  assert (size m <> 0)%nat.
  { intros E. apply map_size_empty_inv in E. rewrite E in Hx.
    rewrite lookup_empty in Hx. discriminate. }
  lia.
Qed.

Lemma aliasLoop_finds (toS : Z -> string) (origName : string) (s : State)
    (fuel : nat) (i : nat) :
  (forall j, (i < j < i + S fuel)%nat ->
             is_Some (vars s !! aliasName toS origName (Z.of_nat j))) ->
  vars s !! aliasName toS origName (Z.of_nat (i + S fuel)) = None ->
  forall fuel', (S fuel <= fuel')%nat ->
    aliasLoop toS fuel' origName (Z.of_nat i) s
    = Some (aliasName toS origName (Z.of_nat (i + S fuel))).
Proof.
  revert i. induction fuel as [| fuel IH]; intros i Htaken Hfree fuel' Hf;
    (destruct fuel' as [| fuel']; [lia |]); simpl.
  - replace (Z.of_nat i + 1) with (Z.of_nat (i + 1)) by lia.
    rewrite Hfree. reflexivity.
  - replace (Z.of_nat i + 1) with (Z.of_nat (S i)) by lia.
    destruct (Htaken (S i) ltac:(lia)) as [x Hx]. rewrite Hx.
    replace (i + S (S fuel))%nat with (S i + S fuel)%nat by lia.
    apply IH; [| | lia].
    + intros j Hj. apply Htaken. lia.
    + replace (S i + S fuel)%nat with (i + S (S fuel))%nat by lia. exact Hfree.
Qed.

(** X15: [getVarAlias] gives a new variable under the first free name. *)
Theorem getVarAlias_fresh (Int_toString : Z -> string) (var : Z) (origName : string)
    (s : State) :
  (forall i j, 0 < i -> 0 < j -> Int_toString i = Int_toString j -> i = j) ->
  consistent s ->
  nextVar s + 1 < Unsigned.modulus ->
  getVarName var s = inl origName ->
  _checkNames s && negb (isupper (firstChar origName)) = false ->
  origName <> ""%string ->
  exists (i : Z) (s' : State),
    1 <= i <= Z.of_nat (size (vars s)) + 1
    /\ (forall fuel, (Z.to_nat i <= fuel)%nat ->
          getVarAlias Int_toString fuel var s = Some (inl (nextVar s), s'))
    /\ getVarName (nextVar s) s' = inl (aliasName Int_toString origName i)
    /\ vars s !! aliasName Int_toString origName i = None
    /\ (forall j, 1 <= j < i ->
                  is_Some (vars s !! aliasName Int_toString origName j))
    /\ nextVar s <> var
    /\ getVarName var s' = inl origName
    /\ consistent s'.
Proof.
  intros Hinj Hcons Hbound Hname Hc Hne.
  set (f := fun n : nat => aliasName Int_toString origName (Z.of_nat (S n))).
  assert (Hfinj : forall a b, f a = f b -> a = b).
  { intros a b E. unfold f, aliasName in E.
    apply (inj (String.append origName)) in E.
    apply (inj (String.append "_")) in E.
    apply Hinj in E; lia. }
  (* the least free index *)
  assert (Hex : exists k, (k <= size (vars s))%nat /\ vars s !! f k = None
                          /\ forall j, (j < k)%nat -> is_Some (vars s !! f j)).
  { assert (Hsearch : forall n,
              (forall j, (j < n)%nat -> is_Some (vars s !! f j))
              \/ exists k, (k < n)%nat /\ vars s !! f k = None
                           /\ forall j, (j < k)%nat -> is_Some (vars s !! f j)).
    { induction n as [| n [IH | (k & Hk & Hfree & Hall)]].
      - left. intros j Hj. lia.
      - destruct (vars s !! f n) as [x |] eqn:E.
        + left. intros j Hj. destruct (decide (j = n)) as [-> | Hjn].
          * exists x. exact E.
          * apply IH. lia.
        + right. exists n. split; [lia |]. split; [exact E | exact IH].
      - right. exists k. split; [lia |]. split; assumption. }
    destruct (Hsearch (S (size (vars s)))) as [Hall | (k & Hk & Hfree & Hall)].
    - pose proof (taken_bound f (vars s) _ Hfinj Hall). lia.
    - exists k. split; [lia |]. split; assumption. }
  destruct Hex as (k & Hk & Hfree & Hall).
  assert (Hc' : _checkNames s && negb (isupper (firstChar (f k))) = false).
  { unfold f, aliasName. destruct origName as [| c rest]; [contradiction |]. exact Hc. }
  pose proof (getVar_fresh (f k) s Hcons Hc' Hfree) as Hget.
  destruct (getVar_fresh_consistent (f k) s Hcons Hbound Hfree)
    as (Hcons' & Hnext & Hround & Hkeep).
  eexists (Z.of_nat (S k)), _.
  split; [lia |]. split; [| split; [exact Hround | split; [exact Hfree | split; [| split; [| split]]]]].
  - intros fuel Hf. unfold getVarAlias. rewrite Hname.
    assert (Hloop : aliasLoop Int_toString fuel origName (Z.of_nat 0) s
                    = Some (aliasName Int_toString origName (Z.of_nat (0 + S k)))).
    { apply aliasLoop_finds.
      - intros j Hj. destruct j as [| j]; [lia |]. apply (Hall j). lia.
      - exact Hfree.
      - lia. }
    change (Z.of_nat 0) with 0 in Hloop. rewrite Hloop.
    change (0 + S k)%nat with (S k). fold (f k).
    rewrite Hget. reflexivity.
  - intros j Hj. replace j with (Z.of_nat (S (Z.to_nat (j - 1)))) by lia.
    apply (Hall (Z.to_nat (j - 1))). lia.
  - intros E. unfold getVarName in Hname.
    destruct (varNames s !! var) eqn:Ev; [| discriminate].
    destruct Hcons as (_ & Hlt & _). apply Hlt in Ev. lia.
  - apply Hkeep. exact Hname.
  - exact Hcons'.
Qed.

Lemma getVarAlias_fresh_witness :
  exists s',
    getVarAlias pretty 1 0 (mkState true {["X"%string := 0]} {[0 := "X"%string]} 1)
    = Some (inl 1, s')
    /\ getVarName 1 s' = inl "X_1"%string.
Proof.
  set (s := mkState true {["X"%string := 0]} {[0 := "X"%string]} 1).
  assert (Hinj : forall i j : Z, 0 < i -> 0 < j -> pretty i = pretty j -> i = j).
  { intros i j _ _ E. apply (inj pretty). exact E. }
  assert (Hcons : consistent s).
  { split; [| split].
    - intros name v. subst s; simpl. rewrite !lookup_singleton_Some.
      split; intros [-> ->]; split; reflexivity.
    - intros v name. subst s; simpl. rewrite lookup_singleton_Some.
      intros [<- _]. lia.
    - simpl. lia. }
  assert (Hb : nextVar s + 1 < Unsigned.modulus) by reflexivity.
  assert (Hn : getVarName 0 s = inl "X"%string) by reflexivity.
  assert (Hc : _checkNames s && negb (isupper (firstChar "X")) = false) by reflexivity.
  assert (Hne : "X"%string <> ""%string) by discriminate.
  destruct (getVarAlias_fresh pretty 0 "X" s Hinj Hcons Hb Hn Hc Hne)
    as (i & s' & Hi & Hrun & Hname & Hfree & Htaken & _).
  assert (i = 1) as ->.
  { destruct (decide (i = 1)) as [E | E]; [exact E | exfalso].
    destruct (Htaken 1 ltac:(lia)) as [x Hx]. vm_compute in Hx. discriminate. }
  exists s'. split; [apply Hrun; simpl; lia | exact Hname].
Defined.

End FBHelperCoreFacts.

(** ** Three-valued booleans *)

Module MaybeBoolFacts.
Import MaybeBool.

(** X9: what is known can only be lost. *)
Theorem mightBecame_weakens (m : MaybeBool) (b : bool) :
  value (ofBool b) = b /\ known (ofBool b) = true
  /\ isTrue (ofBool b) = b /\ isFalse (ofBool b) = negb b
  /\ known default = false
  /\ mightBecameTrue (mightBecameFalse m) = makeUnknown m
  /\ mightBecameFalse (mightBecameTrue m) = makeUnknown m
  /\ mightBecameFalse (mightBecameFalse m) = mightBecameFalse m
  /\ mightBecameTrue (mightBecameTrue m) = mightBecameTrue m
  /\ (isFalse m = true -> mightBecameFalse m = m)
  /\ (isTrue m = true -> mightBecameTrue m = m)
  /\ (known (mightBecameFalse m) = true -> isFalse (mightBecameFalse m) = true)
  /\ (known (mightBecameTrue m) = true -> isTrue (mightBecameTrue m) = true)
  /\ (known m = false -> mightBecameFalse m = m /\ mightBecameTrue m = m).
Proof.
  destruct m as [[ | | ]]; destruct b; vm_compute;
    repeat split; try reflexivity; try discriminate; intros; try discriminate.
Qed.

End MaybeBoolFacts.

(** ** Interpreted symbols *)

Module TheoryFacts.
Import Theory.

(** X10: the interpretations are the numbers below
    [interpretationElementCount]. *)
Theorem interpretationElementCount_exact :
  (forall i : Interpretation, i ∈ all_Interpretations)
  /\ NoDup all_Interpretations
  /\ Z.of_nat (List.length all_Interpretations) = interpretationElementCount
  /\ (forall i, 0 <= Interpretation_value i < interpretationElementCount)
  /\ (forall i j, Interpretation_value i = Interpretation_value j -> i = j)
  /\ (forall z, 0 <= z < interpretationElementCount ->
                exists i, Interpretation_value i = z).
Proof.
  split; [| split; [| split; [| split; [| split]]]].
  - intros i. unfold all_Interpretations. destruct i;
      repeat (first [apply list_elem_of_here | apply list_elem_of_further]).
  - unfold all_Interpretations.
    repeat (apply NoDup_cons; split;
            [intros Hin; repeat (apply elem_of_cons in Hin as [Hin | Hin];
                                 [discriminate Hin |]);
             apply elem_of_nil in Hin; exact Hin |]).
    apply NoDup_nil_2.
  - reflexivity.
  - intros []; vm_compute; split; congruence.
  - intros [] []; vm_compute; congruence.
  - intros z Hz. unfold interpretationElementCount in Hz.
    assert (z = 0 \/ z = 1 \/ z = 2 \/ z = 3 \/ z = 4 \/ z = 5 \/ z = 6 \/ z = 7
            \/ z = 8 \/ z = 9 \/ z = 10 \/ z = 11 \/ z = 12 \/ z = 13 \/ z = 14
            \/ z = 15) as H by lia.
    repeat (destruct H as [H | H]); subst z;
      first [exists EQUAL; reflexivity | exists GREATER; reflexivity
            | exists GREATER_EQUAL; reflexivity | exists LESS; reflexivity
            | exists LESS_EQUAL; reflexivity | exists INT_GREATER; reflexivity
            | exists INT_GREATER_EQUAL; reflexivity | exists INT_LESS; reflexivity
            | exists INT_LESS_EQUAL; reflexivity | exists SUCCESSOR; reflexivity
            | exists UNARY_MINUS; reflexivity | exists PLUS; reflexivity
            | exists MINUS; reflexivity | exists MULTIPLY; reflexivity
            | exists DIVIDE; reflexivity | exists INT_DIVIDE; reflexivity].
Qed.

End TheoryFacts.
